(* ===== verification/_CoqProject ===== *)
-Q . S2P
Prelude.v
RustString.v
Sql.v
Effects.v
Json.v
JsonText.v
Durable.v
Substitution.v
SubstitutionSpec.v
Graph.v
Flatten.v
FlattenSpec.v
Lineage.v
NodeStatus.v
Origin.v
StatusWrite.v
HttpConfig.v
Admission.v
GraphLoad.v
GraphLoadSpec.v
Orchestration.v
OrchestrationFacts.v
WaitSpec.v
OrchestrationSpec.v
Outcome.v
SubtreeSpec.v
NodeSpec.v
UrlCrate.v
Ssrf.v
Redact.v
Dsl.v
DslSpec.v
Submission.v
SubmissionSpec.v
ConfigChildren.v
StartedGraph.v
Session.v
SessionSpec.v
Maintenance.v
RetentionSpec.v
OriginRetentionSpec.v
MaintenanceSpec.v
Worker.v
WorkerSpec.v
Registration.v
RegistrationSpec.v
Routing.v
RoutingSpec.v
SqlActivity.v
SqlActivitySpec.v
Client.v
ClientSpec.v
Quota.v
QuotaSpec.v
NewSession.v
NewSessionSpec.v
Endpoints.v
Explain.v
Secrets.v
HttpResponse.v
Monitoring.v
HttpRequest.v
HttpOptions.v
HttpOptionsSpec.v
EndpointSpec.v
SecretSpec.v
HttpRequestSpec.v
HttpResponseSpec.v
ExplainSpec.v
MonitoringSpec.v
Registry.v
RegistrySpec.v
