(* ===== verification/Prelude.v ===== *)
(** * pg_durable: a verification library

    pg_durable is a PostgreSQL extension that runs durable functions: a SQL
    caller composes a _function_ from steps (SQL, HTTP, sleep, signal) and
    combinators (then, if, loop, join, race, break), the extension stores it as a
    graph of nodes, and a background worker executes the graph as an orchestration
    of the [duroxide] engine, which replays it after a crash.  This library models
    the program's own logic, from the text of a future to the status rows a reader
    sees, and proves what makes it correct.

    ** Parts of the program and where they are

    - Foundations, not tied to one source file: [Prelude] (this file: results,
      machine integers, durations, automation), [RustString] (byte strings and the
      [str] methods the program calls), [Json] ([serde_json::Value], derived
      [Serialize]/[Deserialize] as a class [Codec] with its law [CodecOk], the
      interface [SerdeJson] to the text format), [JsonText] (one concrete text
      format that satisfies the laws), [Durable] (orchestrations as programs over
      the engine's operations, and their runs), [Effects] (programs with a state of
      their own that call the outside world, and their weakest precondition), [Sql]
      (collations, pages of rows and keyset pagination), [UrlCrate] (the [url]
      crate).
    - Texts of steps: [Substitution] and [SubstitutionSpec] model the substitution
      passes of [src/types.rs] ([substitute_results], [substitute_braced_variables],
      [expand_row_set], [quote_literal], [evaluate_condition]) and show what
      becomes of a text: every reference is replaced once by what it stands for, a
      text always as a literal, whatever the order of the result map.
    - Graphs: [Graph] (the records [FunctionNode], [FunctionGraph],
      [FunctionInput], [LoopConfig] of [src/types.rs]), [Flatten] and [FlattenSpec]
      ([Durofut], [ensure_strict], [flatten_graph]): materialization ends, visits
      the tree in pre-order, and yields unique ids and resolved links
      ([ConfigChildren] adds those that configurations name).
    - Lineages and statuses: [Lineage] (instance ids, execution stamps and the write
      fence; [src/node_status.rs], [src/activities/update_node_status.rs]),
      [NodeStatus] ([infer_statuses] refines an inductive walk), [StatusWrite] (the
      two status activities over the tables they update: scoped, fenced, monotone,
      terminal states absorbing), [Origin] (engine ids that carry their database;
      [src/origin.rs]).
    - Admission ([src/activities/load_function_graph.rs]): [Admission], the probe
      that decides whether a graph is visible, lost or not allowed to run, as a
      function of what its reads answer; [GraphLoad], the program that makes the
      reads, and the legacy activity that polls.  [GraphLoadSpec] shows that the
      program refines the function, that each verdict is backed by reads in a safe
      order, that a graph is handed over with all its rows as they were read, and
      that every read has a bounded transaction of its own.
    - HTTP: [HttpConfig] (request limits and the execution context; [src/types.rs],
      [src/endpoints.rs]), [Ssrf] ([src/ssrf.rs]: the address blocklist as a list of
      networks, the resolver, the allow-list), [Redact] ([src/redact.rs]),
      [Endpoints] ([src/endpoints.rs]: endpoint paths, server and mapping options,
      the catalog that reads them as the submitting role), [Secrets]
      ([src/secrets.rs]: bindings, their places and their materialization),
      [HttpRequest] and [HttpResponse] (the activities [execute_http.rs],
      [execute_multipart.rs] and [http_response.rs], with a log of what they did
      outside).  [EndpointSpec], [SecretSpec], [HttpRequestSpec] and
      [HttpResponseSpec] show that a request stays below its endpoint's base URL,
      that only the submitting role's credentials are read, that every secret
      reaches its place and no other header can replace it, that errors do not tell
      secrets apart, that nothing is sent before every check has passed, the privilege
      on the very function the request stands for among them, and that the result
      says what the server said, of a body read whole.
    - The SQL interface ([src/dsl.rs]): [Dsl] (the functions that build futures),
      [Submission] ([df.start]: guards, id reservation, row insertion, capture of
      variables), [Session] (variables, [df.cancel], [df.status], [df.result],
      [df.await_instance] under row-level security; [src/lib.rs] declares the
      policies), [HttpOptions] ([df.with_http_options] and the endpoint variants of
      the HTTP functions).  [HttpOptionsSpec] shows that setting options sets nothing
      else.  [DslSpec] shows that what the functions build meets the table
      constraints and flattens, [SubmissionSpec] that a start is guarded and keeps
      the tables consistent, [StartedGraph] that what was inserted is loaded back, that
      no node of it reaches itself over any child link, and that it runs to an end
      from every node, [SessionSpec] that variables are private, that a cancelled
      instance stays cancelled and that a wait decides.  [ConfigChildren] relates
      the children named in a node's configuration to those of its future, and shows
      that a flattened graph is a tree.
    - Views: [Explain] ([src/explain.rs]) renders an instance or a future as a tree
      of text, and [ExplainSpec] shows that the text is the picture of the graph, every node once and in order;
      [Monitoring] ([src/monitoring.rs]) lists instances, executions and nodes, and
      [MonitoringSpec] shows that following the cursors of a listing visits every
      instance once, in as many calls as there are pages, while the engine knows them
      all, and that both listings of nodes agree.
    - Maintenance ([src/worker.rs]): [Maintenance] models the passes that the
      background worker makes between its cursors: retention of terminal instances
      in the control database and the registered origins, orphaned engine records,
      registrations, submission accounting.  [RetentionSpec] shows that the two
      retention queries agree and that the control cursor reaches every outdated
      instance, [OriginRetentionSpec] that no origin is starved, [MaintenanceSpec]
      that every deletion is backed by what the pass has seen.  [Registration] lets the
      transactions that register an origin and that clean registrations up interleave,
      and [RegistrationSpec] shows that a working activity keeps its registration,
      because the cleanup locks the row before it looks for work.
    - The worker's life ([src/worker.rs]): [Worker] models its loops over
      installations of the extension, from pool creation through initialization,
      readiness and the sentinel to the processing loop and the teardown, and
      [WorkerSpec] shows that every run follows an abstract protocol (one runtime at
      a time, for an epoch that no look contradicted) and ends after a shutdown.
    - Databases: [Routing] ([src/origin.rs]) models the attestation of metadata
      tables over the system catalog, the transactions around it, connection slots
      and routes; [RoutingSpec] shows what a metadata transaction knows before its
      owner reads.  [SqlActivity] ([src/activities/execute_sql.rs], its registration
      in [src/registry.rs], [connect_as_user] of [src/types.rs]) is the activity
      that runs the SQL of a node; [SqlActivitySpec] shows what lies behind a query
      when it is sent, what the result says, and that the activity gives back every
      connection, permit and transaction it took.
    - Names: [Registry] ([src/registry.rs]) has the activities and orchestrations that
      the engine runs, each activity with its route, its body and its close.
      [RegistrySpec] shows that no orchestration schedules what is not registered, that
      an activity works on the database its instance belongs to, and that the route
      around its body gives back what it took.
    - The session's side of the engine: [Client] ([src/client.rs], the control state
      of [src/types.rs]) models the client cached for a session, the quota lookup and
      the reservations behind [df.start], cancellation and signals; [ClientSpec] shows
      that work is only done with a client of the current installation, that every
      transaction of a submission is closed, and that quotas count exactly.  [Quota]
      lets the starts of any number of sessions interleave, as a step relation over
      their stages, rows and locks and the ledger of the provider, and [QuotaSpec]
      shows that no interleaving takes a role over its limit.
      [NewSession] is a start under [transaction_mode => 'new']
      ([src/dsl.rs], [src/client.rs]) with the connection URLs of [src/types.rs], and
      [NewSessionSpec] shows what guards it, that nothing stays held, and that it ends.
    - Orchestrations: [Orchestration] is [src/orchestrations/execute_function_graph.rs],
      handler by handler.  [OrchestrationFacts] is a program logic for handlers, with
      one rule per handler; [OrchestrationSpec] proves what holds of whole runs
      (scope, termination, stamps, containment of breaks, final status); [Outcome] what
      the table says when a run has ended and its status writes were carried out among
      those of others; [NodeSpec]
      what each kind of node does; [SubtreeSpec] what crosses the boundary between
      parent, child and next generation; [WaitSpec] the retrying protocols, poll by
      poll and sleep by sleep.

    ** How state and effects are modelled

    The worker keeps no state of its own between steps.  What an orchestration does
    is a value of the free monad [Durable.prog] over the engine's operations; the
    engine is not modelled: a run lets it give any answer of the right type, and
    theorems quantify over all runs.  Handlers are functions in
    [Orchestration.M], which threads the map of named results (the source's
    [&mut HashMap]) and raises [NodeError].  The recursion of the handlers over the
    graph is open in each handler and closed by
    [execute_function_node_with_vars].  Activities that touch the database are
    functions from the table before to the result and the table after, with what
    PostgreSQL may answer as an argument.  The background worker does keep state
    between its passes, its cursors: a pass is a value of [Effects.act], where a
    read answers with the snapshot it sees, so that anything may happen between two
    calls, and a timer may cut it off after any call.  The worker's life and the
    activities that hold connections are such programs as well; what a program may
    call next is a protocol, an automaton over calls and answers that its runs
    follow.  Where several sessions matter ([Quota], [Registration]), a step relation
    over the state of all of them gives the interleavings, and an invariant of its runs
    what holds in each.

    The parts meet as in the source: [Orchestration] calls [Substitution],
    [Lineage], [HttpConfig] and the codecs of [Graph]; the texts it sends are the
    inputs of [StatusWrite] and [Admission]; [NodeStatus] reads the stamps that
    [StatusWrite] stores; [Dsl] builds the futures that [Flatten] turns into the
    rows that [Submission] inserts and [Admission] loads; [Session] reads the table
    [StatusWrite] updates; [Submission] takes the answers of [Client] (counts,
    reservations) and of [NewSession] as arguments; [HttpOptions] stores what
    [Secrets] validates; [HttpRequest] composes [Endpoints], [Secrets], [Ssrf] and
    [HttpResponse].

    ** Integers, fuel and bounds

    Integers have the width of the source: sums that wrap or saturate say so
    ([u64_wrapping_add], [u64_wrapping_sub], [u32_saturating_add]), casts are [i64_as_u64].  A float is
    its 64-bit pattern.  Strings are byte strings; a slice off a character boundary
    is a panic.  Recursions that are not structural take fuel, and a theorem shows
    that the fuel given is enough: [poll_fuel] (64 polls, [WaitSpec]),
    [finalize_fuel] (21 attempts, [WaitSpec]), [node_fuel] (one level per node of an
    acyclic graph, [OrchestrationSpec]), [flatten_fuel] (the node budget,
    [FlattenSpec]), the walk of [NodeStatus] (children counted once), the loops of
    [Worker] (one step for each call before a shutdown, [worker_returns]), the wait
    for a launch slot and the legacy wait for a graph (one step for each call before
    their time is up, [new_session_start_answers], [legacy_load_answers]).  Running out of fuel is a stop of its own
    ([OutOfFuel], or [None] in [Worker], [NewSession] and [GraphLoad]) and never an answer.

    ** Dependencies

    Code outside the repository is a parameter: [SerdeJson] with [SerdeJsonLaws],
    [PgEscape] (PostgreSQL's quoting), [UuidCrate] with [UuidLaws], [UrlCrate],
    [UrlOps] with [UrlOpsLaws] (origins, query pairs, [set_query]), [HeaderCrate]
    with [HeaderLaws] (header names and values), [HttpDeps] (form encoding),
    [BodyDeps] (base64, SHA-256, decoding of charsets), [CronCrate],
    [PercentEncode] with [PercentLaws] (percent encoding of hosts), [Collation]
    with [CollationLaws] and [PgTime] with [PgTimeLaws] (PostgreSQL's order of
    texts and its timestamps); what the database and the network answer are the
    records [catalog_env], [http_env], [sink_env], [explain_env] and
    [monitor_env]. Every theorem that assumes a law has a witness at a concrete
    instance.

    ** What is left out

    Trace messages, debug assertions and interrupt checks.  Derived deserializers
    are modelled on objects, the only form the program writes, not on arrays, and
    a repeated key is taken as the JSON value has it.  [{:?}] is modelled for ASCII
    names.  What a database, an engine or a network answers is arbitrary; the inside of
    a connection pool, the registration of the worker with PostgreSQL, the script that
    takes the provider's objects out of the extension and the SQL declarations of the
    extension are not modelled.  The laws of the JSON text format ([SerdeJsonLaws]) are
    used on values a few levels deep, and do not model the limit of 128 levels of
    [serde_json]'s parser.  A write of [StatusWrite] that answers with an error leaves
    its table as it was; a commit whose answer was lost is covered one level up, in
    [Outcome], where writes are delivered any number of times, late ones included,
    and the answers that the orchestration sees are arbitrary.  The body of an
    activity is opaque to [Registry], which models the route around it; the bodies are
    the files of the activities.

    ** What modelling showed

    An orchestration whose graph text does not parse returns before any status
    write, so its instance keeps a non-terminal status ([instance_final_status]
    states the exception); a HTTP node whose config is JSON but not an object
    panics in [set_execution_context]; a negative signal timeout becomes a wait of
    billions of years ([signal_node_runs]); [df.await_instance] multiplies its
    timeout by ten at 32 bits, so that a long timeout wraps and the wait gives up at
    its first query ([await_instance_overflow]); [df.explain] panics on a long text
    with a multi-byte character at the place where it is cut ([explain_panics]); a
    retention pass that fails half-way leaves rows without an engine record, where a
    comment says that it leaves the reverse ([engine_first_leaves_rows]); the class of
    the launch locks is not the number that its comment and a test give
    ([launch_lock_class]); a host in brackets reaches the connection URL unchecked
    ([bracketed_host_injects]). *)

From Stdlib Require Export Ascii String NArith ZArith Lia.
From stdpp Require Export base tactics list gmap strings sorting.

#[export] Set Default Goal Selector "!".
#[export] Set Warnings "-register-all,-clear-no-such-hyp".
Declare Scope rust_scope.
Delimit Scope rust_scope with rust.
#[global] Open Scope string_scope.
#[global] Open Scope list_scope.
#[global] Open Scope rust_scope.

(** ** Rust's [Result] *)

Inductive result (T E : Type) : Type :=
| Ok (t : T)
| Err (e : E).

Arguments Ok {T E} t.
Arguments Err {T E} e.

#[export] Instance result_eq_dec {T E} `{EqDecision T, EqDecision E} :
  EqDecision (result T E).
Proof. solve_decision. Defined.

Definition is_ok {T E} (r : result T E) : bool :=
  match r with Ok _ => true | Err _ => false end.

(** [r.map_err(f)] *)
Definition map_err {T E F} (f : E -> F) (r : result T E) : result T F :=
  match r with Ok t => Ok t | Err e => Err (f e) end.

(** [r.map(f)] *)
Definition map_ok {T U E} (f : T -> U) (r : result T E) : result U E :=
  match r with Ok t => Ok (f t) | Err e => Err e end.

(** [r.ok()] *)
Definition ok {T E} (r : result T E) : option T :=
  match r with Ok t => Some t | Err _ => None end.

(** [o.ok_or(e)] *)
Definition ok_or {T E} (o : option T) (e : E) : result T E :=
  match o with Some t => Ok t | None => Err e end.

Definition result_bind {T U E} (r : result T E) (k : T -> result U E) : result U E :=
  match r with Ok t => k t | Err e => Err e end.

(** [let? x := r in k] is Rust's [let x = r?; k]. *)
Notation "'let?' x ':=' r 'in' k" := (result_bind r (fun x => k))
  (at level 10, x pattern, r at level 100, k at level 200)
  : rust_scope.

(** Left-to-right traversal that stops at the first error, as a Rust iterator
    collected into [Result<Vec<_>, _>] does. *)
Fixpoint collect_results {A B E} (f : A -> result B E) (l : list A) : result (list B) E :=
  match l with
  | [] => Ok []
  | a :: l' => let? b := f a in let? bs := collect_results f l' in Ok (b :: bs)
  end.

(** ** Machine integers, kept at their width *)

Definition u32_max : N := 4294967295.
Definition u64_max : N := 18446744073709551615.
Definition i64_min : Z := -9223372036854775808.
Definition i64_max : Z := 9223372036854775807.
Definition i32_min : Z := -2147483648.
Definition i32_max : Z := 2147483647.

Definition u32_saturating_add (a b : N) : N := N.min u32_max (a + b).
Definition u64_saturating_mul (a b : N) : N := N.min u64_max (a * b).
Definition u64_wrapping_add (a b : N) : N := ((a + b) mod 2 ^ 64)%N.
Definition u64_wrapping_sub (a b : N) : N := ((a + 2 ^ 64 - b) mod 2 ^ 64)%N.
(** [x as u64] for an [i64]. *)
Definition i64_as_u64 (z : Z) : N := Z.to_N (z mod 2 ^ 64).
(** [x as i64] for a [u64]. *)
Definition u64_as_i64 (n : N) : Z :=
  if (Z.of_N n <=? i64_max)%Z then Z.of_N n else (Z.of_N n - 2 ^ 64)%Z.
(** Two's-complement reading of [z] at [i32]. *)
Definition i32_wrap (z : Z) : Z := ((z + 2 ^ 31) mod 2 ^ 32 - 2 ^ 31)%Z.

(** ** Durations, in nanoseconds as [std::time::Duration] counts them *)

Definition NANOS_PER_SEC : N := 1000000000.
Definition NANOS_PER_MILLI : N := 1000000.
Definition from_secs (s : N) : N := (s * NANOS_PER_SEC)%N.
Definition from_millis (ms : N) : N := (ms * NANOS_PER_MILLI)%N.

(** ** Automation *)

(** The development's hint database: preservation and functional lemmas that
    close the common cases. *)
Create HintDb durable.

(** Splits the first [match]/[if] of the goal or of a hypothesis, keeping the
    equation. *)
Ltac dmatch :=
  match goal with
  | |- context [match ?x with _ => _ end] => destruct x eqn:?
  end.
Ltac dmatch_in H :=
  match type of H with
  | context [match ?x with _ => _ end] => destruct x eqn:?
  end.

(** Inverts every [Ok _ = Ok _], [Err _ = Err _] and mixed equation. *)
Ltac simp_result :=
  repeat match goal with
  | H : Ok _ = Ok _ |- _ => injection H as H; subst
  | H : Err _ = Err _ |- _ => injection H as H; subst
  | H : Ok _ = Err _ |- _ => discriminate H
  | H : Err _ = Ok _ |- _ => discriminate H
  end.

Lemma result_bind_ok {T U E} (r : result T E) (k : T -> result U E) u :
  result_bind r k = Ok u <-> exists t, r = Ok t /\ k t = Ok u.
Proof.
  destruct r as [t|e]; simpl; split.
  - eauto.
  - intros (? & [= ->] & ?); done.
  - done.
  - intros (? & ? & ?); done.
Qed.

Lemma result_bind_err {T U E} (r : result T E) (k : T -> result U E) e :
  result_bind r k = Err e <-> r = Err e \/ exists t, r = Ok t /\ k t = Err e.
Proof.
  destruct r as [t|e']; simpl; split.
  - eauto.
  - intros [? | (? & [= ->] & ?)]; done.
  - intros [= ->]; auto.
  - intros [[= ->] | (? & ? & ?)]; done.
Qed.

Lemma map_err_ok {T E F} (f : E -> F) (r : result T E) t :
  map_err f r = Ok t <-> r = Ok t.
Proof. destruct r; simpl; naive_solver. Qed.

Lemma ok_or_ok {T E} (o : option T) (e : E) t : ok_or o e = Ok t <-> o = Some t.
Proof. destruct o; simpl; naive_solver. Qed.

(** Splits a goal hypothesis [result_bind .. = Ok _] into its steps. *)
Ltac inv_ok :=
  repeat match goal with
  | H : result_bind _ _ = Ok _ |- _ =>
      apply result_bind_ok in H as (? & ? & ?)
  | H : map_err _ _ = Ok _ |- _ => apply map_err_ok in H
  | H : Ok _ = Ok _ |- _ => injection H as H
  end.

Lemma collect_results_Forall2 {A B E} (f : A -> result B E) l bs :
  collect_results f l = Ok bs <-> Forall2 (fun a b => f a = Ok b) l bs.
Proof.
  revert bs. induction l as [|a l IH]; intros bs; simpl.
  - split; [intros [= <-]; constructor | by inversion 1].
  - split.
    + intros H. inv_ok. subst. constructor; [done|]. by apply IH.
    + inversion 1 as [|? b ? bs' Hb Hbs]; subst.
      rewrite Hb; simpl. by apply IH in Hbs as ->.
Qed.

Lemma collect_results_length {A B E} (f : A -> result B E) l bs :
  collect_results f l = Ok bs -> length bs = length l.
Proof. intros H%collect_results_Forall2. symmetry. by eapply Forall2_length. Qed.

Lemma filter_none {A} (P : A -> Prop) `{forall x, Decision (P x)} (l : list A) :
  (forall x, x ∈ l -> ~ P x) -> filter P l = [].
Proof.
  induction l as [|x l IH]; intros Hl; [done|]. rewrite filter_cons_False by (apply Hl; set_solver).
  apply IH. set_solver.
Qed.

Lemma filter_all {A} (P : A -> Prop) `{forall x, Decision (P x)} (l : list A) :
  (forall x, x ∈ l -> P x) -> filter P l = l.
Proof.
  induction l as [|x l IH]; intros Hl; [done|]. rewrite filter_cons_True by (apply Hl; set_solver).
  f_equal. apply IH. set_solver.
Qed.

(** A permutation of one side of a correspondence carries the other one along. *)
Lemma Forall2_perm_l {A B} (R : A -> B -> Prop) l l' bs :
  l ≡ₚ l' -> Forall2 R l bs -> exists bs', Forall2 R l' bs' /\ bs ≡ₚ bs'.
Proof.
  intros Hl. revert bs. induction Hl as [|a l l' _ IH|a b l|l l' l'' _ IH1 _ IH2]; intros bs H.
  - by exists bs.
  - apply Forall2_cons_inv_l in H as (b & bs1 & Hb & H & ->).
    destruct (IH bs1 H) as (bs' & H' & Hp). exists (b :: bs'). split; [by constructor|by f_equiv].
  - apply Forall2_cons_inv_l in H as (b1 & bs1 & Hb1 & H & ->).
    apply Forall2_cons_inv_l in H as (b2 & bs2 & Hb2 & H & ->).
    exists (b2 :: b1 :: bs2). split; [by repeat constructor|apply Permutation_swap].
  - destruct (IH1 bs H) as (bs1 & H1 & Hp1). destruct (IH2 bs1 H1) as (bs2 & H2 & Hp2).
    exists bs2. split; [done|by etransitivity].
Qed.

Lemma u64_saturating_mul_small a b :
  (a * b <= u64_max)%N -> u64_saturating_mul a b = (a * b)%N.
Proof. unfold u64_saturating_mul. lia. Qed.

Lemma u64_wrapping_add_fits a b : (a + b <= u64_max)%N -> u64_wrapping_add a b = (a + b)%N.
Proof. unfold u64_wrapping_add, u64_max. intros H. apply N.mod_small. lia. Qed.
Lemma u64_wrapping_sub_fits a b :
  (b <= a)%N -> (a <= u64_max)%N -> u64_wrapping_sub a b = (a - b)%N.
Proof.
  unfold u64_wrapping_sub, u64_max. intros Hb Ha.
  replace (a + 2 ^ 64 - b)%N with (a - b + 1 * 2 ^ 64)%N by lia.
  rewrite N.Div0.mod_add. apply N.mod_small. lia.
Qed.

Lemma u32_saturating_add_le a b : (u32_saturating_add a b <= u32_max)%N.
Proof. unfold u32_saturating_add. lia. Qed.

Lemma u32_saturating_add_mono a b : (a <= u32_max)%N -> (a <= u32_saturating_add a b)%N.
Proof. unfold u32_saturating_add. lia. Qed.

#[export] Hint Resolve u32_saturating_add_le u32_saturating_add_mono : durable.

Lemma StronglySorted_filter {A} (R : A -> A -> Prop) (P : A -> Prop)
    `{forall x, Decision (P x)} l :
  StronglySorted R l -> StronglySorted R (filter P l).
Proof.
  induction 1 as [|x l Hl IH Hx]; [constructor|].
  rewrite filter_cons. destruct (decide (P x)); [|done]. constructor; [done|].
  apply Forall_forall. intros y [_ Hy]%list_elem_of_filter. by eapply Forall_forall in Hx.
Qed.
