(* ===== verification/RustString.v ===== *)
(** Rust's [str] operations on byte strings.

    A Rust [String] is its UTF-8 bytes, and a Rocq [string] is a list of bytes,
    so a length here is [str::len], an offset is a byte offset, and slicing is
    slicing of bytes.  [slice_to] and [slice_from] are the indexing forms
    [&s[..n]] and [&s[n..]], which panic off a character boundary; they return
    [None] there.  Unicode enters in three places only: [trim] knows every
    White_Space character, [to_lowercase]/[to_uppercase] are exact for every
    string whose image is ASCII (the only images the program compares with),
    and [is_char_boundary] looks for continuation bytes. *)
From S2P Require Import Prelude.

#[global] Arguments String.append !_ _ : simpl nomatch.

(** ** Characters *)

Definition byte_of (c : ascii) : N := N_of_ascii c.

Definition in_range (lo hi : N) (c : ascii) : bool :=
  (lo <=? byte_of c)%N && (byte_of c <=? hi)%N.

Definition is_ascii_digit (c : ascii) : bool := in_range 48 57 c.
Definition is_ascii_uppercase (c : ascii) : bool := in_range 65 90 c.
Definition is_ascii_lowercase (c : ascii) : bool := in_range 97 122 c.
Definition is_ascii_alphabetic (c : ascii) : bool :=
  is_ascii_uppercase c || is_ascii_lowercase c.
Definition is_ascii_alphanumeric (c : ascii) : bool :=
  is_ascii_alphabetic c || is_ascii_digit c.
Definition is_ascii_hexdigit (c : ascii) : bool :=
  is_ascii_digit c || in_range 65 70 c || in_range 97 102 c.
(** [u8::is_ascii_whitespace]: tab, LF, FF, CR, space (not VT). *)
Definition is_ascii_whitespace (c : ascii) : bool :=
  let n := byte_of c in
  (n =? 9)%N || (n =? 10)%N || (n =? 12)%N || (n =? 13)%N || (n =? 32)%N.
(** A UTF-8 continuation byte, 10xxxxxx. *)
Definition is_continuation (c : ascii) : bool := in_range 128 191 c.

Definition ascii_lower (c : ascii) : ascii :=
  if is_ascii_uppercase c then ascii_of_N (byte_of c + 32) else c.
Definition ascii_upper (c : ascii) : ascii :=
  if is_ascii_lowercase c then ascii_of_N (byte_of c - 32) else c.

(** ** Taking strings apart *)

Fixpoint str_map (f : ascii -> ascii) (s : string) : string :=
  match s with "" => "" | String c s' => String (f c) (str_map f s') end.

Fixpoint str_forall (p : ascii -> bool) (s : string) : bool :=
  match s with "" => true | String c s' => p c && str_forall p s' end.

Definition str_exists (p : ascii -> bool) (s : string) : bool :=
  negb (str_forall (fun c => negb (p c)) s).

Fixpoint str_count (p : ascii -> bool) (s : string) : N :=
  match s with
  | "" => 0
  | String c s' => (if p c then 1 else 0) + str_count p s'
  end%N.

Fixpoint str_take (n : nat) (s : string) : string :=
  match n, s with
  | S n', String c s' => String c (str_take n' s')
  | _, _ => ""
  end.

Fixpoint str_drop (n : nat) (s : string) : string :=
  match n, s with
  | S n', String _ s' => str_drop n' s'
  | _, _ => s
  end.

Fixpoint str_rev_app (s acc : string) : string :=
  match s with "" => acc | String c s' => str_rev_app s' (String c acc) end.
Definition str_rev (s : string) : string := str_rev_app s "".

Definition str_is_empty (s : string) : bool :=
  match s with "" => true | _ => false end.

(** [s.strip_prefix(p)] *)
Fixpoint strip_prefix (p s : string) : option string :=
  match p, s with
  | "", _ => Some s
  | String a p', String b s' => if Ascii.eqb a b then strip_prefix p' s' else None
  | String _ _, "" => None
  end.

Definition starts_with (p s : string) : bool := bool_decide (is_Some (strip_prefix p s)).

(** [s.strip_suffix(p)] and [s.ends_with(p)] *)
Definition strip_suffix (p s : string) : option string :=
  str_rev <$> strip_prefix (str_rev p) (str_rev s).
Definition ends_with (p s : string) : bool := bool_decide (is_Some (strip_suffix p s)).

(** [s.contains(p)] for a string pattern *)
Fixpoint str_contains (p s : string) : bool :=
  starts_with p s || match s with "" => false | String _ s' => str_contains p s' end.

Definition contains_char (c : ascii) (s : string) : bool := str_exists (Ascii.eqb c) s.

(** [s.find(c)]: the bytes before the first [c] and those after it. *)
Fixpoint split_once_char (c : ascii) (s : string) : option (string * string) :=
  match s with
  | "" => None
  | String a s' =>
      if Ascii.eqb a c then Some ("", s')
      else (fun '(l, r) => (String a l, r)) <$> split_once_char c s'
  end.

(** [s.split_once("::")] style splitting at the first occurrence. *)
Fixpoint split_once (sep s : string) : option (string * string) :=
  match strip_prefix sep s with
  | Some r => Some ("", r)
  | None =>
      match s with
      | "" => None
      | String a s' => (fun '(l, r) => (String a l, r)) <$> split_once sep s'
      end
  end.

(** [s.rsplit_once(sep)]: at the last occurrence. *)
Definition rsplit_once (sep s : string) : option (string * string) :=
  (fun '(l, r) => (str_rev r, str_rev l)) <$> split_once (str_rev sep) (str_rev s).

(** [s.split(sep)] for a non-empty separator; [skip] counts the bytes of a
    separator already consumed. *)
Fixpoint split_go (sep : string) (skip : nat) (cur s : string) : list string :=
  match s with
  | "" => [str_rev cur]
  | String a s' =>
      match skip with
      | S k => split_go sep k cur s'
      | O =>
          if starts_with sep s
          then str_rev cur :: split_go sep (String.length sep - 1) "" s'
          else split_go sep O (String a cur) s'
      end
  end.
Definition str_split (sep s : string) : list string := split_go sep 0 "" s.

(** [s.split(c)] for a character. *)
Fixpoint split_char (c : ascii) (s : string) : list string :=
  match s with
  | "" => [""]
  | String a s' =>
      if Ascii.eqb a c then "" :: split_char c s'
      else match split_char c s' with
           | t :: ts => String a t :: ts
           | [] => [String a ""]
           end
  end.

(** [parts.join(sep)] *)
Definition join (sep : string) (l : list string) : string := String.concat sep l.

(** [s.replace(c, t)] for a one-byte pattern *)
Fixpoint replace_char (c : ascii) (t s : string) : string :=
  match s with
  | "" => ""
  | String a s' => (if Ascii.eqb a c then t else String a "") +:+ replace_char c t s'
  end.

(** ** Slicing at byte offsets *)

(** [s.is_char_boundary(n)] *)
Definition is_char_boundary (n : nat) (s : string) : bool :=
  match n with
  | O => true
  | _ =>
      match str_drop n s with
      | "" => Nat.eqb n (String.length s)
      | String c _ => negb (is_continuation c)
      end
  end.
(** [&s[..n]] and [&s[n..]]; [None] is the panic. *)
Definition slice_to (n : nat) (s : string) : option string :=
  if is_char_boundary n s then Some (str_take n s) else None.
Definition slice_from (n : nat) (s : string) : option string :=
  if is_char_boundary n s then Some (str_drop n s) else None.

(** ** Case and white space *)

Definition to_ascii_lowercase : string -> string := str_map ascii_lower.
Definition eq_ignore_ascii_case (a b : string) : bool :=
  String.eqb (to_ascii_lowercase a) (to_ascii_lowercase b).

Definition bytes (l : list N) : string := fold_right (fun n s => String (ascii_of_N n) s) "" l.

(** Rewrites the first matching pattern of [tbl] at each position. *)
Fixpoint first_rewrite (tbl : list (string * string)) (s : string) : option (string * string) :=
  match tbl with
  | [] => None
  | (pat, out) :: tbl' =>
      match strip_prefix pat s with
      | Some _ => Some (pat, out)
      | None => first_rewrite tbl' s
      end
  end.
Fixpoint rewrite_go (tbl : list (string * string)) (f : ascii -> ascii) (skip : nat) (s : string)
  : string :=
  match s with
  | "" => ""
  | String c s' =>
      match skip with
      | S k => rewrite_go tbl f k s'
      | O =>
          match first_rewrite tbl s with
          | Some (pat, out) => out +:+ rewrite_go tbl f (String.length pat - 1) s'
          | None => String (f c) (rewrite_go tbl f O s')
          end
      end
  end.

(** [str::to_lowercase]: U+212A (Kelvin sign) is the only character outside
    ASCII whose lower case is ASCII. *)
Definition to_lowercase (s : string) : string :=
  rewrite_go [(bytes [226; 132; 170]%N, "k")] ascii_lower 0 s.

(** [str::to_uppercase]: dotless i, long s, sharp s and the Latin ligatures are
    the characters outside ASCII whose upper case is ASCII. *)
Definition to_uppercase (s : string) : string :=
  rewrite_go [(bytes [196; 177]%N, "I"); (bytes [197; 191]%N, "S"); (bytes [195; 159]%N, "SS");
              (bytes [239; 172; 128]%N, "FF"); (bytes [239; 172; 129]%N, "FI");
              (bytes [239; 172; 130]%N, "FL"); (bytes [239; 172; 131]%N, "FFI");
              (bytes [239; 172; 132]%N, "FFL"); (bytes [239; 172; 133]%N, "ST");
              (bytes [239; 172; 134]%N, "ST")] ascii_upper 0 s.

(** The UTF-8 encodings of the characters with property White_Space. *)
Definition white_space : list string :=
  map (fun n => bytes [n]) [9; 10; 11; 12; 13; 32]%N ++
  map bytes [[194; 133]; [194; 160]; [225; 154; 128]; [226; 128; 168]; [226; 128; 169];
             [226; 128; 175]; [226; 129; 159]; [227; 128; 128]]%N ++
  map (fun n => bytes [226; 128; n]%N) [128; 129; 130; 131; 132; 133; 134; 135; 136; 137; 138]%N.

Fixpoint strip_any (pats : list string) (s : string) : option string :=
  match pats with
  | [] => None
  | p :: ps => match strip_prefix p s with Some r => Some r | None => strip_any ps s end
  end.
Fixpoint trim_start_go (fuel : nat) (pats : list string) (s : string) : string :=
  match fuel with
  | O => s
  | S fuel' =>
      match strip_any pats s with
      | Some r => trim_start_go fuel' pats r
      | None => s
      end
  end.
Definition trim_start (s : string) : string := trim_start_go (String.length s) white_space s.
Definition trim_end (s : string) : string :=
  str_rev (trim_start_go (String.length s) (map str_rev white_space) (str_rev s)).
Definition trim (s : string) : string := trim_end (trim_start s).

(** ** Decimal numerals *)

Definition digit_char (d : N) : ascii := ascii_of_N (48 + d).
Definition digit_val (c : ascii) : N := (byte_of c - 48)%N.

Fixpoint show_digits (fuel : nat) (n : N) : string :=
  match fuel with
  | O => ""
  | S fuel' =>
      if (n <? 10)%N then String (digit_char n) ""
      else show_digits fuel' (n / 10)%N +:+ String (digit_char (n mod 10)%N) ""
  end.
(** [n.to_string()] *)
Definition show_N (n : N) : string := show_digits (S (N.to_nat (N.log2 n))) n.
Definition show_Z (z : Z) : string :=
  if (z <? 0)%Z then String "-" (show_N (Z.to_N (- z))) else show_N (Z.to_N z).
Definition show_nat (n : nat) : string := show_N (N.of_nat n).

Fixpoint read_digits (acc : N) (s : string) : option N :=
  match s with
  | "" => Some acc
  | String c s' =>
      if is_ascii_digit c then read_digits (10 * acc + digit_val c)%N s' else None
  end.
Definition read_N (s : string) : option N :=
  match s with "" => None | _ => read_digits 0 s end.

(** [s.parse::<u64>()] and [s.parse::<u32>()]: an optional plus sign, at least
    one digit, no overflow. *)
Definition parse_unsigned (hi : N) (s : string) : option N :=
  let body := match s with String "+" s' => s' | _ => s end in
  match read_N body with
  | Some n => if (n <=? hi)%N then Some n else None
  | None => None
  end.
Definition parse_u64 : string -> option N := parse_unsigned u64_max.
Definition parse_u32 : string -> option N := parse_unsigned u32_max.

(** [s.parse::<i64>()] *)
Definition parse_i64 (s : string) : option Z :=
  match s with
  | String "-" s' =>
      match read_N s' with
      | Some n => if (i64_min <=? - Z.of_N n)%Z then Some (- Z.of_N n)%Z else None
      | None => None
      end
  | _ =>
      match read_N (match s with String "+" s' => s' | _ => s end) with
      | Some n => if (Z.of_N n <=? i64_max)%Z then Some (Z.of_N n) else None
      | None => None
      end
  end.

(** Lower-case hexadecimal of a fixed width; [hex8 n] is [format!("{n:08x}")] for
    a [u32]. *)
Definition hex_digit (d : N) : ascii :=
  ascii_of_N (if (d <? 10)%N then 48 + d else 87 + d).
Fixpoint hex_go (width : nat) (n : N) : string :=
  match width with
  | O => ""
  | S w => hex_go w (n / 16) +:+ String (hex_digit (n mod 16)) ""
  end.
Definition hex8 (n : N) : string := hex_go 8 n.

(** ** Facts: concatenation, reversal, prefixes *)

Lemma str_app_nil_r s : s +:+ "" = s.
Proof. induction s; simpl; congruence. Qed.

Lemma str_app_assoc a b c : (a +:+ b) +:+ c = a +:+ (b +:+ c).
Proof. induction a; simpl; congruence. Qed.

Lemma str_length_app a b : String.length (a +:+ b) = (String.length a + String.length b)%nat.
Proof. induction a; simpl; congruence. Qed.

Lemma str_app_inj_l a b c : a +:+ b = a +:+ c -> b = c.
Proof. induction a; simpl; [done|]. intros [=]; auto. Qed.

Lemma str_rev_app_spec s acc : str_rev_app s acc = str_rev s +:+ acc.
Proof.
  unfold str_rev. revert acc. induction s as [|c s IH]; intros acc; simpl; [done|].
  rewrite IH, (IH (String c "")), str_app_assoc. done.
Qed.

Lemma str_rev_cons c s : str_rev (String c s) = str_rev s +:+ String c "".
Proof. unfold str_rev at 1. simpl. apply str_rev_app_spec. Qed.

Lemma str_rev_app_distr a b : str_rev (a +:+ b) = str_rev b +:+ str_rev a.
Proof.
  induction a as [|c a IH]; simpl.
  - by rewrite str_app_nil_r.
  - by rewrite !str_rev_cons, IH, str_app_assoc.
Qed.

Lemma str_rev_involutive s : str_rev (str_rev s) = s.
Proof.
  induction s as [|c s IH]; [done|].
  by rewrite str_rev_cons, str_rev_app_distr, IH.
Qed.

Lemma str_length_rev s : String.length (str_rev s) = String.length s.
Proof.
  induction s as [|c s IH]; [done|].
  rewrite str_rev_cons, str_length_app, IH. simpl. lia.
Qed.

Lemma strip_prefix_Some p s r : strip_prefix p s = Some r <-> s = p +:+ r.
Proof.
  revert s. induction p as [|a p IH]; intros s; simpl.
  - split; [by intros [= ->] | by intros ->].
  - destruct s as [|b s]; [by split|]. destruct (Ascii.eqb_spec a b) as [->|Hab].
    + rewrite IH. split; [by intros ->|by intros [=]].
    + split; [done|]. by intros [= -> ->].
Qed.

Lemma strip_prefix_app p s : strip_prefix p (p +:+ s) = Some s.
Proof. by apply strip_prefix_Some. Qed.

Lemma starts_with_spec p s : starts_with p s = true <-> exists r, s = p +:+ r.
Proof.
  unfold starts_with. rewrite bool_decide_eq_true. split.
  - intros [r Hr%strip_prefix_Some]. eauto.
  - intros [r ->]. rewrite strip_prefix_app. eauto.
Qed.

Lemma strip_suffix_Some p s r : strip_suffix p s = Some r <-> s = r +:+ p.
Proof.
  unfold strip_suffix. rewrite fmap_Some. split.
  - intros (x & Hx%strip_prefix_Some & ->).
    rewrite <- (str_rev_involutive s), Hx, str_rev_app_distr, str_rev_involutive. done.
  - intros ->. exists (str_rev r). rewrite str_rev_app_distr, strip_prefix_app.
    by rewrite str_rev_involutive.
Qed.

Lemma ends_with_spec p s : ends_with p s = true <-> exists r, s = r +:+ p.
Proof.
  unfold ends_with. rewrite bool_decide_eq_true. split.
  - intros [r Hr%strip_suffix_Some]. eauto.
  - intros [r ->]. exists r. by apply strip_suffix_Some.
Qed.

Lemma str_take_drop n s : str_take n s +:+ str_drop n s = s.
Proof.
  revert s. induction n as [|n IH]; intros [|c s]; simpl; try done. by rewrite IH.
Qed.

Lemma str_drop_app a b : str_drop (String.length a) (a +:+ b) = b.
Proof. induction a; simpl; done. Qed.

Lemma str_take_app a b : str_take (String.length a) (a +:+ b) = a.
Proof. induction a; simpl; congruence. Qed.

(** ** Facts: character classes *)

Lemma str_forall_app p a b : str_forall p (a +:+ b) = str_forall p a && str_forall p b.
Proof. induction a; simpl; [done|]. by rewrite IHa, andb_assoc. Qed.

Lemma str_forall_rev p s : str_forall p (str_rev s) = str_forall p s.
Proof.
  induction s as [|c s IH]; [done|].
  rewrite str_rev_cons, str_forall_app, IH. simpl.
  by rewrite andb_true_r, andb_comm.
Qed.

Lemma str_forall_impl (p q : ascii -> bool) s :
  (forall c, p c = true -> q c = true) -> str_forall p s = true -> str_forall q s = true.
Proof.
  intros Hpq. induction s as [|c s IH]; simpl; [done|].
  rewrite !andb_true_iff. intros [Hc Hs]. auto.
Qed.

(** [s] has no occurrence of [c]. *)
Definition char_free (c : ascii) (s : string) : bool := str_forall (fun a => negb (Ascii.eqb a c)) s.

Lemma char_free_cons c a s :
  char_free c (String a s) = true <-> a <> c /\ char_free c s = true.
Proof.
  unfold char_free. simpl. rewrite andb_true_iff, negb_true_iff, Ascii.eqb_neq. done.
Qed.

Lemma char_free_app c a b :
  char_free c (a +:+ b) = true <-> char_free c a = true /\ char_free c b = true.
Proof. unfold char_free. by rewrite str_forall_app, andb_true_iff. Qed.

Lemma digits_char_free c s :
  is_ascii_digit c = false -> str_forall is_ascii_digit s = true -> char_free c s = true.
Proof.
  intros Hc. apply str_forall_impl. intros a Ha.
  apply negb_true_iff, Ascii.eqb_neq. by intros ->; rewrite Hc in Ha.
Qed.

(** ** Facts: splitting *)

Lemma split_once_free c sep l r :
  char_free c l = true ->
  split_once (String c sep) (l +:+ String c sep +:+ r) = Some (l, r).
Proof.
  induction l as [|a l IH]; intros Hl.
  - change ("" +:+ String c sep +:+ r) with (String c (sep +:+ r)). simpl.
    by rewrite Ascii.eqb_refl, strip_prefix_app.
  - apply char_free_cons in Hl as [Hac Hl]. simpl.
    destruct (Ascii.eqb_spec c a) as [->|_]; [done|].
    change (String c (sep +:+ r)) with (String c sep +:+ r). by rewrite IH.
Qed.

Lemma rsplit_once_free l r :
  char_free ":" r = true -> rsplit_once "::" (l +:+ "::" +:+ r) = Some (l, r).
Proof.
  intros Hr. unfold rsplit_once.
  rewrite !str_rev_app_distr, str_app_assoc.
  change (str_rev "::") with "::". rewrite split_once_free.
  - simpl. by rewrite !str_rev_involutive.
  - unfold char_free. by rewrite str_forall_rev.
Qed.

Lemma split_once_None c sep t : char_free c t = true -> split_once (String c sep) t = None.
Proof.
  induction t as [|a t IH]; [done|]. intros [Ha Ht]%char_free_cons. simpl.
  destruct (Ascii.eqb_spec c a) as [<-|_]; [done|]. by rewrite IH.
Qed.

Lemma rsplit_once_None s : char_free ":" s = true -> rsplit_once "::" s = None.
Proof.
  intros Hs. unfold rsplit_once. change (str_rev "::") with "::".
  rewrite split_once_None; [done|]. unfold char_free. by rewrite str_forall_rev.
Qed.

Lemma rsplit_once_Some sep s l r :
  rsplit_once sep s = Some (l, r) -> s = l +:+ sep +:+ r.
Proof.
  unfold rsplit_once. intros H. apply fmap_Some in H as ([l' r'] & H & [= -> ->]).
  assert (Hs : forall t, split_once (str_rev sep) t = Some (l', r') -> t = l' +:+ str_rev sep +:+ r').
  { clear. intros t. revert l'. induction t as [|a t IH]; intros l'; simpl.
    - destruct (strip_prefix (str_rev sep) "") eqn:Hp; [|done].
      intros [= <- ->]. by apply strip_prefix_Some in Hp.
    - destruct (strip_prefix (str_rev sep) (String a t)) eqn:Hp.
      + intros [= <- ->]. by apply strip_prefix_Some in Hp.
      + intros ([l2 r2] & Hq & [= -> ->])%fmap_Some. simpl. f_equal. by apply IH. }
  apply Hs in H. rewrite <- (str_rev_involutive s), H, !str_rev_app_distr.
  by rewrite str_rev_involutive, str_app_assoc.
Qed.

Lemma split_go_free cur l :
  char_free ":" l = true -> split_go "::" 0 cur l = [str_rev cur +:+ l].
Proof.
  revert cur. induction l as [|a l IH]; intros cur; simpl.
  - by rewrite str_app_nil_r.
  - intros [Ha Hl]%char_free_cons.
    assert (starts_with "::" (String a l) = false) as ->.
    { apply not_true_iff_false. rewrite starts_with_spec. intros [r [= -> _]]. done. }
    rewrite IH by done. by rewrite str_rev_cons, str_app_assoc.
Qed.

Lemma split_go_sep cur l r :
  char_free ":" l = true ->
  split_go "::" 0 cur (l +:+ "::" +:+ r) = (str_rev cur +:+ l) :: str_split "::" r.
Proof.
  revert cur. induction l as [|a l IH]; intros cur.
  - intros _. simpl. by rewrite str_app_nil_r.
  - intros [Ha Hl]%char_free_cons. simpl.
    assert (starts_with "::" (String a (l +:+ String ":" (String ":" r))) = false) as ->.
    { apply not_true_iff_false. rewrite starts_with_spec. intros [r' [= -> _]]. done. }
    change (String ":" (String ":" r)) with ("::" +:+ r).
    rewrite IH by done. by rewrite str_rev_cons, str_app_assoc.
Qed.

Lemma str_split_free l : char_free ":" l = true -> str_split "::" l = [l].
Proof. intros H. unfold str_split. by rewrite split_go_free. Qed.

Lemma str_split_sep l r :
  char_free ":" l = true -> str_split "::" (l +:+ "::" +:+ r) = l :: str_split "::" r.
Proof. intros H. unfold str_split at 1. by rewrite split_go_sep. Qed.

(** ** Facts: decimal numerals *)

Lemma digit_char_digit d : (d < 10)%N -> is_ascii_digit (digit_char d) = true.
Proof.
  intros Hd. unfold is_ascii_digit, in_range, digit_char, byte_of.
  rewrite N_ascii_embedding by lia. apply andb_true_iff. rewrite !N.leb_le. lia.
Qed.

Lemma digit_val_char d : (d < 10)%N -> digit_val (digit_char d) = d.
Proof.
  intros Hd. unfold digit_val, digit_char, byte_of. rewrite N_ascii_embedding by lia. lia.
Qed.

Lemma read_digits_app acc a b :
  read_digits acc (a +:+ b) = read_digits acc a ≫= (fun n => read_digits n b).
Proof.
  revert acc. induction a as [|c a IH]; intros acc; simpl; [done|].
  destruct (is_ascii_digit c); [apply IH|done].
Qed.

Lemma show_digits_spec fuel n :
  (n < 10 ^ N.of_nat fuel)%N ->
  str_forall is_ascii_digit (show_digits fuel n) = true /\
  read_digits 0 (show_digits fuel n) = Some n /\
  ((0 < fuel)%nat -> show_digits fuel n <> "").
Proof.
  revert n. induction fuel as [|fuel IH]; intros n Hn.
  - simpl in *. assert (n = 0)%N as -> by lia. split_and!; [done..|lia].
  - simpl. destruct (N.ltb_spec n 10) as [Hlt|Hge].
    + simpl. rewrite digit_char_digit, digit_val_char by done.
      split_and!; [done| |done]. f_equal; lia.
    + assert (Hq : (n / 10 < 10 ^ N.of_nat fuel)%N).
      { apply N.Div0.div_lt_upper_bound. rewrite Nat2N.inj_succ, N.pow_succ_r' in Hn. lia. }
      destruct (IH _ Hq) as (Hd & Hr & _).
      assert (Hm : (n mod 10 < 10)%N) by (apply N.mod_lt; lia).
      split_and!.
      * rewrite str_forall_app, Hd. simpl. by rewrite digit_char_digit.
      * rewrite read_digits_app, Hr. simpl. rewrite digit_char_digit, digit_val_char by done.
        f_equal. pose proof (N.div_mod' n 10). lia.
      * intros _. destruct (show_digits fuel (n / 10)); done.
Qed.

Lemma show_N_fuel n : (n < 10 ^ N.of_nat (S (N.to_nat (N.log2 n))))%N.
Proof.
  rewrite Nat2N.inj_succ, N2Nat.id.
  destruct (N.eq_dec n 0%N) as [->|Hn]; [done|].
  pose proof (N.log2_spec n ltac:(lia)) as [_ H].
  eapply N.lt_le_trans; [exact H|]. apply N.pow_le_mono_l. lia.
Qed.

Lemma show_N_digits n : str_forall is_ascii_digit (show_N n) = true.
Proof. apply (show_digits_spec _ _ (show_N_fuel n)). Qed.

Lemma show_N_nonempty n : show_N n <> "".
Proof. apply (show_digits_spec _ _ (show_N_fuel n)). lia. Qed.

Lemma read_show_N n : read_N (show_N n) = Some n.
Proof.
  destruct (show_digits_spec _ _ (show_N_fuel n)) as (_ & H & Hne).
  unfold read_N, show_N in *. destruct (show_digits _ n) eqn:E; [|done].
  exfalso. apply Hne; [lia|done].
Qed.

Lemma show_N_inj n m : show_N n = show_N m -> n = m.
Proof. intros H. apply (f_equal read_N) in H. rewrite !read_show_N in H. congruence. Qed.

Lemma show_N_head n c s : show_N n = String c s -> is_ascii_digit c = true.
Proof.
  intros H. pose proof (show_N_digits n) as Hd. rewrite H in Hd. simpl in Hd.
  by apply andb_true_iff in Hd as [? _].
Qed.

Lemma show_N_char_free c n : is_ascii_digit c = false -> char_free c (show_N n) = true.
Proof. intros Hc. apply digits_char_free; [done|apply show_N_digits]. Qed.

Lemma parse_u64_show n : (n <= u64_max)%N -> parse_u64 (show_N n) = Some n.
Proof.
  intros Hn. unfold parse_u64, parse_unsigned. destruct (show_N n) as [|c s] eqn:E.
  { by apply show_N_nonempty in E. }
  pose proof (show_N_head _ _ _ E) as Hc.
  assert (match String c s with String "+" s' => s' | _ => String c s end = String c s) as ->.
  { by repeat (destruct c as [[] [] [] [] [] [] [] []]; simpl in *). }
  rewrite <- E, read_show_N. by apply N.leb_le in Hn as ->.
Qed.

Lemma parse_i64_show n : (Z.of_N n <= i64_max)%Z -> parse_i64 (show_N n) = Some (Z.of_N n).
Proof.
  intros Hn. unfold parse_i64. destruct (show_N n) as [|c s] eqn:E.
  { by apply show_N_nonempty in E. }
  pose proof (show_N_head _ _ _ E) as Hc.
  assert (Hread : read_N (String c s) = Some n) by (rewrite <- E; apply read_show_N).
  destruct c as [[] [] [] [] [] [] [] []]; try discriminate Hc;
    cbv iota beta; rewrite Hread; by apply Z.leb_le in Hn as ->.
Qed.

(** Text that starts with a brace has no leading white space. *)
Lemma trim_start_brace s : trim_start (String "{" s) = String "{" s.
Proof. reflexivity. Qed.

(** ** Facts: joining and splitting *)

Lemma join_cons sep a b l : join sep (a :: b :: l) = a +:+ sep +:+ join sep (b :: l).
Proof. reflexivity. Qed.

Lemma join_snoc sep l a : l <> [] -> join sep (l ++ [a]) = join sep l +:+ sep +:+ a.
Proof.
  induction l as [|b l IH]; [done|]. intros _. destruct l as [|c l]; [done|].
  change ((b :: c :: l) ++ [a]) with (b :: c :: (l ++ [a])). rewrite !join_cons.
  change (c :: l ++ [a]) with ((c :: l) ++ [a]). rewrite IH by done. by rewrite !str_app_assoc.
Qed.

Lemma str_split_join l :
  l <> [] -> Forall (fun t => char_free ":" t = true) l -> str_split "::" (join "::" l) = l.
Proof.
  intros Hne Hl. induction Hl as [|a l Ha Hl IH]; [done|]. destruct l as [|b l].
  - by apply str_split_free.
  - rewrite join_cons, str_split_sep by done. by rewrite IH.
Qed.

Lemma parse_i64_range s z : parse_i64 s = Some z -> (i64_min <= z <= i64_max)%Z.
Proof.
  assert (Hpos : forall n, (if (Z.of_N n <=? i64_max)%Z then Some (Z.of_N n) else None) = Some z ->
    (i64_min <= z <= i64_max)%Z).
  { intros n. destruct (Z.leb_spec (Z.of_N n) i64_max); [|done]. intros [= <-].
    unfold i64_min. lia. }
  assert (Hneg : forall n, (if (i64_min <=? - Z.of_N n)%Z then Some (- Z.of_N n)%Z else None) = Some z ->
    (i64_min <= z <= i64_max)%Z).
  { intros n. destruct (Z.leb_spec i64_min (- Z.of_N n)); [|done]. intros [= <-].
    unfold i64_max. lia. }
  unfold parse_i64. intros H.
  repeat first
    [ solve [eapply Hpos; exact H | eapply Hneg; exact H]
    | match type of H with match ?x with _ => _ end = _ => destruct x; try discriminate H end ].
Qed.

Lemma split_once_char_free c l r :
  char_free c l = true -> split_once_char c (l +:+ String c r) = Some (l, r).
Proof.
  induction l as [|a l IH]; simpl.
  - intros _. by rewrite Ascii.eqb_refl.
  - intros [Ha Hl]%char_free_cons. apply Ascii.eqb_neq in Ha. by rewrite Ha, IH.
Qed.

Lemma split_char_free c s : char_free c s = true -> split_char c s = [s].
Proof.
  induction s as [|a s IH]; [done|]. intros [Ha Hs]%char_free_cons. simpl.
  apply Ascii.eqb_neq in Ha as ->. by rewrite IH.
Qed.

Lemma split_char_app c l r :
  char_free c l = true -> split_char c (l +:+ String c r) = l :: split_char c r.
Proof.
  induction l as [|a l IH]; intros Hl.
  - simpl. by rewrite Ascii.eqb_refl.
  - apply char_free_cons in Hl as [Ha Hl]. simpl. apply Ascii.eqb_neq in Ha as ->.
    by rewrite IH.
Qed.

Lemma split_char_parts c s : Forall (fun t => char_free c t = true) (split_char c s) /\ split_char c s <> [].
Proof.
  induction s as [|a s [IH Hne]]; cbn [split_char]; [by repeat constructor|].
  destruct (Ascii.eqb_spec a c) as [->|Ha]; [by split; [constructor|]|].
  destruct (split_char c s) as [|t ts]; [done|]. apply Forall_cons in IH as [Ht Hts].
  split; [|done]. constructor; [|done]. by apply char_free_cons.
Qed.

Lemma parse_u32_show n : (n <= u32_max)%N -> parse_u32 (show_N n) = Some n.
Proof.
  intros Hn. unfold parse_u32, parse_unsigned. pose proof (show_N_head n) as Hh.
  pose proof (read_show_N n) as Hr. destruct (show_N n) as [|c s] eqn:E.
  - by apply show_N_nonempty in E.
  - specialize (Hh c s eq_refl).
    assert (Hb : match String c s with String "+" s' => s' | _ => String c s end = String c s).
    { destruct c as [[] [] [] [] [] [] [] []]; first [done | discriminate Hh]. }
    rewrite Hb, Hr. apply N.leb_le in Hn. by rewrite Hn.
Qed.

(** ** Facts: hexadecimal *)

Definition hex_val (c : ascii) : N :=
  (if byte_of c <? 58 then byte_of c - 48 else byte_of c - 87)%N.
Fixpoint read_hex (acc : N) (s : string) : N :=
  match s with
  | "" => acc
  | String c s' => read_hex (16 * acc + hex_val c) s'
  end.

Lemma hex_digit_ok d :
  (d < 16)%N -> is_ascii_hexdigit (hex_digit d) = true /\ hex_val (hex_digit d) = d.
Proof.
  intros Hd. assert (H : In d (map N.of_nat (seq 0 16))).
  { replace d with (N.of_nat (N.to_nat d)) by lia. apply in_map, in_seq. lia. }
  revert d Hd H. intros d _. revert d. apply List.Forall_forall. repeat constructor.
Qed.

Lemma str_map_app f a b : str_map f (a +:+ b) = str_map f a +:+ str_map f b.
Proof. induction a as [|c a IH]; [done|]. simpl. by rewrite IH. Qed.

Lemma hex_go_ok w n :
  str_forall is_ascii_hexdigit (hex_go w n) = true /\ String.length (hex_go w n) = w.
Proof.
  revert n. induction w as [|w IH]; intros n; [done|]. cbn [hex_go].
  destruct (IH (n / 16)%N) as [H1 H2]. rewrite str_forall_app, str_length_app, H1, H2. simpl.
  rewrite (proj1 (hex_digit_ok (n mod 16) ltac:(apply N.mod_lt; lia))). split; [done|lia].
Qed.

Lemma read_hex_app acc a b : read_hex acc (a +:+ b) = read_hex (read_hex acc a) b.
Proof. revert acc. induction a as [|c a IH]; intros acc; [done|]. apply IH. Qed.

Lemma read_hex_go w n : (n < 16 ^ N.of_nat w)%N -> read_hex 0 (hex_go w n) = n.
Proof.
  revert n. induction w as [|w IH]; intros n Hn.
  - simpl in *. lia.
  - cbn [hex_go]. rewrite read_hex_app, IH.
    + cbn [read_hex]. rewrite (proj2 (hex_digit_ok (n mod 16) ltac:(apply N.mod_lt; lia))).
      pose proof (N.div_mod n 16). lia.
    + rewrite Nat2N.inj_succ, N.pow_succ_r' in Hn. apply N.Div0.div_lt_upper_bound. lia.
Qed.

(** ** Order *)

(** Byte order, as [str]'s [Ord]. *)
Definition str_le (a b : string) : Prop := String.leb a b = true.
#[export] Instance str_le_dec : RelDecision str_le.
Proof. intros a b. unfold str_le. apply _. Defined.

Lemma str_compare_lt_trans a b c :
  String.compare a b <> Gt -> String.compare b c <> Gt -> String.compare a c <> Gt.
Proof.
  revert b c. induction a as [|x a IH]; intros [|y b] [|z c]; simpl; try done.
  unfold Ascii.compare.
  destruct (N.compare_spec (N_of_ascii x) (N_of_ascii y)) as [Hxy|Hxy|Hxy];
  destruct (N.compare_spec (N_of_ascii y) (N_of_ascii z)) as [Hyz|Hyz|Hyz];
  destruct (N.compare_spec (N_of_ascii x) (N_of_ascii z)) as [Hxz|Hxz|Hxz];
  try done; try (exfalso; lia). apply IH.
Qed.

Lemma str_le_spec a b : str_le a b <-> String.compare a b <> Gt.
Proof. unfold str_le, String.leb. destruct (String.compare a b); done. Qed.

#[export] Instance str_le_trans : Transitive str_le.
Proof. intros a b c. rewrite !str_le_spec. apply str_compare_lt_trans. Qed.
#[export] Instance str_le_total : Total str_le.
Proof. intros a b. apply String.leb_total. Qed.
#[export] Instance str_le_antisymm : AntiSymm (=) str_le.
Proof. intros a b. apply String.leb_antisym. Qed.
