(* ===== verification/Sql.v ===== *)
(** What the queries ask of PostgreSQL beyond comparing values: the order of
    texts in the database's collation, and pages of rows in that order. *)
From S2P Require Import Prelude RustString.

(** The order of ids in the database's collation, a dependency. *)
Class Collation : Type := { id_le : string -> string -> bool }.

(** A deterministic collation orders all texts. *)
Class CollationLaws (C : Collation) : Prop := {
  id_le_total : forall a b, id_le a b = true \/ id_le b a = true;
  id_le_trans : forall a b c, id_le a b = true -> id_le b c = true -> id_le a c = true;
  id_le_antisymm : forall a b, id_le a b = true -> id_le b a = true -> a = b;
}.

Section Order.
Context {C : Collation}.

Definition text_le (a b : string) : Prop := id_le a b = true.
#[global] Instance text_le_dec : RelDecision text_le.
Proof. intros a b. unfold text_le. apply _. Defined.

(** [a > b] *)
Definition text_gt (a b : string) : bool := negb (id_le a b).

(** [ORDER BY id LIMIT n] of the ids after a cursor. *)
Definition page (limit : N) (after : option string) (ids : list string) : list string :=
  take (N.to_nat limit) (merge_sort text_le
                         (filter (fun id => match after with Some a => text_gt id a | None => true end = true) ids)).

Context {CL : CollationLaws C}.
#[global] Instance text_le_trans : Transitive text_le.
Proof. intros a b c. apply id_le_trans. Qed.
#[global] Instance text_le_total : Total text_le.
Proof. intros a b. apply id_le_total. Qed.
#[global] Instance text_le_antisymm : AntiSymm (=) text_le.
Proof. intros a b. apply id_le_antisymm. Qed.
End Order.

(** ** Keyset pagination *)

Section Keyset.
Context {A : Type} (R : relation A) `{!RelDecision R, !Transitive R, !Total R}.

Lemma merge_sort_sorted l : StronglySorted R (merge_sort R l).
Proof. by apply StronglySorted_merge_sort. Qed.

Lemma elem_of_merge_sort x l : x ∈ merge_sort R l <-> x ∈ l.
Proof. by rewrite merge_sort_Permutation. Qed.

Context (l : list A) (Hanti : forall x y, x ∈ l -> y ∈ l -> R x y -> R y x -> x = y).

(** Selecting and sorting is sorting and selecting. *)
Lemma sort_filter (P : A -> Prop) `{forall x, Decision (P x)} :
  merge_sort R (filter P l) = filter P (merge_sort R l).
Proof.
  apply (StronglySorted_unique_strong R).
  - intros x y. rewrite elem_of_merge_sort, !list_elem_of_filter, elem_of_merge_sort.
    intros [_ Hx] [_ Hy]. by apply Hanti.
  - apply merge_sort_sorted.
  - apply StronglySorted_filter, merge_sort_sorted.
  - by rewrite !merge_sort_Permutation.
Qed.

(** The elements after the [k]-th of a sorted list are the rest of it. *)
Lemma sorted_after k x :
  NoDup l -> StronglySorted R l -> l !! k = Some x ->
  filter (fun y => ~ R y x) l = drop (S k) l.
Proof.
  intros Hnd Hs Hk. rewrite <- (take_drop_middle _ _ _ Hk) in Hs, Hnd, Hanti |- * at 1.
  set (l1 := take k l) in *. set (l2 := drop (S k) l) in *.
  apply StronglySorted_app in Hs as (H12 & _ & Hs). apply StronglySorted_cons in Hs as [Hx _].
  rewrite Forall_forall in Hx. apply NoDup_app in Hnd as (_ & Hd1 & [Hxl2 _]%NoDup_cons).
  rewrite filter_app, filter_cons.
  assert (filter (fun y => ~ R y x) l1 = []) as ->.
  { apply filter_none. intros y Hy Hn. apply Hn, H12; [done|by left]. }
  destruct (decide (~ R x x)) as [Hn|_].
  { destruct Hn. by destruct (total R x x). }
  cbn [app]. apply filter_all. intros y Hy Hyx. apply Hxl2.
  assert (x = y) as ->; [|done]. apply Hanti; [..|by apply Hx|done].
  - apply elem_of_app. right. by left.
  - apply elem_of_app. right. by right.
Qed.
End Keyset.

(** The byte order, the collation of the locale C. *)
Definition sample_collation : Collation := {| id_le := String.leb |}.
Lemma sample_collation_laws : CollationLaws sample_collation.
Proof.
  constructor.
  - exact (fun a b => str_le_total a b).
  - exact (fun a b c => str_le_trans a b c).
  - exact (fun a b => str_le_antisymm a b).
Qed.
