(* ===== verification/Effects.v ===== *)
(** Programs that act on the outside world and keep a state.

    The background worker's maintenance talks to databases and to the engine.  A
    function of it is a value of [act]: a tree of calls [Call o k], where the
    world answers an operation [o] with any value of its type, and of reads and
    writes of the worker's own state.  [wp] is the weakest precondition of such a
    program under a guard on its calls; [eval] runs it in a concrete world. *)
From S2P Require Import Prelude.

Section Effects.
Context {S O : Type} {R : O -> Type}.

Inductive act (A : Type) : Type :=
  | Pure (a : A)
  | Get (k : S -> act A)
  | Put (s : S) (k : act A)
  | Call (o : O) (k : R o -> act A).
#[global] Arguments Pure {A} a.
#[global] Arguments Get {A} k.
#[global] Arguments Put {A} s k.
#[global] Arguments Call {A} o k.

Fixpoint bind_act {A B} (p : act A) (k : A -> act B) : act B :=
  match p with
  | Pure a => k a
  | Get f => Get (fun s => bind_act (f s) k)
  | Put s p => Put s (bind_act p k)
  | Call o f => Call o (fun r => bind_act (f r) k)
  end.

Definition call (o : O) : act (R o) := Call o Pure.
Definition gets {A} (f : S -> A) : act A := Get (fun s => Pure (f s)).
Definition update (f : S -> S) : act unit := Get (fun s => Put (f s) (Pure tt)).

Definition try_act {A B E} (p : act (result A E)) (k : A -> act (result B E)) : act (result B E) :=
  bind_act p (fun r => match r with Ok a => k a | Err e => Pure (Err e) end).

(** A [for] loop. *)
Fixpoint each {X} (f : X -> act unit) (l : list X) : act unit :=
  match l with
  | [] => Pure tt
  | x :: l' => bind_act (f x) (fun _ => each f l')
  end.

(** A [for] loop whose body may return from the function with [?]. *)
Fixpoint try_each {X E} (f : X -> act (result unit E)) (l : list X) : act (result unit E) :=
  match l with
  | [] => Pure (Ok tt)
  | x :: l' => try_act (f x) (fun _ => try_each f l')
  end.

(** [tokio::time::timeout]: after each answer the timer may have struck; what was
    called and written so far stays. *)
Fixpoint interrupt (elapsed : O) (struck : R elapsed -> bool) {A} (p : act A) : act (option A) :=
  match p with
  | Pure a => Pure (Some a)
  | Get k => Get (fun s => interrupt elapsed struck (k s))
  | Put s k => Put s (interrupt elapsed struck k)
  | Call o k => Call o (fun r => Call elapsed (fun b =>
      if struck b then Pure None else interrupt elapsed struck (k r)))
  end.

(** ** Runs *)

Record event := Ev { ev_op : O; ev_answer : R ev_op }.

Fixpoint does {A} (p : act A) (s : S) (tr : list event) (a : A) (s' : S) : Prop :=
  match p with
  | Pure a0 => tr = [] /\ a = a0 /\ s' = s
  | Get k => does (k s) s tr a s'
  | Put s1 k => does k s1 tr a s'
  | Call o k => exists r tr', tr = Ev o r :: tr' /\ does (k r) s tr' a s'
  end.

(** The weakest precondition after a history: every call is allowed where it is
    made, and the result satisfies [Q]. *)
Fixpoint wp {A} (allowed : list event -> O -> Prop) (hist : list event) (p : act A) (s : S)
    (Q : list event -> A -> S -> Prop) : Prop :=
  match p with
  | Pure a => Q hist a s
  | Get k => wp allowed hist (k s) s Q
  | Put s1 k => wp allowed hist k s1 Q
  | Call o k => allowed hist o /\ forall r, wp allowed (hist ++ [Ev o r]) (k r) s Q
  end.

(** A world as a function of the calls so far. *)
Fixpoint eval {A} (world : list event -> forall o, R o) (hist : list event) (p : act A) (s : S)
    : A * S * list event :=
  match p with
  | Pure a => (a, s, hist)
  | Get k => eval world hist (k s) s
  | Put s1 k => eval world hist k s1
  | Call o k => let r := world hist o in eval world (hist ++ [Ev o r]) (k r) s
  end.

(** ** Facts *)

Lemma wp_sound {A} allowed hist (p : act A) s Q tr a s' :
  wp allowed hist p s Q -> does p s tr a s' ->
  Q (hist ++ tr) a s' /\
  forall before e after, tr = before ++ e :: after -> allowed (hist ++ before) (ev_op e).
Proof.
  revert hist s tr. induction p as [a0|k IH|s1 p IH|o k IH]; intros hist s tr; cbn [wp does].
  - intros HQ (-> & -> & ->). rewrite app_nil_r. split; [done|]. intros [] ? ? [=].
  - apply IH.
  - apply IH.
  - intros [Ho Hk] (r & tr' & -> & Hr). destruct (IH r _ _ _ (Hk r) Hr) as [HQ Ha].
    rewrite <- app_assoc in HQ. split; [done|]. intros [|e0 before] e after [= <- E].
    + by rewrite app_nil_r.
    + specialize (Ha _ _ _ E). by rewrite <- app_assoc in Ha.
Qed.

Lemma eval_does {A} world hist (p : act A) s :
  exists tr, eval world hist p s =
    (fst (fst (eval world hist p s)), snd (fst (eval world hist p s)), hist ++ tr) /\
  does p s tr (fst (fst (eval world hist p s))) (snd (fst (eval world hist p s))).
Proof.
  revert hist s. induction p as [a0|k IH|s1 p IH|o k IH]; intros hist s; cbn [eval does].
  - exists []. by rewrite app_nil_r.
  - apply IH.
  - apply IH.
  - destruct (IH (world hist o) (hist ++ [Ev o (world hist o)]) s) as (tr & E & H).
    exists (Ev o (world hist o) :: tr). rewrite E at 1. rewrite <- app_assoc. split; [done|]. eauto.
Qed.

Lemma eval_bind {A B} world hist (p : act A) (k : A -> act B) s :
  eval world hist (bind_act p k) s =
    let '(a, s', hist') := eval world hist p s in eval world hist' (k a) s'.
Proof. revert hist s. induction p; intros; cbn; eauto. Qed.

(** A program that may be cut off ends in a world when it is not. *)
Definition ends {A} (world : list event -> forall o, R o) (hist : list event) (p : act (option A)) (s : S) : Prop :=
  is_Some (fst (fst (eval world hist p s))).

Lemma ends_bind {A B} world hist (p : act A) (k : A -> act (option B)) s :
  (forall a tr s', ends world (hist ++ tr) (k a) s') -> ends world hist (bind_act p k) s.
Proof.
  intros H. unfold ends. rewrite eval_bind. destruct (eval_does world hist p s) as (tr & E & _).
  rewrite E. apply H.
Qed.

Lemma ends_run {A B} world hist (p : act (option A)) (k : option A -> act (option B)) s :
  ends world hist p s -> (forall a tr s', ends world (hist ++ tr) (k (Some a)) s') ->
  ends world hist (bind_act p k) s.
Proof.
  intros [a Ha] H. unfold ends. rewrite eval_bind. destruct (eval_does world hist p s) as (tr & E & _).
  rewrite E, Ha. apply H.
Qed.

Lemma does_bind {A B} (p : act A) (k : A -> act B) s tr b s' :
  does (bind_act p k) s tr b s' <->
    exists tr1 tr2 a s1, tr = tr1 ++ tr2 /\ does p s tr1 a s1 /\ does (k a) s1 tr2 b s'.
Proof.
  revert s tr. induction p as [a0|f IH|s0 p IH|o f IH]; intros s tr; cbn [bind_act does].
  - split; [intros H; by exists [], tr, a0, s|]. by intros (tr1 & tr2 & a & s1 & -> & (-> & -> & ->) & H).
  - apply IH.
  - apply IH.
  - split.
    + intros (r & tr' & -> & (tr1 & tr2 & a & s1 & -> & H1 & H2)%IH).
      exists (Ev o r :: tr1), tr2, a, s1. split_and!; [done| |done]. by exists r, tr1.
    + intros (tr1 & tr2 & a & s1 & -> & (r & tr' & -> & H1) & H2). exists r, (tr' ++ tr2). split; [done|].
      apply IH. by exists tr', tr2, a, s1.
Qed.

Lemma does_try {A B E} (p : act (result A E)) (k : A -> act (result B E)) s tr r s' :
  does (try_act p k) s tr r s' ->
  exists tr1 tr2 a s1, tr = tr1 ++ tr2 /\ does p s tr1 a s1 /\
  match a with
  | Ok a => does (k a) s1 tr2 r s'
  | Err e => tr2 = [] /\ r = Err e /\ s' = s1
  end.
Proof.
  intros (tr1 & tr2 & [a|e] & s1 & -> & H1 & H2)%does_bind.
  - by exists tr1, tr2, (Ok a), s1.
  - by exists tr1, tr2, (Err e), s1.
Qed.

(** *** Calls of a kind *)

(** Every call of the program satisfies [P]. *)
Fixpoint only {A} (P : O -> Prop) (p : act A) : Prop :=
  match p with
  | Pure _ => True
  | Get k => forall s, only P (k s)
  | Put _ k => only P k
  | Call o k => P o /\ forall r, only P (k r)
  end.

Lemma only_bind {A B} P (p : act A) (k : A -> act B) :
  only P p -> (forall a, only P (k a)) -> only P (bind_act p k).
Proof.
  intros Hp Hk. induction p as [a0|f IH|s1 p IH|o f IH]; cbn [only bind_act] in *; auto.
  destruct Hp. auto.
Qed.

Lemma only_try {A B E} P (p : act (result A E)) (k : A -> act (result B E)) :
  only P p -> (forall a, only P (k a)) -> only P (try_act p k).
Proof. intros Hp Hk. apply only_bind; [done|]. by intros [a|e]; [apply Hk|]. Qed.

Lemma only_does {A} P (p : act A) s tr a s' :
  only P p -> does p s tr a s' -> Forall (fun e => P (ev_op e)) tr.
Proof.
  revert s tr. induction p as [a0|k IH|s1 p IH|o k IH]; intros s tr; cbn [only does].
  - by intros _ (-> & _).
  - intros H. by apply IH.
  - apply IH.
  - intros [Ho Hk] (r & tr' & -> & H). constructor; [done|]. by eapply IH.
Qed.

Lemma only_interrupt {A} P elapsed struck (p : act A) :
  P elapsed -> only P p -> only P (interrupt elapsed struck p).
Proof.
  intros He. induction p as [a0|k IH|s1 p IH|o k IH]; cbn [only interrupt]; auto.
  intros [Ho Hk]. split; [done|]. intros r. split; [done|]. intros b. by destruct (struck b); [|apply IH].
Qed.

Lemma only_each {X} P (f : X -> act unit) l : (forall x, only P (f x)) -> only P (each f l).
Proof. intros Hf. induction l as [|x l IH]; cbn [each]; [done|]. by apply only_bind. Qed.

(** *** State invariants *)

(** Every state the program writes satisfies [I], when it starts in one that does. *)
Fixpoint keeps {A} (I : S -> Prop) (p : act A) : Prop :=
  match p with
  | Pure _ => True
  | Get k => forall s, I s -> keeps I (k s)
  | Put s k => I s /\ keeps I k
  | Call o k => forall r, keeps I (k r)
  end.

Lemma keeps_does {A} I (p : act A) s tr a s' : keeps I p -> I s -> does p s tr a s' -> I s'.
Proof.
  revert s tr. induction p as [a0|k IH|s1 p IH|o k IH]; intros s tr; cbn [keeps does].
  - by intros _ Hs (_ & _ & ->).
  - intros Hk Hs. by apply IH; [apply Hk|].
  - intros [H1 Hk] _. by apply IH.
  - intros Hk Hs (r & tr' & _ & H). by eapply IH.
Qed.

Lemma keeps_bind_act {A B} I (p : act A) (k : A -> act B) :
  keeps I p -> (forall a, keeps I (k a)) -> keeps I (bind_act p k).
Proof.
  intros Hp Hk. induction p as [a0|f IH|s1 p IH|o f IH]; cbn [keeps bind_act] in *; [apply Hk|..].
  - intros s Hs. by apply IH, Hp.
  - destruct Hp. split; [done|by apply IH].
  - intros r. by apply IH.
Qed.

Lemma keeps_try {A B E} I (p : act (result A E)) (k : A -> act (result B E)) :
  keeps I p -> (forall a, keeps I (k a)) -> keeps I (try_act p k).
Proof. intros Hp Hk. apply keeps_bind_act; [done|]. by intros [a|e]; [apply Hk|]. Qed.

Lemma keeps_try_each {X E} I (f : X -> act (result unit E)) l :
  (forall x, keeps I (f x)) -> keeps I (try_each f l).
Proof. intros Hf. induction l as [|x l IH]; cbn [try_each]; [done|]. by apply keeps_try. Qed.

Lemma keeps_interrupt {A} I elapsed struck (p : act A) : keeps I p -> keeps I (interrupt elapsed struck p).
Proof.
  induction p as [a0|f IH|s1 p IH|o f IH]; cbn [keeps interrupt]; [done|..].
  - intros H s Hs. by apply IH, H.
  - intros [H1 H2]. split; [done|by apply IH].
  - intros H r b. destruct (struck b); [done|by apply IH].
Qed.

Section Rules.
Context (allowed : list event -> O -> Prop).

Lemma wp_mono {A} hist (p : act A) s (P Q : list event -> A -> S -> Prop) :
  wp allowed hist p s P -> (forall tr a s', P (hist ++ tr) a s' -> Q (hist ++ tr) a s') ->
  wp allowed hist p s Q.
Proof.
  revert hist s. induction p as [a0|k IH|s1 p IH|o k IH]; intros hist s; cbn [wp].
  - intros H HQ. specialize (HQ []). rewrite app_nil_r in HQ. auto.
  - apply IH.
  - apply IH.
  - intros [Ho Hk] HQ. split; [done|]. intros r. eapply IH; [apply Hk|]. intros tr a s'.
    rewrite <- app_assoc. apply HQ.
Qed.

Lemma wp_bind {A B} hist (p : act A) (k : A -> act B) s Q :
  wp allowed hist p s (fun hist' a s' => wp allowed hist' (k a) s' Q) ->
  wp allowed hist (bind_act p k) s Q.
Proof.
  revert hist s. induction p as [a0|f IH|s1 p IH|o f IH]; intros hist s; cbn [wp bind_act].
  - done.
  - apply IH.
  - apply IH.
  - intros [Ho Hk]. split; [done|]. intros r. by apply IH.
Qed.

Lemma wp_try {A B E} hist (p : act (result A E)) (k : A -> act (result B E)) s Q :
  wp allowed hist p s (fun hist' r s' =>
    match r with Ok a => wp allowed hist' (k a) s' Q | Err e => Q hist' (Err e) s' end) ->
  wp allowed hist (try_act p k) s Q.
Proof.
  intros H. apply wp_bind. eapply wp_mono; [exact H|]. by intros tr [a|e] s'.
Qed.

(** What has been learned stays known: a guard or a postcondition that only asks
    for events in the history survives a longer one. *)
Definition monotone {B} (P : list event -> B -> Prop) : Prop :=
  forall h h' b, h ⊆ h' -> P h b -> P h' b.

(** A program cut off by a timer calls nothing it could not call before. *)
Lemma wp_interrupt {A} elapsed struck h h' (p : act A) s (Q : list event -> A -> S -> Prop) :
  monotone allowed -> (forall h, allowed h elapsed) ->
  (forall h h' a s, h ⊆ h' -> Q h a s -> Q h' a s) ->
  h ⊆ h' -> wp allowed h p s Q ->
  wp allowed h' (interrupt elapsed struck p) s (fun hist o s' =>
    match o with Some a => Q hist a s' | None => True end).
Proof.
  intros Hm He HQ. revert h h' s. induction p as [a|k IH|s1 p IH|o k IH]; intros h h' s Hh; cbn [wp interrupt].
  - by apply HQ.
  - by apply IH.
  - by apply IH.
  - intros [Ho Hk]. split; [by eapply Hm|]. intros r. split; [apply He|]. intros b.
    destruct (struck b); [done|]. eapply IH; [|apply Hk]. set_solver.
Qed.
End Rules.

(** ** Protocols

    A protocol is an automaton over events.  A program follows it when no call of
    it, whatever the answer, is one the automaton refuses. *)
Section Protocol.
Context {P : Type} (next : P -> event -> option P).

Fixpoint run_protocol (ph : P) (tr : list event) : option P :=
  match tr with
  | [] => Some ph
  | e :: tr' => ph' ← next ph e; run_protocol ph' tr'
  end.

Fixpoint follows {A} (p : act A) (s : S) (ph : P) (Q : A -> S -> P -> Prop) : Prop :=
  match p with
  | Pure a => Q a s ph
  | Get k => follows (k s) s ph Q
  | Put s1 k => follows k s1 ph Q
  | Call o k => forall r, exists ph', next ph (Ev o r) = Some ph' /\ follows (k r) s ph' Q
  end.

Lemma follows_sound {A} (p : act A) s ph Q tr a s' :
  follows p s ph Q -> does p s tr a s' ->
  exists ph', run_protocol ph tr = Some ph' /\ Q a s' ph'.
Proof.
  revert s ph tr. induction p as [a0|k IH|s1 p IH|o k IH]; intros s ph tr; cbn [follows does].
  - intros HQ (-> & -> & ->). by exists ph.
  - apply IH.
  - apply IH.
  - intros Hk (r & tr' & -> & Hr). destruct (Hk r) as (ph1 & E & Hf). cbn [run_protocol].
    rewrite E. by eapply IH.
Qed.

Lemma follows_bind {A B} (p : act A) (k : A -> act B) s ph Q :
  follows p s ph (fun a s' ph' => follows (k a) s' ph' Q) -> follows (bind_act p k) s ph Q.
Proof.
  revert s ph. induction p as [a0|f IH|s1 p IH|o f IH]; intros s ph; cbn [follows bind_act]; auto.
  intros H r. destruct (H r) as (ph' & E & Hf). eauto.
Qed.

(** Calls that the protocol takes no notice of. *)
Lemma follows_only {A} (p : act A) s ph :
  only (fun o => forall r, next ph (Ev o r) = Some ph) p -> follows p s ph (fun _ _ ph' => ph' = ph).
Proof.
  revert s. induction p as [a0|f IH|s1 p IH|o f IH]; intros s; cbn [only follows]; auto.
  intros [Ho Hk] r. eauto.
Qed.

Lemma follows_mono {A} (p : act A) s ph (Q Q' : A -> S -> P -> Prop) :
  follows p s ph Q -> (forall a s' ph', Q a s' ph' -> Q' a s' ph') -> follows p s ph Q'.
Proof.
  intros H HQ. revert s ph H. induction p as [a0|f IH|s1 p IH|o f IH]; intros s ph; cbn [follows]; auto.
  intros H r. destruct (H r) as (ph' & E & Hf). eauto.
Qed.

Lemma follows_try {A B E} (p : act (result A E)) (k : A -> act (result B E)) s ph Q :
  follows p s ph (fun r s' ph' =>
    match r with Ok a => follows (k a) s' ph' Q | Err e => Q (Err e) s' ph' end) ->
  follows (try_act p k) s ph Q.
Proof. intros H. apply follows_bind. eapply follows_mono; [exact H|]. by intros [a|e] s' ph'. Qed.
End Protocol.
End Effects.

Notation "'let*' x ':=' p 'in' k" := (bind_act p (fun x => k))
  (at level 10, x pattern, p at level 100, k at level 200) : rust_scope.
(** [p.await?] *)
Notation "'let*?' x ':=' p 'in' k" := (try_act p (fun x => k))
  (at level 10, x pattern, p at level 100, k at level 200) : rust_scope.
