(* ===== verification/Json.v ===== *)
(** JSON values as the program handles them.

    [serde_json] is a dependency.  Its public data type [serde_json::Value] is
    the inductive [value] below; parsing and printing text is the interface
    [SerdeJson], which every client takes as a parameter, with the one law
    [SerdeJsonLaws] the program relies on.  The crate is built with
    [preserve_order], so an object is a list of members in insertion order.

    [Serialize]/[Deserialize] derives are written out as functions to and from
    [value], one per type, in the files that declare the types: the derive
    attributes ([default], [skip_serializing_if], [rename_all], [tag]) are part
    of the program's source. *)
From S2P Require Import Prelude RustString.

(** ** Values *)

(** [serde_json::Number] without [arbitrary_precision]: a float is its 64-bit
    pattern. *)
Inductive number : Type :=
| PosInt (n : N)
| NegInt (z : Z)
| Float (bits : Z).

Inductive value : Type :=
| Null
| Bool (b : bool)
| Number (n : number)
| JString (s : string)
| Array (l : list value)
| Object (members : list (string * value)).

Abbreviation members := (list (string * value)).

(** A signed integer as a number. *)
Definition json_int (z : Z) : value :=
  Number (if (0 <=? z)%Z then PosInt (Z.to_N z) else NegInt z).

(** ** Accessors of [serde_json::Number] and [serde_json::Value] *)

Definition number_as_i64 (n : number) : option Z :=
  match n with
  | PosInt n => if (Z.of_N n <=? i64_max)%Z then Some (Z.of_N n) else None
  | NegInt z => Some z
  | Float _ => None
  end.

Definition number_as_u64 (n : number) : option N :=
  match n with PosInt n => Some n | _ => None end.

(** [n.as_f64() != Some(0.0)]: an integer converts to a non-zero float when it
    is non-zero, a float is zero when all bits below the sign are. *)
Definition number_nonzero_f64 (n : number) : bool :=
  match n with
  | PosInt n => negb (n =? 0)%N
  | NegInt z => negb (z =? 0)%Z
  | Float bits => negb (Z.land bits 9223372036854775807 =? 0)%Z
  end.

Definition as_str (v : value) : option string :=
  match v with JString s => Some s | _ => None end.
Definition as_bool (v : value) : option bool :=
  match v with Bool b => Some b | _ => None end.
Definition as_i64 (v : value) : option Z :=
  match v with Number n => number_as_i64 n | _ => None end.
Definition as_u64 (v : value) : option N :=
  match v with Number n => number_as_u64 n | _ => None end.
Definition as_array (v : value) : option (list value) :=
  match v with Array l => Some l | _ => None end.
Definition as_object (v : value) : option members :=
  match v with Object l => Some l | _ => None end.
Definition is_null (v : value) : bool := match v with Null => true | _ => false end.
Definition is_object (v : value) : bool := match v with Object _ => true | _ => false end.

Fixpoint obj_get (k : string) (l : members) : option value :=
  match l with
  | [] => None
  | (k', v) :: l' => if String.eqb k k' then Some v else obj_get k l'
  end.

(** [map.insert(k, v)]: in place when the key is there, else appended. *)
Fixpoint obj_insert (k : string) (v : value) (l : members) : members :=
  match l with
  | [] => [(k, v)]
  | (k', v') :: l' => if String.eqb k k' then (k, v) :: l' else (k', v') :: obj_insert k v l'
  end.

Definition obj_keys (l : members) : list string := map fst l.

(** [v.get(k)] *)
Definition get (k : string) (v : value) : option value := as_object v ≫= obj_get k.

(** [v[k]] as an expression: [Null] when absent. *)
Definition index (v : value) (k : string) : value := default Null (get k v).

(** [v[k] = x]: inserts into an object, turns [null] into an object, panics
    ([None]) on any other value. *)
Definition index_set (v : value) (k : string) (x : value) : option value :=
  match v with
  | Null => Some (Object [(k, x)])
  | Object l => Some (Object (obj_insert k x l))
  | _ => None
  end.

(** ** Well-formed values: unique keys, integers in range, no floats *)

Definition wf_number (n : number) : bool :=
  match n with
  | PosInt n => (n <=? u64_max)%N
  | NegInt z => (i64_min <=? z)%Z && (z <? 0)%Z
  | Float _ => false
  end.

Fixpoint wf_value (v : value) : bool :=
  match v with
  | Null | Bool _ | JString _ => true
  | Number n => wf_number n
  | Array l => forallb wf_value l
  | Object l =>
      bool_decide (NoDup (map fst l)) && forallb (fun kv => wf_value (snd kv)) l
  end.

(** ** The interface to the text format *)

Class SerdeJson : Type := {
  (** [serde_json::from_str::<Value>]; the error is its display text. *)
  value_from_str : string -> result value string;
  (** [Value::to_string], [serde_json::to_string]: compact printing. *)
  value_to_string : value -> string;
  (** [Number::to_string] *)
  number_to_string : number -> string;
  (** The members of an object and the elements of an array, each value as the
      raw text it had in the input ([RawValue]). *)
  raw_object : string -> result (list (string * string)) string;
  raw_array : string -> result (list string) string;
  (** The text of an object or array whose values are given as raw text. *)
  raw_object_to_string : list (string * string) -> string;
  raw_array_to_string : list string -> string;
  (** Display text of a typed deserialization error: type name and input. *)
  type_error : string -> string -> string;
}.

(** What the program relies on: well-formed values survive printing and
    parsing, and raw text is carried verbatim. *)
Class SerdeJsonLaws (SJ : SerdeJson) : Type := {
  (** Text that is one JSON value, without surrounding white space. *)
  raw_valid : string -> Prop;
  value_from_to_string : forall v, wf_value v = true -> value_from_str (value_to_string v) = Ok v;
  raw_valid_value : forall v, wf_value v = true -> raw_valid (value_to_string v);
  raw_valid_object : forall l, NoDup (map fst l) -> Forall raw_valid (map snd l) ->
    raw_valid (raw_object_to_string l);
  raw_valid_array : forall l, Forall raw_valid l -> raw_valid (raw_array_to_string l);
  raw_object_to : forall l, NoDup (map fst l) -> Forall raw_valid (map snd l) ->
    raw_object (raw_object_to_string l) = Ok l;
  raw_array_to : forall l, Forall raw_valid l -> raw_array (raw_array_to_string l) = Ok l;
  raw_object_starts : forall l, starts_with "{" (raw_object_to_string l) = true;
}.

(** A well-formed member written into an object that was parsed is there again
    after the object is printed and parsed once more.  (Parsed objects may hold floats,
    which the first law leaves out.) *)
Class ReprintLaws (SJ : SerdeJson) : Prop := {
  member_reprints : forall text l k x, value_from_str text = Ok (Object l) -> wf_value x = true ->
    exists v, value_from_str (value_to_string (Object (obj_insert k x l))) = Ok v /\
              get k v = Some x;
}.

Section Typed.
Context {SJ : SerdeJson}.

(** [serde_json::from_str::<T>] for a derived [Deserialize]. *)
Definition from_str_as {A} (ty : string) (dec : value -> option A) (s : string)
    : result A string :=
  match value_from_str s with
  | Err e => Err e
  | Ok v => ok_or (dec v) (type_error ty s)
  end.

(** [serde_json::to_string] of a type whose maps have string keys cannot fail;
    the callers' error arms are kept. *)
Definition to_string_res (v : value) : result string string := Ok (value_to_string v).
End Typed.

(** ** Field combinators used by derived [Deserialize] implementations *)

Definition req {A} (k : string) (dec : value -> option A) (l : members) : option A :=
  obj_get k l ≫= dec.

(** An [Option<T>] field: absent and [null] are both [None]. *)
Definition opt {A} (k : string) (dec : value -> option A) (l : members) : option (option A) :=
  match obj_get k l with
  | None | Some Null => Some None
  | Some v => Some <$> dec v
  end.

(** A field under [#[serde(default)]]. *)
Definition dflt {A} (k : string) (d : A) (dec : value -> option A) (l : members) : option A :=
  match obj_get k l with None => Some d | Some v => dec v end.

Definition de_u64 (v : value) : option N :=
  match v with
  | Number (PosInt n) => if (n <=? u64_max)%N then Some n else None
  | _ => None
  end.
Definition de_u32 (v : value) : option N :=
  match v with
  | Number (PosInt n) => if (n <=? u32_max)%N then Some n else None
  | _ => None
  end.

(** The name of a unit variant of an externally tagged enum: a string, or an
    object with that one key and [null]. *)
Definition de_unit_variant (v : value) : option string :=
  match v with
  | JString s => Some s
  | Object [(k, Null)] => Some k
  | _ => None
  end.

Definition de_list {A} (dec : value -> option A) (v : value) : option (list A) :=
  as_array v ≫= mapM dec.

Definition sort_strings (l : list string) : list string := merge_sort str_le l.

(** Entries of a map, by key. *)
Definition key_le {A} (a b : string * A) : Prop := str_le (fst a) (fst b).
#[export] Instance key_le_dec {A} : RelDecision (@key_le A).
Proof. intros a b. unfold key_le. apply _. Defined.

(** The entries of a map collected into a [BTreeMap]. *)
Definition sorted_entries {A} (m : gmap string A) : list (string * A) :=
  merge_sort key_le (map_to_list m).

(** A map with string keys serialized in key order, and read back. *)
Definition en_map {A} (f : A -> value) (m : gmap string A) : value :=
  Object (map (fun '(k, a) => (k, f a)) (sorted_entries m)).
Definition de_map {A} (dec : value -> option A) (v : value) : option (gmap string A) :=
  l ← as_object v;
  es ← mapM (fun '(k, x) => pair k <$> dec x) l;
  Some (fold_left (fun m '(k, x) => <[k := x]> m) es ∅).

Definition en_string_map : gmap string string -> value := en_map JString.
Definition de_string_map : value -> option (gmap string string) := de_map as_str.

Definition en_opt_string (o : option string) : value :=
  match o with Some s => JString s | None => Null end.

(** A member that [skip_serializing_if] may drop. *)
Definition skip_if (b : bool) (k : string) (v : value) : members := if b then [] else [(k, v)].
Definition skip_none (k : string) (o : option string) : members :=
  match o with Some s => [(k, JString s)] | None => [] end.

(** ** Facts *)

Lemma obj_get_insert_eq k v l : obj_get k (obj_insert k v l) = Some v.
Proof.
  induction l as [|[k' v'] l IH]; simpl.
  - by rewrite String.eqb_refl.
  - destruct (String.eqb_spec k k') as [->|Hk]; simpl.
    + by rewrite String.eqb_refl.
    + apply String.eqb_neq in Hk as ->. done.
Qed.

Lemma obj_get_insert_ne k k' v l : k <> k' -> obj_get k' (obj_insert k v l) = obj_get k' l.
Proof.
  intros Hk. induction l as [|[k2 v2] l IH]; simpl.
  - assert (Hk' : k' <> k) by done. by apply String.eqb_neq in Hk' as ->.
  - destruct (String.eqb_spec k k2) as [->|Hk2]; simpl.
    + assert (Hk' : k' <> k2) by done. by apply String.eqb_neq in Hk' as ->.
    + by rewrite IH.
Qed.

Lemma obj_keys_insert k v l :
  obj_keys (obj_insert k v l) = if bool_decide (k ∈ obj_keys l) then obj_keys l
                                else obj_keys l ++ [k].
Proof.
  induction l as [|[k' v'] l IH]; simpl.
  - done.
  - destruct (String.eqb_spec k k') as [->|Hk]; simpl.
    + rewrite bool_decide_eq_true_2 by set_solver. done.
    + rewrite IH. destruct (decide (k ∈ obj_keys l)) as [Hin|Hin].
      * rewrite !bool_decide_eq_true_2 by set_solver. done.
      * rewrite !bool_decide_eq_false_2 by set_solver. done.
Qed.

Lemma obj_insert_NoDup k v l : NoDup (obj_keys l) -> NoDup (obj_keys (obj_insert k v l)).
Proof.
  intros Hl. rewrite obj_keys_insert. case_bool_decide as Hk; [done|].
  apply NoDup_app. split_and!; [done|set_solver|apply NoDup_singleton].
Qed.

Lemma obj_insert_forall (P : string * value -> Prop) k v l :
  P (k, v) -> Forall P l -> Forall P (obj_insert k v l).
Proof.
  intros Hv. induction 1 as [|[k' v'] l H Hl IH]; simpl; [by repeat constructor|].
  destruct (String.eqb k k'); by constructor.
Qed.

Lemma wf_obj_insert k x l :
  wf_value x = true -> wf_value (Object l) = true -> wf_value (Object (obj_insert k x l)) = true.
Proof.
  intros Hx. simpl. rewrite !andb_true_iff, !bool_decide_eq_true, !forallb_forall. intros [Hn Hl].
  split; [by apply obj_insert_NoDup|]. intros kv Hkv. apply list_elem_of_In in Hkv.
  assert (H : Forall (fun kv => wf_value (snd kv) = true) (obj_insert k x l)).
  { apply obj_insert_forall; [done|]. apply Forall_forall. intros y Hy. by apply Hl, list_elem_of_In. }
  rewrite Forall_forall in H. by apply H.
Qed.

Lemma index_set_get k v x v' : index_set v k x = Some v' -> get k v' = Some x.
Proof.
  destruct v; try discriminate; simpl; intros [= <-]; unfold get; simpl.
  - by rewrite String.eqb_refl.
  - apply obj_get_insert_eq.
Qed.

Lemma index_set_get_ne v k x v' k' : index_set v k x = Some v' -> k' <> k -> get k' v' = get k' v.
Proof.
  intros H Hk. destruct v; simpl in H; simplify_eq; unfold get; simpl.
  - by destruct (String.eqb_spec k' k).
  - by rewrite obj_get_insert_ne.
Qed.

#[export] Instance key_le_trans {A} : Transitive (@key_le A).
Proof. intros a b c. unfold key_le. apply str_le_trans. Qed.
#[export] Instance key_le_total {A} : Total (@key_le A).
Proof. intros a b. apply str_le_total. Qed.

(** Serialization order does not depend on the [HashMap]'s iteration order. *)
Lemma sorted_entries_canonical {A} (m : gmap string A) l :
  l ≡ₚ map_to_list m -> merge_sort key_le l = sorted_entries m.
Proof.
  intros Hl. apply (StronglySorted_unique_strong key_le).
  - intros [k v] [k' v'] H1 H2 Ha Hb. unfold key_le in *. simpl in *.
    assert (k = k') as -> by (by apply (anti_symm str_le)). f_equal.
    rewrite merge_sort_Permutation, Hl in H1. unfold sorted_entries in H2.
    rewrite merge_sort_Permutation in H2.
    apply elem_of_map_to_list in H1, H2. congruence.
  - apply (StronglySorted_merge_sort key_le).
  - apply (StronglySorted_merge_sort key_le).
  - unfold sorted_entries. by rewrite !merge_sort_Permutation.
Qed.

Lemma sorted_entries_perm {A} (m : gmap string A) : sorted_entries m ≡ₚ map_to_list m.
Proof. apply merge_sort_Permutation. Qed.

Lemma sorted_entries_lookup {A} (m : gmap string A) k a :
  (k, a) ∈ sorted_entries m -> m !! k = Some a.
Proof. rewrite sorted_entries_perm. apply elem_of_map_to_list. Qed.

Lemma fold_insert_list {A} (es : list (string * A)) (m : gmap string A) :
  fold_left (fun m '(k, x) => <[k := x]> m) es m = list_to_map (reverse es) ∪ m.
Proof.
  revert m. induction es as [|[k x] es IH]; intros m; simpl.
  - by rewrite map_empty_union.
  - rewrite IH, reverse_cons, list_to_map_app, <- map_union_assoc. f_equal. simpl.
    by rewrite insert_empty, <- insert_union_singleton_l.
Qed.

Lemma de_en_map {A} (f : A -> value) dec (m : gmap string A) :
  (forall k a, m !! k = Some a -> dec (f a) = Some a) -> de_map dec (en_map f m) = Some m.
Proof.
  intros Hdec. unfold de_map, en_map. cbn [as_object mbind option_bind].
  assert (H : forall l : list (string * A), (forall k a, (k, a) ∈ l -> dec (f a) = Some a) ->
    mapM (fun '(k, x) => pair k <$> dec x) (map (fun '(k, v) => (k, f v)) l) = Some l).
  { intros l. induction l as [|[k x] l IH]; intros Hl; simpl; [done|].
    rewrite (Hl k x) by (by left). simpl. rewrite IH; [done|]. intros k' a' ?.
    apply (Hl k'). by right. }
  rewrite H by (intros k a ?%sorted_entries_lookup; eauto).
  simpl. f_equal. rewrite fold_insert_list, map_union_empty.
  rewrite <- (list_to_map_to_list m) at 2.
  assert (Hp : reverse (sorted_entries m) ≡ₚ map_to_list m).
  { by rewrite reverse_Permutation, sorted_entries_perm. }
  apply list_to_map_proper; [|done].
  rewrite Hp. apply NoDup_fst_map_to_list.
Qed.

Lemma wf_en_map {A} (f : A -> value) (m : gmap string A) :
  (forall k a, m !! k = Some a -> wf_value (f a) = true) -> wf_value (en_map f m) = true.
Proof.
  intros Hwf. unfold en_map. simpl. apply andb_true_iff. split.
  - apply bool_decide_eq_true. rewrite map_map.
    assert (Heq : map (fun x : string * A => fst (let '(k, v) := x in (k, f v)))
              (sorted_entries m) = (sorted_entries m).*1).
    { apply map_ext. by intros []. }
    rewrite Heq, sorted_entries_perm. apply NoDup_fst_map_to_list.
  - apply forallb_forall. intros [k v] ([k' v'] & [= <- <-] & Hin)%in_map_iff.
    apply list_elem_of_In, sorted_entries_lookup in Hin. simpl. eauto.
Qed.

Lemma de_en_string_map m : de_string_map (en_string_map m) = Some m.
Proof. by apply de_en_map. Qed.

Lemma wf_en_string_map m : wf_value (en_string_map m) = true.
Proof. by apply wf_en_map. Qed.

Section TypedFacts.
Context {SJ : SerdeJson} {SJL : SerdeJsonLaws SJ}.

(** A typed round trip follows from the codec's own. *)
Lemma from_str_as_to_string {A} ty (dec : value -> option A) v a :
  wf_value v = true -> dec v = Some a ->
  from_str_as ty dec (value_to_string v) = Ok a.
Proof.
  intros Hwf Hdec. unfold from_str_as. rewrite value_from_to_string by done.
  by rewrite Hdec.
Qed.
End TypedFacts.

(** ** Codecs: a type's [Serialize] and [Deserialize] implementations *)

(** [valid] is the range of the type's machine-width fields. *)
Class Codec (A : Type) : Type := {
  type_name : string;
  en : A -> value;
  de : value -> option A;
  valid : A -> Prop;
}.

Class CodecOk (A : Type) `{Codec A} : Prop := {
  de_en : forall a : A, valid a -> de (en a) = Some a;
  wf_en : forall a : A, valid a -> wf_value (en a) = true;
}.

Section CodecText.
Context {SJ : SerdeJson} {A : Type} `{Codec A}.

(** [serde_json::to_string(&a)] and [serde_json::from_str::<A>(s)] *)
Definition to_json (a : A) : string := value_to_string (en a).
Definition from_json (s : string) : result A string := from_str_as type_name de s.

Lemma from_to_json `{!SerdeJsonLaws SJ, !CodecOk A} a : valid a -> from_json (to_json a) = Ok a.
Proof. intros Ha. apply from_str_as_to_string; [by apply wf_en|by apply de_en]. Qed.
End CodecText.

#[export] Instance string_map_codec : Codec (gmap string string) := {|
  type_name := "a map"; en := en_string_map; de := de_string_map; valid _ := True |}.
#[export] Instance string_map_codec_ok : CodecOk (gmap string string).
Proof. constructor; intros m _; [apply de_en_string_map|apply wf_en_string_map]. Qed.

#[export] Hint Resolve obj_insert_NoDup wf_en_string_map : durable.
