(* ===== verification/JsonText.v ===== *)
(** A concrete text format for [Json.value].

    An instance of the interface [SerdeJson] on the integer-number fragment,
    without white space: compact printing and a recursive-descent parser, with
    the proof that it satisfies [SerdeJsonLaws].  The library's theorems are
    proved for every instance; this one shows that the interface can be
    implemented and lets concrete runs be computed. *)
From S2P Require Import Prelude RustString Json.

Definition dq : ascii := "034".

(** ** Printing *)

Fixpoint escape (s : string) : string :=
  match s with
  | "" => ""
  | String c s' =>
      if Ascii.eqb c dq then String "\" (String dq (escape s'))
      else if Ascii.eqb c "\" then String "\" (String "\" (escape s'))
      else if Ascii.eqb c "010" then String "\" (String "n" (escape s'))
      else String c (escape s')
  end.

Definition print_string (s : string) : string :=
  String dq (escape s +:+ String dq "").

Definition print_number (n : number) : string :=
  match n with
  | PosInt n => show_N n
  | NegInt z => "-" +:+ show_N (Z.abs_N z)
  | Float bits => show_Z bits +:+ ".0"
  end.

Fixpoint print_value (v : value) : string :=
  match v with
  | Null => "null"
  | Bool true => "true"
  | Bool false => "false"
  | Number n => print_number n
  | JString s => print_string s
  | Array l => "[" +:+ join "," (map print_value l) +:+ "]"
  | Object l =>
      "{" +:+ join "," (map (fun kv => print_string (fst kv) +:+ ":" +:+ print_value (snd kv)) l)
          +:+ "}"
  end.

(** ** Parsing *)

Fixpoint parse_string_body (s : string) : option (string * string) :=
  match s with
  | "" => None
  | String c s' =>
      if Ascii.eqb c dq then Some ("", s')
      else if Ascii.eqb c "\" then
        match s' with
        | String e s'' =>
            let e' := if Ascii.eqb e "n" then "010"%char else e in
            (fun '(a, r) => (String e' a, r)) <$> parse_string_body s''
        | "" => None
        end
      else (fun '(a, r) => (String c a, r)) <$> parse_string_body s'
  end.
Definition parse_string (s : string) : option (string * string) :=
  match s with
  | String c s' => if Ascii.eqb c dq then parse_string_body s' else None
  | "" => None
  end.

Fixpoint take_digits (s : string) : string * string :=
  match s with
  | String c s' =>
      if is_ascii_digit c then let '(a, b) := take_digits s' in (String c a, b) else ("", s)
  | "" => ("", "")
  end.

Definition parse_number (s : string) : option (number * string) :=
  match s with
  | String "-" s' =>
      let '(d, r) := take_digits s' in
      n ← read_N d;
      if (0 <? n)%N && (Z.of_N n <=? - i64_min)%Z then Some (NegInt (- Z.of_N n), r) else None
  | _ =>
      let '(d, r) := take_digits s in
      n ← read_N d;
      if (n <=? u64_max)%N then Some (PosInt n, r) else None
  end.

(** A non-empty sequence separated by commas and ended by [close]. *)
Fixpoint parse_seq {A} (elem : string -> option (A * string)) (close : ascii) (fuel : nat)
    (s : string) : option (list A * string) :=
  match fuel with
  | O => None
  | S fuel' =>
      '(a, r) ← elem s;
      match r with
      | String c r' =>
          if Ascii.eqb c close then Some ([a], r')
          else if Ascii.eqb c "," then
            (fun '(l, r'') => (a :: l, r'')) <$> parse_seq elem close fuel' r'
          else None
      | "" => None
      end
  end.

Definition parse_member {A} (elem : string -> option (A * string)) (s : string)
  : option ((string * A) * string) :=
  '(k, r) ← parse_string s;
  match r with
  | String c r' =>
      if Ascii.eqb c ":" then (fun '(v, r'') => ((k, v), r'')) <$> elem r' else None
  | "" => None
  end.

(** Later members overwrite earlier ones with the same key. *)
Definition collect_members (l : members) : members :=
  fold_left (fun m kv => obj_insert (fst kv) (snd kv) m) l [].

Fixpoint parse_value (fuel : nat) (s : string) : option (value * string) :=
  match fuel with
  | O => None
  | S fuel' =>
      match s with
      | "" => None
      | String c s' =>
          if Ascii.eqb c "n" then pair Null <$> strip_prefix "ull" s'
          else if Ascii.eqb c "t" then pair (Bool true) <$> strip_prefix "rue" s'
          else if Ascii.eqb c "f" then pair (Bool false) <$> strip_prefix "alse" s'
          else if Ascii.eqb c dq then
            (fun '(a, r) => (JString a, r)) <$> parse_string_body s'
          else if Ascii.eqb c "[" then
            match strip_prefix "]" s' with
            | Some r => Some (Array [], r)
            | None => (fun '(l, r) => (Array l, r)) <$> parse_seq (parse_value fuel') "]" fuel s'
            end
          else if Ascii.eqb c "{" then
            match strip_prefix "}" s' with
            | Some r => Some (Object [], r)
            | None =>
                (fun '(l, r) => (Object (collect_members l), r)) <$>
                  parse_seq (parse_member (parse_value fuel')) "}" fuel s'
            end
          else (fun '(n, r) => (Number n, r)) <$> parse_number s
      end
  end.

Definition syntax_error (s : string) : string := "expected value at line 1 column 1".

Definition text_from_str (s : string) : result value string :=
  match parse_value (S (String.length s)) s with
  | Some (v, "") => Ok v
  | _ => Err (syntax_error s)
  end.

(** The members of an object, each value as its compact text. *)
Definition text_raw_object (s : string) : result (list (string * string)) string :=
  let? v := text_from_str s in
  let? l := ok_or (as_object v) (syntax_error s) in
  Ok (map (fun kv => (fst kv, print_value (snd kv))) l).

Definition text_raw_array (s : string) : result (list string) string :=
  let? v := text_from_str s in
  let? l := ok_or (as_array v) (syntax_error s) in
  Ok (map print_value l).

Definition print_raw_object (l : list (string * string)) : string :=
  "{" +:+ join "," (map (fun kv => print_string (fst kv) +:+ ":" +:+ snd kv) l) +:+ "}".
Definition print_raw_array (l : list string) : string := "[" +:+ join "," l +:+ "]".

Definition text_json : SerdeJson := {|
  value_from_str := text_from_str;
  value_to_string := print_value;
  number_to_string := print_number;
  raw_object := text_raw_object;
  raw_array := text_raw_array;
  raw_object_to_string := print_raw_object;
  raw_array_to_string := print_raw_array;
  type_error ty s := "invalid type: expected " +:+ ty;
|}.

(** ** Round trip *)

Lemma parse_string_body_escape s r :
  parse_string_body (escape s +:+ String dq r) = Some (s, r).
Proof.
  induction s as [|c s IH]; [done|]. cbn [escape].
  destruct (Ascii.eqb_spec c dq) as [->|H1]; [cbn; by rewrite IH|].
  destruct (Ascii.eqb_spec c "\") as [->|H2]; [cbn; by rewrite IH|].
  destruct (Ascii.eqb_spec c "010") as [->|H3]; [cbn; by rewrite IH|].
  apply Ascii.eqb_neq in H1, H2. cbn [parse_string_body String.append].
  rewrite H1, H2, IH. done.
Qed.

Definition digit_free_head (r : string) : Prop :=
  match r with String c _ => is_ascii_digit c = false | "" => True end.

Lemma take_digits_app d r :
  str_forall is_ascii_digit d = true -> digit_free_head r -> take_digits (d +:+ r) = (d, r).
Proof.
  intros Hd Hr. induction d as [|c d IH]; simpl in *.
  - destruct r as [|c r]; [done|]. simpl in *. by rewrite Hr.
  - apply andb_true_iff in Hd as [-> Hd]. by rewrite IH.
Qed.

Lemma parse_number_show n r :
  wf_number n = true -> digit_free_head r ->
  parse_number (print_number n +:+ r) = Some (n, r).
Proof.
  intros Hwf Hr. destruct n as [n|z|bits]; cbn [print_number wf_number] in *; [| |done].
  - unfold parse_number. pose proof (show_N_digits n) as Hd.
    pose proof (show_N_nonempty n) as Hn. pose proof (take_digits_app (show_N n) r Hd Hr) as Ht.
    pose proof (read_show_N n) as Hread. revert Ht Hd Hread Hn.
    generalize (show_N n) as d. intros d Ht Hd Hread Hn. destruct d as [|c d]; [done|].
    cbn [String.append] in *.
    assert (Hc : Ascii.eqb c "-" = false).
    { apply andb_true_iff in Hd as [Hc _]. by destruct (Ascii.eqb_spec c "-") as [->|]. }
    assert (E : forall (X Y : option (number * string)),
      match String c (d +:+ r) with String "-" _ => X | _ => Y end = Y).
    { intros X Y. destruct c as [[] [] [] [] [] [] [] []]; first [done | discriminate Hc]. }
    rewrite Ht. cbn [mbind]. rewrite Hread. cbn.
    rewrite Hwf. destruct c as [[] [] [] [] [] [] [] []]; first [done | discriminate Hc].
  - apply andb_true_iff in Hwf as [H1 H2]. apply Z.leb_le in H1. apply Z.ltb_lt in H2.
    unfold parse_number. cbn [String.append].
    rewrite take_digits_app by (apply show_N_digits || done).
    rewrite read_show_N. cbn.
    destruct (N.ltb_spec 0 (Z.abs_N z)); [|lia].
    destruct (Z.leb_spec (Z.of_N (Z.abs_N z)) (- i64_min)); [|lia].
    cbn. repeat f_equal. lia.
Qed.

Lemma collect_members_app m l :
  NoDup (map fst (m ++ l)) ->
  fold_left (fun m kv => obj_insert (fst kv) (snd kv) m) l m = m ++ l.
Proof.
  revert m. induction l as [|[k v] l IH]; intros m Hnd; simpl; [by rewrite app_nil_r|].
  assert (Hins : obj_insert k v m = m ++ [(k, v)]).
  { rewrite map_app in Hnd. apply NoDup_app in Hnd as (_ & Hd & _).
    assert (Hk : k ∉ map fst m) by (intros Hk; apply Hd in Hk; set_solver).
    clear -Hk. induction m as [|[k' v'] m IHm]; [done|]. simpl in *.
    destruct (String.eqb_spec k k') as [->|]; [set_solver|]. rewrite IHm; [done|set_solver]. }
  rewrite Hins, IH; rewrite <- app_assoc; done.
Qed.

Lemma collect_members_nodup l : NoDup (map fst l) -> collect_members l = l.
Proof. apply (collect_members_app []). Qed.

(** A sequence parser inverts the printed sequence of elements it inverts. *)
Lemma parse_seq_join {A} (elem : string -> option (A * string)) (show : A -> string) close l rest :
  Ascii.eqb "," close = false -> l <> [] ->
  (forall a r, a ∈ l -> match r with String c _ => c = close \/ c = ","%char | "" => False end ->
     elem (show a +:+ r) = Some (a, r)) ->
  forall fuel, (length l <= fuel)%nat ->
  parse_seq elem close fuel (join "," (map show l) +:+ String close rest) = Some (l, rest).
Proof.
  intros Hclose Hne Helem. induction l as [|a l IH]; [done|]. clear Hne.
  intros [|fuel] Hf; [simpl in Hf; lia|]. cbn [parse_seq].
  destruct l as [|b l].
  - change (join "," (map show [a])) with (show a).
    rewrite Helem; [|set_solver|by left]. simpl. by rewrite Ascii.eqb_refl.
  - assert (E : join "," (map show (a :: b :: l)) +:+ String close rest =
        show a +:+ String "," (join "," (map show (b :: l)) +:+ String close rest)).
    { unfold join. change (String.concat "," (map show (a :: b :: l)))
        with (show a +:+ "," +:+ String.concat "," (map show (b :: l))).
      by rewrite !str_app_assoc. }
    rewrite E, Helem; [|set_solver|by right]. cbn [mbind option_bind]. rewrite Hclose. cbv iota. cbn [Ascii.eqb Bool.eqb].
    rewrite IH; [done|done| |simpl in Hf |- *; lia].
    intros a' r Ha'. apply Helem. set_solver.
Qed.

Lemma in_join_length s l : s ∈ l -> (String.length s <= String.length (join "," l))%nat.
Proof.
  unfold join. induction l as [|a l IH]; [set_solver|]. intros [->|Hs]%elem_of_cons.
  - destruct l; simpl; [lia|]. rewrite str_length_app. lia.
  - apply IH in Hs. destruct l; [simpl in Hs |- *; destruct s; simpl in *; lia|].
    change (String.concat "," (a :: s0 :: l)) with (a +:+ "," +:+ String.concat "," (s0 :: l)).
    rewrite !str_length_app. lia.
Qed.

Lemma join_length_ge l :
  (forall s, s ∈ l -> (1 <= String.length s)%nat) -> (length l <= String.length (join "," l))%nat.
Proof.
  unfold join. induction l as [|a l IH]; [simpl; lia|]. intros H.
  destruct l as [|b l]; [simpl; apply H; set_solver|].
  change (String.concat "," (a :: b :: l)) with (a +:+ "," +:+ String.concat "," (b :: l)).
  rewrite !str_length_app. assert (1 <= String.length a)%nat by (apply H; set_solver).
  assert (length (b :: l) <= String.length (String.concat "," (b :: l)))%nat
    by (apply IH; intros s Hs; apply H; set_solver).
  simpl in *. lia.
Qed.

Lemma print_value_nonempty v : (1 <= String.length (print_value v))%nat.
Proof.
  destruct v as [|[]|[]| | |]; simpl; try lia.
  - pose proof (show_N_nonempty n). destruct (show_N n); simpl; [done|lia].
  - rewrite str_length_app. simpl. lia.
Qed.

Lemma parse_string_print s r : parse_string (print_string s +:+ r) = Some (s, r).
Proof.
  unfold parse_string, print_string. cbn [String.append]. rewrite Ascii.eqb_refl.
  rewrite str_app_assoc. apply (parse_string_body_escape s r).
Qed.

Lemma parse_member_print {A} (elem : string -> option (A * string)) k r :
  parse_member elem (print_string k +:+ (":" +:+ r)) =
  (fun '(v, r'') => ((k, v), r'')) <$> elem r.
Proof. unfold parse_member. by rewrite parse_string_print. Qed.

(** What may follow a printed value. *)
Definition stop_head (r : string) : Prop :=
  match r with
  | "" => True
  | String c _ => c = ","%char \/ c = "]"%char \/ c = "}"%char
  end.
Lemma stop_head_digit r : stop_head r -> digit_free_head r.
Proof. destruct r as [|c r]; [done|]. simpl. by intros; destruct_or!; subst. Qed.

Lemma strip_prefix_ne c d p s : d <> c -> strip_prefix (String c p) (String d s) = None.
Proof.
  intros H. cbn [strip_prefix]. by destruct (Ascii.eqb_spec c d) as [->|].
Qed.

Lemma print_value_head v :
  wf_value v = true ->
  exists c s, print_value v = String c s /\ c <> "]"%char /\ c <> "}"%char.
Proof.
  destruct v as [|[]|n| | |]; intros Hwf; try (do 2 eexists; split; [reflexivity|split; done]).
  destruct n as [n|z|]; [|by do 2 eexists|done]. simpl.
  pose proof (show_N_nonempty n). destruct (show_N n) as [|c s] eqn:E; [done|].
  apply show_N_head in E. do 2 eexists; split; [done|].
  split; intros ->; done.
Qed.

(** With this much fuel a printed value is read back, and what follows is left. *)
Definition prints_back (fuel : nat) : Prop := forall v r,
  wf_value v = true -> stop_head r -> (String.length (print_value v) < fuel)%nat ->
  parse_value fuel (print_value v +:+ r) = Some (v, r).

Lemma prints_back_number fuel n r :
  wf_value (Number n) = true -> stop_head r ->
  parse_value (S fuel) (print_value (Number n) +:+ r) = Some (Number n, r).
Proof.
  intros Hwf Hr.
  pose proof (parse_number_show n r Hwf (stop_head_digit r Hr)) as Hn.
  cbn [parse_value print_value]. destruct (print_number n) as [|c t] eqn:E.
  { destruct n as [n|z|]; simpl in E; [by apply show_N_nonempty in E|done|done]. }
  assert (Hc : is_ascii_digit c = true \/ c = "-"%char).
  { destruct n as [n|z|]; simpl in E; [left; by eapply show_N_head|right; by injection E|done]. }
  change (String c t +:+ r) with (String c (t +:+ r)) in *. cbv iota beta.
  assert (Hne : forall d, is_ascii_digit d = false -> d <> "-"%char -> Ascii.eqb c d = false).
  { intros d Hd Hd'. apply Ascii.eqb_neq. intros ->. destruct Hc; congruence. }
  rewrite !Hne by done. by rewrite Hn.
Qed.

Lemma prints_back_array fuel l r :
  prints_back fuel -> wf_value (Array l) = true -> stop_head r ->
  (String.length (print_value (Array l)) < S fuel)%nat ->
  parse_value (S fuel) (print_value (Array l) +:+ r) = Some (Array l, r).
Proof.
  intros IH Hwf Hr Hf.
  cbn [print_value] in *. simpl wf_value in Hwf. rewrite forallb_forall in Hwf.
  rewrite !str_length_app in Hf. change (String.length "[") with 1%nat in Hf.
  rewrite !str_app_assoc. cbn [parse_value String.append].
  change (Ascii.eqb "[" "n") with false. change (Ascii.eqb "[" "t") with false.
  change (Ascii.eqb "[" "f") with false. change (Ascii.eqb "[" dq) with false.
  change (Ascii.eqb "[" "[") with true. cbv iota.
  destruct l as [|v l]; [done|].
  assert (Hhead : strip_prefix "]" (join "," (map print_value (v :: l)) +:+ String "]" r) = None).
  { destruct (print_value_head v) as (c & s & E & Hc & _); [apply Hwf; by left|].
    unfold join. destruct l; cbn [map String.concat]; rewrite E; by apply strip_prefix_ne. }
  change ("" +:+ r) with r. rewrite Hhead.
  rewrite (parse_seq_join _ print_value); [done|done|done| |].
  - intros a r' Ha Hr'. apply IH.
    + apply Hwf. by apply list_elem_of_In.
    + destruct r' as [|c' r']; [done|]. simpl. by destruct Hr' as [Hr'|Hr']; rewrite Hr'; auto.
    + assert (String.length (print_value a) <= String.length (join "," (map print_value (v :: l))))%nat.
      { apply in_join_length. apply list_elem_of_In, in_map. by apply list_elem_of_In. }
      lia.
  - rewrite <- (length_map print_value (v :: l)).
    etransitivity; [apply join_length_ge|lia].
    intros s (w & <- & _)%list_elem_of_In%in_map_iff. apply print_value_nonempty.
Qed.

Lemma prints_back_object fuel l r :
  prints_back fuel -> wf_value (Object l) = true -> stop_head r ->
  (String.length (print_value (Object l)) < S fuel)%nat ->
  parse_value (S fuel) (print_value (Object l) +:+ r) = Some (Object l, r).
Proof.
  intros IH Hwf Hr Hf.
  cbn [print_value] in *. simpl wf_value in Hwf. apply andb_true_iff in Hwf as [Hnd Hwf].
  apply bool_decide_eq_true in Hnd. rewrite forallb_forall in Hwf.
  set (show := fun kv : string * value => print_string (fst kv) +:+ ":" +:+ print_value (snd kv)) in *.
  rewrite !str_length_app in Hf. change (String.length "{") with 1%nat in Hf.
  rewrite !str_app_assoc. cbn [parse_value String.append].
  change (Ascii.eqb "{" "n") with false. change (Ascii.eqb "{" "t") with false.
  change (Ascii.eqb "{" "f") with false. change (Ascii.eqb "{" dq) with false.
  change (Ascii.eqb "{" "[") with false. change (Ascii.eqb "{" "{") with true. cbv iota.
  destruct l as [|[k v] l]; [done|].
  assert (Hhead : strip_prefix "}" (join "," (map show ((k, v) :: l)) +:+ String "}" r) = None).
  { unfold join. by destruct l. }
  change ("" +:+ r) with r. rewrite Hhead.
  rewrite (parse_seq_join _ show); [|done|done| |].
  - cbn -[collect_members]. by rewrite collect_members_nodup.
  - intros [k' v'] r' Ha Hr'. unfold show. cbn [fst snd].
    rewrite !str_app_assoc. rewrite parse_member_print. rewrite IH; [done| | |].
    + apply (Hwf (k', v')). by apply list_elem_of_In.
    + destruct r' as [|c' r']; [done|]. simpl. by destruct Hr' as [Hr'|Hr']; rewrite Hr'; auto.
    + assert (String.length (show (k', v')) <= String.length (join "," (map show ((k, v) :: l))))%nat as Hs.
      { apply in_join_length. apply list_elem_of_In, in_map. by apply list_elem_of_In. }
      unfold show in Hs at 1. rewrite !str_length_app in Hs. cbn [fst snd] in Hs. lia.
  - rewrite <- (length_map show ((k, v) :: l)).
    etransitivity; [apply join_length_ge|lia].
    intros s (w & <- & _)%list_elem_of_In%in_map_iff. unfold show.
    rewrite !str_length_app. simpl. lia.
Qed.

Lemma parse_print fuel : prints_back fuel.
Proof.
  induction fuel as [|fuel IH]; intros v r Hwf Hr Hf; [lia|].
  destruct v as [|[]|n|s|l|l]; try done.
  - by apply prints_back_number.
  - cbn [parse_value print_value]. unfold print_string. simpl.
    rewrite str_app_assoc. change (String dq "" +:+ r) with (String dq r).
    by rewrite parse_string_body_escape.
  - by apply prints_back_array.
  - by apply prints_back_object.
Qed.

Lemma text_from_print v : wf_value v = true -> text_from_str (print_value v) = Ok v.
Proof.
  intros Hwf. unfold text_from_str.
  rewrite <- (str_app_nil_r (print_value v)) at 2.
  rewrite parse_print; [done|done|done|]. lia.
Qed.

(** Texts of well-formed values. *)
Definition text_raw_valid (s : string) : Prop :=
  exists v, wf_value v = true /\ s = print_value v.

Lemma raw_valid_values l :
  Forall text_raw_valid l -> exists vs, forallb wf_value vs = true /\ l = map print_value vs.
Proof.
  induction 1 as [|s l (v & Hv & ->) _ (vs & Hvs & ->)]; [by exists []|].
  exists (v :: vs). split; [by simpl; rewrite Hv|done].
Qed.

Lemma raw_valid_members l :
  NoDup (map fst l) -> Forall text_raw_valid (map snd l) ->
  exists vs, wf_value (Object vs) = true /\ print_raw_object l = print_value (Object vs) /\
    map (fun kv => (fst kv, print_value (snd kv))) vs = l.
Proof.
  intros Hnd (vs & Hwf & Hl)%raw_valid_values. exists (combine (map fst l) vs).
  assert (Hlen : length (map fst l) = length vs).
  { rewrite length_map, <- (length_map snd), Hl, length_map. done. }
  assert (E : map (fun kv => (fst kv, print_value (snd kv))) (combine (map fst l) vs) = l).
  { clear Hwf Hnd. revert vs Hl Hlen. induction l as [|[k s] l IH]; intros [|v vs]; simpl; try done.
    intros [= -> Hl] [= Hlen]. by rewrite IH. }
  split_and!; [|unfold print_raw_object|done].
  - simpl. apply andb_true_iff. split.
    + apply bool_decide_eq_true.
      assert (Hk : map fst (combine (map fst l) vs) = map fst l).
      { rewrite <- E at 2. by rewrite map_map. }
      by rewrite Hk.
    + apply forallb_forall. intros [k v] Hin. apply in_combine_r in Hin.
      rewrite forallb_forall in Hwf. auto.
  - rewrite <- E at 1. rewrite map_map. done.
Qed.

#[export] Instance text_json_laws : SerdeJsonLaws text_json.
Proof.
  refine {| raw_valid := text_raw_valid |}.
  - exact text_from_print.
  - intros v Hv. by exists v.
  - intros l Hnd Hl. destruct (raw_valid_members l Hnd Hl) as (vs & Hwf & Hp & _). by exists (Object vs).
  - intros l (vs & Hwf & ->)%raw_valid_values. by exists (Array vs).
  - intros l Hnd Hl. destruct (raw_valid_members l Hnd Hl) as (vs & Hwf & Hp & E).
    change (text_raw_object (print_raw_object l) = Ok l). unfold text_raw_object.
    rewrite Hp, text_from_print by done. cbn [result_bind as_object ok_or]. by rewrite E.
  - intros l (vs & Hwf & ->)%raw_valid_values.
    change (text_raw_array (print_value (Array vs)) = Ok (map print_value vs)).
    unfold text_raw_array. by rewrite text_from_print.
  - intros l. apply starts_with_spec. by eexists.
Defined.

(** ** What the parser returns is well-formed *)

Lemma parse_number_wf s n r : parse_number s = Some (n, r) -> wf_number n = true.
Proof.
  assert (Hpos : forall d r', (n' ← read_N d; if (n' <=? u64_max)%N then Some (PosInt n', r') else None)
    = Some (n, r) -> wf_number n = true).
  { intros d r'. destruct (read_N d) as [k|]; [|done]. cbn [mbind option_bind].
    destruct (k <=? u64_max)%N eqn:E; [|done]. by intros [= <- _]. }
  assert (Hneg : forall d r', (n' ← read_N d; if (0 <? n')%N && (Z.of_N n' <=? - i64_min)%Z
      then Some (NegInt (- Z.of_N n'), r') else None) = Some (n, r) -> wf_number n = true).
  { intros d r'. destruct (read_N d) as [k|]; [|done]. cbn [mbind option_bind].
    destruct (0 <? k)%N eqn:E1; [|done]. destruct (Z.of_N k <=? - i64_min)%Z eqn:E2; [|done].
    intros [= <- _]. cbn [wf_number]. apply N.ltb_lt in E1. apply Z.leb_le in E2.
    apply andb_true_iff. split; [apply Z.leb_le|apply Z.ltb_lt]; lia. }
  unfold parse_number.
  repeat match goal with
  | |- context [match ?x with _ => _ end] => destruct x; eauto
  | |- context [let '(_, _) := ?x in _] => destruct x; eauto
  end.
Qed.

Lemma parse_seq_forall {A} (P : A -> Prop) (elem : string -> option (A * string)) close fuel s l r :
  (forall s a r, elem s = Some (a, r) -> P a) -> parse_seq elem close fuel s = Some (l, r) ->
  Forall P l.
Proof.
  intros He. revert s l r. induction fuel as [|fuel IH]; intros s l r; simpl; [done|].
  destruct (elem s) as [[a r']|] eqn:E; [|done]. cbn [mbind option_bind]. apply He in E.
  destruct r' as [|c r']; [done|]. case_match; [intros [= <- _]; by constructor|].
  case_match; [|done]. destruct (parse_seq elem close fuel r') as [[l' r'']|] eqn:E'; [|done].
  intros [= <- _]. constructor; [done|]. by eapply IH.
Qed.

Lemma collect_members_wf l :
  Forall (fun kv => wf_value (snd kv) = true) l -> wf_value (Object (collect_members l)) = true.
Proof.
  unfold collect_members. intros Hl.
  assert (H : forall m, NoDup (obj_keys m) -> Forall (fun kv => wf_value (snd kv) = true) m ->
    let m' := fold_left (fun m kv => obj_insert (fst kv) (snd kv) m) l m in
    NoDup (obj_keys m') /\ Forall (fun kv => wf_value (snd kv) = true) m').
  { induction Hl as [|[k v] l Hv _ IH]; intros m Hn Hm; simpl; [done|].
    apply IH; [by apply obj_insert_NoDup|by apply obj_insert_forall]. }
  destruct (H [] (NoDup_nil_2) (Forall_nil_2 _)) as [Hn Hf]. simpl. apply andb_true_iff.
  split; [by apply bool_decide_eq_true|]. apply forallb_forall. intros kv Hin.
  rewrite Forall_forall in Hf. by apply Hf, list_elem_of_In.
Qed.

Lemma parse_value_wf fuel s v r : parse_value fuel s = Some (v, r) -> wf_value v = true.
Proof.
  revert s v r. induction fuel as [|fuel IH]; intros s v r; [done|]. cbn [parse_value].
  destruct s as [|c s]; [done|]. do 3 (case_match; [destruct (strip_prefix _ s); by intros [= <- _]|]).
  case_match; [destruct (parse_string_body s) as [[]|]; by intros [= <- _]|].
  case_match.
  { destruct (strip_prefix "]" s); [by intros [= <- _]|].
    destruct (parse_seq _ _ _ _) as [[l r']|] eqn:E; [|done]. intros [= <- _].
    apply (parse_seq_forall (fun v => wf_value v = true)) in E; [|done].
    simpl. apply forallb_forall. intros x Hx. rewrite Forall_forall in E. by apply E, list_elem_of_In. }
  case_match.
  { destruct (strip_prefix "}" s); [by intros [= <- _]|].
    destruct (parse_seq _ _ _ _) as [[l r']|] eqn:E; [|done]. intros [= <- _].
    apply (parse_seq_forall (fun kv => wf_value (snd kv) = true)) in E; [by apply collect_members_wf|].
    intros s' [k x] r''. unfold parse_member. destruct (parse_string s') as [[k' [|c' s'']]|]; [done| |done].
    cbn [mbind option_bind]. case_match; [|done].
    destruct (parse_value fuel s'') as [[x' ?]|] eqn:Ex; [|done]. intros [= _ <- _]. by apply IH in Ex. }
  destruct (parse_number _) as [[n r']|] eqn:E; [|done]. intros [= <- _]. by apply parse_number_wf in E.
Qed.

#[export] Instance text_json_reprints : ReprintLaws text_json.
Proof.
  constructor. intros text l k x H Hx. exists (Object (obj_insert k x l)).
  split; [|apply obj_get_insert_eq]. apply text_from_print.
  change (text_from_str text = Ok (Object l)) in H. unfold text_from_str in H.
  destruct (parse_value _ text) as [[v [|? ?]]|] eqn:E; [|done|done]. simplify_eq.
  apply parse_value_wf in E. by apply wf_obj_insert.
Qed.
