(* ===== verification/Durable.v ===== *)
(** Durable orchestrations as data.

    [duroxide], the durable-execution engine, is a dependency.  An
    orchestration may act only through its [OrchestrationContext], so an
    orchestration body is a value of the free monad [prog] over the operations
    [dop] the program uses: one constructor per context method, [resp] giving
    the type of its answer.  Nothing is assumed of the engine: a run [runs]
    lets it answer each operation with any value of the right type, and every
    theorem about an orchestration quantifies over all runs.  [exec] computes
    the run of a concrete environment.

    [Stopped] covers the two ways a body does not return: [continue_as_new],
    whose future never resolves, and a Rust panic.  [OutOfFuel] marks a model
    recursion cut off by its fuel; it is not a behaviour of the program. *)
From S2P Require Import Prelude.

(** ** Operations of [OrchestrationContext] *)

(** A durable future that has been scheduled and not yet awaited. *)
Definition fut := nat.

Inductive dop : Type :=
| ScheduleActivity (name input : string)
| ScheduleTimer (d : N)
| ScheduleWait (signal : string)
| UtcNow
| CallSubOrchestration (name id input : string)
| StartSubOrchestration (name id input : string)
| StartTimer (d : N)
| StartWait (signal : string)
| Join (fs : list fut)
| Select2Subs (a b : fut)
| Select2WaitTimer (a b : fut).

(** [duroxide::Either2] *)
Inductive either2 (A B : Type) : Type :=
| First (a : A)
| Second (b : B).
Arguments First {A B} a.
Arguments Second {A B} b.

Definition resp (o : dop) : Type :=
  match o with
  | ScheduleActivity _ _ => result string string
  | ScheduleTimer _ => unit
  | ScheduleWait _ => string
  | UtcNow => result Z string
  | CallSubOrchestration _ _ _ => result string string
  | StartSubOrchestration _ _ _ => fut
  | StartTimer _ => fut
  | StartWait _ => fut
  | Join _ => list (result string string)
  | Select2Subs _ _ => either2 (result string string) (result string string)
  | Select2WaitTimer _ _ => either2 string unit
  end.

(** ** Programs *)

Inductive stop : Type :=
| ContinuedAsNew (input : string)
| Panicked (msg : string)
| OutOfFuel.

Inductive prog (A : Type) : Type :=
| Ret (a : A)
| Stop (s : stop)
| Vis (o : dop) (k : resp o -> prog A).
Arguments Ret {A} a.
Arguments Stop {A} s.
Arguments Vis {A} o k.

Fixpoint bind {A B} (p : prog A) (k : A -> prog B) : prog B :=
  match p with
  | Ret a => k a
  | Stop s => Stop s
  | Vis o f => Vis o (fun r => bind (f r) k)
  end.

Definition op (o : dop) : prog (resp o) := Vis o Ret.

(** [let! x := p in k] awaits [p]. *)
Notation "'let!' x ':=' p 'in' k" := (bind p (fun x => k))
  (at level 10, x pattern, p at level 100, k at level 200) : rust_scope.

(** [p.await?]: run [p], stop the function with its error. *)
Definition bind_result {A B E} (p : prog (result A E)) (k : A -> prog (result B E))
  : prog (result B E) :=
  let! r := p in match r with Ok a => k a | Err e => Ret (Err e) end.
Notation "'let!?' x ':=' p 'in' k" := (bind_result p (fun x => k))
  (at level 10, x pattern, p at level 100, k at level 200) : rust_scope.
(** [r?] on a plain [Result], inside an orchestration. *)
Notation "'let~?' x ':=' r 'in' k" := (bind_result (Ret r) (fun x => k))
  (at level 10, x pattern, r at level 100, k at level 200) : rust_scope.

(** Which generation of which instance is running. *)
Record OrchestrationContext := mkContext {
  ctx_instance_id : string;
  ctx_execution_id : N;
}.

(** ** Runs *)

Inductive outcome (A : Type) : Type :=
| Done (a : A)
| Stopped (s : stop).
Arguments Done {A} a.
Arguments Stopped {A} s.

(** An operation with the engine's answer. *)
Record event := Ev { ev_op : dop; ev_resp : resp ev_op }.

(** [runs p tr o]: some engine makes [p] perform the events [tr] and end in
    [o]. *)
Fixpoint runs {A} (p : prog A) (tr : list event) (o : outcome A) : Prop :=
  match p with
  | Ret a => tr = [] /\ o = Done a
  | Stop s => tr = [] /\ o = Stopped s
  | Vis c k => exists r tr', tr = Ev c r :: tr' /\ runs (k r) tr' o
  end.

(** An engine as a function of the history so far. *)
Definition env := list event -> forall o : dop, resp o.

Fixpoint exec {A} (e : env) (hist : list event) (p : prog A) : list event * outcome A :=
  match p with
  | Ret a => ([], Done a)
  | Stop s => ([], Stopped s)
  | Vis c k =>
      let r := e hist c in
      let '(tr, o) := exec e (hist ++ [Ev c r]) (k r) in (Ev c r :: tr, o)
  end.

(** The engine that always gives the same answers: to activities, to the clock,
    to signals, and to subtrees. *)
Definition answering (activity : result string string) (now : Z) (signal : string)
    (subtree : result string string) : env := fun _ o =>
  match o with
  | ScheduleActivity _ _ => activity
  | ScheduleTimer _ => tt
  | ScheduleWait _ => signal
  | UtcNow => Ok now
  | CallSubOrchestration _ _ _ => subtree
  | StartSubOrchestration _ _ _ => 0
  | StartTimer _ => 0
  | StartWait _ => 0
  | Join fs => map (fun _ => subtree) fs
  | Select2Subs _ _ => First subtree
  | Select2WaitTimer _ _ => First signal
  end.

(** Partial-correctness triple over all engines. *)
Definition post {A} (p : prog A) (Q : list event -> outcome A -> Prop) : Prop :=
  forall tr o, runs p tr o -> Q tr o.

(** The operations of a run, without the answers. *)
Definition ops (tr : list event) : list dop := map ev_op tr.

(** ** Projections of a trace *)

Definition activity_of (e : event) : option (string * string) :=
  match ev_op e with ScheduleActivity n i => Some (n, i) | _ => None end.
Definition activities (tr : list event) : list (string * string) := omap activity_of tr.

Definition is_timer (e : event) : bool :=
  match ev_op e with ScheduleTimer _ => true | _ => false end.
Definition timer_of (e : event) : option N :=
  match ev_op e with ScheduleTimer d => Some d | _ => None end.
Definition timers (tr : list event) : list N := omap timer_of tr.

(** ** Facts *)

Lemma exec_runs {A} e hist (p : prog A) :
  runs p (fst (exec e hist p)) (snd (exec e hist p)).
Proof.
  revert hist. induction p as [a|s|c k IH]; intros hist; simpl; [done..|].
  specialize (IH (e hist c) (hist ++ [Ev c (e hist c)])).
  destruct (exec e (hist ++ _) (k (e hist c))) as [tr o]. eauto.
Qed.

Lemma runs_bind {A B} (p : prog A) (k : A -> prog B) tr o :
  runs (bind p k) tr o <->
  (exists tr1 tr2 a, tr = tr1 ++ tr2 /\ runs p tr1 (Done a) /\ runs (k a) tr2 o) \/
  (exists s, o = Stopped s /\ runs p tr (Stopped s)).
Proof.
  revert tr. induction p as [a|s|c f IH]; intros tr; simpl.
  - split.
    + intros H. left. exists [], tr, a. done.
    + intros [(tr1 & tr2 & a' & -> & [-> [= ->]] & Hr) | (s & -> & _ & [=])]. done.
  - split.
    + intros [-> ->]. right. eauto.
    + intros [(tr1 & tr2 & a' & -> & [_ [=]] & Hr) | (s' & -> & -> & [= ->])]. done.
  - split.
    + intros (r & tr' & -> & [(tr1 & tr2 & a & -> & H1 & H2)|(s & -> & H)]%IH).
      * left. exists (Ev c r :: tr1), tr2, a. split_and!; [done| |done]. eauto.
      * right. exists s. split; [done|]. eauto.
    + intros [(tr1 & tr2 & a & -> & (r & tr1' & -> & H1) & H2)|(s & -> & r & tr' & -> & H)].
      * exists r, (tr1' ++ tr2). split; [done|]. apply IH. left. eauto 10.
      * exists r, tr'. split; [done|]. apply IH. right. eauto.
Qed.

Lemma post_ret {A} (a : A) (Q : list event -> outcome A -> Prop) : Q [] (Done a) -> post (Ret a) Q.
Proof. intros H tr o [-> ->]. done. Qed.

Lemma post_stop {A} s (Q : list event -> outcome A -> Prop) : Q [] (Stopped s) -> post (Stop s) Q.
Proof. intros H tr o [-> ->]. done. Qed.

Lemma post_vis {A} c (k : resp c -> prog A) (Q : list event -> outcome A -> Prop) :
  (forall r, post (k r) (fun tr o => Q (Ev c r :: tr) o)) -> post (Vis c k) Q.
Proof. intros H tr o (r & tr' & -> & Hr). by apply H. Qed.

Lemma post_op {A} c (k : resp c -> prog A) (Q : list event -> outcome A -> Prop) :
  (forall r, post (k r) (fun tr o => Q (Ev c r :: tr) o)) -> post (bind (op c) k) Q.
Proof. apply post_vis. Qed.

Lemma post_bind {A B} (p : prog A) (k : A -> prog B) (P : list event -> outcome A -> Prop) Q :
  post p P ->
  (forall tr a, P tr (Done a) -> post (k a) (fun tr' o => Q (tr ++ tr') o)) ->
  (forall tr s, P tr (Stopped s) -> Q tr (Stopped s)) ->
  post (bind p k) Q.
Proof.
  intros Hp Hk Hs tr o [(tr1 & tr2 & a & -> & H1 & H2)|(s & -> & H)]%runs_bind.
  - eapply Hk; eauto.
  - auto.
Qed.

Lemma post_mono {A} (p : prog A) (P Q : list event -> outcome A -> Prop) :
  post p P -> (forall tr o, P tr o -> Q tr o) -> post p Q.
Proof. unfold post. eauto. Qed.

Lemma post_bind_result {A B E} (p : prog (result A E)) (k : A -> prog (result B E)) P Q :
  post p P ->
  (forall tr a, P tr (Done (Ok a)) -> post (k a) (fun tr' o => Q (tr ++ tr') o)) ->
  (forall tr e, P tr (Done (Err e)) -> Q tr (Done (Err e))) ->
  (forall tr s, P tr (Stopped s) -> Q tr (Stopped s)) ->
  post (bind_result p k) Q.
Proof.
  intros Hp Hk He Hs. eapply post_bind; [done| |done].
  intros tr [a|e] H; [by apply Hk|]. apply post_ret. rewrite app_nil_r. auto.
Qed.

Lemma bind_assoc {A B C} (p : prog A) (f : A -> prog B) (g : B -> prog C) tr o :
  runs (bind (bind p f) g) tr o <-> runs (bind p (fun a => bind (f a) g)) tr o.
Proof.
  revert tr. induction p as [a|s|c k IH]; intros tr; simpl; [done..|].
  split; intros (r & tr' & -> & H); exists r, tr'; split; try done; by apply IH.
Qed.

Lemma ops_app tr1 tr2 : ops (tr1 ++ tr2) = ops tr1 ++ ops tr2.
Proof. apply map_app. Qed.

Lemma activities_app tr1 tr2 : activities (tr1 ++ tr2) = activities tr1 ++ activities tr2.
Proof. apply omap_app. Qed.

Lemma timers_app tr1 tr2 : timers (tr1 ++ tr2) = timers tr1 ++ timers tr2.
Proof. apply omap_app. Qed.

(** Takes a hypothesis [runs p tr o] apart along the structure of [p]. *)
Ltac run_step H :=
  lazymatch type of H with
  | runs (Ret _) _ _ => destruct H as [-> ->]
  | runs (Stop _) _ _ => destruct H as [-> ->]
  | runs (Vis _ _) _ _ => destruct H as (? & ? & -> & H); simpl in H
  | runs (bind (op _) _) _ _ => destruct H as (? & ? & -> & H); simpl in H
  | runs (bind (Ret _) _) _ _ => cbn [bind] in H
  | runs (bind_result (Ret _) _) _ _ => unfold bind_result in H at 1; cbn [bind] in H
  end.
