(* ===== verification/Substitution.v ===== *)
(** Conditions and variable substitution ([src/types.rs], lines 667-1280).

    Truthiness of condition results; identifiers; SQL quoting of substituted
    values; the [$name] result references and the [{name}] variables.  Scanning
    is by bytes: every byte the scanners compare with is ASCII, and no byte of a
    multi-byte UTF-8 character is. *)
From S2P Require Import Prelude RustString Json.

(** ** [lower.parse::<f64>()], up to being zero *)

Fixpoint span (p : ascii -> bool) (s : string) : string * string :=
  match s with
  | "" => ("", "")
  | String c s' => if p c then let '(a, b) := span p s' in (String c a, b) else ("", s)
  end.

Definition strip_sign (s : string) : bool * string :=
  match s with
  | String "-" s' => (true, s')
  | String "+" s' => (false, s')
  | _ => (false, s)
  end.

(** The exponent part of a decimal literal; [None] if it is malformed. *)
Definition parse_exponent (s : string) : option Z :=
  match s with
  | "" => Some 0%Z
  | String c s' =>
      if Ascii.eqb c "e" || Ascii.eqb c "E" then
        let '(neg, d) := strip_sign s' in
        (fun n => if neg then (- Z.of_N n)%Z else Z.of_N n) <$> read_N d
      else None
  end.

(** Whether the decimal [m * 10^e] rounds to a non-zero double: it does when it
    exceeds half the least subnormal, 2^-1075. *)
Definition decimal_nonzero (m : N) (e : Z) : bool :=
  if (0 <=? e)%Z then negb (m =? 0)%N
  else (10 ^ (- e) <? Z.of_N m * 2 ^ 1075)%Z.

(** [Some b] when [s.parse::<f64>()] is [Ok n], with [b] being [n != 0.0]. *)
Definition parse_f64_nonzero (s : string) : option bool :=
  let '(_, body) := strip_sign s in
  let low := to_ascii_lowercase body in
  if String.eqb low "inf" || String.eqb low "infinity" || String.eqb low "nan" then Some true
  else
    let '(ip, r) := span is_ascii_digit body in
    let '(fp, r') :=
      match r with String "." r1 => span is_ascii_digit r1 | _ => ("", r) end in
    match read_N (ip +:+ fp) with
    | None => None
    | Some m =>
        (fun e => decimal_nonzero m (e - Z.of_nat (String.length fp))) <$> parse_exponent r'
    end.

(** ** Conditions *)

Definition is_truthy (v : value) : bool :=
  match v with
  | Bool b => b
  | Number n =>
      match number_as_i64 n with Some i => negb (i =? 0)%Z | None => false end
      || number_nonzero_f64 n
  | JString s =>
      let trimmed := trim s in
      if str_is_empty trimmed then false
      else
        let lower := to_lowercase trimmed in
        if existsb (String.eqb lower) ["true"; "t"; "yes"] then true
        else if existsb (String.eqb lower) ["false"; "f"; "no"] then false
        else match parse_f64_nonzero lower with Some b => b | None => true end
  | Array a => match a with [] => false | _ => true end
  | Object o => match o with [] => false | _ => true end
  | Null => false
  end.

(** The first column of the first row, when the JSON has one. *)
Definition first_cell (rows : list value) : option value :=
  match rows with
  | row :: _ => obj ← as_object row; match obj with (_, v) :: _ => Some v | [] => None end
  | [] => None
  end.

Section Evaluate.
Context {SJ : SerdeJson}.

Definition evaluate_condition (res : string) : result bool string :=
  match value_from_str res with
  | Ok json =>
      match get "rows" json ≫= as_array with
      | Some [] => Ok false
      | Some rows =>
          match first_cell rows with
          | Some v => Ok (is_truthy v)
          | None => Ok (is_truthy json)
          end
      | None => Ok (is_truthy json)
      end
  | Err _ => Ok (is_truthy (JString res))
  end.
End Evaluate.

(** ** Quoting *)

Inductive SqlQuotingVersion := Legacy | V1.
#[export] Instance SqlQuotingVersion_eq_dec : EqDecision SqlQuotingVersion.
Proof. solve_decision. Defined.

Definition is_legacy (q : SqlQuotingVersion) : bool :=
  match q with Legacy => true | V1 => false end.

(** [postgres_protocol::escape::escape_literal], a dependency. *)
Class PgEscape : Type := { escape_literal : string -> string }.

Record SystemVars := { sys_instance_id : string; sys_label : option string }.

(** ** Identifiers *)

Definition is_ident_start (c : ascii) : bool := is_ascii_alphabetic c || Ascii.eqb c "_".
Definition is_ident_continue (c : ascii) : bool := is_ascii_alphanumeric c || Ascii.eqb c "_".

Definition parse_identifier (s : string) : string :=
  match s with
  | String c _ => if is_ident_start c then fst (span is_ident_continue s) else ""
  | "" => ""
  end.

Definition validate_result_name (name : string) : result unit string :=
  if str_is_empty name then Err "result name cannot be empty"
  else if negb (Nat.eqb (String.length (parse_identifier name)) (String.length name)) then
    Err ("result name '" +:+ name +:+
         "' is not a valid identifier — must match [a-zA-Z_][a-zA-Z0-9_]*")
  else Ok tt.

(** The double quote, [U+0022]. *)
Definition dquote : ascii := "034".
(** A message's quoted name. *)
Definition in_quotes (s : string) : string := String dquote (s +:+ String dquote "").
Definition quote_identifier (name : string) : string :=
  String dquote (replace_char dquote (String dquote (String dquote "")) name)
    +:+ String dquote "".

Definition MAX_ROWSET_EXPANSION : N := 10000.

Definition bool_to_string (b : bool) : string := if b then "true" else "false".

Section Substitute.
Context {SJ : SerdeJson} {PE : PgEscape}.
Implicit Types (results vars : gmap string string) (q : option SqlQuotingVersion).

Definition quote_literal (v : SqlQuotingVersion) (s : string) : string :=
  match v with
  | Legacy => "'" +:+ replace_char "'" "''" s +:+ "'"
  | V1 => escape_literal s
  end.

Definition format_value (val : value) q : string :=
  match val with
  | JString s => match q with Some v => quote_literal v s | None => s end
  | Number n =>
      let text := number_to_string n in
      if bool_decide (q = Some V1) && starts_with "-" text then " " +:+ text else text
  | Bool b => bool_to_string b
  | _ =>
      match q with
      | Some v => quote_literal v (value_to_string val)
      | None => value_to_string val
      end
  end.

Definition extract_first_column_value (name json_str : string) (null_safe : bool) q
    : result string string :=
  let raw := match q with Some v => quote_literal v json_str | None => json_str end in
  match value_from_str json_str with
  | Err _ => Ok raw
  | Ok json =>
      match get "rows" json ≫= as_array with
      | Some [] =>
          if null_safe then Ok "NULL"
          else Err ("$" +:+ name +:+ " has no rows — query returned zero results")
      | Some (row :: _) =>
          let? first_row := ok_or (as_object row)
              ("$" +:+ name +:+ ": first row is not an object") in
          match first_row with
          | [] => Err ("$" +:+ name +:+ ": first row has no columns")
          | (_, val) :: _ =>
              if is_null val then
                if null_safe then Ok "NULL"
                else Err ("$" +:+ name +:+ " is NULL — first column of first row is NULL")
              else Ok (format_value val q)
          end
      | None => Ok raw
      end
  end.

Definition extract_column_value (name json_str col : string) (null_safe : bool) q
    : result string string :=
  let? json := map_err (fun _ => "$" +:+ name +:+ "." +:+ col +:+ ": result is not valid JSON")
      (value_from_str json_str) in
  let pick (fields : members) : result string string :=
    match obj_get col fields with
    | None =>
        if negb (bool_decide (is_Some q)) && negb null_safe then
          Err ("$" +:+ name +:+ "." +:+ col +:+ ": result has no field '" +:+ col +:+
               "' (available: " +:+ join ", " (sort_strings (obj_keys fields)) +:+ ")")
        else Ok ("$" +:+ name +:+ "." +:+ col +:+ (if null_safe then "?" else ""))
    | Some val =>
        if is_null val then
          if null_safe then Ok "NULL"
          else Err ("$" +:+ name +:+ "." +:+ col +:+ " is NULL")
        else Ok (format_value val q)
    end in
  match get "rows" json ≫= as_array with
  | Some [] =>
      if null_safe then Ok "NULL"
      else Err ("$" +:+ name +:+ " has no rows — query returned zero results")
  | Some (row :: _) =>
      let? fields := ok_or (as_object row)
          ("$" +:+ name +:+ "." +:+ col +:+ ": first row is not an object") in
      pick fields
  | None =>
      let? fields := ok_or (as_object json)
          ("$" +:+ name +:+ "." +:+ col +:+ ": result is neither a row set nor a JSON object") in
      pick fields
  end.

(** One cell of a [VALUES] row. *)
Definition row_cell (v : SqlQuotingVersion) (obj : members) (col : string) : string :=
  match obj_get col obj with
  | Some (JString s) => quote_literal v s +:+ "::text"
  | Some (Number n) => number_to_string n
  | Some (Bool b) => bool_to_string b
  | Some Null | None => "NULL"
  | Some other => quote_literal v (value_to_string other) +:+ "::text"
  end.

Definition expand_row_set (name json_str : string) q : result string string :=
  let? json := map_err (fun e => "$" +:+ name +:+ ".* — invalid result JSON: " +:+ e)
      (value_from_str json_str) in
  let? rows := ok_or (get "rows" json ≫= as_array)
      ("$" +:+ name +:+ ".* — invalid result format") in
  if (MAX_ROWSET_EXPANSION <? N.of_nat (length rows))%N then
    Err ("$" +:+ name +:+ ".* — result has " +:+ show_nat (length rows) +:+
         " rows, exceeding the maximum of " +:+ show_N MAX_ROWSET_EXPANSION +:+
         " for row-set expansion. " +:+
         "Use pagination or intermediate tables for large result sets.")
  else
    match q with
    | None => Ok (value_to_string (Array rows))
    | Some v =>
        let quoted_name := quote_identifier name in
        match rows with
        | [] => Ok ("(SELECT NULL WHERE false) AS " +:+ quoted_name)
        | row0 :: _ =>
            let not_obj := "$" +:+ name +:+ ".* — row is not an object" in
            let? first_obj := ok_or (as_object row0) not_obj in
            let col_names := obj_keys first_obj in
            let? value_rows := collect_results
                (fun row =>
                  let? obj := ok_or (as_object row) not_obj in
                  Ok ("(" +:+ join "," (map (row_cell v obj) col_names) +:+ ")")) rows in
            Ok ("(VALUES " +:+ join ", " value_rows +:+ ") AS " +:+ quoted_name +:+ "(" +:+
                join ", " (map quote_identifier col_names) +:+ ")")
        end
    end.

(** One result name tried after a dollar sign: [None] when it does not match
    here, else the replacement and the bytes consumed after the dollar. *)
Definition try_name results q (name after_dollar : string)
    : option (result (string * nat) string) :=
  match strip_prefix name after_dollar with
  | None => None
  | Some after_name =>
      let json_str := default "" (results !! name) in
      let n := String.length name in
      let scalar_null_safe :=
        map_ok (fun r => (r, n + 1)%nat) (extract_first_column_value name json_str true q) in
      let scalar :=
        map_ok (fun r => (r, n)) (extract_first_column_value name json_str false q) in
      let bare :=
        match after_name with
        | "" => Some scalar
        | String "?" _ => Some scalar_null_safe
        | String c _ => if is_ident_continue c then None else Some scalar
        end in
      if starts_with ".*" after_name then
        Some (map_ok (fun r => (r, n + 2)%nat) (expand_row_set name json_str q))
      else
        match after_name with
        | String "." after_dot =>
            let col := parse_identifier after_dot in
            if str_is_empty col then bare
            else
              let null_safe := starts_with "?" (str_drop (String.length col) after_dot) in
              Some (map_ok
                    (fun r => (r, n + 1 + String.length col + (if null_safe then 1 else 0))%nat)
                    (extract_column_value name json_str col null_safe q))
        | _ => bare
        end
  end.

Fixpoint try_names results q (names : list string) (after_dollar : string)
    : option (result (string * nat) string) :=
  match names with
  | [] => None
  | name :: names' =>
      match try_name results q name after_dollar with
      | Some r => Some r
      | None => try_names results q names' after_dollar
      end
  end.

(** The scan loop; [skip] counts bytes already consumed by a match. *)
Fixpoint substitute_scan results q (names : list string) (skip : nat) (s : string)
    : result string string :=
  match s with
  | "" => Ok ""
  | String c s' =>
      match skip with
      | S k => substitute_scan results q names k s'
      | O =>
          if negb (Ascii.eqb c "$") then
            let? rest := substitute_scan results q names O s' in Ok (String c rest)
          else
            match try_names results q names s' with
            | Some r =>
                let? (replacement, consumed) := r in
                let? rest := substitute_scan results q names consumed s' in
                Ok (replacement +:+ rest)
            | None =>
                let? rest := substitute_scan results q names O s' in Ok (String "$" rest)
            end
      end
  end.

(** Longest first: [names.sort_by_key(|name| Reverse(name.len()))]. *)
Definition longer (a b : string) : Prop := (String.length b <= String.length a)%nat.
#[export] Instance longer_dec : RelDecision longer.
Proof. intros a b. unfold longer. apply _. Defined.

Definition substitute_results (input : string) results q : result string string :=
  if decide (results = ∅) then Ok input
  else
    let names := merge_sort longer (map fst (map_to_list results)) in
    substitute_scan results q names 0 input.

(** ** [{name}] variables *)

(** What [{name}] stands for; [None] leaves the text alone. *)
Definition braced_value vars (sys : SystemVars) (name : string) : option string :=
  if String.eqb name "sys_instance_id" then Some (sys_instance_id sys)
  else if String.eqb name "sys_label" then Some (default "" (sys_label sys))
  else if Nat.eqb (String.length (parse_identifier name)) (String.length name)
  then vars !! name
  else None.

Fixpoint substitute_braced_go vars (sys : SystemVars) (fuel : nat) (remaining : string)
    : string :=
  match fuel with
  | O => remaining
  | S fuel' =>
      match split_once_char "{" remaining with
      | None => remaining
      | Some (before, after_open) =>
          match split_once_char "}" after_open with
          | None => remaining
          | Some (name, rest) =>
              before +:+ default ("{" +:+ name +:+ "}") (braced_value vars sys name)
                +:+ substitute_braced_go vars sys fuel' rest
          end
      end
  end.

Definition substitute_braced_variables (template : string) vars (sys : SystemVars) : string :=
  substitute_braced_go vars sys (S (String.length template)) template.

Definition substitute_all_with_options (query : string) results vars (sys : SystemVars) q
    : result string string :=
  substitute_results (substitute_braced_variables query vars sys) results q.

Definition substitute_all (query : string) results vars sys : result string string :=
  substitute_all_with_options query results vars sys (Some V1).

Definition substitute_all_raw (query : string) results vars sys : result string string :=
  substitute_all_with_options query results vars sys None.

Definition substitute_variables (query : string) results : result string string :=
  substitute_all query results ∅ {| sys_instance_id := ""; sys_label := None |}.
End Substitute.

Definition is_whole_value_reference (v : string) : bool :=
  let v := trim v in
  match v with
  | String "$" rest =>
      let name := parse_identifier rest in
      if str_is_empty name then false
      else
        let rest := str_drop (String.length name) rest in
        match rest with
        | String "." after_dot =>
            let col := parse_identifier after_dot in
            if str_is_empty col then false
            else let rest := str_drop (String.length col) after_dot in
                 str_is_empty rest || String.eqb rest "?"
        | _ => str_is_empty rest || String.eqb rest "?"
        end
  | String "{" rest =>
      let name := parse_identifier rest in
      negb (str_is_empty name) && String.eqb (str_drop (String.length name) rest) "}"
  | _ => false
  end.

(** ** Specifications *)

(** [{name}] substitution as a two-state machine over the template: outside a
    placeholder, or inside one whose name so far is [acc]. *)
Fixpoint braced_spec (vars : gmap string string) (sys : SystemVars) (pending : option string)
    (s : string) : string :=
  match s with
  | "" => match pending with None => "" | Some acc => "{" +:+ acc end
  | String c s' =>
      match pending with
      | None =>
          if Ascii.eqb c "{" then braced_spec vars sys (Some "") s'
          else String c (braced_spec vars sys None s')
      | Some acc =>
          if Ascii.eqb c "}"
          then default ("{" +:+ acc +:+ "}") (braced_value vars sys acc)
                 +:+ braced_spec vars sys None s'
          else braced_spec vars sys (Some (acc +:+ String c "")) s'
      end
  end.

(** ** Facts: braces *)

Lemma split_once_char_Some c s l r :
  split_once_char c s = Some (l, r) -> s = l +:+ String c r /\ char_free c l = true.
Proof.
  revert l. induction s as [|a s IH]; intros l; simpl; [done|].
  destruct (Ascii.eqb_spec a c) as [->|Hac].
  - by intros [= <- <-].
  - intros ([l' r'] & H & [= -> ->])%fmap_Some. apply IH in H as [-> Hl].
    split; [done|]. by apply char_free_cons.
Qed.

Lemma split_once_char_None c s : split_once_char c s = None -> char_free c s = true.
Proof.
  induction s as [|a s IH]; simpl; [done|].
  destruct (Ascii.eqb_spec a c) as [->|Hac]; [done|].
  intros H%fmap_None. apply char_free_cons. auto.
Qed.

Lemma split_once_char_app c l r :
  char_free c l = true -> split_once_char c (l +:+ String c r) = Some (l, r).
Proof.
  induction l as [|a l IH]; simpl.
  - by rewrite Ascii.eqb_refl.
  - intros [Ha Hl]%char_free_cons. apply Ascii.eqb_neq in Ha as ->. by rewrite IH.
Qed.

Section BracedFacts.
Context (vars : gmap string string) (sys : SystemVars).

Lemma braced_spec_outside l s :
  char_free "{" l = true ->
  braced_spec vars sys None (l +:+ s) = l +:+ braced_spec vars sys None s.
Proof.
  induction l as [|a l IH]; [done|]. intros [Ha Hl]%char_free_cons. simpl.
  apply Ascii.eqb_neq in Ha as ->. by rewrite IH.
Qed.

Lemma braced_spec_inside acc name r :
  char_free "}" name = true ->
  braced_spec vars sys (Some acc) (name +:+ String "}" r) =
    default ("{" +:+ (acc +:+ name) +:+ "}") (braced_value vars sys (acc +:+ name))
    +:+ braced_spec vars sys None r.
Proof.
  revert acc. induction name as [|a name IH]; intros acc.
  - intros _. simpl. by rewrite str_app_nil_r.
  - intros [Ha Hn]%char_free_cons. simpl. apply Ascii.eqb_neq in Ha as ->.
    rewrite IH by done.
    assert ((acc +:+ String a "") +:+ name = acc +:+ String a name) as ->; [|done].
    by rewrite str_app_assoc.
Qed.

Lemma braced_spec_unclosed acc s :
  char_free "}" s = true -> braced_spec vars sys (Some acc) s = "{" +:+ acc +:+ s.
Proof.
  revert acc. induction s as [|a s IH]; intros acc.
  - intros _. simpl. by rewrite str_app_nil_r.
  - intros [Ha Hs]%char_free_cons. simpl. apply Ascii.eqb_neq in Ha as ->.
    rewrite IH by done. simpl. by rewrite str_app_assoc.
Qed.

Lemma braced_go_spec fuel s :
  (String.length s < fuel)%nat ->
  substitute_braced_go vars sys fuel s = braced_spec vars sys None s.
Proof.
  revert s. induction fuel as [|fuel IH]; intros s Hlen; [lia|]. simpl.
  destruct (split_once_char "{" s) as [[before after]|] eqn:Hopen.
  - apply split_once_char_Some in Hopen as [-> Hb]. rewrite braced_spec_outside by done.
    simpl. destruct (split_once_char "}" after) as [[name rest]|] eqn:Hclose.
    + apply split_once_char_Some in Hclose as [-> Hn].
      rewrite braced_spec_inside by done. rewrite IH; [done|].
      rewrite !str_length_app in Hlen. simpl in Hlen. rewrite str_length_app in Hlen.
      simpl in Hlen. lia.
    + apply split_once_char_None in Hclose. by rewrite braced_spec_unclosed.
  - apply split_once_char_None in Hopen.
    rewrite <- (str_app_nil_r s) at 2. rewrite braced_spec_outside by done.
    simpl. by rewrite str_app_nil_r.
Qed.
End BracedFacts.

(** ** Facts: identifiers *)

Lemma span_app p s : fst (span p s) +:+ snd (span p s) = s.
Proof.
  induction s as [|c s IH]; [done|]. simpl. destruct (p c); [|done].
  destruct (span p s). simpl in *. by rewrite IH.
Qed.

Lemma span_forall p s : str_forall p (fst (span p s)) = true.
Proof.
  induction s as [|c s IH]; [done|]. simpl. destruct (p c) eqn:Hc; [|done].
  destruct (span p s). simpl in *. by rewrite Hc.
Qed.

Lemma span_stop p s c r : snd (span p s) = String c r -> p c = false.
Proof.
  induction s as [|a s IH]; [done|]. simpl. destruct (p a) eqn:Ha.
  - destruct (span p s). auto.
  - simpl. intros [= <- <-]. done.
Qed.

Lemma span_all p s t :
  str_forall p s = true -> match t with String c _ => p c = false | "" => True end ->
  span p (s +:+ t) = (s, t).
Proof.
  intros Hs Ht. induction s as [|c s IH]; simpl in *.
  - destruct t as [|c t]; [done|]. simpl. by rewrite Ht.
  - apply andb_true_iff in Hs as [-> Hs]. by rewrite IH.
Qed.

(** [s] is an identifier. *)
Definition is_identifier (s : string) : bool :=
  match s with
  | String c _ => is_ident_start c && str_forall is_ident_continue s
  | "" => false
  end.

Lemma parse_identifier_prefix s : exists r, s = parse_identifier s +:+ r.
Proof.
  destruct s as [|c s]; [by exists ""|]. unfold parse_identifier.
  destruct (is_ident_start c); [|by eexists].
  exists (snd (span is_ident_continue (String c s))). by rewrite span_app.
Qed.

Lemma ident_start_continue c : is_ident_start c = true -> is_ident_continue c = true.
Proof.
  unfold is_ident_start, is_ident_continue, is_ascii_alphanumeric.
  destruct (is_ascii_alphabetic c); [done|]. by destruct (Ascii.eqb c "_"); destruct (is_ascii_digit c).
Qed.

Lemma parse_identifier_identifier s :
  parse_identifier s <> "" -> is_identifier (parse_identifier s) = true.
Proof.
  destruct s as [|c s]; [done|]. unfold parse_identifier.
  destruct (is_ident_start c) eqn:Hc; [|done]. intros _.
  pose proof (span_forall is_ident_continue (String c s)) as Hf. revert Hf.
  cbn [span]. rewrite (ident_start_continue _ Hc).
  destruct (span is_ident_continue s) as [a b]. cbn [fst]. unfold is_identifier. by rewrite Hc.
Qed.

Lemma parse_identifier_app s t :
  is_identifier s = true -> match t with String c _ => is_ident_continue c = false | "" => True end ->
  parse_identifier (s +:+ t) = s.
Proof.
  destruct s as [|c s]; [done|]. unfold is_identifier. intros [Hc Hs]%andb_true_iff Ht.
  change (String c s +:+ t) with (String c (s +:+ t)). unfold parse_identifier. rewrite Hc.
  change (String c (s +:+ t)) with (String c s +:+ t). by rewrite span_all.
Qed.

Lemma parse_identifier_self s : is_identifier s = true -> parse_identifier s = s.
Proof.
  intros H. pose proof (parse_identifier_app s "" H I) as E. by rewrite str_app_nil_r in E.
Qed.

Lemma validate_result_name_ok name :
  validate_result_name name = Ok tt <-> is_identifier name = true.
Proof.
  unfold validate_result_name. destruct name as [|c s]; [done|]. simpl str_is_empty.
  cbv iota. split.
  - destruct (Nat.eqb_spec (String.length (parse_identifier (String c s)))
                (String.length (String c s))) as [Hlen|]; [|done]. intros _.
    destruct (parse_identifier_prefix (String c s)) as [r Hr].
    assert (r = "") as ->.
    { rewrite Hr in Hlen at 2. rewrite str_length_app in Hlen. destruct r; simpl in Hlen; [done|lia]. }
    rewrite str_app_nil_r in Hr. rewrite Hr. apply parse_identifier_identifier. by rewrite <- Hr.
  - intros H. by rewrite parse_identifier_self, Nat.eqb_refl.
Qed.

(** ** Facts: scanning for result references *)

Section ScanFacts.
Context {SJ : SerdeJson} {PE : PgEscape}.
Context (results : gmap string string) (q : option SqlQuotingVersion).

Definition matches (after name : string) : Prop := is_Some (strip_prefix name after).
#[local] Instance matches_dec after name : Decision (matches after name).
Proof. unfold matches. apply _. Defined.

Lemma try_name_no_match name after : ~ matches after name -> try_name results q name after = None.
Proof. unfold matches, try_name. by destruct (strip_prefix name after) eqn:E; [intros []|]. Qed.

Lemma try_names_filter names after :
  try_names results q names after = try_names results q (filter (matches after) names) after.
Proof.
  induction names as [|n names IH]; [done|]. rewrite filter_cons.
  destruct (decide (matches after n)) as [Hm|Hm]; simpl; [by rewrite IH|].
  by rewrite (try_name_no_match _ _ Hm).
Qed.

Lemma matches_same_length after a b :
  matches after a -> matches after b -> String.length a = String.length b -> a = b.
Proof.
  intros [r1 H1%strip_prefix_Some] [r2 H2%strip_prefix_Some] Hlen.
  rewrite <- (str_take_app a r1), <- (str_take_app b r2), <- H1, <- H2. by rewrite Hlen.
Qed.

Lemma try_names_perm names names' after :
  names ≡ₚ names' -> StronglySorted longer names -> StronglySorted longer names' ->
  try_names results q names after = try_names results q names' after.
Proof.
  intros Hp Hs Hs'. rewrite try_names_filter, (try_names_filter names').
  f_equal. apply (StronglySorted_unique_strong longer).
  - intros a b Ha Hb Hab Hba. apply list_elem_of_filter in Ha as [Ha _], Hb as [Hb _].
    eapply matches_same_length; [done..|]. unfold longer in *. lia.
  - by apply StronglySorted_filter.
  - by apply StronglySorted_filter.
  - by rewrite Hp.
Qed.

Lemma substitute_scan_perm names names' skip s :
  names ≡ₚ names' -> StronglySorted longer names -> StronglySorted longer names' ->
  substitute_scan results q names skip s = substitute_scan results q names' skip s.
Proof.
  intros Hp Hs Hs'. revert skip. induction s as [|c s IH]; intros skip; [done|].
  simpl. destruct skip; [|done]. destruct (negb _); [by rewrite IH|].
  rewrite (try_names_perm names names') by done.
  destruct (try_names _ _ _ _) as [[[r n]|e]|]; simpl; [by rewrite IH|done|by rewrite IH].
Qed.

Lemma substitute_scan_no_dollar names s :
  char_free "$" s = true -> substitute_scan results q names 0 s = Ok s.
Proof.
  induction s as [|c s IH]; [done|]. intros [Hc Hs]%char_free_cons. cbn [substitute_scan].
  apply Ascii.eqb_neq in Hc as ->. simpl. by rewrite IH.
Qed.

Lemma substitute_scan_skip names t s :
  substitute_scan results q names (String.length t) (t +:+ s) =
    substitute_scan results q names 0 s.
Proof. induction t as [|c t IH]; [done|]. simpl. apply IH. Qed.
End ScanFacts.

#[export] Instance longer_trans : Transitive longer.
Proof. intros a b c. unfold longer. lia. Qed.
#[export] Instance longer_total : Total longer.
Proof. intros a b. unfold longer. lia. Qed.
