(* ===== verification/SubstitutionSpec.v ===== *)
(** Correctness of substitution ([src/types.rs], lines 667-1280): what a query
    becomes when variables and results are put into it. *)
From S2P Require Import Prelude RustString Json JsonText Substitution.

(** [postgres_protocol]'s documented [escape_literal]: quotes and backslashes
    are doubled, and a literal with a backslash gets the prefix [ E].  Used to
    compute concrete examples. *)
Definition sample_escape : PgEscape := {|
  escape_literal s :=
    (if contains_char "\" s then " E'" else "'")
      +:+ replace_char "'" "''" (replace_char "\" "\\" s) +:+ "'"
|}.

Definition sample_sys : SystemVars :=
  {| sys_instance_id := "ab12cd34"; sys_label := Some "nightly" |}.

(** ** Which name a dollar sign refers to *)

Section Reference.
Context {SJ : SerdeJson} {PE : PgEscape}.
Context (results : gmap string string) (q : option SqlQuotingVersion).

Definition scan_order : list string := merge_sort longer (map fst (map_to_list results)).

Lemma scan_order_elem k : k ∈ scan_order <-> is_Some (results !! k).
Proof.
  unfold scan_order. rewrite merge_sort_Permutation. split.
  - intros ([k' v] & -> & H)%list_elem_of_fmap. apply elem_of_map_to_list in H. by eexists.
  - intros [v H]. apply list_elem_of_fmap. exists (k, v). by rewrite elem_of_map_to_list.
Qed.

Lemma substitute_results_scan s :
  substitute_results s results q =
    if decide (results = ∅) then Ok s else substitute_scan results q scan_order 0 s.
Proof. done. Qed.

(** Without results there are no references: the scan is the identity too. *)
Lemma substitute_results_no_names s : substitute_scan results q [] 0 s = Ok s.
Proof.
  induction s as [|c s IH]; [done|]. cbn [substitute_scan try_names].
  destruct (Ascii.eqb_spec c "$") as [->|]; cbn [negb]; rewrite IH; done.
Qed.

Lemma substitute_results_is_scan s :
  substitute_results s results q = substitute_scan results q scan_order 0 s.
Proof.
  rewrite substitute_results_scan. destruct (decide (results = ∅)) as [E|]; [|done].
  unfold scan_order. rewrite E at 2. rewrite map_to_list_empty. simpl.
  by rewrite substitute_results_no_names.
Qed.

Lemma substitute_scan_outside names l s :
  char_free "$" l = true ->
  substitute_scan results q names 0 (l +:+ s) =
    let? r := substitute_scan results q names 0 s in Ok (l +:+ r).
Proof.
  induction l as [|a l IH].
  - intros _. simpl. by destruct (substitute_scan _ _ _ _ s).
  - intros [Ha Hl]%char_free_cons. cbn [String.append substitute_scan].
    apply Ascii.eqb_neq in Ha as ->. cbn [negb]. rewrite IH by done.
    by destruct (substitute_scan _ _ _ _ s).
Qed.

Lemma try_names_unique names name after r :
  name ∈ names -> try_name results q name after = Some r ->
  (forall k, k ∈ names -> k <> name -> try_name results q k after = None) ->
  try_names results q names after = Some r.
Proof.
  intros Hin Hr Hothers. induction names as [|k names IH]; [set_solver|]. simpl.
  destruct (decide (k = name)) as [->|Hk]; [by rewrite Hr|].
  rewrite Hothers by set_solver. apply IH; [set_solver|]. intros k' ?. apply Hothers. set_solver.
Qed.

(** The text after a plain reference: it neither extends the identifier nor
    selects a column nor asks for null safety. *)
Definition reference_ends (t : string) : bool :=
  match t with
  | "" => true
  | String c _ => negb (is_ident_continue c || Ascii.eqb c "." || Ascii.eqb c "?")
  end.

Lemma reference_ends_spec c t :
  reference_ends (String c t) = true ->
  is_ident_continue c = false /\ c <> "."%char /\ c <> "?"%char.
Proof.
  unfold reference_ends. intros H%negb_true_iff. apply orb_false_iff in H as [H H3].
  apply orb_false_iff in H as [H1 H2]. by rewrite <- !Ascii.eqb_neq.
Qed.

Lemma app_split (a b c d : string) :
  a +:+ b = c +:+ d -> (exists m, c = a +:+ m) \/ (exists x m, a = c +:+ String x m /\ d = String x m +:+ b).
Proof.
  revert c. induction a as [|x a IH]; intros c H; [left; by exists c|].
  destruct c as [|y c]; simpl in H.
  - right. exists x, a. split; [done|]. by rewrite <- H.
  - injection H as -> H. destruct (IH _ H) as [[m ->]|(z & m & -> & ->)]; [left; by exists m|].
    right. by exists z, m.
Qed.

Lemma try_name_other name k t :
  is_identifier name = true -> is_identifier k = true -> k <> name -> reference_ends t = true ->
  try_name results q k (name +:+ t) = None.
Proof.
  intros Hname Hk Hne Ht. unfold try_name.
  destruct (strip_prefix k (name +:+ t)) as [r|] eqn:E; [|done].
  apply strip_prefix_Some in E. symmetry in E.
  assert (Hident : forall c m l, is_identifier (l +:+ String c m) = true -> l <> "" ->
    is_ident_continue c = true).
  { intros c m l H Hl. destruct l as [|x l]; [done|]. unfold is_identifier in H. simpl in H.
    apply andb_true_iff in H as [_ [_ H]%andb_true_iff]. rewrite str_forall_app in H.
    by apply andb_true_iff in H as [_ [H _]%andb_true_iff]. }
  assert (Hnn : name <> "") by (by intros ->). assert (Hkn : k <> "") by (by intros ->).
  destruct (app_split _ _ _ _ E) as [[m Hm]|(x & m & Hx & Hxt)].
  - rewrite Hm in E. rewrite str_app_assoc in E. apply str_app_inj_l in E as ->.
    destruct m as [|c m]; [by rewrite str_app_nil_r in Hm|].
    rewrite Hm in Hname. apply Hident in Hname; [|done]. simpl.
    destruct (Ascii.eqb_spec c ".") as [->|Hd]; [done|].
    destruct (Ascii.eqb_spec c "?") as [->|Hq]; [done|].
    assert (Hs : starts_with ".*" (String c (m +:+ t)) = false).
    { unfold starts_with. cbn [strip_prefix]. by destruct (Ascii.eqb_spec "." c) as [<-|]. }
    rewrite Hs. rewrite Hname.
    destruct c as [[] [] [] [] [] [] [] []]; done.
  - exfalso. rewrite Hx in Hk. apply Hident in Hk; [|done]. rewrite Hxt in Ht.
    apply reference_ends_spec in Ht as (Ht & _). congruence.
Qed.

Lemma try_name_plain name t :
  reference_ends t = true ->
  try_name results q name (name +:+ t) =
    Some (map_ok (fun r => (r, String.length name))
          (extract_first_column_value name (default "" (results !! name)) false q)).
Proof.
  intros Ht. unfold try_name. rewrite strip_prefix_app.
  destruct t as [|c t]; [done|]. apply reference_ends_spec in Ht as (H1 & H2 & H3).
  assert (Hs : starts_with ".*" (String c t) = false).
  { unfold starts_with. cbn [strip_prefix]. by destruct (Ascii.eqb_spec "." c) as [<-|]. }
  rewrite Hs, H1. destruct c as [[] [] [] [] [] [] [] []]; done.
Qed.
End Reference.

(** ** Results of result references *)

Section Properties.
Context {SJ : SerdeJson} {PE : PgEscape}.

(** The value of [$name] is inserted exactly once and never rescanned, and
    the name is the longest identifier after the dollar sign: with result names
    as [validate_result_name] accepts them, the reference becomes the first
    column of the result stored under that very name, whatever other names are
    its prefixes or extensions, and the scan goes on after the reference. *)
Theorem reference_replaced (results : gmap string string) q l name t json :
  (forall k, is_Some (results !! k) -> validate_result_name k = Ok tt) ->
  results !! name = Some json ->
  char_free "$" l = true -> reference_ends t = true ->
  substitute_results (l +:+ "$" +:+ name +:+ t) results q =
    let? v := extract_first_column_value name json false q in
  let? rest := substitute_results t results q in
  Ok (l +:+ v +:+ rest).
Proof.
  intros Hnames Hname Hl Ht. rewrite !substitute_results_is_scan, substitute_scan_outside by done.
  assert (Hid : is_identifier name = true) by (apply validate_result_name_ok; eauto).
  change ("$" +:+ name +:+ t) with (String "$" (name +:+ t)). cbn [substitute_scan].
  change (negb (Ascii.eqb "$" "$")) with false. cbv iota.
  erewrite (try_names_unique results q); [| |by apply try_name_plain|].
  - rewrite Hname. cbn [default]. destruct (extract_first_column_value _ _ _ _); [|done].
    cbn [map_ok result_bind]. rewrite substitute_scan_skip. by destruct (substitute_scan _ _ _ _ t).
  - apply scan_order_elem. eauto.
  - intros k Hk Hne. apply try_name_other; try done.
    apply scan_order_elem in Hk. apply validate_result_name_ok. auto.
Qed.

(** Substitution does not depend on the order in which the [HashMap] of
    results yields its names: any order of the names, sorted longest first by a
    stable sort, gives the same text or the same error. *)
Theorem substitution_order_independent (input : string) (results : gmap string string) q names :
  names ≡ₚ map fst (map_to_list results) ->
  substitute_scan results q (merge_sort longer names) 0 input =
    substitute_results input results q.
Proof.
  intros Hp. rewrite substitute_results_is_scan. apply substitute_scan_perm.
  - unfold scan_order. by rewrite !merge_sort_Permutation.
  - apply (StronglySorted_merge_sort longer).
  - apply (StronglySorted_merge_sort longer).
Qed.

(** Text without a dollar sign passes through result substitution
    unchanged, so a raw value cannot fail or change unless it refers to
    something. *)
Theorem no_reference_unchanged s (results : gmap string string) q :
  char_free "$" s = true -> substitute_results s results q = Ok s.
Proof. intros H. rewrite substitute_results_is_scan. by apply substitute_scan_no_dollar. Qed.

(** [$name.*] expands at most 10000 rows: a larger result is an error, never
    a truncated relation. *)
Theorem row_set_bounded name json q rows :
  value_from_str json = Ok (Object [("rows", Array rows)]) ->
  if (N.of_nat (length rows) <=? MAX_ROWSET_EXPANSION)%N
  then forall e, expand_row_set name json q = Err e ->
    e = "$" +:+ name +:+ ".* — row is not an object"
      /\ exists row, row ∈ rows /\ as_object row = None
  else is_ok (expand_row_set name json q) = false.
Proof.
  intros H. unfold expand_row_set. rewrite H. cbn [map_err result_bind].
  change (get "rows" (Object [("rows", Array rows)]) ≫= as_array) with (Some rows).
  cbn [ok_or result_bind].
  destruct (N.leb_spec (N.of_nat (length rows)) MAX_ROWSET_EXPANSION) as [Hle|Hgt].
  - destruct (N.ltb_spec MAX_ROWSET_EXPANSION (N.of_nat (length rows))); [lia|].
    destruct q as [v|]; [|done]. destruct rows as [|row0 rows]; [done|]. intros e He.
    apply result_bind_err in He as [He|(obj & Ho & He)].
    + destruct (as_object row0) eqn:Hrow; [done|]. injection He as <-.
      split; [done|]. exists row0. split; [by left|done].
    + apply result_bind_err in He as [He|(vs & _ & He)]; [|done]. clear Ho.
      revert He. generalize (row0 :: rows) as l. intros l.
      induction l as [|row l IH]; [done|]. cbn [collect_results].
      destruct (as_object row) eqn:Hrow; cbn [ok_or result_bind].
      * intros [He|(? & _ & ?)]%result_bind_err; [|done].
        destruct (IH He) as [-> (r & Hr & Hn)]. split; [done|]. exists r. split; [by right|done].
      * intros [= <-]. split; [done|]. exists row. split; [by left|done].
  - destruct (N.ltb_spec MAX_ROWSET_EXPANSION (N.of_nat (length rows))); [done|lia].
Qed.
End Properties.

(** ** [{name}] variables *)

(** [{name}] substitution is a single left-to-right pass: a two-state machine
    that never looks at inserted text again and leaves unknown and unclosed
    placeholders as they are. *)
Theorem braced_variables_single_pass template vars sys :
  substitute_braced_variables template vars sys = braced_spec vars sys None template.
Proof. apply braced_go_spec. lia. Qed.

(** A variable's value is inserted opaquely: whatever braces or dollar signs
    it contains, the rest of the template is substituted as if it stood alone. *)
Theorem braced_value_opaque (vars : gmap string string) sys l name v r :
  char_free "{" l = true -> char_free "}" name = true ->
  braced_value vars sys name = Some v ->
  substitute_braced_variables (l +:+ "{" +:+ name +:+ "}" +:+ r) vars sys =
  l +:+ v +:+ substitute_braced_variables r vars sys.
Proof.
  intros Hl Hn Hv. unfold substitute_braced_variables. rewrite !braced_go_spec by lia.
  rewrite braced_spec_outside by done.
  change ("{" +:+ name +:+ "}" +:+ r) with (String "{" (name +:+ String "}" r)).
  cbn [braced_spec]. change (Ascii.eqb "{" "{") with true. cbv iota.
  rewrite braced_spec_inside by done. change ("" +:+ name) with name. by rewrite Hv.
Qed.

(** ** Substitution as a whole *)

(** [d] is [s] with every [q] written twice. *)
Inductive doubled (q : ascii) : string -> string -> Prop :=
| doubled_end : doubled q "" ""
| doubled_other c s d : c <> q -> doubled q s d -> doubled q (String c s) (String c d)
| doubled_quote s d : doubled q s d -> doubled q (String q s) (String q (String q d)).

(** [t] is the name [s] between double quotes, those of the name doubled. *)
Definition quoted_name (s t : string) : Prop :=
  exists d, doubled dquote s d /\ t = String dquote (d +:+ String dquote "").

(** What may be asked of a result: its first cell, a column of its first row,
    both possibly null-safe, or all its rows. *)
Inductive selection := Scalar (null_safe : bool) | Column (col : string) (null_safe : bool) | Rows.

(** What the text after a result name selects, and where it goes on. *)
Definition select (after : string) : selection * string :=
  match after with
  | String "?" t => (Scalar true, t)
  | String "." (String "*" t) => (Rows, t)
  | String "." t =>
      let col := parse_identifier t in
      if str_is_empty col then (Scalar false, after)
      else match str_drop (String.length col) t with
           | String "?" t' => (Column col true, t')
           | t' => (Column col false, t')
           end
  | _ => (Scalar false, after)
  end.

Section Meaning.
Context {SJ : SerdeJson} {PE : PgEscape}.
Context (v : SqlQuotingVersion).

(** [t] is the text [s] as a literal. *)
Inductive literal : string -> string -> Prop :=
  | literal_legacy s d : v = Legacy -> doubled "'" s d -> literal s ("'" +:+ d +:+ "'")
  | literal_v1 s : v = V1 -> literal s (escape_literal s).

(** [t] is a cell with a value as an expression: texts and composite values
    are literals; a number is kept apart from an operator before it. *)
Inductive cell : value -> string -> Prop :=
  | cell_string s t : literal s t -> cell (JString s) t
  | cell_bool b : cell (Bool b) (if b then "true" else "false")
  | cell_negative n : v = V1 -> starts_with "-" (number_to_string n) = true ->
      cell (Number n) (" " +:+ number_to_string n)
  | cell_number n : ~ (v = V1 /\ starts_with "-" (number_to_string n) = true) ->
      cell (Number n) (number_to_string n)
  | cell_array l t : literal (value_to_string (Array l)) t -> cell (Array l) t
  | cell_object o t : literal (value_to_string (Object o)) t -> cell (Object o) t.

(** A cell, or [NULL] where the reference is null-safe. *)
Inductive cell_or_null (null_safe : bool) : value -> string -> Prop :=
  | cell_value x t : cell x t -> cell_or_null null_safe x t
  | cell_null : null_safe = true -> cell_or_null null_safe Null "NULL".

(** A result that is a row set. *)
Definition row_set (json : string) (rows : list value) : Prop :=
  exists j, value_from_str json = Ok j /\ get "rows" j = Some (Array rows).

Inductive scalar (json : string) (null_safe : bool) : string -> Prop :=
  | scalar_first k x fields rows t : row_set json (Object ((k, x) :: fields) :: rows) ->
      cell_or_null null_safe x t -> scalar json null_safe t
  | scalar_no_rows : row_set json [] -> null_safe = true -> scalar json null_safe "NULL"
  | scalar_whole t : (forall rows, ~ row_set json rows) -> literal json t -> scalar json null_safe t.

(** The fields a column is looked up in. *)
Definition fields_of (json : string) (fields : members) : Prop :=
  (exists rows, row_set json (Object fields :: rows)) \/
  (value_from_str json = Ok (Object fields) /\ forall rows, ~ row_set json rows).

Inductive column (json name col : string) (null_safe : bool) : string -> Prop :=
  | column_value fields x t : fields_of json fields -> obj_get col fields = Some x ->
      cell_or_null null_safe x t -> column json name col null_safe t
  | column_no_rows : row_set json [] -> null_safe = true -> column json name col null_safe "NULL"
  | column_unknown fields : fields_of json fields -> obj_get col fields = None ->
      column json name col null_safe ("$" +:+ name +:+ "." +:+ col +:+ (if null_safe then "?" else "")).

(** A cell of an expanded row set. *)
Inductive row_cell_of (obj : members) (col : string) : string -> Prop :=
  | row_text s t : obj_get col obj = Some (JString s) -> literal s t ->
      row_cell_of obj col (t +:+ "::text")
  | row_number n : obj_get col obj = Some (Number n) -> row_cell_of obj col (number_to_string n)
  | row_bool b : obj_get col obj = Some (Bool b) ->
      row_cell_of obj col (if b then "true" else "false")
  | row_null : obj_get col obj = Some Null -> row_cell_of obj col "NULL"
  | row_missing : obj_get col obj = None -> row_cell_of obj col "NULL"
  | row_array l t : obj_get col obj = Some (Array l) -> literal (value_to_string (Array l)) t ->
      row_cell_of obj col (t +:+ "::text")
  | row_object o t : obj_get col obj = Some (Object o) -> literal (value_to_string (Object o)) t ->
      row_cell_of obj col (t +:+ "::text").

(** One row: its cells under the columns of the first row. *)
Definition values_row (cols : list string) (row : value) (t : string) : Prop :=
  exists obj cells, row = Object obj /\ Forall2 (row_cell_of obj) cols cells /\
  t = "(" +:+ join "," cells +:+ ")".

Inductive relation_of (json name : string) : string -> Prop :=
  | relation_empty alias : row_set json [] -> quoted_name name alias ->
      relation_of json name ("(SELECT NULL WHERE false) AS " +:+ alias)
  | relation_rows fields rows alias texts names :
      row_set json (Object fields :: rows) ->
      (N.of_nat (length (Object fields :: rows)) <= 10000)%N ->
      quoted_name name alias -> Forall2 quoted_name (map fst fields) names ->
      Forall2 (values_row (map fst fields)) (Object fields :: rows) texts ->
      relation_of json name ("(VALUES " +:+ join ", " texts +:+ ") AS " +:+ alias +:+ "(" +:+
                             join ", " names +:+ ")").

(** [t] is what a reference to the result [json] called [name] stands for. *)
Definition stands_for (name json : string) (sel : selection) (t : string) : Prop :=
  match sel with
  | Scalar null_safe => scalar json null_safe t
  | Column col null_safe => column json name col null_safe t
  | Rows => relation_of json name t
  end.

(** [t] is [s] with every reference to a result replaced, once, by what it
    stands for.  The name referred to is the longest identifier after the
    dollar sign; a dollar sign before anything else stays. *)
Inductive substituted (results : gmap string string) : string -> string -> Prop :=
  | substituted_end : substituted results "" ""
  | substituted_text c s t : c <> "$"%char -> substituted results s t ->
      substituted results (String c s) (String c t)
  | substituted_dollar s t : results !! parse_identifier s = None -> substituted results s t ->
      substituted results ("$" +:+ s) ("$" +:+ t)
  | substituted_reference s after json sel rest text t :
      results !! parse_identifier s = Some json -> s = parse_identifier s +:+ after ->
      select after = (sel, rest) -> stands_for (parse_identifier s) json sel text ->
      substituted results rest t -> substituted results ("$" +:+ s) (text +:+ t).
End Meaning.

Section Variables.
Context (vars : gmap string string) (sys : SystemVars).

(** [x] is the value of the variable [name]. *)
Inductive variable : string -> string -> Prop :=
  | variable_instance : variable "sys_instance_id" (sys_instance_id sys)
  | variable_label : variable "sys_label" (default "" (sys_label sys))
  | variable_named name x : name <> "sys_instance_id" -> name <> "sys_label" ->
      parse_identifier name = name -> vars !! name = Some x -> variable name x.

(** [t] is [s] with every [{name}] of a variable replaced, once, by its value;
    other braces stay. *)
Inductive expanded : string -> string -> Prop :=
  | expanded_end : expanded "" ""
  | expanded_text c s t : c <> "{"%char -> expanded s t -> expanded (String c s) (String c t)
  | expanded_unclosed s : char_free "}" s = true -> expanded ("{" +:+ s) ("{" +:+ s)
  | expanded_variable name x s t : char_free "}" name = true -> variable name x ->
      expanded s t -> expanded ("{" +:+ name +:+ "}" +:+ s) (x +:+ t)
  | expanded_unknown name s t : char_free "}" name = true -> (forall x, ~ variable name x) ->
      expanded s t -> expanded ("{" +:+ name +:+ "}" +:+ s) ("{" +:+ name +:+ "}" +:+ t).

Lemma braced_value_variable name x : braced_value vars sys name = Some x <-> variable name x.
Proof.
  unfold braced_value. split.
  - destruct (String.eqb_spec name "sys_instance_id") as [->|H1]; [intros [= <-]; constructor|].
    destruct (String.eqb_spec name "sys_label") as [->|H2]; [intros [= <-]; constructor|].
    destruct (Nat.eqb_spec (String.length (parse_identifier name)) (String.length name)) as [Hl|];
      [|done].
    intros H. apply variable_named; [done..| |done].
    destruct (parse_identifier_prefix name) as [r Hr]. rewrite Hr in Hl at 2.
    rewrite str_length_app in Hl. destruct r; [by rewrite str_app_nil_r in Hr|cbn in Hl; lia].
  - intros [| |n y H1 H2 Hp H]; [done..|]. apply String.eqb_neq in H1 as ->. apply String.eqb_neq in H2 as ->.
    by rewrite Hp, Nat.eqb_refl.
Qed.

Lemma braced_value_unknown name : braced_value vars sys name = None <-> forall x, ~ variable name x.
Proof.
  split.
  - intros H x Hx%braced_value_variable. congruence.
  - intros H. destruct (braced_value vars sys name) as [x|] eqn:E; [|done].
    by apply braced_value_variable, H in E.
Qed.

Lemma braced_spec_braces name s :
  char_free "}" name = true ->
  braced_spec vars sys None ("{" +:+ name +:+ "}" +:+ s) =
    default ("{" +:+ name +:+ "}") (braced_value vars sys name) +:+ braced_spec vars sys None s.
Proof.
  intros H. change ("{" +:+ name +:+ "}" +:+ s) with (String "{" (name +:+ String "}" s)).
  cbn [braced_spec]. change (Ascii.eqb "{" "{") with true. cbv iota. by apply braced_spec_inside.
Qed.

Lemma braced_spec_expanded n s t : String.length s <= n ->
  braced_spec vars sys None s = t <-> expanded s t.
Proof.
  intros Hn. split.
  - intros <-. revert s Hn. induction n as [|n IH]; intros s Hn.
    { destruct s; [constructor|cbn in Hn; lia]. }
    destruct s as [|c s]; [constructor|]. cbn in Hn.
    destruct (decide (c = "{"%char)) as [->|Hc].
    2: { cbn [braced_spec]. apply Ascii.eqb_neq in Hc as Hc'. rewrite Hc'.
    apply expanded_text; [done|]. apply IH. lia. }
  destruct (split_once_char "}" s) as [[name r]|] eqn:E.
  + apply split_once_char_Some in E as [-> Hname].
    change (String "{" (name +:+ String "}" r)) with ("{" +:+ name +:+ "}" +:+ r).
    rewrite str_length_app in Hn. cbn in Hn. rewrite braced_spec_braces by done.
    destruct (braced_value vars sys name) as [x|] eqn:Hx.
    * apply expanded_variable; [done|by apply braced_value_variable|apply IH; lia].
    * change (default ("{" +:+ name +:+ "}") None) with ("{" +:+ name +:+ "}").
      rewrite !str_app_assoc.
      apply expanded_unknown; [done|by apply braced_value_unknown|apply IH; lia].
  + apply split_once_char_None in E. cbn [braced_spec].
    change (Ascii.eqb "{" "{") with true. cbv iota.
    rewrite braced_spec_unclosed by done. by apply expanded_unclosed.
    - clear Hn. induction 1 as [|c s t Hc H IH|s Hs|name x s t Hname Hx H IH|name s t Hname Hx H IH].
  + done.
  + cbn [braced_spec]. apply Ascii.eqb_neq in Hc as ->. by rewrite IH.
  + cbn [String.append braced_spec]. change (Ascii.eqb "{" "{") with true. cbv iota.
    by apply braced_spec_unclosed.
  + apply braced_value_variable in Hx. by rewrite braced_spec_braces, Hx, IH.
  + apply braced_value_unknown in Hx. rewrite braced_spec_braces, Hx, IH by done.
    change (default ("{" +:+ name +:+ "}") None) with ("{" +:+ name +:+ "}").
    by rewrite !str_app_assoc.
Qed.
End Variables.

(** *** The pieces have one meaning each *)

Lemma replace_char_doubled q s d :
  replace_char q (String q (String q "")) s = d <-> doubled q s d.
Proof.
  split.
  - intros <-. induction s as [|c s IH]; [constructor|]. cbn [replace_char].
    destruct (Ascii.eqb_spec c q) as [->|Hc]; by constructor.
  - induction 1 as [|c s d Hc H IH|s d H IH]; [done|..]; cbn [replace_char].
    + apply Ascii.eqb_neq in Hc as ->. by rewrite IH.
    + by rewrite Ascii.eqb_refl, IH.
Qed.

Lemma quote_identifier_spec s t : quote_identifier s = t <-> quoted_name s t.
Proof.
  unfold quote_identifier, quoted_name. split.
  - intros <-. eexists. split; [|done]. by apply replace_char_doubled.
  - intros (d & <-%replace_char_doubled & ->). done.
Qed.

Lemma quote_identifiers_spec l ts : map quote_identifier l = ts <-> Forall2 quoted_name l ts.
Proof.
  split.
  - intros <-. induction l; constructor; [by apply quote_identifier_spec|done].
  - induction 1 as [|s t l ts H%quote_identifier_spec _ IH]; [done|]. by rewrite <- H, <- IH.
Qed.

Section Pieces.
Context {SJ : SerdeJson} {PE : PgEscape}.
Context (v : SqlQuotingVersion).

Lemma quote_literal_spec s t : quote_literal v s = t <-> literal v s t.
Proof.
  split.
  - intros <-. destruct v eqn:E; cbn; [|by apply literal_v1].
    apply literal_legacy; [done|]. by apply replace_char_doubled.
  - intros [s' d -> <-%replace_char_doubled|s' ->]; done.
Qed.

Lemma format_value_spec x t : is_null x = false -> format_value x (Some v) = t <-> cell v x t.
Proof.
  intros Hx. split.
  - intros <-. destruct x as [|b|n|s|l|o]; [done|constructor|..];
      [|by constructor; apply quote_literal_spec..].
    cbn [format_value]. destruct (bool_decide (Some v = Some V1)) eqn:Hv; cbn [andb].
    + apply bool_decide_eq_true in Hv; injection Hv as Hv'. destruct (starts_with "-" _) eqn:Hn.
      * by apply cell_negative.
      * apply cell_number. intros [_ ?]. congruence.
    + apply bool_decide_eq_false in Hv. apply cell_number. intros [-> _]. done.
  - intros [s t' H|b|n -> H|n H|l t' H|o t' H]; cbn [format_value]; try done;
      try by apply quote_literal_spec in H.
    + by rewrite H.
    + destruct (bool_decide (Some v = Some V1)) eqn:Hv; [|done].
      apply bool_decide_eq_true in Hv; injection Hv as Hv'. cbn [andb].
      destruct (starts_with _ _) eqn:E; [by destruct H|done].
Qed.

Lemma row_cell_spec obj col t : row_cell v obj col = t <-> row_cell_of v obj col t.
Proof.
  unfold row_cell. split.
  - intros <-. destruct (obj_get col obj) as [[| | | | |]|] eqn:E;
      [by apply row_null|by apply row_bool|by apply row_number| | | |by apply row_missing].
    + eapply row_text; [exact E|by apply quote_literal_spec].
    + eapply row_array; [exact E|by apply quote_literal_spec].
    + eapply row_object; [exact E|by apply quote_literal_spec].
  - intros [s t' E H|n E|b E|E|E|l t' E H|o t' E H]; rewrite E; try done;
      apply quote_literal_spec in H as <-; done.
Qed.

Lemma row_set_spec json j :
  value_from_str json = Ok j ->
  forall rows, get "rows" j ≫= as_array = Some rows <-> row_set json rows.
Proof.
  intros Hj rows. unfold row_set. split.
  - intros H. exists j. split; [done|]. destruct (get "rows" j) as [[]|]; try discriminate H.
    by injection H as ->.
  - intros (j' & Hj' & H). assert (j' = j) as -> by congruence. by rewrite H.
Qed.

Lemma row_set_none json j :
  value_from_str json = Ok j -> get "rows" j ≫= as_array = None -> forall rows, ~ row_set json rows.
Proof. intros Hj Hn rows Hr. apply (row_set_spec _ _ Hj) in Hr. congruence. Qed.

Lemma row_set_unique json r1 r2 : row_set json r1 -> row_set json r2 -> r1 = r2.
Proof. intros (j & H1 & H2) (j' & H3 & H4). congruence. Qed.

(** A value that may be null, as the extractors treat it. *)
Lemma nullable_spec x (null_safe : bool) (e t : string) :
  (if is_null x then if null_safe then Ok "NULL" else Err e
    else Ok (format_value x (Some v)) : result string string) = Ok t <->
    cell_or_null v null_safe x t.
Proof.
  split.
  - destruct (is_null x) eqn:Hx.
    + destruct x; try discriminate Hx. destruct null_safe; [|done]. intros [= <-]. by apply cell_null.
    + intros [= H]. apply cell_value. by apply format_value_spec.
  - intros [x' t' H| ->]; [|done].
    assert (Hx : is_null x' = false) by by destruct H. rewrite Hx. f_equal. by apply format_value_spec.
Qed.

Lemma extract_first_column_spec name json null_safe t :
  extract_first_column_value name json null_safe (Some v) = Ok t <-> scalar v json null_safe t.
Proof.
  unfold extract_first_column_value. destruct (value_from_str json) as [j|e] eqn:Hj.
  2: { split; [intros [= <-]; apply scalar_whole; [by intros rows (j & ? & _); congruence|];
    by apply quote_literal_spec|].
  intros [k x f r t' (j & ? & _) _|(j & ? & _) _|t' _ H]; [congruence..|].
  f_equal. by apply quote_literal_spec. }
  destruct (get "rows" j ≫= as_array) as [rows|] eqn:Hrows.
  2: { pose proof (row_set_none _ _ Hj Hrows) as Hno.
  split; [intros [= <-]; apply scalar_whole; [done|by apply quote_literal_spec]|].
  intros [k x f r t' H _|H _|t' _ H]; [by apply Hno in H..|]. f_equal. by apply quote_literal_spec. }
  apply (row_set_spec _ _ Hj) in Hrows as Hset.
  assert (Hu : forall r, row_set json r -> r = rows) by (intros r Hr; by eapply row_set_unique).
  split.
  - destruct rows as [|row rows].
    + destruct null_safe; [|done]. intros [= <-]. by apply scalar_no_rows.
    + destruct row as [| | | | |[|[k x] fields]]; try discriminate. cbn [as_object ok_or result_bind].
      intros H%nullable_spec. by eapply scalar_first.
  - intros [k x f r t' H Ht|H ->|t' Hn _]; [| |by apply Hn in Hset]; apply Hu in H as <-; [|done].
    cbn [as_object ok_or result_bind]. by apply nullable_spec.
Qed.

Lemma extract_column_spec name json col null_safe t :
  extract_column_value name json col null_safe (Some v) = Ok t <-> column v json name col null_safe t.
Proof.
  unfold extract_column_value.
  set (pick := fun fields : members =>
    match obj_get col fields with
    | Some x =>
    if is_null x then if null_safe then Ok "NULL" else Err ("$" +:+ name +:+ "." +:+ col +:+ " is NULL")
    else Ok (format_value x (Some v))
    | None => Ok ("$" +:+ name +:+ "." +:+ col +:+ (if null_safe then "?" else ""))
    end : result string string).
  assert (Hpick : forall fields t, pick fields = Ok t <->
    match obj_get col fields with
    | Some x => cell_or_null v null_safe x t
    | None => t = "$" +:+ name +:+ "." +:+ col +:+ (if null_safe then "?" else "")
    end).
  { intros fields u. unfold pick. destruct (obj_get col fields) as [x|]; [apply nullable_spec|].
    split; [by intros [= <-]|by intros ->]. }
  assert (Hfields : forall fields, fields_of json fields -> pick fields = Ok t ->
    column v json name col null_safe t).
  { intros fields Hf H%Hpick. destruct (obj_get col fields) as [x|] eqn:Hx.
    - by eapply column_value.
    - subst t. by eapply column_unknown. }
  destruct (value_from_str json) as [j|e] eqn:Hj; cbn [map_err result_bind].
  2: { split; [done|].
  assert (Hno : forall r, ~ row_set json r) by (intros r (j & ? & _); congruence).
  intros [f x t' [[r Hr]|[H _]] _ _|H _|f [[r Hr]|[H _]] _];
    first [by apply Hno in Hr|by apply Hno in H|congruence]. }
  destruct (get "rows" j ≫= as_array) as [rows|] eqn:Hrows.
  - apply (row_set_spec _ _ Hj) in Hrows as Hset.
    assert (Hu : forall r, row_set json r -> r = rows) by (intros r Hr; by eapply row_set_unique).
    split.
    + destruct rows as [|row rows].
      * destruct null_safe; [|done]. intros [= <-]. by apply column_no_rows.
      * destruct row as [| | | | |fields]; try discriminate.
        intros H. apply (Hfields fields); [left; by exists rows|exact H].
    + intros [f x t' [[r H]|[_ Hn]] Hx Ht|H ->|f [[r H]|[_ Hn]] Hx];
        [| |by apply Hu in H as <-| |]; try (by apply Hn in Hset); apply Hu in H as <-;
        refine (proj2 (Hpick f _) _); by rewrite Hx.
  - pose proof (row_set_none _ _ Hj Hrows) as Hno. split.
    + destruct j as [| | | | |fields]; try discriminate.
      intros H. apply (Hfields fields); [by right|exact H].
    + intros [f x t' [[r H]|[H _]] Hx Ht|H _|f [[r H]|[H _]] Hx]; try (by apply Hno in H);
        assert (j = Object f) as -> by congruence;
        refine (proj2 (Hpick f _) _); by rewrite Hx.
Qed.

Lemma row_cells_spec obj cols ts : map (row_cell v obj) cols = ts <-> Forall2 (row_cell_of v obj) cols ts.
Proof.
  split.
  - intros <-. induction cols; constructor; [by apply row_cell_spec|done].
  - induction 1 as [|c t cs ts H%row_cell_spec _ IH]; [done|]. by rewrite <- H, <- IH.
Qed.

Lemma values_row_spec (e : string) cols row t :
  (let? obj := ok_or (as_object row) e in
    Ok ("(" +:+ join "," (map (row_cell v obj) cols) +:+ ")") : result string string) = Ok t <-> values_row v cols row t.
Proof.
  unfold values_row. split.
  - destruct row as [| | | | |obj]; try discriminate. cbn. intros [= <-].
    exists obj, (map (row_cell v obj) cols). split_and!; [done|by apply row_cells_spec|done].
  - intros (obj & cells & -> & <-%row_cells_spec & ->). done.
Qed.

Lemma expand_row_set_spec name json t :
  expand_row_set name json (Some v) = Ok t <-> relation_of v json name t.
Proof.
  assert (Hinj : forall a b, Ok a = Ok b :> result string string -> a = b) by (intros; congruence).
  unfold expand_row_set. destruct (value_from_str json) as [j|e] eqn:Hj; cbn [map_err result_bind].
  2: { split; [done|]. intros [a (j & ? & _)|f r a ts ns (j & ? & _)]; congruence. }
  destruct (get "rows" j ≫= as_array) as [rows|] eqn:Hrows; cbn [ok_or result_bind].
  2: { pose proof (row_set_none _ _ Hj Hrows) as Hno. split; [done|].
  by intros [a H|f r a ts ns H]; apply Hno in H. }
  apply (row_set_spec _ _ Hj) in Hrows as Hset.
  assert (Hu : forall r, row_set json r -> r = rows) by (intros r Hr; by eapply row_set_unique).
  split.
  - destruct (N.ltb_spec MAX_ROWSET_EXPANSION (N.of_nat (length rows))) as [|Hle]; [done|].
    destruct rows as [|row rows].
    + intros E%Hinj. rewrite <- E. apply relation_empty; [done|by apply quote_identifier_spec].
    + destruct row as [| | | | |fields]; try discriminate. cbn [as_object ok_or].
      intros H. cbn [result_bind] in H. apply result_bind_ok in H as (texts & Ht & E).
      apply Hinj in E. rewrite <- E. clear E. apply collect_results_Forall2 in Ht.
      eapply relation_rows; [done|exact Hle|by apply quote_identifier_spec|
        by apply quote_identifiers_spec|].
      eapply Forall2_impl; [exact Ht|]. intros row t' H. by apply values_row_spec in H.
  - intros [a H <-%quote_identifier_spec|
      f r a ts ns H Hle <-%quote_identifier_spec <-%quote_identifiers_spec Hrs]; apply Hu in H as <-.
    { done. }
    destruct (N.ltb_spec MAX_ROWSET_EXPANSION (N.of_nat (length (Object f :: r)))) as [Hgt|_];
      [unfold MAX_ROWSET_EXPANSION in Hgt; lia|].
    cbn [as_object ok_or]. apply result_bind_ok. eexists. split; [done|].
    apply result_bind_ok. exists ts. split; [|done].
    apply collect_results_Forall2. eapply Forall2_impl; [exact Hrs|].
    intros row t' Hr. by apply values_row_spec.
Qed.

End Pieces.

(** *** The scan replaces every reference once *)

Section Refinement.
Context {SJ : SerdeJson} {PE : PgEscape}.
Context (v : SqlQuotingVersion) (results : gmap string string).
Hypothesis names_valid : forall k, is_Some (results !! k) -> validate_result_name k = Ok tt.

Definition fetch (name json : string) (sel : selection) : result string string :=
  match sel with
  | Scalar null_safe => extract_first_column_value name json null_safe (Some v)
  | Column col null_safe => extract_column_value name json col null_safe (Some v)
  | Rows => expand_row_set name json (Some v)
  end.

Lemma fetch_spec name json sel t : fetch name json sel = Ok t <-> stands_for v name json sel t.
Proof.
  destruct sel; [apply extract_first_column_spec|apply extract_column_spec|apply expand_row_set_spec].
Qed.

Definition continues (t : string) : bool :=
  match t with "" => false | String c _ => is_ident_continue c end.

Lemma parse_identifier_stops s r : s = parse_identifier s +:+ r -> parse_identifier s <> "" ->
  continues r = false.
Proof.
  intros Hs Hne. destruct r as [|c r]; [done|]. cbn. destruct s as [|a s]; [done|].
  unfold parse_identifier in *. destruct (is_ident_start a); [|done].
  apply (span_stop is_ident_continue (String a s) c r).
  apply (str_app_inj_l (fst (span is_ident_continue (String a s)))). rewrite span_app. exact Hs.
Qed.

Lemma parse_identifier_ended name r :
  is_identifier name = true -> continues r = false -> parse_identifier (name +:+ r) = name.
Proof. intros H Hr. apply parse_identifier_app; [done|]. by destruct r. Qed.

(** Only the longest identifier can match. *)
Lemma try_name_shorter k s :
  is_identifier k = true -> k <> parse_identifier s -> try_name results (Some v) k s = None.
Proof.
  intros Hk Hne. unfold try_name. destruct (strip_prefix k s) as [r|] eqn:E; [|done].
  apply strip_prefix_Some in E as ->.
  destruct (continues r) eqn:Hr; [|by rewrite parse_identifier_ended in Hne].
  destruct r as [|c r]; [done|]. cbn in Hr.
  assert (Hs : starts_with ".*" (String c r) = false).
  { unfold starts_with. cbn [strip_prefix]. by destruct (Ascii.eqb_spec "." c) as [<-|]. }
  rewrite Hs, Hr. destruct c as [[] [] [] [] [] [] [] []]; done.
Qed.

Lemma try_names_only names name s :
  (forall k, k ∈ names -> k <> name -> try_name results (Some v) k s = None) ->
  try_names results (Some v) names s =
    if decide (name ∈ names) then try_name results (Some v) name s else None.
Proof.
  induction names as [|k names IH]; intros H; [done|]. cbn [try_names].
  rewrite IH by set_solver. destruct (decide (k = name)) as [->|Hk].
  - rewrite (decide_True (P := name ∈ name :: names)) by set_solver.
    destruct (try_name _ _ name s); [done|]. by destruct (decide _).
  - rewrite (H k) by set_solver.
    destruct (decide (name ∈ names)); [rewrite decide_True by set_solver|rewrite decide_False by set_solver];
      done.
Qed.

Lemma try_names_longest s :
  try_names results (Some v) (scan_order results) s =
    match results !! parse_identifier s with
    | None => None
    | Some _ => try_name results (Some v) (parse_identifier s) s
    end.
Proof.
  rewrite (try_names_only _ (parse_identifier s)).
  - destruct (results !! parse_identifier s) eqn:E; [apply decide_True|apply decide_False];
      rewrite scan_order_elem, E; [by eexists|]. by intros [? ?].
  - intros k Hk Hne. apply try_name_shorter; [|done].
    apply validate_result_name_ok, names_valid. by apply scan_order_elem.
Qed.

Lemma drop_parse_identifier s r :
  s = parse_identifier s +:+ r -> str_drop (String.length (parse_identifier s)) s = r.
Proof. intros H. rewrite H at 2. apply str_drop_app. Qed.

Lemma drop_identifier s : exists r,
  s = parse_identifier s +:+ r /\ str_drop (String.length (parse_identifier s)) s = r.
Proof.
  destruct (parse_identifier_prefix s) as [r Hr]. exists r. split; [done|].
  by apply drop_parse_identifier.
Qed.

Lemma map_ok_ext {T U E} (f g : T -> U) (r : result T E) :
  (forall x, f x = g x) -> map_ok f r = map_ok g r.
Proof. intros H. destruct r; [|done]. cbn. by rewrite H. Qed.

Lemma head_cases c (t : string) : (exists t', t = String c t') \/ forall t', t <> String c t'.
Proof.
  destruct t as [|a t]; [by right|]. destruct (decide (a = c)) as [->|]; [left; by exists t|right].
  intros t' E. congruence.
Qed.

(** What a name matches: its selection, fetched, and the text consumed. *)
Lemma try_name_select name after sel rest :
  continues after = false -> select after = (sel, rest) ->
  exists used, after = used +:+ rest /\
  try_name results (Some v) name (name +:+ after) =
    Some (map_ok (fun t => (t, String.length (name +:+ used)))
          (fetch name (default "" (results !! name)) sel)).
Proof.
  intros Hc Hsel. unfold try_name. rewrite strip_prefix_app.
  assert (Hlen : forall u, String.length (name +:+ u) = String.length name + String.length u).
  { intros u. induction name as [|a n IH]; [done|]. cbn. by rewrite IH. }
  destruct after as [|c t].
  { injection Hsel as <- <-. exists "". rewrite Hlen, Nat.add_0_r. done. }
  cbn in Hc. destruct (decide (c = "?"%char)) as [->|Hq].
  { injection Hsel as <- <-. exists "?". rewrite Hlen. done. }
  destruct (decide (c = "."%char)) as [->|Hd].
  2: { assert (Hs : starts_with ".*" (String c t) = false).
  { unfold starts_with. cbn [strip_prefix]. by destruct (Ascii.eqb_spec "." c) as [<-|]. }
  exists "". rewrite Hs, Hc, Hlen, Nat.add_0_r.
  assert (Hsel' : select (String c t) = (Scalar false, String c t)).
  { clear -Hq Hd. destruct c as [[] [] [] [] [] [] [] []]; try done; by destruct t as [|[[] [] [] [] [] [] [] []]]. }
  rewrite Hsel' in Hsel. injection Hsel as <- <-.
  split; [done|]. destruct c as [[] [] [] [] [] [] [] []]; done. }
  destruct (head_cases "*" t) as [[t' ->]|Hs].
  { injection Hsel as <- <-. exists ".*". rewrite Hlen. done. }
  assert (Hdots : starts_with ".*" (String "." t) = false).
  { apply bool_decide_eq_false. intros [r Hr]. apply strip_prefix_Some in Hr. injection Hr as Hr. by apply (Hs r). }
  rewrite Hdots.
  assert (Hsel' : select (String "." t) =
    (let col := parse_identifier t in
    if str_is_empty col then (Scalar false, String "." t)
    else match str_drop (String.length col) t with
    | String "?" t' => (Column col true, t')
    | t' => (Column col false, t')
    end)).
  { clear -Hs. destruct t as [|c t]; [done|]. cbn [select].
    destruct c as [[] [] [] [] [] [] [] []]; try done. by destruct (Hs t). }
  rewrite Hsel' in Hsel. cbv zeta in Hsel |- *.
  destruct (drop_identifier t) as (r & Hr & Hdrop). rewrite Hdrop in Hsel |- *.
  destruct (str_is_empty (parse_identifier t)) eqn:He.
  { injection Hsel as <- <-. exists "". rewrite Hlen, Nat.add_0_r. done. }
  destruct (head_cases "?" r) as [[r' ->]|Hn].
  - injection Hsel as <- <-. exists ("." +:+ parse_identifier t +:+ "?").
    split; [rewrite Hr at 1; by rewrite !str_app_assoc|].
    change (starts_with "?" (String "?" r')) with true. f_equal.
    apply map_ok_ext. intros x. f_equal. rewrite Hlen. cbn. rewrite str_length_app. cbn. lia.
  - assert (Hq' : starts_with "?" r = false).
    { apply bool_decide_eq_false. intros [r' Hr']. apply strip_prefix_Some in Hr'. by apply (Hn r'). }
    assert (Hcol : (Column (parse_identifier t) false, r) = (sel, rest)).
    { rewrite <- Hsel. destruct r as [|[[] [] [] [] [] [] [] []] r]; try done; by destruct (Hn r). }
    injection Hcol as <- <-. exists ("." +:+ parse_identifier t).
    split; [rewrite Hr at 1; by rewrite !str_app_assoc|]. rewrite Hq'. f_equal.
    apply map_ok_ext. intros x. f_equal. rewrite Hlen. cbn. lia.
Qed.

Lemma reference_stops s after json :
  results !! parse_identifier s = Some json -> s = parse_identifier s +:+ after ->
  continues after = false.
Proof.
  intros E Hs. apply (parse_identifier_stops s); [done|]. intros Hn.
  assert (Hid : is_identifier (parse_identifier s) = true)
    by (apply validate_result_name_ok, names_valid; by eexists).
  by rewrite Hn in Hid.
Qed.

Lemma select_shorter s after json sel rest :
  results !! parse_identifier s = Some json -> s = parse_identifier s +:+ after ->
  select after = (sel, rest) -> String.length rest <= String.length s.
Proof.
  intros E Hs Hsel. pose proof (reference_stops _ _ _ E Hs) as Hc.
  destruct (try_name_select (parse_identifier s) after sel rest Hc Hsel) as (used & Hu & _).
  rewrite Hs, Hu, !str_length_app. lia.
Qed.

Lemma scan_step s :
  substitute_scan results (Some v) (scan_order results) 0 ("$" +:+ s) =
    match results !! parse_identifier s with
    | None => let? r := substitute_scan results (Some v) (scan_order results) 0 s in Ok ("$" +:+ r)
    | Some json =>
        let? text := fetch (parse_identifier s) json
            (fst (select (str_drop (String.length (parse_identifier s)) s))) in
        let? r := substitute_scan results (Some v) (scan_order results) 0
            (snd (select (str_drop (String.length (parse_identifier s)) s))) in
        Ok (text +:+ r)
    end.
Proof.
  cbn [String.append substitute_scan]. change (negb (Ascii.eqb "$" "$")) with false. cbv iota.
  rewrite try_names_longest. destruct (results !! parse_identifier s) as [json|] eqn:E; [|done].
  destruct (drop_identifier s) as (after & Hs & ->).
  assert (Hc : continues after = false) by by eapply reference_stops.
  destruct (select after) as [sel rest] eqn:Hsel.
  destruct (try_name_select (parse_identifier s) after sel rest Hc Hsel) as (used & Hu & Ht).
  rewrite <- Hs, E in Ht. rewrite Ht. cbn [fst snd]. change (default "" (Some json)) with json.
  destruct (fetch _ json sel) as [text|e]; [|done]. cbn [map_ok result_bind].
  rewrite Hs at 2. rewrite Hu, <- str_app_assoc. by rewrite substitute_scan_skip.
Qed.

Lemma scan_refines n s t : String.length s <= n ->
  substitute_scan results (Some v) (scan_order results) 0 s = Ok t <-> substituted v results s t.
Proof.
  revert s t. induction n as [|n IH]; intros s t Hn.
  { destruct s; [|cbn in Hn; lia]. split; [intros [= <-]; constructor|by inversion 1]. }
  destruct s as [|c s].
  { split; [intros [= <-]; constructor|by inversion 1]. }
  cbn in Hn. destruct (Ascii.eqb_spec c "$") as [->|Hc].
  2: { cbn [substitute_scan]. apply Ascii.eqb_neq in Hc as Hc'. rewrite Hc'. cbn [negb]. split.
  - intros (r & Hr & [= <-])%result_bind_ok. apply substituted_text; [done|]. apply IH; [lia|done].
  - inversion 1; subst; [|done..]. apply result_bind_ok. eexists. split; [|done].
    apply IH; [lia|done]. }
  change (String "$" s) with ("$" +:+ s). rewrite scan_step.
  destruct (drop_identifier s) as (after & Hs & Hd). rewrite Hd. clear Hd.
  destruct (select after) as [sel rest] eqn:Hsel. cbn [fst snd].
  assert (Hrest : forall json, results !! parse_identifier s = Some json -> String.length rest <= n).
  { intros json E. pose proof (select_shorter s after json sel rest E Hs Hsel). lia. }
  split.
  - destruct (results !! parse_identifier s) as [json|] eqn:E.
    + intros (text & Ht%fetch_spec & H)%result_bind_ok.
      apply result_bind_ok in H as (r & Hr%IH & H); [|by eapply Hrest].
      assert (t = text +:+ r) as -> by congruence. by eapply substituted_reference.
    + intros (r & Hr%IH & H)%result_bind_ok; [|lia].
      assert (t = "$" +:+ r) as -> by congruence. by apply substituted_dollar.
  - inversion 1 as [|c s0 t0 Hc|s0 t0 Hno Hsub|s0 after0 json sel0 rest0 text t0 Hj Hs0 Hsel0 Hst Hsub]; subst.
    + done.
    + rewrite Hno. apply result_bind_ok. exists t0. split; [|done]. apply IH; [lia|done].
    + assert (after0 = after) as ->.
      { apply (str_app_inj_l (parse_identifier s)). congruence. }
      rewrite Hsel in Hsel0. injection Hsel0 as <- <-. rewrite Hj. apply result_bind_ok.
      exists text. split; [by apply fetch_spec|]. apply result_bind_ok.
      exists t0. split; [|done]. apply IH; [by eapply Hrest|done].
Qed.
End Refinement.


(** ** Whole-value references *)

Lemma null_safe_suffix r : str_is_empty r || String.eqb r "?" = true -> r = "" \/ r = "?".
Proof. destruct r as [|c r]; [by left|]. intros H%String.eqb_eq. by right. Qed.

(** The forms of a whole-value reference. *)
Definition whole_forms (v : string) : Prop :=
  exists name, is_identifier name = true /\
  (v = "{" +:+ name +:+ "}" \/
   exists sel suffix, v = "$" +:+ name +:+ sel +:+ suffix /\ (suffix = "" \/ suffix = "?") /\
     (sel = "" \/ exists col, is_identifier col = true /\ sel = "." +:+ col)).

(** The values accepted as "one reference and nothing else" are exactly the
    forms [{name}], [$name] and [$name.column], the latter two possibly null-safe,
    surrounded by white space only. *)
Theorem whole_value_reference_forms v :
  is_whole_value_reference v = true <-> whole_forms (trim v).
Proof.
  unfold is_whole_value_reference, whole_forms. generalize (trim v) as s. intros s. split.
  - destruct s as [|c s]; [done|].
    destruct (drop_identifier s) as (r & Hs & Hdrop).
    intros H. assert (Hc : c = "$"%char \/ c = "{"%char).
    { destruct c as [[] [] [] [] [] [] [] []]; first [discriminate H | by left | by right]. }
    destruct Hc as [-> | ->].
    + destruct (str_is_empty (parse_identifier s)) eqn:He; [done|].
      exists (parse_identifier s). split; [apply parse_identifier_identifier; by intros E; rewrite E in He|].
      right. rewrite Hdrop in H. destruct r as [|c r].
      * exists "", "". split; [by rewrite Hs at 1|by auto].
      * destruct (decide (c = "."%char)) as [->|Hdot].
        -- destruct (drop_identifier r) as (r2 & Hr & Hdrop2).
           destruct (str_is_empty (parse_identifier r)) eqn:Hcol; [done|].
           rewrite Hdrop2 in H. apply null_safe_suffix in H.
           exists ("." +:+ parse_identifier r), r2. split.
           { rewrite Hs at 1. rewrite Hr at 1. by rewrite !str_app_assoc. }
           split; [done|]. right. eexists. split; [|done].
           apply parse_identifier_identifier. by intros E; rewrite E in Hcol.
        -- assert (H' : str_is_empty (String c r) || String.eqb (String c r) "?" = true).
           { destruct c as [[] [] [] [] [] [] [] []]; first [exact H | done]. }
           apply null_safe_suffix in H'. exists "", (String c r).
           split; [by rewrite Hs at 1|by auto].
    + apply andb_true_iff in H as [He Hr]. rewrite Hdrop in Hr. apply String.eqb_eq in Hr as ->.
      exists (parse_identifier s). split.
      * apply parse_identifier_identifier. intros E. by rewrite E in He.
      * left. by rewrite Hs at 1.
  - intros (name & Hid & [-> | (sel & suffix & -> & Hsuf & Hsel)]).
    + cbn [String.append]. rewrite parse_identifier_app by done. rewrite str_drop_app.
      destruct name; [done|]. done.
    + cbn [String.append]. assert (Hne : str_is_empty name = false) by by destruct name.
      destruct Hsel as [->|(col & Hcol & ->)].
      * rewrite parse_identifier_app; [|done|by destruct Hsuf as [->| ->]].
        rewrite Hne, str_drop_app. by destruct Hsuf as [->| ->].
      * rewrite parse_identifier_app by done. rewrite Hne, str_drop_app. cbn [String.append].
        rewrite parse_identifier_app; [|done|by destruct Hsuf as [->| ->]].
        assert (Hne' : str_is_empty col = false) by by destruct col.
        rewrite Hne', str_drop_app. by destruct Hsuf as [->| ->].
Qed.

(** ** Concrete instances *)

Definition sample_result : string := print_value (Object [("rows", Array [Object [("id", Number (PosInt 7))]])]).
Definition sample_results : gmap string string :=
  <["order" := sample_result]> (<["order_id" := "'; DROP"]> ∅).

Lemma sample_results_named k :
  is_Some (sample_results !! k) -> validate_result_name k = Ok tt.
Proof.
  unfold sample_results. intros [v [[<- _]|[_ H]]%lookup_insert_Some]; [done|].
  apply lookup_insert_Some in H as [[<- _]|[_ H]]; [done|]. by rewrite lookup_empty in H.
Qed.

Lemma reference_replaced_witness :
  @substitute_results text_json sample_escape "SELECT $order + 1" sample_results (Some V1)
    = Ok "SELECT 7 + 1" /\
  @substitute_results text_json sample_escape ("SELECT " +:+ "$" +:+ "order_id" +:+ ";")
    sample_results (Some V1) = Ok "SELECT '''; DROP';".
Proof.
  split; [vm_compute; reflexivity|].
  pose proof (@reference_replaced text_json sample_escape sample_results (Some V1)
    "SELECT " "order_id" ";" "'; DROP" sample_results_named eq_refl eq_refl eq_refl) as H.
  etransitivity; [exact H|]. vm_compute. reflexivity.
Defined.

Lemma substitution_order_independent_witness :
  @substitute_scan text_json sample_escape sample_results (Some V1)
    (merge_sort longer (reverse (map fst (map_to_list sample_results)))) 0 "a $order_id b"
  = @substitute_results text_json sample_escape "a $order_id b" sample_results (Some V1).
Proof.
  apply (@substitution_order_independent text_json sample_escape).
  apply reverse_Permutation.
Defined.

Lemma no_reference_unchanged_witness :
  @substitute_results text_json sample_escape "SELECT {order}" sample_results None
  = Ok "SELECT {order}".
Proof. apply (@no_reference_unchanged text_json sample_escape). reflexivity. Defined.

Lemma row_set_bounded_witness :
  is_ok (@expand_row_set text_json sample_escape "batch"
    (print_value (Object [("rows", Array (replicate 2 (Object [("id", Bool true)])))])) (Some V1)) = true
  /\ forall e, @expand_row_set text_json sample_escape "batch"
    (print_value (Object [("rows", Array [Object [("id", Bool true)]; Null])])) (Some V1) = Err e ->
    e = "$" +:+ "batch" +:+ ".* — row is not an object"
    /\ exists row, row ∈ [Object [("id", Bool true)]; Null] /\ as_object row = None.
Proof.
  split; [vm_compute; reflexivity|].
  apply (@row_set_bounded text_json sample_escape "batch" _ (Some V1)
           [Object [("id", Bool true)]; Null]).
  vm_compute. reflexivity.
Defined.

Lemma braced_value_opaque_witness :
  substitute_braced_variables "run {a} of {sys_label}" (<["a" := "{b} $x"]> ∅) sample_sys
  = "run {b} $x of nightly".
Proof.
  etransitivity;
    [apply (braced_value_opaque (<["a" := "{b} $x"]> ∅) sample_sys "run " "a" "{b} $x"
              " of {sys_label}"); vm_compute; reflexivity|].
  vm_compute. reflexivity.
Defined.

(** A step of the current quoting version: a variable, a whole result, a null-safe
    column, a row set and a dollar sign that refers to nothing. *)
Definition sample_rows : string :=
  print_value (Object [("rows", Array [Object [("id", Number (PosInt 7)); ("who", JString "O'Hara")];
    Object [("id", Null)]])]).
Definition sample_query : string :=
  "SELECT {col}, $1 WHERE a = $note AND b = $r.who? FROM $r.*" .
Definition sample_named : gmap string string := <["r" := sample_rows]> (<["note" := "it's"]> ∅).

Lemma sample_named_valid k :
  is_Some (sample_named !! k) -> validate_result_name k = Ok tt.
Proof.
  unfold sample_named. intros [x [[<- _]|[_ H]]%lookup_insert_Some]; [done|].
  apply lookup_insert_Some in H as [[<- _]|[_ H]]; [done|]. by rewrite lookup_empty in H.
Qed.

Definition sample_substituted : string :=
  "SELECT id, $1 WHERE a = 'it''s' AND b = 'O''Hara' FROM (VALUES (7,'O''Hara'::text), (NULL,NULL)) AS "
    +:+ in_quotes "r" +:+ "(" +:+ in_quotes "id" +:+ ", " +:+ in_quotes "who" +:+ ")".

