(* ===== verification/Graph.v ===== *)
(** The function graph and the inputs of an orchestration
    ([src/types.rs], lines 1284-1304, 1494-1567 and 1882-1893).

    Each type comes with its derived [Serialize]/[Deserialize] as a [Codec]; the
    derive attributes decide which fields are skipped and which have defaults. *)
From S2P Require Import Prelude RustString Json Substitution.

(** ** Data *)

Record FunctionNode := mkNode {
  id : string;
  node_type : string;
  query : option string;
  result_name : option string;
  left_node : option string;
  right_node : option string;
  submitted_by : string;
  database : option string;
}.

Record FunctionGraph := mkGraph {
  graph_instance_id : string;
  root_node_id : string;
  nodes : gmap string FunctionNode;
  sql_quoting_version : SqlQuotingVersion;
}.

Record FunctionInput := mkInput {
  input_instance_id : string;
  input_label : option string;
  input_vars : gmap string string;
  input_loop_iteration : N;
  input_graph : option string;
  origin_xid : option string;
  graph_wait_attempt : N;
  graph_retry_attempt : N;
}.

Record LoopConfig := mkLoopConfig {
  continue_on_failure : bool;
  loop_condition_node : option string;
}.

#[export] Instance FunctionNode_eq_dec : EqDecision FunctionNode.
Proof. solve_decision. Defined.
#[export] Instance FunctionGraph_eq_dec : EqDecision FunctionGraph.
Proof. solve_decision. Defined.
#[export] Instance FunctionInput_eq_dec : EqDecision FunctionInput.
Proof. solve_decision. Defined.

Definition is_zero_u32 (n : N) : bool := (n =? 0)%N.
Definition is_false (b : bool) : bool := negb b.

(** ** Serialization *)

Definition en_u64 (n : N) : value := Number (PosInt n).

Definition en_node (n : FunctionNode) : value := Object (
  [("id", JString (id n)); ("node_type", JString (node_type n));
   ("query", en_opt_string (query n)); ("result_name", en_opt_string (result_name n));
   ("left_node", en_opt_string (left_node n)); ("right_node", en_opt_string (right_node n));
   ("submitted_by", JString (submitted_by n))]
  ++ skip_none "database" (database n)).

Definition de_node (v : value) : option FunctionNode :=
  l ← as_object v;
  i ← req "id" as_str l; t ← req "node_type" as_str l;
  q ← opt "query" as_str l; r ← opt "result_name" as_str l;
  ln ← opt "left_node" as_str l; rn ← opt "right_node" as_str l;
  s ← req "submitted_by" as_str l; d ← opt "database" as_str l;
  Some (mkNode i t q r ln rn s d).

Definition en_sql_quoting (q : SqlQuotingVersion) : value :=
  JString (match q with Legacy => "legacy" | V1 => "v1" end).
Definition de_sql_quoting (v : value) : option SqlQuotingVersion :=
  s ← de_unit_variant v;
  if String.eqb s "legacy" then Some Legacy
  else if String.eqb s "v1" then Some V1 else None.

Definition en_graph (g : FunctionGraph) : value := Object (
  [("instance_id", JString (graph_instance_id g)); ("root_node_id", JString (root_node_id g));
   ("nodes", en_map en_node (nodes g))]
  ++ skip_if (is_legacy (sql_quoting_version g)) "sql_quoting_version"
       (en_sql_quoting (sql_quoting_version g))).

Definition de_graph (v : value) : option FunctionGraph :=
  l ← as_object v;
  i ← req "instance_id" as_str l; r ← req "root_node_id" as_str l;
  n ← req "nodes" (de_map de_node) l;
  q ← dflt "sql_quoting_version" Legacy de_sql_quoting l;
  Some (mkGraph i r n q).

Definition en_input (x : FunctionInput) : value := Object (
  [("instance_id", JString (input_instance_id x))]
  ++ skip_none "label" (input_label x)
  ++ [("vars", en_string_map (input_vars x)); ("loop_iteration", en_u64 (input_loop_iteration x))]
  ++ skip_none "graph" (input_graph x)
  ++ skip_none "origin_xid" (origin_xid x)
  ++ skip_if (is_zero_u32 (graph_wait_attempt x)) "graph_wait_attempt" (en_u64 (graph_wait_attempt x))
  ++ skip_if (is_zero_u32 (graph_retry_attempt x)) "graph_retry_attempt"
       (en_u64 (graph_retry_attempt x))).

Definition de_input (v : value) : option FunctionInput :=
  l ← as_object v;
  i ← req "instance_id" as_str l; lb ← opt "label" as_str l;
  vs ← dflt "vars" ∅ de_string_map l; it ← dflt "loop_iteration" 0%N de_u64 l;
  g ← opt "graph" as_str l; x ← opt "origin_xid" as_str l;
  w ← dflt "graph_wait_attempt" 0%N de_u32 l; r ← dflt "graph_retry_attempt" 0%N de_u32 l;
  Some (mkInput i lb vs it g x w r).

Definition en_loop_config (c : LoopConfig) : value := Object (
  skip_if (is_false (continue_on_failure c)) "continue_on_failure" (Bool (continue_on_failure c))
  ++ skip_none "condition_node" (loop_condition_node c)).
Definition de_loop_config (v : value) : option LoopConfig :=
  l ← as_object v;
  f ← dflt "continue_on_failure" false as_bool l; c ← opt "condition_node" as_str l;
  Some (mkLoopConfig f c).

(** ** Codecs *)

Definition valid_input (x : FunctionInput) : Prop :=
  (input_loop_iteration x <= u64_max)%N /\ (graph_wait_attempt x <= u32_max)%N /\
  (graph_retry_attempt x <= u32_max)%N.

#[export] Instance node_codec : Codec FunctionNode := {|
  type_name := "struct FunctionNode"; en := en_node; de := de_node; valid _ := True |}.
#[export] Instance graph_codec : Codec FunctionGraph := {|
  type_name := "struct FunctionGraph"; en := en_graph; de := de_graph; valid _ := True |}.
#[export] Instance input_codec : Codec FunctionInput := {|
  type_name := "struct FunctionInput"; en := en_input; de := de_input; valid := valid_input |}.
#[export] Instance loop_config_codec : Codec LoopConfig := {|
  type_name := "struct LoopConfig"; en := en_loop_config; de := de_loop_config;
  valid _ := True |}.

Definition string_map_to_json `{SerdeJson} (m : gmap string string) : result string string :=
  to_string_res (en_string_map m).

(** ** Facts *)

(** One step of a derived decoder on a literal member list. *)
Ltac decode :=
  repeat first
    [ progress cbn [as_object mbind option_bind app req opt dflt obj_get String.eqb Ascii.eqb
        Bool.eqb as_str as_bool en_opt_string skip_none skip_if fmap option_fmap option_map]
    | progress (rewrite ?de_en_string_map) ].

#[export] Instance node_codec_ok : CodecOk FunctionNode.
Proof.
  constructor; intros [i t [q|] [r|] [l|] [rn|] s [d|]] _; reflexivity.
Qed.

Lemma de_u64_en n : (n <= u64_max)%N -> de_u64 (en_u64 n) = Some n.
Proof. intros H%N.leb_le. simpl. by rewrite H. Qed.
Lemma de_u32_en n : (n <= u32_max)%N -> de_u32 (en_u64 n) = Some n.
Proof. intros H%N.leb_le. simpl. by rewrite H. Qed.
Lemma de_sql_quoting_en q : de_sql_quoting (en_sql_quoting q) = Some q.
Proof. by destruct q. Qed.

#[export] Instance graph_codec_ok : CodecOk FunctionGraph.
Proof.
  constructor; intros [i r n q] _.
  - assert (Hn : de_map de_node (en_map en_node n) = Some n).
    { apply de_en_map. intros k a _. exact (de_en a I). }
    change (de_graph (en_graph (mkGraph i r n q)) = Some (mkGraph i r n q)).
    unfold en_graph, de_graph. cbn [nodes graph_instance_id root_node_id sql_quoting_version].
    destruct q; decode; by rewrite Hn.
  - assert (Hn : wf_value (en_map en_node n) = true).
    { apply wf_en_map. intros k a _. exact (wf_en a I). }
    change (wf_value (en_graph (mkGraph i r n q)) = true). unfold en_graph. cbn [nodes]. remember (en_map en_node n) as vn.
    destruct q; simpl; by rewrite Hn.
Qed.

#[export] Instance input_codec_ok : CodecOk FunctionInput.
Proof.
  constructor; intros [i lb vs it g x w r] (H1 & H2 & H3).
  - set (a := mkInput i lb vs it g x w r). change (de_input (en_input a) = Some a).
    unfold en_input, de_input, a. cbn -[en_string_map de_string_map N.leb de_u64 de_u32 en_u64 is_zero_u32].
    destruct lb, g, x; unfold is_zero_u32; destruct (N.eqb_spec w 0) as [->|],
      (N.eqb_spec r 0) as [->|]; decode; rewrite de_u64_en by done; decode;
      rewrite ?de_u32_en by done; decode; rewrite ?de_u32_en by done; done.
  - set (a := mkInput i lb vs it g x w r). change (wf_value (en_input a) = true).
    unfold en_input, a. cbn [input_vars input_label input_graph origin_xid graph_wait_attempt
      graph_retry_attempt input_instance_id input_loop_iteration].
    pose proof (wf_en_string_map vs) as Hv. remember (en_string_map vs) as v.
    cbn in H1, H2, H3. apply N.leb_le in H1. assert (Hu : forall n, (n <= u32_max)%N -> (n <=? u64_max)%N = true).
    { intros n Hn. apply N.leb_le. unfold u32_max, u64_max in *. lia. }
    apply Hu in H2, H3.
    destruct lb, g, x, (is_zero_u32 w), (is_zero_u32 r); cbn; by rewrite Hv, H1, ?H2, ?H3.
Qed.

#[export] Instance loop_config_codec_ok : CodecOk LoopConfig.
Proof. constructor; intros [[|] [c|]] _; reflexivity. Qed.
