(* ===== verification/Flatten.v ===== *)
(** Durable futures and their materialization as graph nodes
    ([src/types.rs], lines 1306-1490 and 1785-2170).

    A [Durofut] embeds its children as raw JSON text.  [flatten_graph] walks that
    tree with an explicit stack, parsing one level at a time, and assigns every
    node an id before its parent refers to it. *)
From S2P Require Import Prelude RustString Json JsonText.

Definition MAX_GRAPH_DEPTH : nat := 256.
Definition MAX_GRAPH_NODES : N := 10000.

Definition VALID_NODE_TYPES : list string :=
  ["SQL"; "THEN"; "IF"; "JOIN"; "LOOP"; "BREAK"; "RACE"; "SLEEP"; "WAIT_SCHEDULE"; "HTTP";
   "HTTP_MULTIPART"; "SIGNAL"].
Definition valid_node_type (t : string) : bool := existsb (String.eqb t) VALID_NODE_TYPES.

(** ** Durable futures *)

Record Durofut := mkDurofut {
  d_node_type : string;
  d_left_node : option string;
  d_right_node : option string;
  d_condition_node : option string;
  d_extra_nodes : list string;
  d_query : option string;
  d_result_name : option string;
}.

(** [Durofut { node_type, query, ..Default::default() }] *)
Definition sql_durofut (s : string) : Durofut :=
  mkDurofut "SQL" None None None [] (Some s) None.

Fixpoint raw_get (k : string) (l : list (string * string)) : option string :=
  match l with
  | [] => None
  | (k', v) :: l' => if String.eqb k k' then Some v else raw_get k l'
  end.

Definition durofut_fields : list string :=
  ["node_type"; "left_node"; "right_node"; "condition_node"; "extra_nodes"; "query"; "result_name"].

Section DurofutJson.
Context {SJ : SerdeJson}.

(** *** Deserialization, field by field *)

(** [Option::<Box<RawValue>>] under the given [deserialize_with]. *)
Definition de_raw_child (msg k : string) (l : list (string * string))
    : result (option string) string :=
  match raw_get k l with
  | None => Ok None
  | Some raw =>
      if String.eqb raw "null" then Ok None
      else if negb (starts_with "{" (trim_start raw)) then Err msg
      else Ok (Some raw)
  end.
Definition deserialize_raw_object := de_raw_child "Durofut children must be JSON objects".
Definition deserialize_condition_node :=
  de_raw_child "condition_node must be a Durofut JSON object".

Definition deserialize_raw_objects (l : list (string * string)) : result (list string) string :=
  match raw_get "extra_nodes" l with
  | None => Ok []
  | Some raw =>
      let? values := raw_array raw in
      if existsb (fun raw => negb (starts_with "{" (trim_start raw))) values
      then Err "extra_nodes entries must be Durofut JSON objects"
      else Ok values
  end.

Definition de_opt_string (k : string) (l : list (string * string))
    : result (option string) string :=
  match raw_get k l with
  | None => Ok None
  | Some raw =>
      match value_from_str raw with
      | Ok Null => Ok None
      | Ok (JString s) => Ok (Some s)
      | Ok _ => Err "expected a string"
      | Err e => Err e
      end
  end.

Definition de_string (k : string) (l : list (string * string)) : result string string :=
  let? o := ok_or (raw_get k l) ("missing field `" +:+ k +:+ "`") in
  match value_from_str o with
  | Ok (JString s) => Ok s
  | Ok _ => Err "expected a string"
  | Err e => Err e
  end.

Definition de_durofut (l : list (string * string)) : result Durofut string :=
  if negb (bool_decide (NoDup (filter (fun k => k ∈ durofut_fields) (map fst l))))
  then Err "duplicate field"
  else
    let? t := de_string "node_type" l in
    let? ln := deserialize_raw_object "left_node" l in
    let? rn := deserialize_raw_object "right_node" l in
    let? cn := deserialize_condition_node "condition_node" l in
    let? ex := deserialize_raw_objects l in
    let? q := de_opt_string "query" l in
    let? r := de_opt_string "result_name" l in
    Ok (mkDurofut t ln rn cn ex q r).

(** [serde_json::from_str::<Durofut>(s)] *)
Definition durofut_from_str (s : string) : result Durofut string :=
  let? l := raw_object s in map_err (fun e => type_error e s) (de_durofut l).

(** *** Serialization *)

Definition raw_field (k : string) (o : option string) : list (string * string) :=
  match o with Some raw => [(k, raw)] | None => [] end.

Definition durofut_members (d : Durofut) : list (string * string) :=
  [("node_type", value_to_string (JString (d_node_type d)))]
    ++ raw_field "left_node" (d_left_node d)
    ++ raw_field "right_node" (d_right_node d)
    ++ raw_field "condition_node" (d_condition_node d)
    ++ match d_extra_nodes d with
      | [] => []
      | ex => [("extra_nodes", raw_array_to_string ex)]
      end
    ++ raw_field "query" ((fun s => value_to_string (JString s)) <$> d_query d)
    ++ raw_field "result_name" ((fun s => value_to_string (JString s)) <$> d_result_name d).

Definition durofut_to_json (d : Durofut) : string := raw_object_to_string (durofut_members d).

Definition into_raw (d : Durofut) : string := durofut_to_json d.

Definition child_from_raw (raw : string) : result Durofut string :=
  map_err (fun e => "failed to deserialize Durofut child: " +:+ e) (durofut_from_str raw).

Definition try_from_json (s : string) : result Durofut string :=
  map_err (fun e => "failed to deserialize Durofut: " +:+ e) (durofut_from_str s).

(** *** From the text of a step *)

Definition is_durofut (s : string) : bool :=
  match durofut_from_str s with
  | Ok d => valid_node_type (d_node_type d)
  | Err _ => false
  end.

Definition envelope_node_type (s : string) : option string :=
  match value_from_str s with
  | Ok v => get "node_type" v ≫= as_str
  | Err _ => None
  end.

Definition is_durofut_envelope (s : string) : bool :=
  bool_decide (is_Some (envelope_node_type s)).

(** The session marker left by a helper that does not return a future, and the
    start of the current statement. *)
Definition same_statement_non_future_helper_name (marker : option string) (statement : Z)
    (s : string) : option string :=
  if starts_with "{" (trim_start s) then None
  else
    m ← marker;
    '(helper_name, ts) ← split_once_char "010" m;
    t ← parse_i64 ts;
    if (t =? statement)%Z then Some helper_name else None.

Definition non_future_helper_error (helper_name : string) : string :=
  helper_name +:+ " cannot be used as a workflow step. Call " +:+ helper_name +:+
  " before df.start().".

Definition unknown_node_type (t : string) : string :=
  "Unknown node_type '" +:+ t +:+ "'. Valid types: " +:+ join ", " VALID_NODE_TYPES.

(** [Err] is [pgrx::error!]. *)
Definition ensure (marker : option string) (statement : Z) (s : string)
    : result Durofut string :=
  match same_statement_non_future_helper_name marker statement s with
  | Some helper_name => Err (non_future_helper_error helper_name)
  | None =>
      match durofut_from_str s with
      | Ok d => if valid_node_type (d_node_type d) then Ok d else Ok (sql_durofut s)
      | Err serde_err =>
          if is_durofut_envelope s then
            Err ("Invalid Durofut JSON: failed to deserialize workflow step: " +:+ serde_err)
          else Ok (sql_durofut s)
      end
  end.

Definition ensure_strict (marker : option string) (statement : Z) (s : string)
    : result Durofut string :=
  match same_statement_non_future_helper_name marker statement s with
  | Some helper_name => Err (non_future_helper_error helper_name)
  | None =>
      match durofut_from_str s with
      | Ok d =>
          if valid_node_type (d_node_type d) then Ok d
          else Err (unknown_node_type (d_node_type d))
      | Err serde_err =>
          match envelope_node_type s with
          | Some nt =>
              if valid_node_type nt then
                Err ("Malformed Durofut JSON with node_type '" +:+ nt +:+ "': " +:+ serde_err)
              else Err (unknown_node_type nt)
          | None => Ok (sql_durofut s)
          end
      end
  end.

(** *** Config children *)

Definition reject_embedded_config_children (d : Durofut) : result unit string :=
  match d_query d with
  | None => Ok tt
  | Some q =>
      match value_from_str q with
      | Err _ => Ok tt
      | Ok config =>
          let legacy_field :=
            if (String.eqb (d_node_type d) "IF" || String.eqb (d_node_type d) "LOOP")
                && bool_decide (is_Some (get "condition_node" config)) then Some "condition_node"
            else if String.eqb (d_node_type d) "JOIN"
                && bool_decide (is_Some (get "extra_nodes" config)) then Some "extra_nodes"
            else None in
          match legacy_field with
          | Some field => Err (field +:+ " in " +:+ d_node_type d +:+
                               " must be a first-class Durofut field, not embedded in query")
          | None => Ok tt
          end
      end
  end.

Definition validate_config_children (d : Durofut) : result unit string :=
  let supports_condition := String.eqb (d_node_type d) "IF" || String.eqb (d_node_type d) "LOOP" in
  if bool_decide (is_Some (d_condition_node d)) && negb supports_condition then
    Err ("condition_node is not valid for " +:+ d_node_type d +:+ " nodes")
  else if negb (bool_decide (d_extra_nodes d = [])) && negb (String.eqb (d_node_type d) "JOIN") then
    Err ("extra_nodes is not valid for " +:+ d_node_type d +:+ " nodes")
  else reject_embedded_config_children d.

(** The config with the children's ids; [None] is a panic of [IndexMut]. *)
Definition add_config_children (config : value) (condition_node : option string)
    (extra_nodes : list string) : option value :=
  c1 ← match condition_node with
    | Some c => index_set config "condition_node" (JString c)
    | None => Some config
    end;
  match extra_nodes with
  | [] => Some c1
  | _ => index_set c1 "extra_nodes" (Array (map JString extra_nodes))
  end.

Definition materialized_query (d : Durofut) (condition_node : option string)
    (extra_nodes : list string) : result (option string) string :=
  if negb (bool_decide (is_Some condition_node)) && bool_decide (extra_nodes = []) then
    Ok (d_query d)
  else
    let? config :=
      match d_query d with
      | Some q => map_err (fun e => "query in " +:+ d_node_type d +:+
                           " must be valid JSON config: " +:+ e) (value_from_str q)
      | None => Ok (Object [])
      end in
    if negb (is_object config) then
      Err ("query in " +:+ d_node_type d +:+ " must be a JSON config object")
    else
      match add_config_children config condition_node extra_nodes with
      | Some config => Ok (Some (value_to_string config))
      | None => Err "unreachable: the config is an object"
      end.
End DurofutJson.

(** ** Materialization *)

Record GraphError := mkGraphError { err_path : string; err_message : string }.

Definition graph_error_to_string (e : GraphError) : string :=
  err_path e +:+ ": " +:+ err_message e.

Record PendingGraphNode := mkPending {
  p_node : Durofut;
  p_id : string;
  p_depth : nat;
  p_path : string;
}.

Record MaterializedNode := mkMaterialized {
  m_id : string;
  m_node_type : string;
  m_query : option string;
  m_result_name : option string;
  m_left_node : option string;
  m_right_node : option string;
}.

(** An id source: its answer to each successive call. *)
Definition IdSource : Type := nat -> result string string.

(** What [parse_child] captures: the calls made to the id source so far, which
    are the discovered nodes, and the children found in this entry. *)
Record discovery := mkDiscovery { discovered_nodes : nat; children : list PendingGraphNode }.

(** [option.map(f).transpose()?] for a stateful [f]. *)
Definition map_transpose {A B S E} (f : A -> S -> result (B * S) E) (o : option A) (s : S)
  : result (option B * S) E :=
  match o with
  | None => Ok (None, s)
  | Some a => let? (b, s') := f a s in Ok (Some b, s')
  end.

Fixpoint map_collect {A B S E} (f : A -> S -> result (B * S) E) (l : list A) (s : S)
  : result (list B * S) E :=
  match l with
  | [] => Ok ([], s)
  | a :: l' => let? (b, s') := f a s in let? (bs, s'') := map_collect f l' s' in Ok (b :: bs, s'')
  end.

Section Flatten.
Context {SJ : SerdeJson}.

Definition parse_child (ids : IdSource) (entry : PendingGraphNode) (child : string * string)
    (st : discovery) : result (string * discovery) GraphError :=
  let '(segment, raw) := child in
  let path := p_path entry +:+ "." +:+ segment in
  if (MAX_GRAPH_NODES <=? N.of_nat (discovered_nodes st))%N then
    Err (mkGraphError path ("Workflow exceeds maximum node count of " +:+
                            show_N MAX_GRAPH_NODES +:+
                            ". Simplify the workflow or break it into multiple instances."))
  else
    let? node := map_err (mkGraphError path) (child_from_raw raw) in
    let? i := map_err (mkGraphError path) (ids (discovered_nodes st)) in
    Ok (i, mkDiscovery (S (discovered_nodes st))
        (children st ++ [mkPending node i (S (p_depth entry)) path])).

Definition has_condition (d : Durofut) : bool :=
  String.eqb (d_node_type d) "IF" || String.eqb (d_node_type d) "LOOP".

Definition indexed (segment : string) (l : list string) : list (string * string) :=
  imap (fun i raw => (segment +:+ "[" +:+ show_nat i +:+ "]", raw)) l.

(** One popped entry: its node, and its children as new entries. *)
Definition materialize (ids : IdSource) (entry : PendingGraphNode) (discovered : nat)
    : result (MaterializedNode * discovery) GraphError :=
  let d := p_node entry in
  if Nat.ltb MAX_GRAPH_DEPTH (p_depth entry) then
    Err (mkGraphError (p_path entry) ("Graph exceeds maximum nesting depth of " +:+
                                      show_nat MAX_GRAPH_DEPTH +:+
                                      ". Simplify the workflow or break it into multiple instances."))
  else if negb (valid_node_type (d_node_type d)) then
    Err (mkGraphError (p_path entry) (unknown_node_type (d_node_type d)))
  else
    let? _ := map_err (mkGraphError (p_path entry)) (validate_config_children d) in
    let parse := parse_child ids entry in
    let st0 := mkDiscovery discovered [] in
    let? (left_id, st1) := map_transpose parse (pair "left" <$> d_left_node d) st0 in
    let? (right_id, st2) := map_transpose parse (pair "right" <$> d_right_node d) st1 in
    let? (cond, st3) :=
      if has_condition d
      then map_transpose parse (pair "condition_node" <$> d_condition_node d) st2
      else Ok (None, st2) in
    let? (extras, st4) :=
      if String.eqb (d_node_type d) "JOIN"
      then map_collect parse (indexed "extra_nodes" (d_extra_nodes d)) st3
      else Ok ([], st3) in
    let? q := map_err (mkGraphError (p_path entry)) (materialized_query d cond extras) in
    Ok (mkMaterialized (p_id entry) (d_node_type d) q (d_result_name d) left_id right_id, st4).

(** The loop; the head of [pending] is the top of the stack. *)
Fixpoint flatten_loop (ids : IdSource) (fuel : nat) (pending : list PendingGraphNode)
    (discovered : nat) (nodes : list MaterializedNode)
    : option (result (list MaterializedNode) GraphError) :=
  match pending with
  | [] => Some (Ok nodes)
  | entry :: rest =>
      match fuel with
      | O => None
      | S fuel' =>
          match materialize ids entry discovered with
          | Err e => Some (Err e)
          | Ok (node, st) =>
              flatten_loop ids fuel' (children st ++ rest) (discovered_nodes st)
                (nodes ++ [node])
          end
      end
  end.

(** Every iteration materializes one of at most [MAX_GRAPH_NODES] nodes. *)
Definition flatten_fuel : nat := N.to_nat MAX_GRAPH_NODES.

Definition flatten_graph (root : Durofut) (ids : IdSource)
    : option (result (string * list MaterializedNode) GraphError) :=
  match ids O with
  | Err message => Some (Err (mkGraphError "root" message))
  | Ok root_id =>
      r ← flatten_loop ids flatten_fuel [mkPending root root_id O "root"] 1 [];
      Some (let? nodes := r in Ok (root_id, nodes))
  end.

Definition validate_recursive (d : Durofut) : option (result unit string) :=
  r ← flatten_graph d (fun n => Ok (hex8 (N.of_nat (S n))));
  Some (map_err graph_error_to_string (map_ok (fun _ => tt) r)).
End Flatten.
