(* ===== verification/FlattenSpec.v ===== *)
(** Correctness of graph materialization ([src/types.rs], [flatten_graph]).

    The stack loop is compared with a recursive specification: the pre-order
    walk [materializes] of the tree the raw children denote. *)
From S2P Require Import Prelude RustString Json JsonText Flatten.

(** The children of a node in the order they are discovered. *)
Definition config_children (d : Durofut) : list (string * string) :=
  option_list (pair "left" <$> d_left_node d) ++ option_list (pair "right" <$> d_right_node d)
  ++ (if has_condition d then option_list (pair "condition_node" <$> d_condition_node d) else [])
  ++ (if String.eqb (d_node_type d) "JOIN" then indexed "extra_nodes" (d_extra_nodes d) else []).

(** The ids [cids] of a node's children, distributed over its references. *)
Record slots (d : Durofut) (ids : list string) (l r c : option string) (ex : list string)
  : Prop := {
  slots_all : ids = option_list l ++ option_list r ++ option_list c ++ ex;
  slots_left : is_Some l <-> is_Some (d_left_node d);
  slots_right : is_Some r <-> is_Some (d_right_node d);
  slots_condition : is_Some c <-> has_condition d = true /\ is_Some (d_condition_node d);
  slots_extra : length ex = if String.eqb (d_node_type d) "JOIN" then length (d_extra_nodes d) else O;
}.

Section Spec.
Context {SJ : SerdeJson}.

(** [materializes d depth i ns]: [ns] is the pre-order of the tree [d] whose
    root has id [i]. *)
Inductive materializes : Durofut -> nat -> string -> list MaterializedNode -> Prop :=
  | materializes_node d depth i (cs : list (Durofut * string)) subtrees q l r c ex :
      (depth <= MAX_GRAPH_DEPTH)%nat ->
      valid_node_type (d_node_type d) = true ->
      validate_config_children d = Ok tt ->
      Forall2 (fun child c => child_from_raw (snd child) = Ok (fst c)) (config_children d) cs ->
      slots d (map snd cs) l r c ex ->
      materialized_query d c ex = Ok q ->
      Forall2 (fun c ns => materializes (fst c) (S depth) (snd c) ns) cs subtrees ->
      materializes d depth i
        (mkMaterialized i (d_node_type d) q (d_result_name d) l r :: concat subtrees).

(** ** One entry *)

Context (ids : IdSource).

(** Discovering [raws] from [st] yields the ids [cids] and the state [st']. *)
Definition adds (entry : PendingGraphNode) (raws : list (string * string)) (st : discovery)
    (cids : list string) (st' : discovery) : Prop :=
  exists cs,
  st' = mkDiscovery (discovered_nodes st + length cs) (children st ++ cs) /\
  Forall2 (fun child c => child_from_raw (snd child) = Ok (p_node c)) raws cs /\
  map p_id cs = cids /\
  (forall c, c ∈ cs -> p_depth c = S (p_depth entry)) /\
  (forall k c, cs !! k = Some c -> ids (discovered_nodes st + k)%nat = Ok (p_id c)) /\
  (cs = [] \/ (N.of_nat (discovered_nodes st + length cs) <= MAX_GRAPH_NODES)%N).

Lemma adds_nil entry st : adds entry [] st [] st.
Proof.
  exists []. split_and!; try done; [destruct st; simpl; by rewrite Nat.add_0_r, app_nil_r|set_solver
    |by left].
Qed.

Lemma adds_one entry child st i st' :
  parse_child ids entry child st = Ok (i, st') -> adds entry [child] st [i] st'.
Proof.
  destruct child as [segment raw]. unfold parse_child.
  destruct (N.leb_spec MAX_GRAPH_NODES (N.of_nat (discovered_nodes st))); [done|].
  intros H'. inv_ok. simplify_eq.
  match goal with Hc : child_from_raw _ = Ok ?d |- _ =>
    exists [mkPending d i (S (p_depth entry)) (p_path entry +:+ "." +:+ segment)] end.
  simpl. split_and!; try done.
  - f_equal. lia.
  - by constructor.
  - by intros c ->%list_elem_of_singleton.
  - intros [|k] c [= <-]. simpl. by rewrite Nat.add_0_r.
  - right. lia.
Qed.

Lemma adds_app entry r1 r2 st1 cids1 st2 cids2 st3 :
  adds entry r1 st1 cids1 st2 -> adds entry r2 st2 cids2 st3 ->
  adds entry (r1 ++ r2) st1 (cids1 ++ cids2) st3.
Proof.
  intros (c1 & -> & Hr1 & <- & Hd1 & Hi1 & Hm1) (c2 & -> & Hr2 & <- & Hd2 & Hi2 & Hm2).
  exists (c1 ++ c2). cbn [discovered_nodes children] in *. rewrite length_app. split_and!.
  - rewrite app_assoc. f_equal. lia.
  - by apply Forall2_app.
  - apply map_app.
  - intros c [H|H]%elem_of_app; auto.
  - intros k c [H|[Hk H]]%lookup_app_Some; [by apply Hi1|].
    replace (discovered_nodes st1 + k)%nat
      with (discovered_nodes st1 + length c1 + (k - length c1))%nat by lia. by apply Hi2.
  - destruct Hm2 as [->|Hm2].
    + destruct Hm1 as [->|]; [by left|right; simpl; lia].
    + right. lia.
Qed.

Lemma map_transpose_adds entry o st r st' :
  map_transpose (parse_child ids entry) o st = Ok (r, st') ->
  adds entry (option_list o) st (option_list r) st' /\ (is_Some r <-> is_Some o).
Proof.
  destruct o as [child|]; simpl; intros H.
  - inv_ok. destruct x as [i st2]. simplify_eq. split; [by apply adds_one|]. naive_solver.
  - simplify_eq. split; [apply adds_nil|done].
Qed.

Lemma map_collect_adds entry l st cids st' :
  map_collect (parse_child ids entry) l st = Ok (cids, st') ->
  adds entry l st cids st' /\ length cids = length l.
Proof.
  revert st cids. induction l as [|child l IH]; intros st cids; simpl; intros H.
  - simplify_eq. split; [apply adds_nil|done].
  - inv_ok. destruct x as [i st2]. inv_ok. destruct x as [cids2 st3]. simplify_eq.
    match goal with Hc : map_collect _ _ _ = _ |- _ => destruct (IH _ _ Hc) as [Ha Hlen] end.
    split; [|simpl; by rewrite Hlen].
    apply (adds_app entry [child] l st [i] st2); [by apply adds_one|done].
Qed.

Lemma materialize_spec entry n node st :
  materialize ids entry n = Ok (node, st) ->
  (p_depth entry <= MAX_GRAPH_DEPTH)%nat /\ valid_node_type (d_node_type (p_node entry)) = true /\
  validate_config_children (p_node entry) = Ok tt /\
  exists cids q l r c ex,
  adds entry (config_children (p_node entry)) (mkDiscovery n []) cids st /\
  slots (p_node entry) cids l r c ex /\
  materialized_query (p_node entry) c ex = Ok q /\
  node = mkMaterialized (p_id entry) (d_node_type (p_node entry)) q
    (d_result_name (p_node entry)) l r.
Proof.
  unfold materialize. set (d := p_node entry).
  destruct (Nat.ltb_spec MAX_GRAPH_DEPTH (p_depth entry)); [done|].
  destruct (valid_node_type (d_node_type d)) eqn:Ht; [|done].
  cbn [negb]. intros ([] & Hv & H')%result_bind_ok.
  apply result_bind_ok in H' as ([l st1] & Hl & H').
  apply result_bind_ok in H' as ([r st2] & Hr & H').
  apply result_bind_ok in H' as ([c st3] & Hc & H').
  apply result_bind_ok in H' as ([ex st4] & Hx & H').
  apply result_bind_ok in H' as (q & Hq & H'). simplify_eq.
  apply map_err_ok in Hv, Hq.
  apply map_transpose_adds in Hl as [Hl Hl'], Hr as [Hr Hr']. rewrite fmap_is_Some in Hl', Hr'.
  assert (Hc' : adds entry (if has_condition d
    then option_list (pair "condition_node" <$> d_condition_node d) else []) st2 (option_list c) st3
    /\ (is_Some c <-> has_condition d = true /\ is_Some (d_condition_node d))).
  { destruct (has_condition d).
    - apply map_transpose_adds in Hc as [? Hc]. rewrite fmap_is_Some in Hc. naive_solver.
    - simplify_eq. split; [apply adds_nil|]. split; [by intros []|by intros []]. }
  assert (Hx' : adds entry (if String.eqb (d_node_type d) "JOIN"
    then indexed "extra_nodes" (d_extra_nodes d) else []) st3 ex st
    /\ length ex = if String.eqb (d_node_type d) "JOIN" then length (d_extra_nodes d) else O).
  { destruct (String.eqb (d_node_type d) "JOIN").
    - apply map_collect_adds in Hx as [? Hx]. split; [done|]. rewrite Hx. apply length_imap.
    - simplify_eq. split; [apply adds_nil|done]. }
  destruct Hc' as [Hc1 Hc2], Hx' as [Hx1 Hx2].
  split_and!; [lia|done|done|].
  exists (option_list l ++ option_list r ++ option_list c ++ ex), q, l, r, c, ex.
  split_and!; [|by constructor|done|done].
  unfold config_children. eauto using adds_app.
Qed.

(** ** The loop *)

Lemma flatten_loop_materializes fuel pending n acc nodes :
  flatten_loop ids fuel pending n acc = Some (Ok nodes) ->
  exists lists,
  Forall2 (fun e ns => materializes (p_node e) (p_depth e) (p_id e) ns) pending lists /\
  nodes = acc ++ concat lists.
Proof.
  revert pending n acc. induction fuel as [|fuel IH]; intros [|entry rest] n acc; simpl.
  - intros [= <-]. exists []. split; [constructor|by rewrite app_nil_r].
  - done.
  - intros [= <-]. exists []. split; [constructor|by rewrite app_nil_r].
  - destruct (materialize ids entry n) as [[node st]|e] eqn:Hm; [|done].
    apply materialize_spec in Hm as (Hdepth & Ht & Hv & cids & q & l & r & c & ex & Ha & Hs & Hq & ->).
    destruct Ha as (cs & -> & Hcs & <- & Hcd & _). cbn [children discovered_nodes]. simpl.
    intros (lists & Hl & ->)%IH. apply Forall2_app_inv_l in Hl as (subs & lists' & Hsubs & Hrest & ->).
    exists ((mkMaterialized (p_id entry) (d_node_type (p_node entry)) q
      (d_result_name (p_node entry)) l r :: concat subs) :: lists').
    split; [|simpl; by rewrite concat_app, <- app_assoc]. constructor; [|done].
    apply (materializes_node _ _ _ (map (fun c => (p_node c, p_id c)) cs) subs q l r c ex); try done.
    + rewrite Forall2_fmap_r. done.
    + by rewrite map_map.
    + rewrite Forall2_fmap_l. apply Forall2_same_length_lookup in Hsubs as [Hlen Hsubs].
      apply Forall2_same_length_lookup. split; [done|]. intros k c' ns Hk Hns.
      rewrite <- (Hcd c') by (by eapply list_elem_of_lookup_2). by eapply Hsubs.
Qed.

(** What the loop maintains: every discovered node is either materialized or
    pending, with the id its discovery obtained. *)
Record loop_invariant (pending : list PendingGraphNode) (n : nat) (nodes : list MaterializedNode)
    : Prop := {
      inv_count : n = (length nodes + length pending)%nat;
      inv_bound : (N.of_nat n <= MAX_GRAPH_NODES)%N;
      inv_ids : map Ok (map m_id nodes ++ map p_id pending) ≡ₚ map ids (seq 0 n);
    }.

Lemma lookup_seq_ids (cs : list PendingGraphNode) n :
  (forall k c, cs !! k = Some c -> ids (n + k)%nat = Ok (p_id c)) ->
  map ids (seq n (length cs)) = map Ok (map p_id cs).
Proof.
  revert n. induction cs as [|c cs IH]; intros n H; simpl; [done|]. f_equal.
  - rewrite <- (Nat.add_0_r n). by apply (H 0%nat).
  - apply IH. intros k c' Hk. rewrite Nat.add_succ_l, <- Nat.add_succ_r. by apply (H (S k)).
Qed.

Lemma loop_invariant_step entry rest n nodes node st :
  loop_invariant (entry :: rest) n nodes -> materialize ids entry n = Ok (node, st) ->
  loop_invariant (children st ++ rest) (discovered_nodes st) (nodes ++ [node]).
Proof.
  intros [Hn Hb Hi] (_ & _ & _ & cids & q & l & r & c & ex & Ha & _ & _ & ->)%materialize_spec.
  destruct Ha as (cs & -> & _ & <- & _ & Hids & Hmax). cbn [children discovered_nodes] in *.
  simpl in *. constructor.
  - rewrite !length_app. simpl. lia.
  - destruct Hmax as [->|Hmax]; [simpl; lia|done].
  - rewrite seq_app, (map_app ids), <- Hi, Nat.add_0_l, lookup_seq_ids by done.
    rewrite !map_app. simpl. solve_Permutation.
Qed.

Lemma flatten_loop_terminates fuel pending n nodes :
  loop_invariant pending n nodes -> (N.to_nat MAX_GRAPH_NODES <= fuel + length nodes)%nat ->
  exists r, flatten_loop ids fuel pending n nodes = Some r.
Proof.
  revert pending n nodes. induction fuel as [|fuel IH]; intros [|entry rest] n nodes Hinv Hf;
    try (by eexists).
  - destruct Hinv as [Hn Hb _]. simpl in Hn. exfalso. lia.
  - simpl. destruct (materialize ids entry n) as [[node st]|e] eqn:Hm; [|by eexists].
    apply IH; [by eapply loop_invariant_step|]. rewrite length_app. simpl. lia.
Qed.

Lemma flatten_loop_invariant fuel pending n acc nodes :
  loop_invariant pending n acc -> flatten_loop ids fuel pending n acc = Some (Ok nodes) ->
  loop_invariant [] (length nodes) nodes.
Proof.
  revert pending n acc. induction fuel as [|fuel IH]; intros [|entry rest] n acc Hinv; simpl; try done.
  - intros [= <-]. assert (n = length acc) as <-; [|done]. destruct Hinv as [-> _ _]. simpl. lia.
  - intros [= <-]. assert (n = length acc) as <-; [|done]. destruct Hinv as [-> _ _]. simpl. lia.
  - destruct (materialize ids entry n) as [[node st]|e] eqn:Hm; [|done].
    apply IH. by eapply loop_invariant_step.
Qed.

Lemma loop_invariant_start root root_id :
  ids O = Ok root_id -> loop_invariant [mkPending root root_id O "root"] 1 [].
Proof. intros H. constructor; [done|done|]. simpl. by rewrite H. Qed.

(** *** References point forward *)

Definition node_refs (n : MaterializedNode) : list string :=
  option_list (m_left_node n) ++ option_list (m_right_node n).

Section References.
(** A way of reading references out of a node that only finds its children. *)
Context (refs : MaterializedNode -> list string).
Hypothesis refs_are_children : forall d i cids l r c ex q k,
  slots d cids l r c ex -> valid_node_type (d_node_type d) = true ->
  validate_config_children d = Ok tt -> materialized_query d c ex = Ok q ->
  k ∈ refs (mkMaterialized i (d_node_type d) q (d_result_name d) l r) -> k ∈ cids.

Definition refs_forward (pending : list PendingGraphNode) (nodes : list MaterializedNode) : Prop :=
  forall i n c, nodes !! i = Some n -> c ∈ refs n ->
  (exists j m, (i < j)%nat /\ nodes !! j = Some m /\ m_id m = c) \/
  (exists p, p ∈ pending /\ p_id p = c).

Lemma refs_forward_step entry rest n nodes node st :
  refs_forward (entry :: rest) nodes -> materialize ids entry n = Ok (node, st) ->
  refs_forward (children st ++ rest) (nodes ++ [node]).
Proof.
  intros Hf (_ & Ht & Hv & cids & q & l & r & c & ex & Ha & Hs & Hq & ->)%materialize_spec.
  destruct Ha as (cs & -> & _ & <- & _). cbn [children]. simpl.
  intros i n' k [Hi|[Hlen Hi]]%lookup_app_Some Hk.
  - destruct (Hf i n' k Hi Hk) as [(j & m & Hj & Hm & <-)|(p & [->|Hp]%elem_of_cons & <-)].
    + left. exists j, m. split_and!; [done| |done]. by apply lookup_app_l_Some.
    + left. exists (length nodes). eexists. split_and!.
      * by apply lookup_lt_Some in Hi.
      * by rewrite lookup_app_r, Nat.sub_diag by lia.
      * done.
    + right. exists p. split; [set_solver|done].
  - apply list_lookup_singleton_Some in Hi as [Hi <-]. right.
    assert (Hin : k ∈ map p_id cs) by (by eapply refs_are_children).
    apply list_elem_of_fmap in Hin as (p & -> & Hp). exists p. set_solver.
Qed.

Lemma flatten_loop_refs fuel pending n acc nodes :
  refs_forward pending acc -> flatten_loop ids fuel pending n acc = Some (Ok nodes) ->
  refs_forward [] nodes.
Proof.
  revert pending n acc. induction fuel as [|fuel IH]; intros [|entry rest] n acc Hinv; simpl; try done.
  - by intros [= <-].
  - by intros [= <-].
  - destruct (materialize ids entry n) as [[node st]|e] eqn:Hm; [|done].
    apply IH. by eapply refs_forward_step.
Qed.
End References.

Lemma node_refs_children d i cids l r c ex q k :
  slots d cids l r c ex -> valid_node_type (d_node_type d) = true ->
  validate_config_children d = Ok tt -> materialized_query d c ex = Ok q ->
  k ∈ node_refs (mkMaterialized i (d_node_type d) q (d_result_name d) l r) -> k ∈ cids.
Proof. intros Hs _ _ _. rewrite (slots_all _ _ _ _ _ _ Hs). unfold node_refs. simpl. set_solver. Qed.

(** *** The graph *)

Lemma flatten_graph_ok root root_id nodes :
  flatten_graph root ids = Some (Ok (root_id, nodes)) ->
  ids O = Ok root_id /\
  flatten_loop ids flatten_fuel [mkPending root root_id O "root"] 1 [] = Some (Ok nodes).
Proof.
  unfold flatten_graph. generalize flatten_fuel as fuel. intros fuel. destruct (ids O) as [i|]; [|done].
  destruct (flatten_loop _ _ _ _ _) as [[ns|e]|] eqn:E; simpl; [|done|done].
  intros [= -> ->]. done.
Qed.

Lemma flatten_graph_materializes root root_id nodes :
  flatten_graph root ids = Some (Ok (root_id, nodes)) ->
  materializes root 0 root_id nodes /\ (m_id <$> head nodes) = Some root_id.
Proof.
  intros [_ H]%flatten_graph_ok.
  apply flatten_loop_materializes in H as (lists & Hl & ->).
  apply Forall2_cons_inv_l in Hl as (ns & tl & Hns & Htl & ->).
  apply Forall2_nil_inv_l in Htl as ->. simpl. rewrite app_nil_r. simpl in Hns.
  split; [done|]. by inversion Hns.
Qed.

(** References of a whole graph, read by [refs]. *)
Lemma flatten_graph_refs (refs : MaterializedNode -> list string) root root_id nodes :
  (forall d i cids l r c ex q k,
   slots d cids l r c ex -> valid_node_type (d_node_type d) = true ->
   validate_config_children d = Ok tt -> materialized_query d c ex = Ok q ->
   k ∈ refs (mkMaterialized i (d_node_type d) q (d_result_name d) l r) -> k ∈ cids) ->
  flatten_graph root ids = Some (Ok (root_id, nodes)) ->
  forall i n c, nodes !! i = Some n -> c ∈ refs n ->
  exists j m, (i < j)%nat /\ nodes !! j = Some m /\ m_id m = c.
Proof.
  intros Hrefs [_ H]%flatten_graph_ok.
  assert (Hs : refs_forward refs [mkPending root root_id O "root"] []) by (intros i n c Hn; done).
  apply (flatten_loop_refs refs Hrefs) in H; [|done]. intros i n c Hn Hc.
  destruct (H i n c Hn Hc) as [Hj|(p & Hp & _)]; [done|set_solver].
Qed.

Lemma flatten_graph_ids root root_id nodes :
  flatten_graph root ids = Some (Ok (root_id, nodes)) ->
  (N.of_nat (length nodes) <= MAX_GRAPH_NODES)%N /\
  map Ok (map m_id nodes) ≡ₚ map ids (seq 0 (length nodes)).
Proof.
  intros [H0 H]%flatten_graph_ok.
  pose proof (flatten_loop_invariant _ _ _ _ _ (loop_invariant_start root root_id H0) H) as [_ Hb Hi].
  simpl in Hi. by rewrite app_nil_r in Hi.
Qed.

(** ** Properties *)

(** Materialization always ends: whatever tree the raw children denote, the
    stack loop visits at most [MAX_GRAPH_NODES] entries, so it returns a graph
    or an error within that many iterations. *)
Theorem flatten_graph_terminates root : exists r, flatten_graph root ids = Some r.
Proof.
  unfold flatten_graph. destruct (ids O) as [root_id|] eqn:H0; [|by eexists].
  destruct (flatten_loop_terminates flatten_fuel _ _ _ (loop_invariant_start root root_id H0))
    as [r Hr]; [unfold flatten_fuel; lia|].
  rewrite Hr. by eexists.
Qed.

(** The nodes of a materialized graph are the pre-order of the tree of
    durable futures, each with its children's ids in its references and config
    and within the depth limit; the root comes first. *)
Theorem flatten_graph_preorder root root_id nodes :
  flatten_graph root ids = Some (Ok (root_id, nodes)) ->
  materializes root 0 root_id nodes /\
  (m_id <$> head nodes) = Some root_id.
Proof. apply flatten_graph_materializes. Qed.

End Spec.

(** ** Completeness

    [tree h d tys]: [d] denotes a tree of at most [h] levels whose nodes all
    materialize and satisfy [P], and [tys] are its node types in pre-order.  Such
    a tree is accepted whenever it fits the limits. *)

Section Complete.
Context {SJ : SerdeJson}.

(** Every choice of ids for the config children gives a query. *)
Definition query_materializes (d : Durofut) : Prop :=
  forall c ex,
  (is_Some c -> has_condition d = true) -> (ex <> [] -> d_node_type d = "JOIN") ->
  exists q, materialized_query d c ex = Ok q.

Context (P : Durofut -> Prop).

Inductive tree : nat -> Durofut -> list string -> Prop :=
  | tree_node h d cs tyss :
      P d ->
      valid_node_type (d_node_type d) = true ->
      validate_config_children d = Ok tt ->
      query_materializes d ->
      Forall2 (fun child c => child_from_raw (snd child) = Ok c) (config_children d) cs ->
      Forall2 (tree h) cs tyss ->
      tree (S h) d (d_node_type d :: concat tyss).

Lemma tree_mono h h' d tys : tree h d tys -> (h <= h')%nat -> tree h' d tys.
Proof.
  revert h' d tys. induction h as [|h IH]; intros h' d tys H Hle; [inversion H|].
  inversion H as [? ? cs tyss HP Ht Hv Hq Hcs Htrees]; subst.
  destruct h' as [|h']; [lia|]. apply (tree_node h' d cs tyss); try done.
  eapply Forall2_impl; [exact Htrees|]. intros c t Hc. apply IH; [done|lia].
Qed.

(** What holds of every materialized node whose source satisfies [P] holds of
    the whole graph. *)
Lemma tree_materializes_forall (Q : MaterializedNode -> Prop) h d depth i tys ns :
  (forall d i cids l r c ex q, P d -> slots d cids l r c ex ->
   materialized_query d c ex = Ok q -> Q (mkMaterialized i (d_node_type d) q (d_result_name d) l r)) ->
  tree h d tys -> materializes d depth i ns -> Forall Q ns.
Proof.
  intros HQ. revert d depth i tys ns. induction h as [|h IH]; intros d depth i tys ns Ht Hm; [inversion Ht|].
  inversion Ht as [? ? cs tyss HP _ _ _ Hcs Htrees]; subst.
  inversion Hm as [? ? ? cs' subs q l r c ex _ _ _ Hcs' Hs Hq Hsubs]; subst.
  constructor; [by eapply HQ|]. clear Hs Hm Ht HP Hq.
  revert cs tyss cs' Hcs Htrees Hcs' subs Hsubs.
  induction (config_children d) as [|child raws IHr]; intros cs tyss cs' Hcs Htrees Hcs' subs Hsubs.
  - apply Forall2_nil_inv_l in Hcs' as ->. apply Forall2_nil_inv_l in Hsubs as ->. constructor.
  - apply Forall2_cons_inv_l in Hcs as (c1 & cs1 & H1 & Hcs & ->).
    apply Forall2_cons_inv_l in Hcs' as (c2 & cs2 & H2 & Hcs' & ->).
    apply Forall2_cons_inv_l in Htrees as (ty & tyss1 & Ht & Htrees & ->).
    apply Forall2_cons_inv_l in Hsubs as (sub & subs1 & Hm & Hsubs & ->).
    simpl. apply Forall_app. split; [|by eapply IHr].
    assert (c1 = fst c2) as -> by congruence. by eapply IH.
Qed.

Context (ids : IdSource) (ids_total : forall n, is_ok (ids n) = true).

Lemma parse_child_total entry child d st :
  child_from_raw (snd child) = Ok d -> (N.of_nat (S (discovered_nodes st)) <= MAX_GRAPH_NODES)%N ->
  exists i st', parse_child ids entry child st = Ok (i, st') /\
  discovered_nodes st' = S (discovered_nodes st).
Proof.
  destruct child as [segment raw]. unfold parse_child. simpl snd. intros -> Hn.
  destruct (N.leb_spec MAX_GRAPH_NODES (N.of_nat (discovered_nodes st))); [lia|].
  pose proof (ids_total (discovered_nodes st)) as Hi. simpl.
  destruct (ids (discovered_nodes st)) as [i|]; [|done]. simpl. by repeat eexists.
Qed.

(** What discovering [raws] from [st] needs: they parse and they fit. *)
Definition fits (raws : list (string * string)) (st : discovery) : Prop :=
  Forall (fun child => is_ok (child_from_raw (snd child)) = true) raws /\
  (N.of_nat (discovered_nodes st + length raws) <= MAX_GRAPH_NODES)%N.

Lemma map_transpose_total entry o st :
  fits (option_list o) st ->
  exists r st', map_transpose (parse_child ids entry) o st = Ok (r, st') /\
  discovered_nodes st' = (discovered_nodes st + length (option_list o))%nat.
Proof.
  intros [Hp Hn]. destruct o as [child|]; simpl in *; [|exists None, st; split; [done|lia]].
  apply Forall_cons in Hp as [Hp _]. destruct (child_from_raw (snd child)) as [d|] eqn:E; [|done].
  destruct (parse_child_total entry child d st E) as (i & st' & -> & Hs); [lia|].
  exists (Some i), st'. split; [done|lia].
Qed.

Lemma map_collect_total entry l st :
  fits l st ->
  exists r st', map_collect (parse_child ids entry) l st = Ok (r, st') /\
  discovered_nodes st' = (discovered_nodes st + length l)%nat.
Proof.
  revert st. induction l as [|child l IH]; intros st [Hp Hn]; simpl in *.
  - exists [], st. split; [done|lia].
  - apply Forall_cons in Hp as [Hc Hp]. destruct (child_from_raw (snd child)) as [d|] eqn:E; [|done].
    destruct (parse_child_total entry child d st E) as (i & st1 & -> & Hs1); [lia|].
    destruct (IH st1) as (is0 & st2 & E2 & Hs2); [split; [done|lia]|].
    simpl. rewrite E2. simpl. exists (i :: is0), st2. split; [done|lia].
Qed.

Lemma fits_app l1 l2 st st1 :
  fits (l1 ++ l2) st -> discovered_nodes st1 = (discovered_nodes st + length l1)%nat ->
  fits l1 st /\ fits l2 st1.
Proof.
  unfold fits. rewrite Forall_app, length_app. intros [[H1 H2] Hn] ->.
  split; (split; [done|lia]).
Qed.

Lemma materialize_total entry n :
  (p_depth entry <= MAX_GRAPH_DEPTH)%nat -> valid_node_type (d_node_type (p_node entry)) = true ->
  validate_config_children (p_node entry) = Ok tt -> query_materializes (p_node entry) ->
  fits (config_children (p_node entry)) (mkDiscovery n []) ->
  exists x, materialize ids entry n = Ok x.
Proof.
  set (d := p_node entry). intros Hd Ht Hv Hq Hf. unfold materialize. fold d. rewrite Ht, Hv.
  destruct (Nat.ltb_spec MAX_GRAPH_DEPTH (p_depth entry)); [lia|]. cbn [negb map_err result_bind].
  unfold config_children in Hf. fold d in Hf.
  pose proof (fits_app _ _ _ (mkDiscovery (n + length (option_list (pair "left" <$> d_left_node d))) [])
    Hf eq_refl) as [Hl _].
  destruct (map_transpose_total entry _ _ Hl) as (lid & st1 & -> & E1). cbn [result_bind].
  apply (fits_app _ _ _ st1) in Hf as [_ Hf]; [|done].
  pose proof (fits_app _ _ _ (mkDiscovery (discovered_nodes st1 + length (option_list
    (pair "right" <$> d_right_node d))) []) Hf eq_refl) as [Hr _].
  destruct (map_transpose_total entry _ _ Hr) as (rid & st2 & -> & E2). cbn [result_bind].
  apply (fits_app _ _ _ st2) in Hf as [_ Hf]; [|done].
  assert (Hc : exists c st3, (if has_condition d then map_transpose (parse_child ids entry)
    (pair "condition_node" <$> d_condition_node d) st2 else Ok (None, st2)) = Ok (c, st3) /\
    (is_Some c -> has_condition d = true) /\
    fits (if String.eqb (d_node_type d) "JOIN" then indexed "extra_nodes" (d_extra_nodes d) else []) st3).
  { destruct (has_condition d).
    - pose proof (fits_app _ _ _ (mkDiscovery (discovered_nodes st2 + length (option_list
        (pair "condition_node" <$> d_condition_node d))) []) Hf eq_refl) as [Hc _].
      destruct (map_transpose_total entry _ _ Hc) as (c & st3 & -> & E3).
      apply (fits_app _ _ _ st3) in Hf as [_ Hf]; [|done]. by exists c, st3.
    - exists None, st2. split_and!; [done|by intros []|done]. }
  destruct Hc as (c & st3 & -> & Hc & Hf3). cbn [result_bind].
  assert (Hx : exists ex st4, (if String.eqb (d_node_type d) "JOIN"
    then map_collect (parse_child ids entry) (indexed "extra_nodes" (d_extra_nodes d)) st3
    else Ok ([], st3)) = Ok (ex, st4) /\ (ex <> [] -> d_node_type d = "JOIN")).
  { destruct (String.eqb_spec (d_node_type d) "JOIN"); [|by exists [], st3].
    destruct (map_collect_total entry _ _ Hf3) as (ex & st4 & -> & _). by exists ex, st4. }
  destruct Hx as (ex & st4 & -> & Hx). cbn [result_bind].
  destruct (Hq c ex Hc Hx) as [q ->]. by eexists.
Qed.

(** The tree of a pending entry, cut at the deepest level that may be visited. *)
Definition pending_tree (e : PendingGraphNode) (tys : list string) : Prop :=
  (p_depth e <= S MAX_GRAPH_DEPTH)%nat /\ tree (S MAX_GRAPH_DEPTH - p_depth e) (p_node e) tys.

Lemma tree_length h d tys : tree h d tys -> (1 <= length tys)%nat.
Proof. destruct 1. simpl. lia. Qed.

Lemma pending_length pending tyss :
  Forall2 pending_tree pending tyss -> (length pending <= length (concat tyss))%nat.
Proof.
  induction 1 as [|e tys pending tyss [_ H] _ IH]; simpl; [lia|].
  apply tree_length in H. rewrite length_app. lia.
Qed.

Lemma children_trees e h cs tyss :
  (forall c, c ∈ cs -> p_depth c = S (p_depth e)) -> (S MAX_GRAPH_DEPTH - p_depth e)%nat = S h ->
  Forall2 (tree h) (map p_node cs) tyss -> Forall2 pending_tree cs tyss.
Proof.
  intros Hd Hh. rewrite Forall2_fmap_l. intros H. apply Forall2_same_length_lookup in H as [Hl H].
  apply Forall2_same_length_lookup. split; [done|]. intros k c tys Hc Ht. specialize (H k c tys Hc Ht).
  unfold pending_tree. rewrite (Hd c) by (by eapply list_elem_of_lookup_2).
  replace (S MAX_GRAPH_DEPTH - S (p_depth e))%nat with h by lia. split; [lia|done].
Qed.

Lemma flatten_loop_complete fuel pending tyss n nodes :
  Forall2 pending_tree pending tyss ->
  (N.of_nat (n + length (concat tyss)) <= MAX_GRAPH_NODES + N.of_nat (length pending))%N ->
  (length (concat tyss) <= fuel)%nat ->
  exists ns, flatten_loop ids fuel pending n nodes = Some (Ok ns) /\
  map m_node_type ns = map m_node_type nodes ++ concat tyss.
Proof.
  revert pending tyss n nodes. induction fuel as [|fuel IH]; intros [|e rest] tyss n nodes HF Hn Hfuel.
  1, 3: apply Forall2_nil_inv_l in HF as ->; exists nodes; split; [done|by rewrite app_nil_r].
  - apply pending_length in HF. simpl in *. lia.
  - apply Forall2_cons_inv_l in HF as (tys & tyss' & [Hd Ht] & HF & ->). simpl.
    inversion Ht as [h d cs cyss _ Hty Hv Hq Hcs Htrees Eh Ed Etys]; subst d tys.
    assert (Hp : length cs = length (config_children (p_node e))) by (by apply Forall2_length in Hcs).
    assert (Hl : (length cs <= length (concat cyss))%nat).
    { clear -Htrees. induction Htrees as [|c tys cs tyss H _ IH]; simpl; [lia|].
      apply tree_length in H. rewrite length_app. lia. }
    pose proof (pending_length _ _ HF) as Hrest. cbn [concat] in Hn, Hfuel |- *. simpl in Hn, Hfuel.
    rewrite !length_app in Hn, Hfuel.
    destruct (materialize_total e n) as [[node st] Hm]; [lia|done..| |].
    { split; [|simpl; lia]. apply Forall_forall. intros child Hin.
      apply list_elem_of_lookup in Hin as [k Hk]. apply Forall2_lookup_l with (1 := Hcs) in Hk as (c & _ & Hc).
      by rewrite Hc. }
    rewrite Hm. apply materialize_spec in Hm as (_ & _ & _ & cids & q & l & r & c & ex & Ha & _ & _ & ->).
    destruct Ha as (ps & -> & Hps & _ & Hdepth & _). cbn [discovered_nodes children] in *. simpl app.
    assert (Hnodes : map p_node ps = cs).
    { clear -Hps Hcs. revert cs Hcs. induction Hps as [|child p raws ps Hp _ IH]; intros cs Hcs.
      - by apply Forall2_nil_inv_l in Hcs as ->.
      - apply Forall2_cons_inv_l in Hcs as (c & cs' & Hc & Hcs & ->). simpl. f_equal; [congruence|by apply IH]. }
    assert (Hlen : length ps = length cs) by (by rewrite <- Hnodes, length_map).
    edestruct (IH (ps ++ rest) (cyss ++ tyss') (n + length ps)%nat) as (ns & -> & Hns).
    + apply Forall2_app; [|done]. apply (children_trees e h); [done|lia|by rewrite Hnodes].
    + rewrite concat_app, !length_app. lia.
    + rewrite concat_app, length_app. lia.
    + exists ns. split; [done|]. rewrite Hns, map_app, concat_app. simpl. by rewrite <- app_assoc.
Qed.

Lemma flatten_graph_complete root tys :
  tree (S MAX_GRAPH_DEPTH) root tys -> (N.of_nat (length tys) <= MAX_GRAPH_NODES)%N ->
  exists root_id ns, flatten_graph root ids = Some (Ok (root_id, ns)) /\ map m_node_type ns = tys.
Proof.
  intros Ht Hn. unfold flatten_graph. pose proof (ids_total O) as Hi.
  destruct (ids O) as [root_id|]; [|done].
  destruct (flatten_loop_complete flatten_fuel [mkPending root root_id O "root"] [tys] 1 [])
    as (ns & -> & Hns).
  - constructor; [|constructor]. split; [simpl; lia|]. cbn [p_depth p_node]. by rewrite Nat.sub_0_r.
  - simpl. rewrite app_nil_r. lia.
  - unfold flatten_fuel. simpl. rewrite app_nil_r. lia.
  - exists root_id, ns. split; [done|]. simpl in Hns. by rewrite app_nil_r in Hns.
Qed.
End Complete.

(** ** Steps given as text *)

Section Ensure.
Context {SJ : SerdeJson}.

(** The text of a step is taken as SQL only when it is not a durable-future
    envelope: text that carries a [node_type] either is a node of a known type
    or is rejected, and a helper's marker in the same statement is always
    rejected. *)
Theorem ensure_strict_classifies marker statement s :
  match ensure_strict marker statement s with
  | Ok d =>
      valid_node_type (d_node_type d) = true /\
      same_statement_non_future_helper_name marker statement s = None /\
      (durofut_from_str s = Ok d \/ (d = sql_durofut s /\ envelope_node_type s = None))
  | Err _ =>
      is_Some (same_statement_non_future_helper_name marker statement s) \/
      (exists d, durofut_from_str s = Ok d /\ valid_node_type (d_node_type d) = false) \/
      (is_ok (durofut_from_str s) = false /\ is_durofut_envelope s = true)
  end.
Proof.
  unfold ensure_strict.
  destruct (same_statement_non_future_helper_name marker statement s) as [h|]; [by left|].
  destruct (durofut_from_str s) as [d|e] eqn:Hd.
  - destruct (valid_node_type (d_node_type d)) eqn:Ht; [by auto|]. right; left. eauto.
  - unfold is_durofut_envelope. destruct (envelope_node_type s) as [nt|] eqn:Hn.
    + rewrite bool_decide_eq_true_2 by done. destruct (valid_node_type nt); by right; right.
    + split_and!; [done|done|]. right. done.
Qed.
End Ensure.

Section RoundTrip.
Context {SJ : SerdeJson} {SJL : SerdeJsonLaws SJ}.

Definition raw_child_ok (raw : string) : Prop :=
  raw_valid raw /\ starts_with "{" (trim_start raw) = true.

(** Every embedded child is the raw text of a JSON object. *)
Definition raw_durofut (d : Durofut) : Prop :=
  (forall raw, d_left_node d = Some raw \/ d_right_node d = Some raw \/
   d_condition_node d = Some raw \/ raw ∈ d_extra_nodes d -> raw_child_ok raw).

Lemma value_text_string s : value_from_str (value_to_string (JString s)) = Ok (JString s).
Proof. by apply value_from_to_string. Qed.

Lemma durofut_members_keys d :
  map fst (durofut_members d) = filter (fun k => k ∈ map fst (durofut_members d)) durofut_fields.
Proof.
  unfold durofut_members. destruct d as [t [l|] [r|] [c|] [|e ex] [q|] [n|]]; reflexivity.
Qed.

Lemma durofut_members_nodup d : NoDup (map fst (durofut_members d)).
Proof.
  rewrite durofut_members_keys. apply NoDup_filter.
  apply (bool_decide_eq_true_1 (NoDup durofut_fields)). reflexivity.
Qed.

(** Each field is found under its name. *)
Lemma durofut_members_get d :
  raw_get "node_type" (durofut_members d) = Some (value_to_string (JString (d_node_type d))) /\
  raw_get "left_node" (durofut_members d) = d_left_node d /\
  raw_get "right_node" (durofut_members d) = d_right_node d /\
  raw_get "condition_node" (durofut_members d) = d_condition_node d /\
  raw_get "extra_nodes" (durofut_members d) =
    match d_extra_nodes d with [] => None | ex => Some (raw_array_to_string ex) end /\
  raw_get "query" (durofut_members d) = (fun s => value_to_string (JString s)) <$> d_query d /\
  raw_get "result_name" (durofut_members d) =
    (fun s => value_to_string (JString s)) <$> d_result_name d.
Proof. destruct d as [t [l|] [r|] [c|] [|e ex] [q|] [n|]]; repeat split; reflexivity. Qed.

Lemma durofut_members_valid d :
  raw_durofut d -> Forall raw_valid (map snd (durofut_members d)).
Proof.
  intros Hd. assert (Hc : forall k o, (forall raw, o = Some raw -> raw_child_ok raw) ->
    Forall raw_valid (map snd (raw_field k o))).
  { intros k [raw|] H; repeat constructor. by apply H. }
  assert (Hs : forall k o, Forall raw_valid
    (map snd (raw_field k ((fun s => value_to_string (JString s)) <$> o)))).
  { intros k [x|]; repeat constructor. by apply raw_valid_value. }
  unfold durofut_members. rewrite !map_app, !Forall_app. split_and!; try apply Hs.
  - repeat constructor. by apply raw_valid_value.
  - apply Hc. intros raw Hr. apply Hd. auto.
  - apply Hc. intros raw Hr. apply Hd. auto.
  - apply Hc. intros raw Hr. apply Hd. auto.
  - destruct (d_extra_nodes d) as [|e ex] eqn:E; [constructor|]. repeat constructor.
    apply raw_valid_array. apply Forall_forall. intros raw Hr. apply Hd. rewrite E. auto.
Qed.

Lemma de_raw_child_ok msg k d o :
  raw_get k (durofut_members d) = o -> (forall raw, o = Some raw -> raw_child_ok raw) ->
  de_raw_child msg k (durofut_members d) = Ok o.
Proof.
  unfold de_raw_child. intros -> Ho. destruct o as [raw|]; [|done].
  destruct (Ho raw eq_refl) as [_ Hs]. destruct (String.eqb_spec raw "null") as [->|_]; [done|].
  by rewrite Hs.
Qed.

Lemma de_opt_string_ok k d o :
  raw_get k (durofut_members d) = (fun s => value_to_string (JString s)) <$> o ->
  de_opt_string k (durofut_members d) = Ok o.
Proof. unfold de_opt_string. intros ->. destruct o; [|done]. simpl. by rewrite value_text_string. Qed.

Lemma durofut_reparses d : raw_durofut d -> durofut_from_str (durofut_to_json d) = Ok d.
Proof.
  intros Hd. destruct (durofut_members_get d) as (Ht & Hl & Hr & Hc & Hx & Hq & Hn).
  unfold durofut_from_str, durofut_to_json.
  rewrite raw_object_to by (apply durofut_members_nodup || by apply durofut_members_valid).
  cbn [result_bind]. unfold de_durofut.
  rewrite bool_decide_eq_true_2 by (apply NoDup_filter, durofut_members_nodup). cbn [negb].
  unfold de_string at 1. rewrite Ht. cbn [ok_or result_bind]. rewrite value_text_string.
  cbn [result_bind]. unfold deserialize_raw_object, deserialize_condition_node.
  rewrite !(de_raw_child_ok _ _ _ _ Hl), !(de_raw_child_ok _ _ _ _ Hr),
    !(de_raw_child_ok _ _ _ _ Hc) by (intros raw ?; apply Hd; auto).
  cbn [result_bind]. unfold deserialize_raw_objects. rewrite Hx.
  rewrite (de_opt_string_ok _ _ _ Hq), (de_opt_string_ok _ _ _ Hn).
  destruct d as [t l r c [|e ex] q n]; cbn in *; [done|].
  rewrite raw_array_to.
  - cbn [result_bind]. destruct (existsb _ (e :: ex)) eqn:E; [|done].
    apply existsb_exists in E as (raw & Hin & Hneg). apply list_elem_of_In in Hin.
    destruct (Hd raw) as [_ Hs]; [simpl; auto|]. by rewrite Hs in Hneg.
  - apply Forall_forall. intros raw Hin. apply Hd. simpl. auto.
Qed.

Lemma into_raw_object d : starts_with "{" (trim_start (into_raw d)) = true.
Proof.
  pose proof (raw_object_starts (durofut_members d)) as Hs. unfold into_raw, durofut_to_json.
  apply starts_with_spec in Hs as [rest Hs]. rewrite Hs. cbn [String.append]. by rewrite trim_start_brace.
Qed.

Lemma into_raw_ok d : raw_durofut d -> raw_child_ok (into_raw d).
Proof.
  intros Hd. split; [|apply into_raw_object].
  apply raw_valid_object; [apply durofut_members_nodup|by apply durofut_members_valid].
Qed.

(** A durable future survives being embedded in its parent: the text
    [into_raw] produces deserializes to the same node, children verbatim. *)
Theorem durofut_round_trip d :
  raw_durofut d ->
  child_from_raw (into_raw d) = Ok d /\ try_from_json (durofut_to_json d) = Ok d /\
  raw_child_ok (into_raw d).
Proof.
  intros Hd. unfold child_from_raw, try_from_json, into_raw. rewrite durofut_reparses by done.
  split_and!; [done|done|]. by apply into_raw_ok.
Qed.
End RoundTrip.

(** ** Concrete instances *)

#[local] Existing Instance text_json.

Definition sample_sql (q : string) : Durofut := sql_durofut q.
Definition sample_if : Durofut :=
  mkDurofut "IF" (Some (into_raw (sample_sql "SELECT 1"))) (Some (into_raw (sample_sql "SELECT 2")))
    (Some (into_raw (sample_sql "SELECT true"))) [] None (Some "r").
Definition sample_root : Durofut :=
  mkDurofut "THEN" (Some (into_raw (sample_sql "SELECT 0"))) (Some (into_raw sample_if)) None [] None None.
Definition sample_ids : IdSource := fun n => Ok (hex8 (N.of_nat (S n))).

Definition sample_nodes : list MaterializedNode :=
  match flatten_graph sample_root sample_ids with Some (Ok (_, ns)) => ns | _ => [] end.

Lemma sample_flatten : flatten_graph sample_root sample_ids = Some (Ok ("00000001", sample_nodes)).
Proof. vm_compute. reflexivity. Qed.

Lemma flatten_graph_preorder_witness :
  map m_node_type sample_nodes = ["THEN"; "SQL"; "IF"; "SQL"; "SQL"; "SQL"] /\
  materializes sample_root 0 "00000001" sample_nodes /\ (m_id <$> head sample_nodes) = Some "00000001".
Proof.
  split; [vm_compute; reflexivity|].
  exact (flatten_graph_preorder sample_ids sample_root "00000001" sample_nodes sample_flatten).
Defined.

Lemma durofut_round_trip_witness :
  child_from_raw (into_raw (sample_sql "SELECT 1")) = Ok (sample_sql "SELECT 1") /\
  try_from_json (durofut_to_json (sample_sql "SELECT 1")) = Ok (sample_sql "SELECT 1") /\
  raw_child_ok (into_raw (sample_sql "SELECT 1")).
Proof.
  apply (durofut_round_trip (sample_sql "SELECT 1")).
  intros raw [H|[H|[H|H]]]; cbn in H; try discriminate H. by apply not_elem_of_nil in H.
Defined.
