(* ===== verification/Lineage.v ===== *)
(** Instance lineages and execution stamps ([src/node_status.rs], lines 13-75;
    [compose_subtree_instance_id] in
    [src/orchestrations/execute_function_graph.rs]; [stamp_lineage] and
    [incoming_stamp_is_superseded] in [src/activities/update_node_status.rs]).

    A sub-orchestration's instance id spells its ancestry:
    [root::generation::node::generation::node...].  A node's stamp is such an id
    followed by the generation that wrote it. *)
From S2P Require Import Prelude RustString.

Record InstanceLineage := mkLineage {
  lineage_instance_id : string;
  generations : list Z;
  lineage_node_ids : list string;
}.

#[export] Instance InstanceLineage_eq_dec : EqDecision InstanceLineage.
Proof. solve_decision. Defined.

(** The generation/node pairs after the root token. *)
Fixpoint parse_pairs (tokens : list string) : option (list Z * list string) :=
  match tokens with
  | g :: n :: tokens' =>
      z ← parse_i64 g;
      if str_is_empty n then None
      else '(gs, ns) ← parse_pairs tokens'; Some (z :: gs, n :: ns)
  | _ => Some ([], [])
  end.

Definition lineage_parse (instance_id : string) : option InstanceLineage :=
  let tokens := str_split "::" instance_id in
  match tokens with
  | [] => None
  | root :: pairs =>
      if str_is_empty root || Nat.even (length tokens) then None
      else '(gs, ns) ← parse_pairs pairs; Some (mkLineage instance_id gs ns)
  end.

Definition is_composed (l : InstanceLineage) : bool :=
  match lineage_node_ids l with [] => false | _ => true end.

Definition lineage_parent (l : InstanceLineage) : option (string * Z) :=
  if negb (is_composed l) then None
  else
    '(parent_with_generation, _) ← rsplit_once "::" (lineage_instance_id l);
    '(parent_instance_id, generation) ← rsplit_once "::" parent_with_generation;
    g ← parse_i64 generation;
    Some (parent_instance_id, g).

Definition parse_execution_stamp (execution_id : string) : option (InstanceLineage * Z) :=
  '(instance_id, generation) ← rsplit_once "::" execution_id;
  l ← lineage_parse instance_id;
  g ← parse_i64 generation;
  Some (l, g).

Definition compose_subtree_instance_id
    (parent_instance_id parent_execution_id child_root_node_id : string) : string :=
  parent_instance_id +:+ "::" +:+ parent_execution_id +:+ "::" +:+ child_root_node_id.

(** [format!("{}::{}", ctx.instance_id(), ctx.execution_id())] *)
Definition execution_stamp (instance_id : string) (execution_id : N) : string :=
  instance_id +:+ "::" +:+ show_N execution_id.

(** ** The write fence *)

Definition stamp_lineage (execution_id : string) : option (list Z * list string) :=
  '(lineage, current_generation) ← parse_execution_stamp execution_id;
  Some (generations lineage ++ [current_generation], lineage_node_ids lineage).

(** The loop over levels from [level] on. *)
Fixpoint superseded_levels (inc_gens : list Z) (inc_nodes : list string) (ex_gens : list Z)
    (ex_nodes : list string) : bool :=
  match inc_gens, ex_gens with
  | i :: inc_gens', e :: ex_gens' =>
      if (i <? e)%Z then true
      else if (e <? i)%Z then false
      else
        match inc_nodes, ex_nodes with
        | a :: inc_nodes', b :: ex_nodes' =>
            if String.eqb a b then superseded_levels inc_gens' inc_nodes' ex_gens' ex_nodes'
            else false
        | _, _ => superseded_levels inc_gens' (tl inc_nodes) ex_gens' (tl ex_nodes)
        end
  | _, _ => false
  end.

Definition incoming_stamp_is_superseded (incoming : string) (existing : option string) : bool :=
  match existing with
  | None => false
  | Some existing =>
      match stamp_lineage incoming, stamp_lineage existing with
      | Some (inc_gens, inc_nodes), Some (ex_gens, ex_nodes) =>
          superseded_levels inc_gens inc_nodes ex_gens ex_nodes
      | _, _ => false
      end
  end.

(** ** Well-formed ids *)

(** The id a chain of spawns composes from a root. *)
Definition lineage_tokens (root : string) (path : list (N * string)) : list string :=
  root :: flat_map (fun '(g, n) => [show_N g; n]) path.
Definition lineage_id (root : string) (path : list (N * string)) : string :=
  join "::" (lineage_tokens root path).

Definition token_ok (t : string) : Prop := t <> "" /\ char_free ":" t = true.
Definition generation_ok (g : N) : Prop := (Z.of_N g <= i64_max)%Z.
Record path_ok (root : string) (path : list (N * string)) : Prop := {
  path_root : token_ok root;
  path_steps : Forall (fun s => generation_ok (fst s) /\ token_ok (snd s)) path;
}.

(** ** Facts: ids *)

Lemma token_ok_nonempty t : token_ok t -> str_is_empty t = false.
Proof. intros [H _]. by destruct t. Qed.

Lemma show_N_token n : char_free ":" (show_N n) = true.
Proof. by apply show_N_char_free. Qed.

Lemma lineage_tokens_free root path :
  path_ok root path -> Forall (fun t => char_free ":" t = true) (lineage_tokens root path).
Proof.
  intros [[_ Hr] Hp]. constructor; [done|]. induction Hp as [|[g n] p [_ [_ Hn]] Hp IH]; [done|].
  simpl in *. constructor; [apply show_N_token|]. by constructor.
Qed.

Lemma parse_pairs_path path :
  Forall (fun s => generation_ok (fst s) /\ token_ok (snd s)) path ->
  parse_pairs (flat_map (fun '(g, n) => [show_N g; n]) path) =
  Some (map (fun s => Z.of_N (fst s)) path, map snd path).
Proof.
  induction 1 as [|[g n] p [Hg Hn] Hp IH]; [done|]. simpl in *.
  rewrite parse_i64_show by done. simpl. rewrite token_ok_nonempty by done. by rewrite IH.
Qed.

Lemma lineage_tokens_odd root path : Nat.even (length (lineage_tokens root path)) = false.
Proof. induction path as [|[g n] p IH]; [done|]. simpl in *. exact IH. Qed.

Lemma lineage_parse_id root path :
  path_ok root path ->
  lineage_parse (lineage_id root path) =
  Some (mkLineage (lineage_id root path) (map (fun s => Z.of_N (fst s)) path) (map snd path)).
Proof.
  intros Hok. unfold lineage_parse, lineage_id.
  rewrite str_split_join by (done || by apply lineage_tokens_free).
  rewrite lineage_tokens_odd. cbn [lineage_tokens].
  rewrite token_ok_nonempty by apply Hok. cbn [orb]. by rewrite parse_pairs_path by apply Hok.
Qed.

Lemma flat_map_snoc {A B} (f : A -> list B) l a : flat_map f (l ++ [a]) = flat_map f l ++ f a.
Proof. rewrite flat_map_app. simpl. by rewrite app_nil_r. Qed.

Lemma lineage_id_compose root path g n :
  compose_subtree_instance_id (lineage_id root path) (show_N g) n = lineage_id root (path ++ [(g, n)]).
Proof.
  unfold lineage_id, lineage_tokens. rewrite flat_map_snoc.
  change [show_N g; n] with ([show_N g] ++ [n]). rewrite app_assoc, app_comm_cons.
  rewrite join_snoc by done. rewrite app_comm_cons, join_snoc by done.
  unfold compose_subtree_instance_id. by rewrite !str_app_assoc.
Qed.

Lemma stamp_lineage_id root path g :
  path_ok root path -> generation_ok g ->
  stamp_lineage (execution_stamp (lineage_id root path) g) =
  Some (map (fun s => Z.of_N (fst s)) path ++ [Z.of_N g], map snd path).
Proof.
  intros Hok Hg. unfold stamp_lineage, parse_execution_stamp, execution_stamp.
  rewrite rsplit_once_free by apply show_N_token. cbn [mbind option_bind].
  rewrite lineage_parse_id by done. cbn [mbind option_bind].
  rewrite parse_i64_show by done. done.
Qed.

(** ** Facts: the fence *)

Lemma superseded_irrefl gs ns : superseded_levels gs ns gs ns = false.
Proof.
  revert ns. induction gs as [|g gs IH]; intros ns; [done|]. simpl.
  rewrite Z.ltb_irrefl. destruct ns as [|n ns]; [apply IH|].
  by rewrite String.eqb_refl.
Qed.

Lemma superseded_asymm g1 n1 g2 n2 :
  superseded_levels g1 n1 g2 n2 = true -> superseded_levels g2 n2 g1 n1 = false.
Proof.
  revert n1 g2 n2. induction g1 as [|i g1 IH]; intros n1 [|e g2] n2; simpl; try done.
  destruct (Z.ltb_spec i e), (Z.ltb_spec e i); try done; [lia|].
  destruct n1 as [|a n1], n2 as [|b n2]; try apply IH.
  rewrite (String.eqb_sym b a). destruct (String.eqb a b); [apply IH|done].
Qed.

(** Stamps as [stamp_lineage] returns them: one generation more than node ids. *)
Definition stamp_shape (gs : list Z) (ns : list string) : Prop := length gs = S (length ns).

Lemma superseded_spec g1 n1 g2 n2 :
  stamp_shape g1 n1 -> stamp_shape g2 n2 ->
  superseded_levels g1 n1 g2 n2 = true <->
  exists k i e, g1 !! k = Some i /\ g2 !! k = Some e /\ (i < e)%Z /\
    take k g1 = take k g2 /\ take k n1 = take k n2.
Proof.
  unfold stamp_shape. revert n1 g2 n2.
  induction g1 as [|i g1 IH]; intros n1 [|e g2] n2 H1 H2; simpl in H1, H2; try discriminate.
  simpl. split.
  - destruct (Z.ltb_spec i e) as [Hlt|Hge]; [intros _; by exists 0%nat, i, e|].
    destruct (Z.ltb_spec e i); [done|]. assert (i = e) as -> by lia.
    destruct n1 as [|a n1], n2 as [|b n2]; simpl in H1, H2; simplify_eq.
    + by apply nil_length_inv in H1 as ->.
    + by apply nil_length_inv in H1 as ->.
    + apply nil_length_inv in H2 as ->. by destruct g1.
    + destruct (String.eqb_spec a b) as [->|]; [|done].
      intros (k & i' & e' & Hk1 & Hk2 & Hlt & Ht1 & Ht2)%IH; [|done|done].
      exists (S k), i', e'. simpl. split_and!; try done; by f_equal.
  - intros (k & i' & e' & Hk1 & Hk2 & Hlt & Ht1 & Ht2). destruct k as [|k]; simpl in *; simplify_eq.
    + by apply Z.ltb_lt in Hlt as ->.
    + rewrite Z.ltb_irrefl.
      destruct n1 as [|a n1], n2 as [|b n2]; simpl in H1, H2.
      * by apply nil_length_inv in H1 as ->.
      * by apply nil_length_inv in H1 as ->.
      * by apply nil_length_inv in H2 as ->.
      * simplify_eq. rewrite String.eqb_refl. apply IH; try done. eauto 10.
Qed.

Lemma superseded_trans g1 n1 g2 n2 g3 n3 :
  stamp_shape g1 n1 -> stamp_shape g2 n2 -> stamp_shape g3 n3 ->
  superseded_levels g1 n1 g2 n2 = true -> superseded_levels g2 n2 g3 n3 = true ->
  superseded_levels g1 n1 g3 n3 = true.
Proof.
  intros S1 S2 S3. rewrite !superseded_spec by done.
  intros (j & i & e & Hi & He & Hlt & Hg & Hn) (k & i' & e' & Hi' & He' & Hlt' & Hg' & Hn').
  assert (Hsub : forall {A} (a b : list A) m n, (m <= n)%nat -> take n a = take n b -> take m a = take m b).
  { intros A a b m n Hmn H. apply (f_equal (take m)) in H. rewrite !take_take in H.
    by rewrite !Nat.min_l in H by lia. }
  assert (Hlook : forall {A} (a b : list A) m n, (m < n)%nat -> take n a = take n b -> a !! m = b !! m).
  { intros A a b m n Hmn H. rewrite <- (lookup_take_lt a n m), <- (lookup_take_lt b n m) by done.
    by rewrite H. }
  destruct (lt_eq_lt_dec j k) as [[Hjk| ->]|Hkj].
  - exists j, i, e. split_and!; [done| |done| |].
    + rewrite <- He. symmetry. by eapply Hlook.
    + rewrite Hg. by eapply Hsub; [|done]; lia.
    + rewrite Hn. by eapply Hsub; [|done]; lia.
  - exists k, i, e'. rewrite He in Hi'. simplify_eq. split_and!; [done|done|lia|congruence|congruence].
  - exists k, i', e'. split_and!; [|done|done| |].
    + rewrite <- Hi'. by eapply Hlook.
    + rewrite <- Hg'. by eapply Hsub; [|done]; lia.
    + rewrite <- Hn'. by eapply Hsub; [|done]; lia.
Qed.

Lemma parse_pairs_length tokens gs ns : parse_pairs tokens = Some (gs, ns) -> length gs = length ns.
Proof.
  revert gs ns. induction tokens as [tokens IH] using (induction_ltof1 _ (@length _)). unfold ltof in IH.
  destruct tokens as [|g [|n tokens]]; intros gs ns H; simpl in H; simplify_eq; try done.
  destruct (parse_i64 g) as [z|]; simpl in H; [|done]. destruct (str_is_empty n); [done|].
  destruct (parse_pairs tokens) as [[gs' ns']|] eqn:E; simpl in H; simplify_eq.
  simpl. f_equal. by apply (IH tokens); [simpl; lia|].
Qed.

Lemma stamp_lineage_shape s gs ns : stamp_lineage s = Some (gs, ns) -> stamp_shape gs ns.
Proof.
  unfold stamp_lineage, parse_execution_stamp. intros H.
  destruct (rsplit_once "::" s) as [[i g]|]; simpl in H; [|done].
  destruct (lineage_parse i) as [l|] eqn:E; simpl in H; [|done].
  destruct (parse_i64 g) as [z|]; simpl in H; [|done]. simplify_eq.
  unfold lineage_parse in E. destruct (str_split "::" i) as [|root pairs]; [done|].
  destruct (_ || _); [done|]. destruct (parse_pairs pairs) as [[gs' ns']|] eqn:Ep; simpl in E; simplify_eq.
  apply parse_pairs_length in Ep. unfold stamp_shape. simpl. rewrite length_app. simpl. lia.
Qed.

(** ** Properties *)

(** The id composed for a child orchestration parses back to the whole chain
    of spawns, its parent is the id and generation it was composed from, and so
    does every stamp the child writes. *)
Theorem subtree_id_round_trip root path g n h :
  path_ok root (path ++ [(g, n)]) -> generation_ok h ->
  let child := compose_subtree_instance_id (lineage_id root path) (show_N g) n in
  let lineage := mkLineage child (map (fun s => Z.of_N (fst s)) path ++ [Z.of_N g])
                   (map snd path ++ [n]) in
  lineage_parse child = Some lineage /\
  lineage_parent lineage = Some (lineage_id root path, Z.of_N g) /\
  parse_execution_stamp (execution_stamp child h) = Some (lineage, Z.of_N h).
Proof.
  intros Hok Hh child lineage.
  assert (Hp : lineage_parse child = Some lineage).
  { subst lineage child. rewrite !lineage_id_compose, lineage_parse_id by done.
    by rewrite !map_app. }
  assert (Hlast : generation_ok g /\ token_ok n).
  { destruct Hok as [_ H]. apply Forall_app in H as [_ H]. by inversion H. }
  destruct Hlast as [Hg [_ Hn]]. split_and!; [done| |].
  - unfold lineage_parent, is_composed. cbn [lineage_node_ids lineage_instance_id lineage].
    destruct (map snd path ++ [n]) eqn:E; [by destruct (map snd path)|]. cbn [negb].
    assert (Hc : child = (lineage_id root path +:+ "::" +:+ show_N g) +:+ "::" +:+ n).
    { unfold child, compose_subtree_instance_id. by rewrite !str_app_assoc. }
    rewrite Hc, rsplit_once_free by done. cbn [mbind option_bind].
    rewrite rsplit_once_free by apply show_N_token. cbn [mbind option_bind].
    by rewrite parse_i64_show.
  - unfold parse_execution_stamp, execution_stamp.
    rewrite rsplit_once_free by apply show_N_token. cbn [mbind option_bind].
    rewrite Hp. cbn [mbind option_bind]. by rewrite parse_i64_show.
Qed.

(** Two different chains of spawns never compose the same instance id, so the
    children of a loop body keep distinct durable instances across iterations,
    branches and nesting levels. *)
Theorem subtree_ids_unique root1 path1 root2 path2 :
  path_ok root1 path1 -> path_ok root2 path2 ->
  lineage_id root1 path1 = lineage_id root2 path2 -> root1 = root2 /\ path1 = path2.
Proof.
  intros H1 H2 E.
  assert (Ht : lineage_tokens root1 path1 = lineage_tokens root2 path2).
  { unfold lineage_id in E. rewrite <- (str_split_join (lineage_tokens root1 path1)), E.
    - by apply str_split_join; [|apply lineage_tokens_free].
    - done.
    - by apply lineage_tokens_free. }
  unfold lineage_tokens in Ht. injection Ht as -> Ht. split; [done|]. clear -Ht.
  revert path2 Ht. induction path1 as [|[g n] p IH]; intros [|[g' n'] p'] Ht; simpl in Ht; try done.
  injection Ht as Hg -> Ht. apply show_N_inj in Hg as ->. by rewrite (IH p').
Qed.

(** The write fence orders stamps strictly: a stamp never fences itself (so a
    running node can be completed by the generation that started it), of two
    stamps at most one is stale, and staleness is transitive. *)
Theorem fence_strict_order a b c :
  incoming_stamp_is_superseded a (Some a) = false /\
  (incoming_stamp_is_superseded a (Some b) = true ->
   incoming_stamp_is_superseded b (Some a) = false) /\
  (incoming_stamp_is_superseded a (Some b) = true ->
   incoming_stamp_is_superseded b (Some c) = true ->
   incoming_stamp_is_superseded a (Some c) = true).
Proof.
  unfold incoming_stamp_is_superseded.
  destruct (stamp_lineage a) as [[g1 n1]|] eqn:Ea, (stamp_lineage b) as [[g2 n2]|] eqn:Eb,
    (stamp_lineage c) as [[g3 n3]|] eqn:Ec; split_and!; try done;
    try apply superseded_irrefl; try apply superseded_asymm.
  apply superseded_trans; by eapply stamp_lineage_shape.
Qed.

(** A write is fenced exactly when, at the first spawn level where the two
    stamps differ, they took the same branch so far and the writer's generation
    is the older one: an older iteration of any enclosing loop is stale, a
    sibling branch of the same iteration never is. *)
Theorem fence_meaning root1 path1 g1 root2 path2 g2 :
  path_ok root1 path1 -> generation_ok g1 -> path_ok root2 path2 -> generation_ok g2 ->
  let gens path g := map fst path ++ [g] in
  incoming_stamp_is_superseded (execution_stamp (lineage_id root1 path1) g1)
    (Some (execution_stamp (lineage_id root2 path2) g2)) = true <->
  exists level i e,
    gens path1 g1 !! level = Some i /\ gens path2 g2 !! level = Some e /\ (i < e)%N /\
    take level (gens path1 g1) = take level (gens path2 g2) /\
    take level (map snd path1) = take level (map snd path2).
Proof.
  intros H1 Hg1 H2 Hg2 gens. unfold incoming_stamp_is_superseded.
  rewrite !stamp_lineage_id by done.
  assert (Hz : forall path g, map (fun s => Z.of_N (fst s)) path ++ [Z.of_N g] = map Z.of_N (gens path g)).
  { intros path g. unfold gens. rewrite map_app, map_map. done. }
  rewrite superseded_spec; [|unfold stamp_shape; rewrite length_app, !length_map; simpl; lia..].
  rewrite !Hz. split.
  - intros (k & i & e & Hi & He & Hlt & Ht & Hn).
    apply list_lookup_fmap_Some in Hi as (i' & -> & Hi), He as (e' & -> & He).
    exists k, i', e'. split_and!; [done|done|lia| |done].
    rewrite !firstn_map in Ht. apply (list_fmap_eq_inj Z.of_N) in Ht; [done|].
    intros ?? ?; lia.
  - intros (k & i & e & Hi & He & Hlt & Ht & Hn). exists k, (Z.of_N i), (Z.of_N e).
    split_and!; [| |lia| |done].
    + apply list_lookup_fmap_Some. eauto.
    + apply list_lookup_fmap_Some. eauto.
    + rewrite !firstn_map. by f_equal.
Qed.

(** ** Concrete instances *)

Definition sample_path : list (N * string) := [(2, "0000000a")]%N.

Lemma sample_path_ok g n : generation_ok g -> token_ok n -> path_ok "ab12cd34" (sample_path ++ [(g, n)]).
Proof. intros Hg Hn. split; [done|]. repeat constructor; try done; apply Hn. Qed.

Lemma subtree_id_round_trip_witness :
  lineage_parent (mkLineage "ab12cd34::2::0000000a::3::0000000b" [2; 3]%Z ["0000000a"; "0000000b"])
    = Some ("ab12cd34::2::0000000a", 3%Z).
Proof.
  apply (subtree_id_round_trip "ab12cd34" sample_path 3 "0000000b" 1); [|done].
  by apply sample_path_ok.
Defined.

Lemma subtree_ids_unique_witness :
  "ab12cd34" = "ab12cd34" /\ sample_path ++ [(3%N, "0000000b")] = sample_path ++ [(3%N, "0000000b")].
Proof.
  apply (subtree_ids_unique "ab12cd34" (sample_path ++ [(3%N, "0000000b")]) "ab12cd34"
           (sample_path ++ [(3%N, "0000000b")])); [by apply sample_path_ok..|reflexivity].
Defined.

Lemma fence_strict_order_witness :
  incoming_stamp_is_superseded "ab12cd34::2" (Some "ab12cd34::3") = true /\
  incoming_stamp_is_superseded "ab12cd34::3" (Some "ab12cd34::2") = false.
Proof.
  split; [reflexivity|].
  apply (fence_strict_order "ab12cd34::2" "ab12cd34::3" ""). reflexivity.
Defined.

Lemma fence_meaning_witness :
  incoming_stamp_is_superseded
    (execution_stamp (lineage_id "ab12cd34" sample_path) 7)
    (Some (execution_stamp (lineage_id "ab12cd34" sample_path) 9)) = true.
Proof.
  apply (fence_meaning "ab12cd34" sample_path 7 "ab12cd34" sample_path 9);
    [repeat constructor; done|done|repeat constructor; done|done|].
  exists 1%nat, 7%N, 9%N. done.
Defined.
