(* ===== verification/NodeStatus.v ===== *)
(** Read-time inference of node statuses ([src/node_status.rs], lines 100-344).

    [infer_statuses] walks the graph from its root with an explicit stack,
    carrying the nearest ancestor that decided the fate of the branch; the
    specification [reads] is the same walk as an inductive relation. *)
From S2P Require Import Prelude RustString Json JsonText Lineage.

(** The trait through which the inference sees a node row. *)
Class NodeFacts (N : Type) : Type := {
  nf_node_type : N -> string;
  nf_query : N -> option string;
  nf_left_node : N -> option string;
  nf_right_node : N -> option string;
  nf_status : N -> option string;
  nf_status_details : N -> option string;
}.

Record Inferred := mkInferred { status : string; from_ancestor_id : option string }.

#[export] Instance Inferred_eq_dec : EqDecision Inferred.
Proof. solve_decision. Defined.

(** ** Superseded generations *)

(** The recursion over the spawn lineage; ids get shorter, so a fuel of the id's
    length is enough ([is_superseded_fuel]). *)
Fixpoint is_superseded_go (fuel : nat) (instance_id : string) (gen : Z)
    (scope_max : gmap string Z) : bool :=
  match fuel with
  | O => false
  | S fuel' =>
      match scope_max !! instance_id with
      | Some m => (gen <? m)%Z
      | None => false
      end
      || match lineage_parse instance_id ≫= lineage_parent with
         | Some (parent_instance, parent_gen) =>
             is_superseded_go fuel' parent_instance parent_gen scope_max
         | None => false
         end
  end.
Definition is_superseded (instance_id : string) (gen : Z) (scope_max : gmap string Z) : bool :=
  is_superseded_go (S (String.length instance_id)) instance_id gen scope_max.

Definition is_terminal (status : option string) : bool :=
  bool_decide (status = Some "completed") || bool_decide (status = Some "failed").

Section Inference.
Context {SJ : SerdeJson} {N : Type} `{NF : !NodeFacts N}.

Definition stamp_of (status_details : option string) : option (string * Z) :=
  sd ← status_details;
  v ← ok (value_from_str sd);
  eid ← get "execution_id" v ≫= as_str;
  '(lineage, generation) ← parse_execution_stamp eid;
  Some (lineage_instance_id lineage, generation).

(** ** Children *)

Definition config_value (query : option string) : option value :=
  q ← query; ok (value_from_str q).
Definition config_node (query : option string) (key : string) : list string :=
  option_list ((config_value query ≫= get key) ≫= as_str).

Definition children_of (n : N) : list string :=
  let l := option_list (nf_left_node n) in
  let r := option_list (nf_right_node n) in
  let t := to_uppercase (nf_node_type n) in
  if String.eqb t "THEN" || String.eqb t "RACE" then l ++ r
  else if String.eqb t "JOIN" then
    l ++ r ++ omap as_str (default [] ((config_value (nf_query n) ≫= get "extra_nodes") ≫= as_array))
  else if String.eqb t "IF" then config_node (nf_query n) "condition_node" ++ l ++ r
  else if String.eqb t "LOOP" then l ++ config_node (nf_query n) "condition_node"
  else [].

(** ** The walk *)

Context (nodes : gmap string N).

Definition record_generation (n : N) (scope_max : gmap string Z) : gmap string Z :=
  match stamp_of (nf_status_details n) with
  | Some (instance_id, generation) =>
      let slot := default i64_min (scope_max !! instance_id) in
      <[instance_id := if (slot <? generation)%Z then generation else slot]> scope_max
  | None => scope_max
  end.
Definition scope_max : gmap string Z := map_fold (fun _ n m => record_generation n m) ∅ nodes.

Definition superseded (n : N) : bool :=
  match stamp_of (nf_status_details n) with
  | Some (instance_id, generation) => is_superseded instance_id generation scope_max
  | None => false
  end.

(** What a node reads as, below the nearest deciding ancestor [nta] and the
    ancestor with the highest generation [mga]. *)
Definition infer_node (n : N) (nta : option string) (mga : option (Z * string)) : Inferred :=
  if is_terminal (nf_status n) then
    if superseded n then
      match nta with
      | Some a => mkInferred "skipped" (Some a)
      | None => mkInferred "pending" (snd <$> mga)
      end
    else mkInferred (default "pending" (nf_status n)) None
  else
    match nta with
    | Some a => mkInferred "skipped" (Some a)
    | None =>
        mkInferred (if bool_decide (nf_status n = Some "running") then "running" else "pending") None
    end.

(** A node that finished in the current generation decides its descendants. *)
Definition decides (n : N) : bool := is_terminal (nf_status n) && negb (superseded n).

Definition child_nta (node_id : string) (n : N) (nta : option string) : option string :=
  if decides n then Some node_id else nta.
Definition child_mga (node_id : string) (n : N) (mga : option (Z * string)) : option (Z * string) :=
  match stamp_of (nf_status_details n), mga with
  | Some (_, g), Some (ag, aid) => if (ag <=? g)%Z then Some (g, node_id) else Some (ag, aid)
  | Some (_, g), None => Some (g, node_id)
  | None, prev => prev
  end.

Record Frame := mkFrame {
  f_id : string;
  f_nta : option string;
  f_mga : option (Z * string);
}.

Definition child_frames (f : Frame) (n : N) : list Frame :=
  map (fun c => mkFrame c (child_nta (f_id f) n (f_nta f)) (child_mga (f_id f) n (f_mga f)))
    (children_of n).

Record Walk := mkWalk { visited : gset string; out : gmap string Inferred }.

(** One iteration: [Some] frames to push, newest first. *)
Definition visit (f : Frame) (w : Walk) : Walk * list Frame :=
  if decide (f_id f ∈ visited w) then (w, [])
  else
    let visited' := {[f_id f]} ∪ visited w in
    match nodes !! f_id f with
    | None => (mkWalk visited' (out w), [])
    | Some n =>
        (mkWalk visited' (<[f_id f := infer_node n (f_nta f) (f_mga f)]> (out w)),
         reverse (child_frames f n))
    end.

Fixpoint walk_loop (fuel : nat) (stack : list Frame) (w : Walk) : option Walk :=
  match stack with
  | [] => Some w
  | f :: rest =>
      match fuel with
      | O => None
      | S fuel' => let '(w', pushed) := visit f w in walk_loop fuel' (pushed ++ rest) w'
      end
  end.

(** One pop for the root and one for every child reference. *)
Definition walk_fuel : nat :=
  S (map_fold (fun _ n k => (length (children_of n) + k)%nat) O nodes).

(** Nodes the walk did not reach keep their stored status. *)
Definition stored (n : N) : Inferred := mkInferred (default "pending" (nf_status n)) None.
Definition surface (w : Walk) : gmap string Inferred :=
  map_fold (fun id n o => if decide (id ∈ visited w) then o else <[id := stored n]> o)
    (out w) nodes.

Definition infer_statuses (root_node : option string) : option (gmap string Inferred) :=
  let stack := match root_node with Some root => [mkFrame root None None] | None => [] end in
  w ← walk_loop walk_fuel stack (mkWalk ∅ ∅); Some (surface w).

(** ** Specification *)

(** [reads root id nta mga]: some path from the root reaches [id], and along it
    [nta] and [mga] are what the node inherits. *)
Inductive reads (root : string) : string -> option string -> option (Z * string) -> Prop :=
  | reads_root : reads root root None None
  | reads_child a n b nta mga :
      reads root a nta mga -> nodes !! a = Some n -> b ∈ children_of n ->
      reads root b (child_nta a n nta) (child_mga a n mga).

(** [b] is referenced below [a]. *)
Definition child_of (a b : string) : Prop := exists n, nodes !! a = Some n /\ b ∈ children_of n.

(** ** Facts *)

Lemma reads_nta root id nta mga a :
  reads root id nta mga -> nta = Some a ->
  tc child_of a id /\ exists n, nodes !! a = Some n /\ decides n = true.
Proof.
  induction 1 as [|a' n b nta mga Hr IH Hn Hb]; [done|]. unfold child_nta.
  destruct (decides n) eqn:Hd.
  - intros [= <-]. split; [|by eauto]. apply tc_once. by exists n.
  - intros Ha. destruct (IH Ha) as [Ht Hda]. split; [|done]. eapply tc_r; [done|]. by exists n.
Qed.

(** *** Termination *)

Definition todo (v : gset string) : nat :=
  map_fold (fun id n k => if decide (id ∈ v) then k else (length (children_of n) + k)%nat) O nodes.

Lemma map_fold_le (f g : string -> N -> nat -> nat) (m : gmap string N) :
  (forall id n a b, m !! id = Some n -> (a <= b)%nat -> (f id n a <= g id n b)%nat) ->
  (forall i j x y b, f i x (f j y b) = f j y (f i x b)) ->
  (forall i j x y b, g i x (g j y b) = g j y (g i x b)) ->
  (map_fold f O m <= map_fold g O m)%nat.
Proof.
  intros H Hf Hg. induction m as [|i x m Hi IH] using map_ind.
  - by rewrite !map_fold_empty.
  - rewrite !(map_fold_insert_L _ _ i x m); try done; eauto.
    apply H; [by simplify_map_eq|]. apply IH. intros id n a b Hid. apply H.
    rewrite lookup_insert_ne; [done|]. by intros ->; simplify_eq.
Qed.

Lemma todo_mono v id : (todo ({[id]} ∪ v) <= todo v)%nat.
Proof.
  apply map_fold_le; intros; repeat case_decide; try lia; set_solver.
Qed.

Lemma todo_visit v id n :
  nodes !! id = Some n -> id ∉ v -> (todo ({[id]} ∪ v) + length (children_of n) = todo v)%nat.
Proof.
  intros Hn Hid. unfold todo.
  rewrite <- (insert_delete_id nodes id n Hn).
  rewrite !(map_fold_insert_L _ _ id n (delete id nodes));
    try (apply lookup_delete_eq); try (intros; repeat case_decide; lia).
  rewrite decide_True by set_solver. rewrite decide_False by done.
  rewrite Nat.add_comm. f_equal.
  apply Nat.le_antisymm; apply map_fold_le;
    intros; repeat case_decide; try lia; try set_solver;
    match goal with H : delete id nodes !! ?k = Some _ |- _ =>
    destruct (decide (k = id)) as [->|]; [by rewrite lookup_delete_eq in H|set_solver] end.
Qed.

Lemma walk_loop_terminates fuel stack w :
  (length stack + todo (visited w) <= fuel)%nat -> exists w', walk_loop fuel stack w = Some w'.
Proof.
  revert stack w. induction fuel as [|fuel IH]; intros [|f rest] w Hf; simpl in Hf;
    try (by eexists); [lia|]. simpl. unfold visit.
  destruct (decide (f_id f ∈ visited w)) as [Hv|Hv]; [apply IH; simpl; lia|].
  destruct (nodes !! f_id f) as [n|] eqn:Hn; apply IH; cbn [visited].
  - pose proof (todo_visit (visited w) (f_id f) n Hn Hv).
    rewrite length_app, length_reverse. unfold child_frames. rewrite length_map. lia.
  - pose proof (todo_mono (visited w) (f_id f)). simpl. lia.
Qed.

Lemma walk_fuel_enough : (1 + todo ∅ <= walk_fuel)%nat.
Proof.
  unfold walk_fuel, todo. apply le_n_S. apply map_fold_le; intros; repeat case_decide; lia.
Qed.

(** *** The loop invariant *)

Record walk_ok (root : string) (stack : list Frame) (w : Walk) : Prop := {
  ok_frames : forall f, f ∈ stack -> reads root (f_id f) (f_nta f) (f_mga f);
  ok_out : forall id inf, out w !! id = Some inf ->
  id ∈ visited w /\
  exists n nta mga, nodes !! id = Some n /\ reads root id nta mga /\ inf = infer_node n nta mga;
  ok_visited : forall id n, id ∈ visited w -> nodes !! id = Some n -> is_Some (out w !! id);
  ok_closed : forall id n c, id ∈ visited w -> nodes !! id = Some n -> c ∈ children_of n ->
  c ∈ visited w \/ c ∈ map f_id stack;
  ok_root : root ∈ visited w \/ root ∈ map f_id stack;
}.

Lemma walk_ok_step root f rest w w' pushed :
  walk_ok root (f :: rest) w -> visit f w = (w', pushed) -> walk_ok root (pushed ++ rest) w'.
Proof.
  intros [Hf Ho Hv Hc Hr]. unfold visit.
  destruct (decide (f_id f ∈ visited w)) as [Hin|Hin].
  { intros [= <- <-]. constructor; try done.
    - intros g Hg. apply Hf. by right.
    - intros id n c Hid Hn Hch. destruct (Hc id n c Hid Hn Hch) as [?|Hm]; [by left|].
      simpl in Hm. apply elem_of_cons in Hm as [->|Hm]; [by left|by right].
    - destruct Hr as [?|Hm]; [by left|]. simpl in Hm.
      apply elem_of_cons in Hm as [->|Hm]; [by left|by right]. }
  assert (Hrf : reads root (f_id f) (f_nta f) (f_mga f)) by (apply Hf; by left).
  assert (Hroot : root ∈ {[f_id f]} ∪ visited w \/ root ∈ map f_id rest).
  { destruct Hr as [?|Hm]; [left; set_solver|]. simpl in Hm.
    apply elem_of_cons in Hm as [->|Hm]; [left; set_solver|by right]. }
  destruct (nodes !! f_id f) as [n|] eqn:Hn; intros [= <- <-]; constructor; cbn [visited out].
  - intros g [Hg|Hg]%elem_of_app; [|apply Hf; by right].
    rewrite elem_of_reverse in Hg. apply list_elem_of_fmap in Hg as (c & -> & Hch). simpl.
    by apply reads_child.
  - intros id inf [[<- <-]|[Hne Hid]]%lookup_insert_Some.
    + split; [set_solver|]. eauto 10.
    + apply Ho in Hid as [??]. split; [set_solver|done].
  - intros id n' Hid Hn'. destruct (decide (id = f_id f)) as [->|Hne].
    + by rewrite lookup_insert_eq.
    + rewrite lookup_insert_ne by done. apply (Hv id n'); [set_solver|done].
  - intros id n' c Hid Hn' Hch. rewrite map_app, elem_of_app.
    destruct (decide (id = f_id f)) as [->|Hne].
    + simplify_eq. right. left. apply list_elem_of_fmap. eexists (mkFrame c _ _). split; [done|].
      rewrite elem_of_reverse. apply list_elem_of_fmap. eauto.
    + destruct (Hc id n' c) as [?|Hm]; [set_solver|done|done|left; set_solver|].
      simpl in Hm. apply elem_of_cons in Hm as [->|Hm]; [left; set_solver|by right; right].
  - destruct Hroot as [?|?]; [by left|]. right. rewrite map_app, elem_of_app. by right.
  - intros g Hg. apply Hf. by right.
  - intros id inf Hid. apply Ho in Hid as [??]. split; [set_solver|done].
  - intros id n' Hid Hn'. apply (Hv id n'); [|done].
    apply elem_of_union in Hid as [->%elem_of_singleton|?]; [congruence|done].
  - intros id n' c Hid Hn' Hch.
    destruct (Hc id n' c) as [?|Hm]; [|done|done|left; set_solver|].
    + apply elem_of_union in Hid as [->%elem_of_singleton|?]; [congruence|done].
    + simpl in Hm. apply elem_of_cons in Hm as [->|Hm]; [left; set_solver|by right].
  - done.
Qed.

Lemma walk_loop_ok root fuel stack w w' :
  walk_ok root stack w -> walk_loop fuel stack w = Some w' -> walk_ok root [] w'.
Proof.
  revert stack w. induction fuel as [|fuel IH]; intros [|f rest] w Hok; simpl; try congruence.
  destruct (visit f w) as [w2 pushed] eqn:Hv. apply IH. by eapply walk_ok_step.
Qed.

Lemma walk_done_visits root w id nta mga :
  walk_ok root [] w -> reads root id nta mga -> id ∈ visited w.
Proof.
  intros [_ _ _ Hc Hr]. induction 1 as [|a n b nta mga _ IH Hn Hb].
  - destruct Hr as [?|H]; [done|by apply not_elem_of_nil in H].
  - destruct (Hc a n b IH Hn Hb) as [?|H]; [done|by apply not_elem_of_nil in H].
Qed.

Lemma surface_lookup w id n :
  nodes !! id = Some n ->
  surface w !! id = if decide (id ∈ visited w) then out w !! id else Some (stored n).
Proof.
  unfold surface. intros Hn.
  assert (H : forall (m : gmap string N), m ⊆ nodes ->
    map_fold (fun id n o => if decide (id ∈ visited w) then o else <[id := stored n]> o) (out w) m !! id
    = match m !! id with
    | Some n' => if decide (id ∈ visited w) then out w !! id else Some (stored n')
    | None => out w !! id
    end).
  { intros m. induction m as [|i x m Hi IH] using map_ind; intros Hm.
    { by rewrite map_fold_empty, lookup_empty. }
    rewrite map_fold_insert_L; [|intros; repeat case_decide; try done; by apply insert_insert_ne|done].
    assert (Hm' : m ⊆ nodes) by (etransitivity; [by apply insert_subseteq|done]).
    destruct (decide (i = id)) as [->|Hne].
    - rewrite lookup_insert_eq. case_decide; [by rewrite (IH Hm'), Hi|by rewrite lookup_insert_eq].
    - rewrite lookup_insert_ne by done. destruct (decide (i ∈ visited w)); [by apply IH|].
      rewrite lookup_insert_ne by done. by apply IH. }
  rewrite H by done. by rewrite Hn.
Qed.
End Inference.

(** ** Scopes *)

(** The scopes along a spawn lineage, each with the generation that the next
    level was spawned from. *)
Inductive ancestor_scope : string -> Z -> string -> Z -> Prop :=
| scope_self i g : ancestor_scope i g i g
| scope_parent i g l p pg s sg :
    lineage_parse i = Some l -> lineage_parent l = Some (p, pg) ->
    ancestor_scope p pg s sg -> ancestor_scope i g s sg.

Lemma lineage_parent_shorter i l p pg :
  lineage_parse i = Some l -> lineage_parent l = Some (p, pg) ->
  (String.length p < String.length i)%nat.
Proof.
  intros Hl Hp. assert (lineage_instance_id l = i) as Hi.
  { unfold lineage_parse in Hl. destruct (str_split "::" i); [done|]. destruct (_ || _); [done|].
    destruct (parse_pairs _) as [[]|]; simpl in Hl; by simplify_eq. }
  unfold lineage_parent in Hp. rewrite Hi in Hp. destruct (negb _); [done|].
  destruct (rsplit_once "::" i) as [[a b]|] eqn:Ha; simpl in Hp; [|done].
  destruct (rsplit_once "::" a) as [[c d]|] eqn:Hc; simpl in Hp; [|done].
  destruct (parse_i64 d); simpl in Hp; simplify_eq.
  apply rsplit_once_Some in Ha as ->, Hc as ->. rewrite !str_length_app. simpl. lia.
Qed.

Lemma is_superseded_go_spec fuel i g sm :
  (String.length i < fuel)%nat ->
  is_superseded_go fuel i g sm = true <->
  exists s sg m, ancestor_scope i g s sg /\ sm !! s = Some m /\ (sg < m)%Z.
Proof.
  revert i g. induction fuel as [|fuel IH]; intros i g Hf; [lia|]. cbn [is_superseded_go].
  rewrite orb_true_iff. split.
  - intros [H|H].
    + destruct (sm !! i) as [m|] eqn:Hm; [|done]. apply Z.ltb_lt in H.
      exists i, g, m. split_and!; [constructor|done|done].
    + destruct (lineage_parse i) as [l|] eqn:Hl; simpl in H; [|done].
      destruct (lineage_parent l) as [[p pg]|] eqn:Hp; [|done].
      pose proof (lineage_parent_shorter _ _ _ _ Hl Hp).
      apply IH in H as (s & sg & m & Ha & Hm & Hlt); [|lia].
      exists s, sg, m. split_and!; [by eapply scope_parent|done|done].
  - intros (s & sg & m & Ha & Hm & Hlt). inversion Ha as [|? ? l p pg ? ? Hl Hp Hps]; subst.
    + left. rewrite Hm. by apply Z.ltb_lt.
    + right. rewrite Hl. simpl. rewrite Hp. pose proof (lineage_parent_shorter _ _ _ _ Hl Hp).
      apply IH; [lia|]. by exists s, sg, m.
Qed.

Lemma is_superseded_spec i g sm :
  is_superseded i g sm = true <->
  exists s sg m, ancestor_scope i g s sg /\ sm !! s = Some m /\ (sg < m)%Z.
Proof. apply is_superseded_go_spec. lia. Qed.

Section Properties.
Context {SJ : SerdeJson} {N : Type} `{NF : !NodeFacts N}.
Context (nodes : gmap string N).

Lemma stamp_of_range sd i g : stamp_of sd = Some (i, g) -> (i64_min <= g)%Z.
Proof.
  unfold stamp_of. destruct sd as [sd|]; simpl; [|done].
  destruct (ok (value_from_str sd)); simpl; [|done].
  destruct (get "execution_id" v ≫= as_str) as [eid|]; simpl; [|done].
  destruct (parse_execution_stamp eid) as [[l h]|] eqn:E; simpl; [|done]. intros [= <- <-].
  unfold parse_execution_stamp in E. destruct (rsplit_once "::" eid) as [[a b]|]; simpl in E; [|done].
  destruct (lineage_parse a); simpl in E; [|done].
  destruct (parse_i64 b) eqn:Hb; simpl in E; simplify_eq. by eapply parse_i64_range.
Qed.

(** The recorded generation of a scope is stamped on some node, and no node of
    the scope has a newer one. *)
Lemma scope_max_stamped s m :
  scope_max nodes !! s = Some m ->
  exists id n, nodes !! id = Some n /\ stamp_of (nf_status_details n) = Some (s, m).
Proof.
  unfold scope_max. revert m.
  apply (map_fold_weak_ind (fun acc ns => forall m, acc !! s = Some m ->
    exists id n, ns !! id = Some n /\ stamp_of (nf_status_details n) = Some (s, m))).
  - intros m. by rewrite lookup_empty.
  - intros i x ns acc Hi IH m H.
    assert (Hkeep : acc !! s = Some m ->
      exists id n, <[i:=x]> ns !! id = Some n /\ stamp_of (nf_status_details n) = Some (s, m)).
    { intros (id & n & Hn & Hst)%IH. exists id, n. split; [|done].
      rewrite lookup_insert_ne; [done|]. by intros ->; simplify_eq. }
    unfold record_generation in H.
    destruct (stamp_of (nf_status_details x)) as [[s' g']|] eqn:Hx; [|by apply Hkeep].
    apply lookup_insert_Some in H as [[-> H]|[_ H]]; [|by apply Hkeep].
    pose proof (stamp_of_range _ _ _ Hx) as Hmin.
    destruct (acc !! s) as [m0|]; simpl in H.
    + destruct (Z.ltb_spec m0 g'); subst; [|by apply Hkeep].
      exists i, x. by rewrite lookup_insert_eq.
    + exists i, x. rewrite lookup_insert_eq. split; [done|]. rewrite Hx. do 2 f_equal.
      destruct (Z.ltb_spec i64_min g'); lia.
Qed.

Lemma scope_max_ge id n s g :
  nodes !! id = Some n -> stamp_of (nf_status_details n) = Some (s, g) ->
  exists m, scope_max nodes !! s = Some m /\ (g <= m)%Z.
Proof.
  unfold scope_max. revert id n g.
  apply (map_fold_weak_ind (fun acc ns => forall id n g,
    ns !! id = Some n -> stamp_of (nf_status_details n) = Some (s, g) ->
    exists m, acc !! s = Some m /\ (g <= m)%Z)).
  - intros id n g H. by rewrite lookup_empty in H.
  - intros i x ns acc Hi IH id n g Hn Hg. unfold record_generation.
    apply lookup_insert_Some in Hn as [[<- <-]|[_ Hn]].
    + rewrite Hg, lookup_insert_eq. eexists. split; [done|].
      destruct (Z.ltb_spec (default i64_min (acc !! s)) g); lia.
    + destruct (IH _ _ _ Hn Hg) as (m & Hm & Hle).
      destruct (stamp_of (nf_status_details x)) as [[s' g']|]; [|eauto].
      destruct (decide (s' = s)) as [->|Hs]; [|rewrite lookup_insert_ne by done; eauto].
      rewrite lookup_insert_eq, Hm. simpl. eexists. split; [done|].
      destruct (Z.ltb_spec m g'); lia.
Qed.

(** A node reads as superseded exactly when, at its own scope or at some
    ancestor scope of its spawn lineage, another node is stamped with a newer
    generation than the one this node belongs to. *)
Theorem superseded_meaning n i g :
  stamp_of (nf_status_details n) = Some (i, g) ->
  superseded nodes n = true <->
    exists s sg id n' m, ancestor_scope i g s sg /\ nodes !! id = Some n' /\
  stamp_of (nf_status_details n') = Some (s, m) /\ (sg < m)%Z.
Proof.
  unfold superseded. intros ->. rewrite is_superseded_spec. split.
  - intros (s & sg & m & Ha & Hm & Hlt). apply scope_max_stamped in Hm as (id & n' & Hn & Hst).
    by exists s, sg, id, n', m.
  - intros (s & sg & id & n' & m & Ha & Hn & Hst & Hlt).
    destruct (scope_max_ge _ _ _ _ Hn Hst) as (m' & Hm' & Hle).
    exists s, sg, m'. split_and!; [done|done|lia].
Qed.

Lemma infer_statuses_walk root :
  exists w, infer_statuses nodes (Some root) = Some (surface nodes w) /\ walk_ok nodes root [] w.
Proof.
  unfold infer_statuses.
  assert (Hstart : walk_ok nodes root [mkFrame root None None] (mkWalk ∅ ∅)).
  { constructor; try done; simpl; [|set_solver].
    intros f ->%list_elem_of_singleton. constructor. }
  destruct (walk_loop_terminates nodes (walk_fuel nodes) [mkFrame root None None] (mkWalk ∅ ∅))
    as [w Hw]; [apply (walk_fuel_enough nodes)|].
  exists w. rewrite Hw. split; [done|]. by eapply walk_loop_ok.
Qed.

(** C40: inference always ends, covers exactly the given nodes, and gives each
    node the status its walk from the root determines: a node reached by the
    walk reads as [infer_node] says for the deciding ancestor it inherits, and
    any other node keeps its stored status. *)
Theorem infer_statuses_refines root :
  exists res, infer_statuses nodes (Some root) = Some res /\ dom res = dom nodes /\
  forall id n, nodes !! id = Some n -> exists inf, res !! id = Some inf /\
  ((exists nta mga, reads nodes root id nta mga /\ inf = infer_node nodes n nta mga) \/
   ((forall nta mga, ~ reads nodes root id nta mga) /\ inf = stored n)).
Proof.
  destruct (infer_statuses_walk root) as (w & -> & Hok). exists (surface nodes w).
  assert (Hall : forall id n, nodes !! id = Some n -> exists inf, surface nodes w !! id = Some inf /\
    ((exists nta mga, reads nodes root id nta mga /\ inf = infer_node nodes n nta mga) \/
    ((forall nta mga, ~ reads nodes root id nta mga) /\ inf = stored n))).
  { intros id n Hn. rewrite (surface_lookup nodes w id n Hn). case_decide as Hid.
    - destruct (ok_visited _ _ _ _ Hok id n Hid Hn) as [inf Hinf]. exists inf. split; [done|].
      left. apply (ok_out _ _ _ _ Hok) in Hinf as (_ & n' & nta & mga & Hn' & Hr & ->).
      simplify_eq. eauto.
    - exists (stored n). split; [done|]. right. split; [|done].
      intros nta mga Hr. apply Hid. by eapply walk_done_visits. }
  split_and!; [done| |done]. apply set_eq. intros id. rewrite !elem_of_dom. split.
  - intros [inf Hinf]. destruct (nodes !! id) eqn:Hn; [done|]. exfalso.
    unfold surface in Hinf. revert Hinf.
    assert (Hk : out w !! id = None).
    { destruct (out w !! id) as [inf'|] eqn:E; [|done].
      apply (ok_out _ _ _ _ Hok) in E as (_ & n' & ? & ? & Hn' & _). congruence. }
    assert (H : forall m : gmap string N, m ⊆ nodes ->
      map_fold (fun id n o => if decide (id ∈ visited w) then o else <[id := stored n]> o) (out w) m
      !! id = None).
    { intros m. apply (map_fold_weak_ind (fun acc m => m ⊆ nodes -> acc !! id = None)); [done|].
      intros i x ns acc Hi IH Hm.
      assert (Hm' : ns ⊆ nodes) by (etransitivity; [by apply insert_subseteq|done]).
      destruct (decide (i ∈ visited w)); [by apply IH|]. rewrite lookup_insert_ne; [by apply IH|].
      intros ->. assert (nodes !! id = Some x); [|congruence].
      eapply lookup_weaken; [apply lookup_insert_eq|done]. }
    by rewrite H.
  - intros [n Hn]. destruct (Hall id n Hn) as (inf & Hinf & _). by eexists.
Qed.

(** What a reader may rely on: a node that finished in the current
    generation always shows its stored status, and a node shows [skipped] with
    an ancestor only when that ancestor really is above it and finished in the
    current generation. *)
Theorem infer_statuses_sound root res id n inf :
  infer_statuses nodes (Some root) = Some res -> nodes !! id = Some n -> res !! id = Some inf ->
  (decides nodes n = true -> inf = mkInferred (default "pending" (nf_status n)) None) /\
  (forall a, status inf = "skipped" -> from_ancestor_id inf = Some a ->
   tc (child_of nodes) a id /\ exists na, nodes !! a = Some na /\ decides nodes na = true).
Proof.
  intros Hres Hn Hinf. destruct (infer_statuses_walk root) as (w & Hw & Hok).
  rewrite Hw in Hres. simplify_eq. rewrite (surface_lookup nodes w id n Hn) in Hinf.
  case_decide as Hid; [|by simplify_eq; split; [|intros a _ ?]].
  apply (ok_out _ _ _ _ Hok) in Hinf as (_ & n' & nta & mga & Hn' & Hr & ->). simplify_eq.
  unfold infer_node, decides. split.
  - intros [-> Hs]%andb_true_iff. apply negb_true_iff in Hs as ->. done.
  - destruct (is_terminal (nf_status n)); [destruct (superseded nodes n)|];
      destruct nta as [b|]; simpl; intros a Hs Ha; simplify_eq;
      try (by eapply reads_nta); done.
Qed.
End Properties.

(** ** Concrete instances *)

Record SampleRow := mkRow {
  row_type : string; row_query : option string; row_left : option string; row_right : option string;
  row_status : option string; row_details : option string;
}.
#[local] Instance sample_facts : NodeFacts SampleRow := {|
  nf_node_type := row_type; nf_query := row_query; nf_left_node := row_left;
  nf_right_node := row_right; nf_status := row_status; nf_status_details := row_details |}.
#[local] Existing Instance text_json.

Definition sample_details (stamp : string) : option string :=
  Some (print_value (Object [("execution_id", JString stamp)])).

(** A root loop in its second generation: the body finished in the first, its
    right branch was not taken. *)
Definition sample_rows : gmap string SampleRow :=
  <["0000000a" := mkRow "LOOP" None (Some "0000000b") None (Some "running") (sample_details "ab12cd34::2")]>
  (<["0000000b" := mkRow "IF" None (Some "0000000c") (Some "0000000d") (Some "completed")
                     (sample_details "ab12cd34::2")]>
  (<["0000000c" := mkRow "SQL" None None None (Some "completed") (sample_details "ab12cd34::1")]>
  (<["0000000d" := mkRow "SQL" None None None (Some "pending") None]> ∅))).

Definition sample_inferred : gmap string Inferred :=
  default ∅ (infer_statuses sample_rows (Some "0000000a")).

Lemma sample_infer : infer_statuses sample_rows (Some "0000000a") = Some sample_inferred.
Proof. vm_compute. reflexivity. Qed.

Lemma superseded_meaning_witness :
  exists s sg id n' m, ancestor_scope "ab12cd34" 1 s sg /\ sample_rows !! id = Some n' /\
      stamp_of (row_details n') = Some (s, m) /\ (sg < m)%Z.
Proof.
  refine (proj1 (superseded_meaning sample_rows
    (mkRow "SQL" None None None (Some "completed") (sample_details "ab12cd34::1")) "ab12cd34" 1 _) _);
    vm_compute; reflexivity.
Defined.

Lemma infer_statuses_sound_witness :
  sample_inferred !! "0000000b" = Some (mkInferred "completed" None) /\
  tc (child_of sample_rows) "0000000b" "0000000d".
Proof.
  split; [vm_compute; reflexivity|].
  refine (proj1 (proj2 (infer_statuses_sound sample_rows "0000000a" sample_inferred "0000000d"
    (mkRow "SQL" None None None (Some "pending") None) (mkInferred "skipped" (Some "0000000b"))
    sample_infer _ _) "0000000b" _ _)); vm_compute; reflexivity.
Defined.
