(* ===== verification/Origin.v ===== *)
(** Origin-qualified engine ids ([src/origin.rs], lines 200-260).

    An instance started from a satellite database carries the database and the
    installation in its engine id, [pgdf-<oid>-<uuid>-<local id>]; instances of
    the control database use their local id as it is. *)
From S2P Require Import Prelude RustString.

(** The [uuid] crate, a dependency: a [Uuid] is a 128-bit number. *)
Class UuidCrate : Type := {
  uuid_simple : N -> string;
  uuid_parse_str : string -> result N string;
}.
(** Its documented behaviour: the simple form is 32 lower-case hexadecimal
    digits, and parses back. *)
Class UuidLaws (U : UuidCrate) : Prop := {
  uuid_simple_hex : forall u, str_forall is_ascii_hexdigit (uuid_simple u) = true;
  uuid_parse_simple : forall u, (u < 2 ^ 128)%N -> uuid_parse_str (uuid_simple u) = Ok u;
}.

Record Origin := mkOrigin { database_oid : N; installation_id : N }.

#[export] Instance Origin_eq_dec : EqDecision Origin.
Proof. solve_decision. Defined.

Section Origin.
Context {U : UuidCrate}.

Definition engine_id (o : Origin) (local_id : string) : string :=
  "pgdf-" +:+ show_N (database_oid o) +:+ "-" +:+ uuid_simple (installation_id o)
    +:+ "-" +:+ local_id.

Definition from_engine_id (engine_id : string) : result (option Origin) string :=
  let root := default engine_id (head (str_split "::" engine_id)) in
  match strip_prefix "pgdf-" root with
  | None => Ok None
  | Some encoded =>
      let invalid := Err "Invalid pg_durable engine instance identity" in
      match split_char "-" encoded with
      | [oid; uuid; local] =>
          if negb (Nat.eqb (String.length local) 8) || negb (str_forall is_ascii_hexdigit local)
          then invalid
          else
            let? database_oid := ok_or (parse_u32 oid) "Invalid origin database OID" in
            let? installation_id :=
              map_err (fun _ => "Invalid origin installation identity") (uuid_parse_str uuid) in
            Ok (Some (mkOrigin database_oid installation_id))
      | _ => invalid
      end
  end.

Definition engine_id_for_origin (origin : option Origin) (local_id : string) : string :=
  match origin with None => local_id | Some o => engine_id o local_id end.
End Origin.

Definition local_id_ok (s : string) : Prop :=
  String.length s = 8%nat /\ str_forall is_ascii_hexdigit s = true.
Definition origin_ok (o : Origin) : Prop :=
  (database_oid o <= u32_max)%N /\ (installation_id o < 2 ^ 128)%N.

Lemma hex_char_free c s :
  is_ascii_hexdigit c = false -> str_forall is_ascii_hexdigit s = true -> char_free c s = true.
Proof.
  intros Hc. apply str_forall_impl. intros a Ha.
  apply negb_true_iff, Ascii.eqb_neq. by intros ->; rewrite Hc in Ha.
Qed.

Section Facts.
Context {U : UuidCrate} {UL : UuidLaws U}.

Lemma engine_id_colon_free o local :
  local_id_ok local -> char_free ":" (engine_id o local) = true.
Proof.
  intros [_ Hl]. unfold engine_id. rewrite !char_free_app. split_and!; try done.
  - by apply show_N_char_free.
  - apply hex_char_free; [done|apply uuid_simple_hex].
  - by apply hex_char_free.
Qed.

(** The first token of an id and of every id composed from it. *)
Lemma head_split root suffix :
  char_free ":" root = true ->
  default (root +:+ suffix) (head (str_split "::" root)) = root.
Proof. intros H. by rewrite str_split_free. Qed.

Lemma from_engine_id_root engine root rest :
  str_split "::" engine = root :: rest -> char_free ":" root = true ->
  from_engine_id engine = from_engine_id root.
Proof. intros H Hr. unfold from_engine_id. by rewrite H, str_split_free. Qed.

Lemma from_engine_id_origin o local :
  origin_ok o -> local_id_ok local -> from_engine_id (engine_id o local) = Ok (Some o).
Proof.
  intros [Ho Hu] Hl. unfold from_engine_id.
  rewrite str_split_free by by apply engine_id_colon_free. cbn [head from_option id].
  unfold engine_id at 1. rewrite strip_prefix_app. destruct Hl as [Hlen Hhex].
  change ("-" +:+ uuid_simple (installation_id o) +:+ "-" +:+ local)
    with (String "-" (uuid_simple (installation_id o) +:+ String "-" local)).
  rewrite split_char_app by by apply show_N_char_free.
  rewrite split_char_app by (apply hex_char_free; [done|apply uuid_simple_hex]).
  rewrite split_char_free by by apply hex_char_free.
  rewrite Hlen, Hhex. cbn [Nat.eqb negb orb].
  rewrite parse_u32_show by done. cbn [ok_or result_bind].
  rewrite uuid_parse_simple by done. cbn [map_err result_bind]. by destruct o.
Qed.

Lemma from_engine_id_local local : local_id_ok local -> from_engine_id local = Ok None.
Proof.
  intros [Hlen Hhex]. unfold from_engine_id.
  rewrite str_split_free by by apply hex_char_free. cbn [head from_option id].
  destruct local as [|c s]; [done|]. cbn [strip_prefix].
  destruct (Ascii.eqb_spec "p" c) as [<-|]; done.
Qed.

(** Every activity finds its way back to the database that started the
    instance: from the engine id of a root, and from any id a sub-orchestration
    composes onto it, [from_engine_id] recovers the origin, and an unqualified
    local id means the control database. *)
Theorem origin_round_trip origin local suffix :
  (forall o, origin = Some o -> origin_ok o) -> local_id_ok local ->
  from_engine_id (engine_id_for_origin origin local) = Ok origin /\
  from_engine_id (engine_id_for_origin origin local +:+ "::" +:+ suffix) = Ok origin.
Proof.
  intros Ho Hl.
  assert (Hfree : char_free ":" (engine_id_for_origin origin local) = true).
  { destruct origin as [o|]; simpl; [by apply engine_id_colon_free|].
    destruct Hl. by apply hex_char_free. }
  assert (H : from_engine_id (engine_id_for_origin origin local) = Ok origin).
  { destruct origin as [o|]; simpl; [by apply from_engine_id_origin; [apply Ho|]|].
    by apply from_engine_id_local. }
  split; [done|]. by erewrite from_engine_id_root; [|by apply str_split_sep|].
Qed.
End Facts.

(** ** A concrete instance *)

Lemma to_ascii_lowercase_hex_go w n : to_ascii_lowercase (hex_go w n) = hex_go w n.
Proof.
  revert n. induction w as [|w IH]; intros n; [done|]. cbn [hex_go]. unfold to_ascii_lowercase in *.
  rewrite str_map_app, IH. simpl. do 2 f_equal.
  assert (H : In (n mod 16)%N (map N.of_nat (seq 0 16))).
  { pose proof (N.mod_lt n 16 ltac:(lia)) as Hm. revert Hm. generalize (n mod 16)%N. intros m Hm.
    replace m with (N.of_nat (N.to_nat m)) by lia.
    apply in_map, in_seq. lia. }
  revert H. generalize (n mod 16)%N. apply List.Forall_forall. repeat constructor.
Qed.


Definition sample_uuid : UuidCrate := {|
  uuid_simple u := hex_go 32 u;
  uuid_parse_str s :=
    if Nat.eqb (String.length s) 32 && str_forall is_ascii_hexdigit s
    then Ok (read_hex 0 (to_ascii_lowercase s)) else Err "invalid length";
|}.

Definition sample_origin : Origin := mkOrigin 16384 170.

Lemma origin_round_trip_witness :
  UuidLaws sample_uuid /\
  @engine_id sample_uuid sample_origin "ab12cd34"
    = "pgdf-16384-000000000000000000000000000000aa-ab12cd34" /\
  @from_engine_id sample_uuid
    (@engine_id_for_origin sample_uuid (Some sample_origin) "ab12cd34" +:+ "::" +:+ "3::0000000a")
    = Ok (Some sample_origin).
Proof.
  assert (L : UuidLaws sample_uuid).
  { constructor.
    - intros u. apply hex_go_ok.
    - intros u Hu. destruct (hex_go_ok 32 u) as [H1 H2]. cbn [uuid_parse_str uuid_simple sample_uuid].
      rewrite H2, H1. cbn [Nat.eqb andb]. rewrite to_ascii_lowercase_hex_go. by rewrite read_hex_go. }
  split; [exact L|]. split; [vm_compute; reflexivity|].
  apply (@origin_round_trip sample_uuid L (Some sample_origin) "ab12cd34" "3::0000000a").
  - intros o [= <-]. split; [|reflexivity]. unfold u32_max. simpl. lia.
  - split; reflexivity.
Defined.
