(* ===== verification/StatusWrite.v ===== *)
(** Status writes: the activities [update_node_status] and
    [update_instance_status] ([src/activities/update_node_status.rs],
    [src/activities/update_instance_status.rs]) over the tables they update.

    A transaction of the model is one call: the row lock of the source makes the
    read of the old stamp and the update one step.  What PostgreSQL may answer
    besides the contents of the tables (failures, whether the schema has the
    [status_details] column) is the argument [db_env]. *)
From S2P Require Import Prelude RustString Json JsonText Lineage Origin.

(** ** Tables *)

Record NodeRow := mkNodeRow {
  row_status : option string;
  row_result : option value;
  row_details : option value;
}.

(** [df.nodes], by its primary key [(instance_id, id)]. *)
Abbreviation node_table := (gmap (string * string) NodeRow).

Record InstanceRow := mkInstanceRow {
  inst_status : option string;
  inst_completed : bool;
}.
Abbreviation instance_table := (gmap string InstanceRow).

Record db_env := mkDbEnv {
  db_begin : result unit string;
  db_details_present : result bool string;
  db_lock : result unit string;
  db_update : result unit string;
  db_rollback : result unit string;
  db_commit : result unit string;
}.

Definition terminal_node_status (s : string) : bool :=
  String.eqb s "completed" || String.eqb s "failed".

(** [CHECK (result IS NULL OR status IN ('completed', 'failed'))]: a null status
    makes the test null, which a check constraint accepts. *)
Definition nodes_result_status_chk (r : NodeRow) : bool :=
  match row_result r, row_status r with
  | None, _ => true
  | Some _, Some s => terminal_node_status s
  | Some _, None => true
  end.

(** [CHECK (status = ANY (ARRAY['pending', 'running', 'completed', 'failed']))] *)
Definition nodes_status_chk (r : NodeRow) : bool :=
  match row_status r with
  | Some s => existsb (String.eqb s) ["pending"; "running"; "completed"; "failed"]
  | None => true
  end.

Definition row_checks (r : NodeRow) : bool := nodes_status_chk r && nodes_result_status_chk r.

Section Writes.
Context {SJ : SerdeJson} {U : UuidCrate}.

Definition execution_id_from_details (status_details : option value) : option string :=
  d ← status_details; get "execution_id" d ≫= as_str.

(** The row an UPDATE built by [push_status_update] leaves. *)
Definition push_status_update (status : string) (res : option string)
    (execution_id : option string) (write_details : bool) (row : NodeRow) : NodeRow :=
  mkNodeRow (Some status)
    (match res with
     | Some res => Some (match value_from_str res with Ok v => v | Err _ => JString res end)
     | None => if terminal_node_status status then row_result row else None
     end)
    (if write_details then Some (Object [("execution_id", en_opt_string execution_id)])
      else row_details row).

(** Executing the UPDATE: the rows affected and the table. *)
Definition run_update (env : db_env) (t : node_table) (key : string * string)
    (f : NodeRow -> NodeRow) : result (N * node_table) string :=
  let? _ := db_update env in
  match t !! key with
  | None => Ok (0%N, t)
  | Some row =>
      if row_checks (f row) then Ok (1%N, <[key := f row]> t)
      else Err "new row for relation nodes violates check constraint"
  end.

Definition fenced_message : string := "Node status write fenced (superseded by newer generation)".

Definition finish_fenced_status_update (env : db_env) : result string string :=
  let? _ := map_err (fun e => "Failed to roll back fenced node status update: " +:+ e)
      (db_rollback env) in
  Ok fenced_message.

Definition wrong_rows (rows : N) (node_id instance_id : string) : string :=
  "update_node_status affected " +:+ show_N rows +:+ " row(s) for node " +:+ node_id +:+
  " in instance " +:+ instance_id +:+ " (expected exactly 1)".

(** The transaction, from the parsed input on: its result and the table it
    leaves. *)
Definition write_node_status (env : db_env) (t : node_table)
    (node_id status : string) (res : option string) (instance_id : string)
    (execution_id : option string) : result (string * node_table) string :=
  let? _ := map_err (fun e => "Node status origin validation failed: " +:+ e) (db_begin env) in
  let? write_details :=
    match execution_id with
    | None => Ok false
    | Some _ => map_err (fun e => "Node status schema lookup failed: " +:+ e) (db_details_present env)
    end in
  let key := (instance_id, node_id) in
  let update := push_status_update status res execution_id write_details in
  if write_details then
    let? _ := map_err (fun e => "Failed to lock node status row: " +:+ e) (db_lock env) in
    match t !! key with
    | None =>
        Err ("update_node_status affected 0 rows: node " +:+ node_id +:+
             " not found in instance " +:+ instance_id)
    | Some row =>
        if incoming_stamp_is_superseded (default "" execution_id)
            (execution_id_from_details (row_details row)) then
          let? m := finish_fenced_status_update env in Ok (m, t)
        else
          let? (rows, t') :=
            map_err (fun e => "Failed to update node status: " +:+ e) (run_update env t key update) in
          if negb (rows =? 1)%N then Err (wrong_rows rows node_id instance_id)
          else
            let? _ := map_err
                (fun e => "Failed to commit node status update transaction: " +:+ e) (db_commit env) in
            Ok ("Node status updated", t')
    end
  else
    let? (rows, t') :=
      map_err (fun e => "Failed to update node status: " +:+ e) (run_update env t key update) in
    if (rows =? 1)%N then
      let? _ := map_err (fun e => "Node status commit failed: " +:+ e) (db_commit env) in
      Ok ("Node status updated", t')
    else Err (wrong_rows rows node_id instance_id).

Record NodeStatusRequest := mkRequest {
  req_node_id : string;
  req_status : string;
  req_result : option string;
  req_instance_id : string;
  req_execution_id : option string;
}.

Definition parse_node_status_input (input_json : string) : result NodeStatusRequest string :=
  let? input := map_err (fun e => "Failed to parse node status input: " +:+ e)
      (value_from_str input_json) in
  let? node_id := ok_or (as_str (index input "node_id")) "Missing node_id" in
  let? status := ok_or (as_str (index input "status")) "Missing status" in
  let? instance_id := ok_or (as_str (index input "instance_id")) "Missing instance_id" in
  Ok (mkRequest node_id status (get "result" input ≫= as_str) instance_id
      (get "execution_id" input ≫= as_str)).

Definition keep {A} (t : A) (r : result (string * A) string) : result string string * A :=
  match r with Ok (m, t') => (Ok m, t') | Err e => (Err e, t) end.

(** The activity; [engine_id] is [ctx.instance_id()]. *)
Definition update_node_status (env : db_env) (engine_id input_json : string) (t : node_table)
    : result string string * node_table :=
  keep t
    (let? r := parse_node_status_input input_json in
      let? _ := from_engine_id engine_id in
      write_node_status env t (req_node_id r) (req_status r) (req_result r) (req_instance_id r)
      (req_execution_id r)).

(** ** Instances *)

(** [status <> ALL (ARRAY['completed', 'failed', 'cancelled'])]; null is not
    true. *)
Definition instance_open (r : InstanceRow) : bool :=
  match inst_status r with
  | Some s => negb (existsb (String.eqb s) ["completed"; "failed"; "cancelled"])
  | None => false
  end.

(** [CHECK (status = ANY (ARRAY['pending', 'running', 'completed', 'failed',
    'cancelled']))], which the UPDATE must satisfy for the row it changes. *)
Definition instances_status_chk (status : string) : bool :=
  existsb (String.eqb status) ["pending"; "running"; "completed"; "failed"; "cancelled"].

Definition run_instance_update (env : db_env) (t : instance_table) (instance_id status : string)
    : result instance_table string :=
  let? _ := db_update env in
  match t !! instance_id with
  | Some row =>
      if instance_open row then
        if instances_status_chk status then
          Ok (<[instance_id := mkInstanceRow (Some status)
                (String.eqb status "completed" || inst_completed row)]> t)
        else Err "new row for relation instances violates check constraint instances_status_chk"
      else Ok t
  | None => Ok t
  end.

Definition update_instance_status (env : db_env) (engine_id input_json : string)
    (t : instance_table) : result string string * instance_table :=
  keep t
    (let? input := map_err (fun e => "Failed to parse status update input: " +:+ e)
        (value_from_str input_json) in
     let? instance_id := ok_or (as_str (index input "instance_id")) "Missing instance_id" in
     let? status := ok_or (as_str (index input "status")) "Missing status" in
     let? _ := from_engine_id engine_id in
     let? _ := map_err (fun e => "Instance status origin validation failed: " +:+ e)
         (db_begin env) in
     let? t' := map_err (fun e => "Failed to update instance status: " +:+ e)
         (run_instance_update env t instance_id status) in
     let? _ := map_err (fun e => "Instance status commit failed: " +:+ e) (db_commit env) in
     Ok ("Status updated to " +:+ status, t')).
End Writes.

(** ** Facts *)

Section Facts.
Context {SJ : SerdeJson} {U : UuidCrate}.

Lemma run_update_ok env t key f n t' :
  run_update env t key f = Ok (n, t') ->
  (n = 0%N /\ t !! key = None /\ t' = t) \/
  (n = 1%N /\ exists row, t !! key = Some row /\ row_checks (f row) = true /\ t' = <[key := f row]> t).
Proof.
  unfold run_update. intros (? & _ & H)%result_bind_ok.
  destruct (t !! key) as [row|]; [|simplify_eq; auto].
  destruct (row_checks (f row)) eqn:E; simplify_eq. right. eauto.
Qed.

(** The outcomes of a successful write. *)
Lemma write_node_status_ok env t node_id st res instance_id x m t' :
  write_node_status env t node_id st res instance_id x = Ok (m, t') ->
  exists row, t !! (instance_id, node_id) = Some row /\
  ((m = fenced_message /\ t' = t /\ exists stamp, x = Some stamp /\
    incoming_stamp_is_superseded stamp (execution_id_from_details (row_details row)) = true) \/
   (exists details, let row' := push_status_update st res x details row in
     m = "Node status updated" /\ row_checks row' = true /\
     t' = <[(instance_id, node_id) := row']> t /\
     (details = true -> exists stamp, x = Some stamp /\
      incoming_stamp_is_superseded stamp (execution_id_from_details (row_details row)) = false))).
Proof.
  unfold write_node_status. intros (? & _ & H)%result_bind_ok.
  apply result_bind_ok in H as (details & Hdet & H). destruct details.
  - apply result_bind_ok in H as (? & _ & H).
    destruct (t !! (instance_id, node_id)) as [row|] eqn:Hrow; [|done]. exists row. split; [done|].
    destruct x as [stamp|]; [|done]. cbn [default] in H. simpl in H.
    destruct (incoming_stamp_is_superseded _ _) eqn:Hs.
    + left. apply result_bind_ok in H as (msg & Hf & H). simplify_eq.
      unfold finish_fenced_status_update in Hf. apply result_bind_ok in Hf as (? & _ & Hf).
      simplify_eq. split_and!; [done|done|]. eauto.
    + right. exists true. apply result_bind_ok in H as ([rows t2] & Hu & H). apply map_err_ok in Hu.
      destruct (negb (rows =? 1)%N) eqn:Hn; [done|]. apply result_bind_ok in H as (? & _ & H).
      simplify_eq. apply run_update_ok in Hu as [(-> & _)|(_ & row' & Hr' & Hc & ->)]; [done|].
      simplify_eq. split_and!; try done. eauto.
  - apply result_bind_ok in H as ([rows t2] & Hu & H). apply map_err_ok in Hu.
    destruct (rows =? 1)%N eqn:Hn; [|done]. apply result_bind_ok in H as (? & _ & H). simplify_eq.
    apply run_update_ok in Hu as [(-> & _)|(_ & row & Hr & Hc & ->)]; [done|].
    exists row. split; [done|]. right. exists false. done.
Qed.

Lemma update_node_status_cases env engine_id input t r t' :
  update_node_status env engine_id input t = (r, t') ->
  (t' = t /\ is_ok r = false) \/
  exists q m, parse_node_status_input input = Ok q /\ r = Ok m /\
  write_node_status env t (req_node_id q) (req_status q) (req_result q) (req_instance_id q)
    (req_execution_id q) = Ok (m, t').
Proof.
  unfold update_node_status, keep.
  destruct (parse_node_status_input input) as [q|e]; simpl; [|intros [= <- <-]; auto].
  destruct (from_engine_id engine_id); simpl; [|intros [= <- <-]; auto].
  destruct (write_node_status _ _ _ _ _ _ _) as [[m t2]|e] eqn:Hw; intros [= <- <-]; [|auto].
  right. exists q, m. auto.
Qed.

Lemma node_status_write_frame env engine_id input t r t' :
  update_node_status env engine_id input t = (r, t') ->
  (is_ok r = false -> t' = t) /\
  (forall q key, parse_node_status_input input = Ok q -> key <> (req_instance_id q, req_node_id q) ->
   t' !! key = t !! key).
Proof.
  intros [[-> He]|(q & m & Hq & -> & Hw)]%update_node_status_cases; [done|].
  apply write_node_status_ok in Hw as (row & Hrow & [(-> & -> & _)|(d & -> & Hc & -> & _)]);
    [done|]. split; [done|].
  intros q' key Hq' Hk. rewrite Hq in Hq'. injection Hq' as <-.
  apply lookup_insert_ne. congruence.
Qed.

Lemma written_stamp st res stamp row :
  execution_id_from_details (row_details (push_status_update st res (Some stamp) true row)) = Some stamp.
Proof. done. Qed.
End Facts.

(** ** Properties *)

Section Properties.
Context {SJ : SerdeJson} {U : UuidCrate}.

(** A node status write touches only the row it names: every other node, in
    particular the node with the same id of another instance, is unchanged, a
    failed write changes nothing, and the table's status and result constraints
    keep holding. *)
Theorem node_status_write_scoped env engine_id input t r t' :
  update_node_status env engine_id input t = (r, t') ->
  (is_ok r = false -> t' = t) /\
  (forall q key, parse_node_status_input input = Ok q -> key <> (req_instance_id q, req_node_id q) ->
   t' !! key = t !! key) /\
  (map_Forall (fun _ row => row_checks row = true) t ->
   map_Forall (fun _ row => row_checks row = true) t').
Proof.
  intros Hu. destruct (node_status_write_frame _ _ _ _ _ _ Hu) as [Hf Hk]. split_and!; [done..|].
  apply update_node_status_cases in Hu as [[-> He]|(q & m & Hq & -> & Hw)]; [done|].
  apply write_node_status_ok in Hw as (row & Hrow & [(-> & -> & _)|(d & -> & Hc & -> & _)]); [done|].
  intros Ht. by apply map_Forall_insert_2.
Qed.

(** C31: stale writes are dropped and fresh ones land: a stamped write that finds
    its row succeeds without effect exactly when its stamp is superseded by the
    row's, and otherwise leaves its own status and stamp on the row. *)
Theorem node_status_write_fenced env engine_id input t m t' q row stamp :
  parse_node_status_input input = Ok q -> req_execution_id q = Some stamp ->
  db_details_present env = Ok true ->
  t !! (req_instance_id q, req_node_id q) = Some row ->
  update_node_status env engine_id input t = (Ok m, t') ->
  if incoming_stamp_is_superseded stamp (execution_id_from_details (row_details row))
  then t' = t
  else exists row', t' !! (req_instance_id q, req_node_id q) = Some row' /\
  row_status row' = Some (req_status q) /\
  execution_id_from_details (row_details row') = Some stamp.
Proof.
  intros Hq Hx Hd Hrow Hu. unfold update_node_status, keep in Hu. rewrite Hq in Hu. simpl in Hu.
  destruct (from_engine_id engine_id); simpl in Hu; [|done].
  destruct (write_node_status _ _ _ _ _ _ _) as [[m2 t2]|e] eqn:Hw; simplify_eq.
  unfold write_node_status in Hw. rewrite Hx, Hd in Hw.
  apply result_bind_ok in Hw as (? & _ & Hw). cbn [map_err result_bind] in Hw.
  apply result_bind_ok in Hw as (? & _ & Hw). rewrite Hrow in Hw. simpl in Hw.
  destruct (incoming_stamp_is_superseded _ _).
  - by apply result_bind_ok in Hw as (? & _ & Hw); simplify_eq.
  - apply result_bind_ok in Hw as ([rows t3] & Hr & Hw). apply map_err_ok in Hr.
    destruct (negb (rows =? 1)%N) eqn:Hn; [done|]. apply result_bind_ok in Hw as (? & _ & Hw).
    simplify_eq. apply run_update_ok in Hr as [(-> & _)|(_ & row' & Hr' & _ & ->)]; [done|].
    rewrite lookup_insert_eq. eexists. split_and!; [done|done|done].
Qed.

(** A sequence of calls, each with its own environment and engine id. *)
Fixpoint run_writes (calls : list (db_env * string * string)) (t : node_table) : node_table :=
  match calls with
  | [] => t
  | (env, e, input) :: calls' => run_writes calls' (snd (update_node_status env e input t))
  end.

(** [newer_or_equal]: the stamp on a row is not older than [gens] along the
    branch [ns]. *)
Definition not_older (ns : list string) (gens : list Z) (row : NodeRow) : Prop :=
  exists stamp gens', execution_id_from_details (row_details row) = Some stamp /\
  stamp_lineage stamp = Some (gens', ns) /\ superseded_levels gens' ns gens ns = false.

Definition writes_along (key : string * string) (ns : list string)
    (call : db_env * string * string) : Prop :=
  let '(env, _, input) := call in
  db_details_present env = Ok true /\
  forall q, parse_node_status_input input = Ok q -> (req_instance_id q, req_node_id q) = key ->
  exists stamp gens, req_execution_id q = Some stamp /\ stamp_lineage stamp = Some (gens, ns).

Lemma superseded_total g1 g2 ns :
  stamp_shape g1 ns -> stamp_shape g2 ns ->
  superseded_levels g1 ns g2 ns = false -> superseded_levels g2 ns g1 ns = false -> g1 = g2.
Proof.
  unfold stamp_shape. revert g2 ns. induction g1 as [|i g1 IH]; intros [|e g2] ns H1 H2; simpl in *;
    try discriminate.
  destruct (Z.ltb_spec i e), (Z.ltb_spec e i); try done. intros Ha Hb. f_equal; [lia|].
  destruct ns as [|n ns]; simpl in *.
  - injection H1 as H1. injection H2 as H2. apply nil_length_inv in H1 as ->, H2 as ->. done.
  - rewrite String.eqb_refl in Ha, Hb. apply (IH g2 ns); [lia|lia|done|done].
Qed.

Lemma not_superseded_trans g1 g2 g3 ns :
  stamp_shape g1 ns -> stamp_shape g2 ns -> stamp_shape g3 ns ->
  superseded_levels g2 ns g1 ns = false -> superseded_levels g3 ns g2 ns = false ->
  superseded_levels g3 ns g1 ns = false.
Proof.
  intros S1 S2 S3 H21 H32. destruct (superseded_levels g3 ns g1 ns) eqn:H31; [|done].
  destruct (superseded_levels g1 ns g2 ns) eqn:H12.
  - by rewrite (superseded_trans _ _ _ _ _ _ S3 S1 S2 H31 H12) in H32.
  - assert (g1 = g2) as -> by (by eapply superseded_total). congruence.
Qed.

(** Along the history of a node the stamp on its row only moves forward:
    whatever writes arrive, in whatever order, delayed or repeated, from the
    generations of the loops around the node, the row never goes back to an
    older generation. *)
Theorem node_stamp_monotone calls t key ns gens row row' :
  Forall (writes_along key ns) calls -> stamp_shape gens ns ->
  t !! key = Some row -> not_older ns gens row ->
  run_writes calls t !! key = Some row' -> not_older ns gens row'.
Proof.
  intros Hcalls Hshape. revert t row.
  induction Hcalls as [|[[env e] input] calls [Hd Hw] _ IH]; intros t row Hrow Hold; simpl.
  { intros H. by simplify_eq. }
  destruct (update_node_status env e input t) as [r t2] eqn:Hu. cbn [snd].
  pose proof Hu as Hu'.
  apply update_node_status_cases in Hu as [[-> _]|(q & m & Hq & -> & Hwr)]; [by eapply IH|].
  apply write_node_status_ok in Hwr as (row0 & Hrow0 & Hcase).
  destruct (decide ((req_instance_id q, req_node_id q) = key)) as [Hkey|Hkey].
  - destruct Hcase as [(_ & -> & _)|(d & _ & _ & -> & Hf)]; [by eapply IH|].
    assert (row0 = row) as -> by congruence. rewrite Hkey. destruct (Hw q Hq Hkey) as (stamp & g & Hx & Hst).
    assert (Hnew : not_older ns gens (push_status_update (req_status q) (req_result q)
      (req_execution_id q) d row)).
    { rewrite Hx in *. destruct d.
      - destruct (Hf eq_refl) as (stamp' & [= <-] & Hfresh).
        exists stamp, g. split_and!; [done|done|].
        destruct Hold as (old & gold & Hex & Hlo & Hnot). rewrite Hex in Hfresh.
        unfold incoming_stamp_is_superseded in Hfresh. rewrite Hst, Hlo in Hfresh.
        eapply not_superseded_trans; [| | |exact Hnot|done]; try done; by eapply stamp_lineage_shape.
      - exact Hold. }
    eapply IH; [|exact Hnew]. apply lookup_insert_eq.
  - assert (H2 : t2 !! key = Some row).
    { rewrite <- Hrow. eapply (proj2 (node_status_write_frame env e input t (Ok m) t2 Hu')); eauto. }
    by eapply IH.
Qed.

(** A terminal instance stays as it is: no status update, whatever it asks,
    reopens or changes an instance that completed, failed or was cancelled, and
    no update touches another instance. *)
Theorem instance_terminal_absorbing env engine_id input t r t' id row :
  update_instance_status env engine_id input t = (r, t') -> t !! id = Some row ->
  instance_open row = false -> t' !! id = Some row.
Proof.
  unfold update_instance_status, keep. intros Hu Hid Hclosed.
  match type of Hu with match ?x with _ => _ end = _ => destruct x as [[m t2]|e] eqn:Hr end;
    simplify_eq; [|done].
  apply result_bind_ok in Hr as (? & _ & Hr). apply result_bind_ok in Hr as (i & _ & Hr).
  apply result_bind_ok in Hr as (st & _ & Hr). apply result_bind_ok in Hr as (? & _ & Hr).
  apply result_bind_ok in Hr as (? & _ & Hr). apply result_bind_ok in Hr as (t3 & Hrun & Hr).
  apply result_bind_ok in Hr as (? & _ & Hr). simplify_eq. apply map_err_ok in Hrun.
  unfold run_instance_update in Hrun. apply result_bind_ok in Hrun as (? & _ & Hrun).
  destruct (t !! i) as [row0|] eqn:Hi; [|by simplify_eq].
  destruct (instance_open row0) eqn:Ho; [|by simplify_eq].
  destruct (instances_status_chk st); simplify_eq.
  rewrite lookup_insert_ne; [done|]. intros ->. simplify_eq. congruence.
Qed.
End Properties.

(** ** Concrete instances *)

#[local] Existing Instance text_json.
#[local] Existing Instance sample_uuid.

Definition sample_env : db_env :=
  {| db_begin := Ok tt; db_details_present := Ok true; db_lock := Ok tt; db_update := Ok tt;
     db_rollback := Ok tt; db_commit := Ok tt |}.

Definition sample_key : string * string := ("ab12cd34", "0000000a").
Definition sample_row (stamp : string) : NodeRow :=
  mkNodeRow (Some "running") None (Some (Object [("execution_id", JString stamp)])).
Definition sample_table : node_table := {[sample_key := sample_row "ab12cd34::3"]}.

Definition sample_write (status stamp : string) : string :=
  print_value (Object [("node_id", JString "0000000a"); ("instance_id", JString "ab12cd34");
                       ("status", JString status); ("execution_id", JString stamp)]).
Definition sample_request (status stamp : string) : NodeStatusRequest :=
  mkRequest "0000000a" status None "ab12cd34" (Some stamp).

Lemma sample_parse status stamp :
  parse_node_status_input (sample_write status stamp) = Ok (sample_request status stamp).
Proof.
  unfold parse_node_status_input, sample_write.
  change value_from_str with text_from_str. rewrite text_from_print by done. reflexivity.
Qed.

Lemma node_status_write_scoped_witness :
  snd (update_node_status sample_env "ab12cd34" (sample_write "completed" "ab12cd34::3") sample_table)
    !! ("ffffffff", "0000000a") = None.
Proof.
  etransitivity.
  - refine (proj1 (proj2 (node_status_write_scoped sample_env "ab12cd34"
      (sample_write "completed" "ab12cd34::3") sample_table _ _ (surjective_pairing _)))
      (sample_request "completed" "ab12cd34::3") ("ffffffff", "0000000a") _ _).
    + apply sample_parse.
    + discriminate.
  - reflexivity.
Defined.

Lemma node_status_write_fenced_witness :
  snd (update_node_status sample_env "ab12cd34" (sample_write "completed" "ab12cd34::2") sample_table)
    = sample_table.
Proof.
  refine (node_status_write_fenced sample_env "ab12cd34" (sample_write "completed" "ab12cd34::2")
    sample_table fenced_message _ (sample_request "completed" "ab12cd34::2")
    (sample_row "ab12cd34::3") "ab12cd34::2" _ _ _ _ _); vm_compute; reflexivity.
Defined.

(** A late write of generation 2 and a fresh one of generation 4. *)
Definition sample_calls : list (db_env * string * string) :=
  [(sample_env, "ab12cd34", sample_write "completed" "ab12cd34::2");
   (sample_env, "ab12cd34", sample_write "completed" "ab12cd34::4")].

Lemma node_stamp_monotone_witness :
  exists row', run_writes sample_calls sample_table !! sample_key = Some row' /\
    not_older [] [3%Z] row'.
Proof.
  eexists. split; [vm_compute; reflexivity|].
  apply (node_stamp_monotone sample_calls sample_table sample_key [] [3%Z] (sample_row "ab12cd34::3")).
  - repeat constructor; intros q Hq _; rewrite sample_parse in Hq; injection Hq as <-;
      (eexists _, _; split; [reflexivity|vm_compute; reflexivity]).
  - reflexivity.
  - reflexivity.
  - exists "ab12cd34::3", [3%Z]. split_and!; vm_compute; reflexivity.
  - vm_compute. reflexivity.
Defined.

Lemma instance_terminal_absorbing_witness :
  snd (update_instance_status sample_env "ab12cd34"
    (print_value (Object [("instance_id", JString "ab12cd34"); ("status", JString "running")]))
    {["ab12cd34" := mkInstanceRow (Some "cancelled") false]}) !! "ab12cd34"
  = Some (mkInstanceRow (Some "cancelled") false).
Proof.
  refine (instance_terminal_absorbing sample_env "ab12cd34" _
    {["ab12cd34" := mkInstanceRow (Some "cancelled") false]} _ _ "ab12cd34" _ (surjective_pairing _) _ _);
    reflexivity.
Defined.
