(* ===== verification/HttpConfig.v ===== *)
(** HTTP request configs ([src/types.rs], lines 1568-1720, and
    [set_execution_context] in [src/endpoints.rs]).

    The limits a workflow puts on its own request bodies, and the audit fields
    the worker adds to a config before the request is made. *)
From S2P Require Import Prelude RustString Json JsonText Substitution.

(** Dependencies: [base64], [url::form_urlencoded] and [http]'s header names. *)
Class HttpDeps : Type := {
  decoded_len_estimate : N -> N;
  form_urlencode : list (string * string) -> string;
  header_name_ok : string -> bool;
}.

Inductive HttpResponseMode := Inline | Metadata | Discard | Sink.
Inductive HttpResponseHeaderPreset := All | Safe.
Inductive HttpResponseHeaders :=
| Preset (p : HttpResponseHeaderPreset)
| AllowList (names : list string).

#[export] Instance HttpResponseMode_eq_dec : EqDecision HttpResponseMode.
Proof. solve_decision. Defined.

Definition de_response_mode (v : value) : option HttpResponseMode :=
  s ← de_unit_variant v;
  if String.eqb s "inline" then Some Inline
  else if String.eqb s "metadata" then Some Metadata
  else if String.eqb s "discard" then Some Discard
  else if String.eqb s "sink" then Some Sink
  else None.

Record HttpBodyOptions := mkBodyOptions {
  max_request_bytes : option N;
  max_response_bytes : option N;
  response : option HttpResponseMode;
  response_headers : option HttpResponseHeaders;
  into : option string;
}.

Definition default_body_options : HttpBodyOptions := mkBodyOptions None None None None None.

Section Http.
Context {HD : HttpDeps}.

Definition body_options_validate (o : HttpBodyOptions) : result unit string :=
  let? _ :=
    match default Inline (response o), into o with
    | Sink, Some table =>
        if negb (str_is_empty (trim table)) && negb (contains_char "000" table) then Ok tt
        else Err "response 'sink' requires 'into' naming a schema-qualified table"
    | Sink, None => Err "response 'sink' requires 'into' naming a schema-qualified table"
    | _, Some _ => Err "'into' is only valid with response 'sink'"
    | _, None => Ok tt
    end in
  match response_headers o with
  | Some (AllowList names) =>
      if forallb header_name_ok names then Ok tt
      else Err "response_headers must contain valid HTTP header names"
  | _ => Ok tt
  end.

Definition check_request_bytes (o : HttpBodyOptions) (bytes : N) : result unit string :=
  match max_request_bytes o with
  | Some limit =>
      if (limit <? bytes)%N then
        Err ("HTTP request body exceeds max_request_bytes (" +:+ show_N limit +:+ " bytes)")
      else Ok tt
  | None => Ok tt
  end.

(** Whether some [$] or [{] of the body starts a reference. *)
Definition reference_at (s : string) : bool :=
  match s with
  | String c rest =>
      (Ascii.eqb c "$" || Ascii.eqb c "{") &&
      let name := parse_identifier rest in
      negb (str_is_empty name) &&
      (Ascii.eqb c "$" || starts_with "}" (str_drop (String.length name) rest))
  | "" => false
  end.
Fixpoint http_body_has_references (s : string) : bool :=
  match s with
  | "" => false
  | String _ s' => reference_at s || http_body_has_references s'
  end.

(** [add_bytes]: the running total, or the error. *)
Definition add_bytes (options : HttpBodyOptions) (bytes total : N) : result N string :=
  if (u64_max <? total + bytes)%N then Err "HTTP request body length overflow"
  else
    let? _ := check_request_bytes options (total + bytes) in Ok (total + bytes)%N.

(** The decoded size of one base64 part. *)
Definition padding_go := fix go (n : nat) (s : string) : N :=
  match n, s with
  | S n', String "=" s' => (1 + go n' s')%N
  | _, _ => 0%N
  end.
Fixpoint drop_ascii_whitespace (s : string) : string :=
  match s with
  | "" => ""
  | String c s' =>
      if is_ascii_whitespace c then drop_ascii_whitespace s'
      else String c (drop_ascii_whitespace s')
  end.
Definition part_bytes (data : string) : N :=
  let encoded := drop_ascii_whitespace data in
  (decoded_len_estimate (N.of_nat (String.length encoded)) - padding_go 2 (str_rev encoded))%N.

Definition body_sizes (config : value) (allow_references : bool) : list N :=
  match get "body" config ≫= as_str with
  | Some body =>
      if negb allow_references || negb (http_body_has_references body)
      then [N.of_nat (String.length body)] else []
  | None => []
  end.
Definition part_sizes (config : value) (allow_references : bool) : list N :=
  match get "parts" config ≫= as_array with
  | Some parts =>
      omap (fun part =>
        data ← get "data_b64" part ≫= as_str;
        if allow_references && is_whole_value_reference data then None
        else Some (part_bytes data)) parts
  | None => []
  end.
Definition form_sizes (config : value) : list N :=
  match get "form_fields" config ≫= as_object with
  | Some fields =>
      [N.of_nat (String.length
                 (form_urlencode (omap (fun '(name, v) => pair name <$> as_str v) fields)))]
  | None => []
  end.

(** The sizes in the order they are added. *)
Definition request_sizes (config : value) (allow_references : bool) : list N :=
  body_sizes config allow_references ++ part_sizes config allow_references ++ form_sizes config.

Fixpoint add_all (options : HttpBodyOptions) (sizes : list N) (total : N) : result N string :=
  match sizes with
  | [] => Ok total
  | b :: sizes' => let? total' := add_bytes options b total in add_all options sizes' total'
  end.

Definition check_http_request_size (config : value) (allow_references : bool)
    : result unit string :=
  match get "max_request_bytes" config with
  | None | Some Null => Ok tt
  | Some v =>
      let? limit := ok_or (as_u64 v) "max_request_bytes must be a non-negative integer" in
      let options := mkBodyOptions (Some limit) None None None None in
      let? _ := add_all options (request_sizes config allow_references) 0 in Ok tt
  end.
End Http.

(** The name of the table a sink writes to, as PostgreSQL splits and quotes it
    ([HTTP_SINK_TABLE_NAME_SQL]); [df.start] and [df.with_http_options] ask for it. *)
Definition validate_http_sink_name (sink_table_name : string -> result (option string) string)
    (config : value) : result unit string :=
  match get "into" config with
  | None | Some Null => Ok tt
  | Some v =>
      let? table := ok_or
          (match as_str v with
           | Some t => if negb (str_is_empty (trim t)) && negb (contains_char "000" t) then Some t else None
           | None => None
           end) "HTTP response sink 'into' must name a schema-qualified table" in
      let? name := map_err (fun e => "HTTP response sink table name validation failed: " +:+ e)
          (sink_table_name table) in
      let? _ := ok_or name "HTTP response sink 'into' must be a schema-qualified table" in
      Ok tt
  end.

(** The audit fields; [None] is a panic: the config is not an object. *)
Definition set_execution_context (config : value) (submitted_by : string) (database : option string)
  : option value :=
  config ← index_set config "submitted_by" (JString submitted_by);
  if bool_decide (is_Some (get "endpoint" config))
     || bool_decide (is_Some (get "secret_bindings" config))
     || bool_decide (is_Some (get "form_fields" config))
     || bool_decide (get "response" config ≫= de_response_mode = Some Sink)
  then index_set config "database" (en_opt_string database)
  else Some config.

(** ** Facts *)

Definition sum_sizes (l : list N) : N := fold_right N.add 0%N l.

Section Facts.
Context {HD : HttpDeps}.

Lemma add_bytes_ok options limit b total r :
  max_request_bytes options = Some limit -> (limit <= u64_max)%N ->
  add_bytes options b total = Ok r <-> r = (total + b)%N /\ (total + b <= limit)%N.
Proof.
  intros Hl Hu. unfold add_bytes, check_request_bytes. rewrite Hl.
  destruct (N.ltb_spec u64_max (total + b)); [split; [done|lia]|].
  destruct (N.ltb_spec limit (total + b)); simpl; [split; [done|lia]|].
  split; [intros [= <-]; split; lia|by intros [-> _]].
Qed.

Lemma add_all_ok options limit sizes total :
  max_request_bytes options = Some limit -> (limit <= u64_max)%N -> (total <= limit)%N ->
  is_ok (add_all options sizes total) = true <-> (total + sum_sizes sizes <= limit)%N.
Proof.
  intros Hl Hu. revert total. induction sizes as [|b sizes IH]; intros total Ht; simpl.
  - split; [lia|done].
  - destruct (add_bytes options b total) as [r|e] eqn:E; simpl.
    + pose proof (proj1 (add_bytes_ok _ _ _ _ _ Hl Hu) E) as [-> Hle].
      rewrite IH by done. split; lia.
    + split; [done|]. intros H. destruct (decide (total + b <= limit)%N) as [Hle|]; [|lia].
      assert (E' : add_bytes options b total = Ok (total + b)%N)
        by (by apply (add_bytes_ok _ _ _ _ _ Hl Hu)).
      congruence.
Qed.

(** A request is admitted exactly when everything it would send, body,
    decoded multipart parts and encoded form together, fits in
    [max_request_bytes]; the running total neither overflows nor stops early. *)
Theorem request_size_exact config allow_references limit :
  get "max_request_bytes" config = Some (Number (PosInt limit)) -> (limit <= u64_max)%N ->
  is_ok (check_http_request_size config allow_references) = true <->
    (sum_sizes (request_sizes config allow_references) <= limit)%N.
Proof.
  intros Hc Hu. unfold check_http_request_size. rewrite Hc. cbn [as_u64 number_as_u64 ok_or result_bind].
  rewrite <- (N.add_0_l (sum_sizes _)).
  rewrite <- (add_all_ok (mkBodyOptions (Some limit) None None None None) limit) by (done || lia).
  destruct (add_all _ _ _); done.
Qed.

(** The audit role always ends up in the config sent to the HTTP activity:
    whatever [submitted_by] the user wrote there, the worker replaces it by the
    role the node was submitted under, and a config that resolves a stored
    endpoint, secrets, a form or a sink always carries the node's database. *)
Theorem execution_context_injected config submitted_by database config' :
  set_execution_context config submitted_by database = Some config' ->
  get "submitted_by" config' = Some (JString submitted_by) /\
  ((is_Some (get "endpoint" config) \/ is_Some (get "secret_bindings" config) \/
    is_Some (get "form_fields" config) \/ get "response" config ≫= de_response_mode = Some Sink) ->
   get "database" config' = Some (en_opt_string database)).
Proof.
  unfold set_execution_context.
  destruct (index_set config "submitted_by" (JString submitted_by)) as [c|] eqn:Hc; simpl; [|done].
  assert (Hother : forall k, k <> "submitted_by" -> get k c = get k config).
  { intros k Hk. by eapply index_set_get_ne. }
  rewrite !Hother by done. intros H. destruct (_ || _) eqn:Hb in H.
  - split; [|intros _; by eapply index_set_get].
    rewrite (index_set_get_ne _ _ _ _ _ H) by done. by eapply index_set_get.
  - simplify_eq. split; [by eapply index_set_get|].
    rewrite !orb_false_iff, !bool_decide_eq_false in Hb. naive_solver.
Qed.

(** A config names an object the worker resolves in the database of the node:
    an endpoint, secrets, a form, or a sink for the response. *)
Definition resolves_objects (config : value) : Prop :=
  is_Some (get "endpoint" config) \/ is_Some (get "secret_bindings" config) \/
  is_Some (get "form_fields" config) \/ get "response" config ≫= de_response_mode = Some Sink.

Lemma execution_context_other config submitted_by database config' k :
  set_execution_context config submitted_by database = Some config' ->
  k <> "submitted_by" -> k <> "database" -> get k config' = get k config.
Proof.
  unfold set_execution_context. intros H Hk Hd.
  destruct (index_set config "submitted_by" (JString submitted_by)) as [c|] eqn:Hc; simpl in H; [|done].
  rewrite <- (index_set_get_ne _ _ _ _ _ Hc Hk).
  destruct (_ || _); [by eapply index_set_get_ne|by simplify_eq].
Qed.

(** The config sent is the node's: its role, and its database whenever the
    config sent names an object of that database. *)
Lemma execution_context_sent config submitted_by database config' :
  set_execution_context config submitted_by database = Some config' ->
  get "submitted_by" config' = Some (JString submitted_by) /\
  (resolves_objects config' -> get "database" config' = Some (en_opt_string database)).
Proof.
  intros H. pose proof (execution_context_injected _ _ _ _ H) as [? Hd]. split; [done|].
  unfold resolves_objects. by rewrite !(execution_context_other _ _ _ _ _ H) by done.
Qed.
End Facts.

(** ** Concrete instances *)

Definition sample_http : HttpDeps := {|
  decoded_len_estimate n := (n / 4 * 3)%N;
  form_urlencode l := join "&" (map (fun '(k, v) => k +:+ "=" +:+ v) l);
  header_name_ok s := negb (str_is_empty s) && str_forall is_ident_continue s;
|}.

Lemma request_size_exact_witness :
  is_ok (@check_http_request_size sample_http
    (Object [("body", JString "12345"); ("max_request_bytes", Number (PosInt 4))]) false) = true
  <-> (5 <= 4)%N.
Proof.
  apply (@request_size_exact sample_http
    (Object [("body", JString "12345"); ("max_request_bytes", Number (PosInt 4))]) false 4);
    [reflexivity|unfold u64_max; lia].
Defined.

Lemma execution_context_injected_witness :
  get "submitted_by" (Object [("submitted_by", JString "alice"); ("url", JString "u")])
  = Some (JString "alice").
Proof.
  refine (proj1 (execution_context_injected
    (Object [("submitted_by", JString "mallory"); ("url", JString "u")]) "alice" None _ _)).
  reflexivity.
Defined.
