(* ===== verification/Admission.v ===== *)
(** Graph admission ([src/activities/load_function_graph.rs]).

    Before an instance runs, its graph must be visible to the worker.  The
    single-shot probe [probe_transaction] looks for the instance, then asks for
    the fate of the transaction that inserted it.  The database's answers are the
    argument [probe_env]; an answer is [None] when its client-side timeout
    fires. *)
From S2P Require Import Prelude RustString Json JsonText Substitution Graph Origin.

(** ** Messages *)

Record TransactionAwareLoadInput := mkLoadInput {
  load_instance_id : string;
  load_origin_xid : string;
}.

Inductive TransactionGraphProbe :=
| Ready (graph : string)
| InProgress
| Retry
| Aborted
| CommittedMissing.

#[export] Instance TransactionGraphProbe_eq_dec : EqDecision TransactionGraphProbe.
Proof. solve_decision. Defined.

Definition en_load_input (x : TransactionAwareLoadInput) : value :=
  Object [("instance_id", JString (load_instance_id x)); ("origin_xid", JString (load_origin_xid x))].
Definition de_load_input (v : value) : option TransactionAwareLoadInput :=
  l ← as_object v; i ← req "instance_id" as_str l; x ← req "origin_xid" as_str l;
  Some (mkLoadInput i x).

Definition en_probe (p : TransactionGraphProbe) : value :=
  Object (match p with
          | Ready g => [("state", JString "ready"); ("graph", JString g)]
          | InProgress => [("state", JString "in_progress")]
          | Retry => [("state", JString "retry")]
          | Aborted => [("state", JString "aborted")]
          | CommittedMissing => [("state", JString "committed_missing")]
          end).
Definition de_probe (v : value) : option TransactionGraphProbe :=
  l ← as_object v; s ← req "state" as_str l;
  if String.eqb s "ready" then g ← req "graph" as_str l; Some (Ready g)
  else if String.eqb s "in_progress" then Some InProgress
  else if String.eqb s "retry" then Some Retry
  else if String.eqb s "aborted" then Some Aborted
  else if String.eqb s "committed_missing" then Some CommittedMissing
  else None.

#[export] Instance load_input_codec : Codec TransactionAwareLoadInput := {|
  type_name := "struct TransactionAwareLoadInput"; en := en_load_input; de := de_load_input;
  valid _ := True |}.
#[export] Instance load_input_codec_ok : CodecOk TransactionAwareLoadInput.
Proof. constructor; intros [i x] _; reflexivity. Qed.
#[export] Instance probe_codec : Codec TransactionGraphProbe := {|
  type_name := "enum TransactionGraphProbe"; en := en_probe; de := de_probe; valid _ := True |}.
#[export] Instance probe_codec_ok : CodecOk TransactionGraphProbe.
Proof. constructor; intros [g| | | |] _; reflexivity. Qed.

(** ** Database errors *)

(** A [sqlx::Error]: its SQLSTATE when the server sent one, whether it is the
    protocol error that marks a replaced installation, its display text. *)
Record sqlx_error := mkSqlxError {
  sqlstate_of : option string;
  is_replaced : bool;
  error_text : string;
}.

Inductive ErrorClass := Transient | Permanent.
#[export] Instance ErrorClass_eq_dec : EqDecision ErrorClass.
Proof. solve_decision. Defined.

Definition transient_sqlstates : list string :=
  ["08000"; "08001"; "08003"; "08004"; "08006"; "08007"; "08P01"; "40001"; "40P01"; "57014";
   "55P03"; "57P01"; "57P02"; "57P03"].
Definition classify_sqlstate (code : string) : ErrorClass :=
  if existsb (String.eqb code) transient_sqlstates then Transient else Permanent.

Definition classify_sqlx_error (e : sqlx_error) : ErrorClass :=
  if is_replaced e then Permanent
  else match sqlstate_of e with Some code => classify_sqlstate code | None => Transient end.

Definition is_retryable_database_error (e : sqlx_error) : bool :=
  bool_decide (classify_sqlx_error e = Transient).

Inductive LoadGraphError :=
| LoadRetryable (message : string)
| LoadPermanent (message : string).

Definition into_message (e : LoadGraphError) : string :=
  match e with LoadRetryable m | LoadPermanent m => m end.

Definition classified_load_graph_error (operation : string) (e : sqlx_error) : LoadGraphError :=
  let message := operation +:+ " failed (SQLSTATE " +:+ default "unknown" (sqlstate_of e) +:+ "): "
                   +:+ error_text e in
  match classify_sqlx_error e with
  | Transient => LoadRetryable message
  | Permanent => LoadPermanent message
  end.

Inductive RoutingError :=
| RoutingRetryable (message : string)
| RoutingPermanent (message : string).

(** ** Loading *)

(** A row of [INSTANCE_QUERY] and of [NODES_QUERY]: the role is null when it no
    longer exists. *)
Record instance_row := mkInstance { i_root_node : string; i_submitted_by : option string }.
Record node_row := mkNodeRow {
  n_id : string; n_node_type : string; n_query : option string; n_result_name : option string;
  n_left_node : option string; n_right_node : option string; n_submitted_by : option string;
  n_database : option string;
}.

Record load_env := mkLoadEnv {
  superuser_instances_enabled : bool;
  is_role_superuser_name : string -> result bool string;
  fetch_node_rows : result (list node_row) sqlx_error;
}.

Section Load.
Context {SJ : SerdeJson}.

Definition load_node (instance_id : string) (r : node_row) : result FunctionNode LoadGraphError :=
  let? submitted_by := ok_or (n_submitted_by r)
      (LoadPermanent ("Instance " +:+ instance_id +:+ ": node " +:+ n_id r +:+
                      " submitted_by role no longer exists in pg_roles")) in
  Ok (mkNode (n_id r) (n_node_type r) (n_query r) (n_result_name r) (n_left_node r)
      (n_right_node r) submitted_by (n_database r)).

(** The [BTreeMap] of the rows, in order. *)
Definition nodes_of (ns : list FunctionNode) : gmap string FunctionNode :=
  fold_left (fun m n => <[id n := n]> m) ns ∅.

Definition superuser_guard (env : load_env) (instance_id role : string)
    : result unit LoadGraphError :=
  if superuser_instances_enabled env then Ok tt
  else
    match is_role_superuser_name env role with
    | Ok true => Err (LoadPermanent ("pg_durable blocked instance " +:+ instance_id +:+
                                     ": submitted_by role " +:+ in_quotes role +:+ " is a superuser, but " +:+
                                     "pg_durable.enable_superuser_instances is off"))
    | Ok false => Ok tt
    | Err e => Err (LoadRetryable ("pg_durable: superuser check failed for instance " +:+
                                   instance_id +:+ ": " +:+ e))
    end.

Definition build_graph (env : load_env) (instance_id : string) (row : instance_row)
    : result FunctionGraph LoadGraphError :=
  let? role := ok_or (i_submitted_by row)
      (LoadPermanent ("Instance " +:+ instance_id +:+
                      ": submitted_by role no longer exists in pg_roles")) in
  let? _ := superuser_guard env instance_id role in
  let? rows := map_err (classified_load_graph_error "Failed to load function nodes")
      (fetch_node_rows env) in
  let? ns := collect_results (load_node instance_id) rows in
  Ok (mkGraph instance_id (i_root_node row) (nodes_of ns) V1).

Definition load_visible_graph (env : load_env) (instance_id : string) (row : instance_row)
    : result string LoadGraphError :=
  let? graph := build_graph env instance_id row in Ok (to_json graph).

(** ** The probe *)

Inductive CommittedProbeStep := AwaitSnapshotVisibility | ReadyToReread.
Definition committed_probe_step (snapshot_visible : bool) : CommittedProbeStep :=
  if snapshot_visible then ReadyToReread else AwaitSnapshotVisibility.

(** A query under [tokio::time::timeout]. *)
Abbreviation timed A := (option (result A sqlx_error)).

Record probe_env := mkProbeEnv {
  first_visible : timed (option instance_row);
  first_load : option load_env;
  transaction_status : timed (option string);
  snapshot_visible : timed bool;
  second_visible : timed (option instance_row);
  second_load : option load_env;
}.

Definition serialize_probe (p : TransactionGraphProbe) : result string string := Ok (to_json p).
Definition retry_probe : result string string := serialize_probe Retry.

Definition probe_error_outcome (operation instance_id : string) (e : sqlx_error)
    : result string string :=
  match classify_sqlx_error e with
  | Transient => retry_probe
  | Permanent => Err ("Instance " +:+ instance_id +:+ ": " +:+ operation +:+
                      " failed permanently (SQLSTATE " +:+ default "unknown" (sqlstate_of e) +:+ "): " +:+
                      error_text e)
  end.

(** Loading a visible instance under the load timeout. *)
Definition load_outcome (env : option load_env) (instance_id : string) (row : instance_row)
    : result string string :=
  match env with
  | None => retry_probe
  | Some env =>
      match load_visible_graph env instance_id row with
      | Ok graph => serialize_probe (Ready graph)
      | Err (LoadRetryable _) => retry_probe
      | Err (LoadPermanent e) => Err e
      end
  end.

Definition probe_committed (env : probe_env) (instance_id : string) : result string string :=
  match snapshot_visible env with
  | None => retry_probe
  | Some (Err e) => probe_error_outcome "post-commit snapshot visibility check" instance_id e
  | Some (Ok visible) =>
      match committed_probe_step visible with
      | AwaitSnapshotVisibility => retry_probe
      | ReadyToReread =>
          match second_visible env with
          | None => retry_probe
          | Some (Err e) => probe_error_outcome "post-commit graph visibility check" instance_id e
          | Some (Ok (Some row)) => load_outcome (second_load env) instance_id row
          | Some (Ok None) => serialize_probe CommittedMissing
          end
      end
  end.

Definition probe_status (env : probe_env) (input : TransactionAwareLoadInput)
    : result string string :=
  let instance_id := load_instance_id input in
  match transaction_status env with
  | None => retry_probe
  | Some (Err e) => probe_error_outcome "origin transaction check" instance_id e
  | Some (Ok None) =>
      Err ("Origin transaction " +:+ load_origin_xid input +:+ " for instance " +:+ instance_id +:+
           " has no available status")
  | Some (Ok (Some status)) =>
      if String.eqb status "in progress" then serialize_probe InProgress
      else if String.eqb status "aborted" then serialize_probe Aborted
      else if String.eqb status "committed" then probe_committed env instance_id
      else Err ("Origin transaction " +:+ load_origin_xid input +:+ " for instance " +:+
                instance_id +:+ " has unknown status " +:+ in_quotes status)
  end.

Definition probe_transaction {U : UuidCrate} (env : probe_env) (engine_id input_json : string)
    : result string string :=
  let? _ := from_engine_id engine_id in
  let? input := map_err (fun e => "Invalid transaction-aware graph probe input: " +:+ e)
      (from_json (A := TransactionAwareLoadInput) input_json) in
  match parse_u64 (load_origin_xid input) with
  | None => Err ("Invalid origin transaction id " +:+ in_quotes (load_origin_xid input) +:+
                 " for instance " +:+ load_instance_id input)
  | Some _ =>
      match first_visible env with
      | None => retry_probe
      | Some (Err e) => probe_error_outcome "graph visibility check" (load_instance_id input) e
      | Some (Ok (Some row)) => load_outcome (first_load env) (load_instance_id input) row
      | Some (Ok None) => probe_status env input
      end
  end.
End Load.

(** ** Properties *)

Section Properties.
Context {SJ : SerdeJson} {U : UuidCrate}.
#[local] Arguments to_json : simpl never.

Lemma load_outcome_ready env instance_id row p g :
  load_outcome env instance_id row = Ok p -> p = to_json (Ready g) ->
  (forall a b : TransactionGraphProbe, to_json a = to_json b -> a = b) ->
  exists le graph, env = Some le /\ build_graph le instance_id row = Ok graph /\ g = to_json graph.
Proof.
  unfold load_outcome, load_visible_graph, serialize_probe, retry_probe. intros H -> Hinj.
  destruct env as [le|]; [|injection H as H; by apply Hinj in H].
  destruct (build_graph le instance_id row) as [graph|[e|e]] eqn:E; cbn [result_bind] in H;
    try discriminate H; injection H as H; apply Hinj in H; try done.
  injection H as <-. eauto.
Qed.

Lemma probe_injective `{!SerdeJsonLaws SJ} (a b : TransactionGraphProbe) :
  to_json a = to_json b -> a = b.
Proof.
  intros H. assert (E : from_json (A := TransactionGraphProbe) (to_json a) = Ok b).
  { rewrite H. by apply from_to_json. }
  rewrite from_to_json in E by done. by injection E.
Qed.

Lemma build_graph_ok le instance_id row graph :
  build_graph le instance_id row = Ok graph ->
  exists role rows ns, i_submitted_by row = Some role /\
  superuser_guard le instance_id role = Ok tt /\ fetch_node_rows le = Ok rows /\
  collect_results (load_node instance_id) rows = Ok ns /\
  graph = mkGraph instance_id (i_root_node row) (nodes_of ns) V1.
Proof.
  unfold build_graph. intros (role & Hr & H)%result_bind_ok.
  apply result_bind_ok in H as ([] & Hg & H). apply result_bind_ok in H as (rows & Hf & H).
  apply result_bind_ok in H as (ns & Hc & H). simplify_eq. apply map_err_ok in Hf.
  exists role, rows, ns. destruct (i_submitted_by row); simpl in Hr; by simplify_eq.
Qed.

Lemma nodes_of_lookup ns i n : nodes_of ns !! i = Some n -> n ∈ ns /\ id n = i.
Proof.
  unfold nodes_of. assert (H : forall m : gmap string FunctionNode, fold_left (fun m n => <[id n := n]> m) ns m !! i = Some n ->
    (n ∈ ns /\ id n = i) \/ m !! i = Some n).
  { induction ns as [|x ns IH]; intros m; simpl; [by right|]. intros [[Hn Hi]|Hm]%IH.
    - left. split; [by right|done].
    - apply lookup_insert_Some in Hm as [[<- <-]|[_ Hm]]; [|by right]. left. split; [by left|done]. }
  intros [?|Hn]%H; [done|]. by rewrite lookup_empty in Hn.
Qed.

Lemma nodes_of_present ns n : n ∈ ns -> is_Some (nodes_of ns !! id n).
Proof.
  unfold nodes_of. assert (H : forall m : gmap string FunctionNode,
    is_Some (m !! id n) \/ n ∈ ns -> is_Some (fold_left (fun m n => <[id n := n]> m) ns m !! id n)).
  { induction ns as [|x ns IH]; intros m [Hm|Hn]; simpl; [done|set_solver| |].
    - apply IH. left. destruct (decide (id x = id n)) as [<-|Hne]; [by rewrite lookup_insert_eq|].
      by rewrite lookup_insert_ne.
    - apply IH. apply elem_of_cons in Hn as [->|Hn]; [left; by rewrite lookup_insert_eq|by right]. }
  intros Hn. apply H. by right.
Qed.

(** A node as the row it was loaded from. *)
Definition row_of_node (n : FunctionNode) : node_row :=
  mkNodeRow (id n) (node_type n) (query n) (result_name n) (left_node n) (right_node n)
    (Some (submitted_by n)) (database n).

(** The nodes are the rows, under their ids: each node is a row, column by column, and
    every row has a node. *)
Definition nodes_are_rows (rows : list node_row) (nodes : gmap string FunctionNode) : Prop :=
  (forall k n, nodes !! k = Some n -> id n = k /\ row_of_node n ∈ rows) /\
  forall r, r ∈ rows -> is_Some (nodes !! n_id r).

Lemma load_node_row i r n : load_node i r = Ok n -> r = row_of_node n.
Proof.
  unfold load_node, row_of_node. destruct r as [? ? ? ? ? ? [role|] ?]; cbn; [|done]. by intros [= <-].
Qed.

Lemma loaded_nodes_are_rows i rows ns :
  collect_results (load_node i) rows = Ok ns -> nodes_are_rows rows (nodes_of ns).
Proof.
  intros Hns%collect_results_Forall2. split.
  - intros k n [Hn <-]%nodes_of_lookup. split; [done|]. apply list_elem_of_lookup in Hn as [j Hj].
    destruct (Forall2_lookup_r _ _ _ j n Hns Hj) as (r & Hr & <-%load_node_row).
    by eapply list_elem_of_lookup_2.
  - intros r [j Hj]%list_elem_of_lookup. destruct (Forall2_lookup_l _ _ _ j r Hns Hj) as (n & Hn & ->%load_node_row).
    apply (nodes_of_present ns n). by eapply list_elem_of_lookup_2.
Qed.

(** The reads a graph may come from: the first one, or the one repeated after
    the origin transaction was seen committed and visible. *)
Definition read_from (env : probe_env) (row : instance_row) (load : option load_env) : Prop :=
  (first_visible env = Some (Ok (Some row)) /\ load = first_load env) \/
  (first_visible env = Some (Ok None) /\ transaction_status env = Some (Ok (Some "committed")) /\
   snapshot_visible env = Some (Ok true) /\ second_visible env = Some (Ok (Some row)) /\
   load = second_load env).

Lemma serialize_probe_inj `{!SerdeJsonLaws SJ} p q : serialize_probe p = Ok (to_json q) -> p = q.
Proof. unfold serialize_probe. intros [= E]. by apply probe_injective in E. Qed.

Lemma probe_error_retry `{!SerdeJsonLaws SJ} operation i e q :
  probe_error_outcome operation i e = Ok (to_json q) -> q = Retry.
Proof.
  unfold probe_error_outcome. destruct (classify_sqlx_error e); [|done].
  by intros <-%serialize_probe_inj.
Qed.

Lemma probe_ready_load `{!SerdeJsonLaws SJ} env engine_id input_json g :
  probe_transaction env engine_id input_json = Ok (to_json (Ready g)) ->
  exists input row load, from_json (A := TransactionAwareLoadInput) input_json = Ok input /\
  read_from env row load /\ load_outcome load (load_instance_id input) row = Ok (to_json (Ready g)).
Proof.
  unfold probe_transaction. intros (? & _ & H)%result_bind_ok.
  apply result_bind_ok in H as (input & Hin%map_err_ok & H). destruct (parse_u64 _); [|done].
  exists input. unfold read_from.
  destruct (first_visible env) as [[[row|]|e]|];
    [exists row, (first_load env); eauto| |by apply probe_error_retry in H|by apply serialize_probe_inj in H].
  unfold probe_status in H.
  destruct (transaction_status env) as [[[st|]|e]|];
    [|done|by apply probe_error_retry in H|by apply serialize_probe_inj in H].
  destruct (String.eqb st "in progress"); [by apply serialize_probe_inj in H|].
  destruct (String.eqb st "aborted"); [by apply serialize_probe_inj in H|].
  destruct (String.eqb_spec st "committed") as [Hst|_]; [subst st|done]. unfold probe_committed in H.
  destruct (snapshot_visible env) as [[[]|e]|]; cbn [committed_probe_step] in H;
    [|by apply serialize_probe_inj in H|by apply probe_error_retry in H|by apply serialize_probe_inj in H].
  destruct (second_visible env) as [[[row|]|e]|];
    [|by apply serialize_probe_inj in H|by apply probe_error_retry in H|by apply serialize_probe_inj in H].
  exists row, (second_load env). split_and!; [done| |done]. by right.
Qed.

(** No instance is admitted for a role that must not run one.  A graph is
    handed to the orchestration only as loaded from a read that found the
    instance of the input; its submitting role still exists and is not a
    superuser (or superuser instances are enabled), and its nodes are the rows of
    that load, whose roles still exist. *)
Theorem admission_guards_roles `{!SerdeJsonLaws SJ} env engine_id input_json g :
  probe_transaction env engine_id input_json = Ok (to_json (Ready g)) ->
  exists input row le role graph,
  from_json (A := TransactionAwareLoadInput) input_json = Ok input /\
  read_from env row (Some le) /\ i_submitted_by row = Some role /\
  (superuser_instances_enabled le = true \/ is_role_superuser_name le role = Ok false) /\
  g = to_json graph /\ graph_instance_id graph = load_instance_id input /\
  root_node_id graph = i_root_node row /\ sql_quoting_version graph = V1 /\
  (exists rows, fetch_node_rows le = Ok rows /\ nodes_are_rows rows (nodes graph)).
Proof.
  intros (input & row & load & Hin & Hread & Hl)%probe_ready_load.
  destruct (load_outcome_ready _ _ _ _ g Hl eq_refl probe_injective) as (le & graph & -> & Hb & ->).
  apply build_graph_ok in Hb as (role & rows & ns & Hrole & Hguard & Hrows & Hns & ->).
  exists input, row, le, role, (mkGraph (load_instance_id input) (i_root_node row) (nodes_of ns) V1).
  split_and!; try done.
  - unfold superuser_guard in Hguard. destruct (superuser_instances_enabled le); [by left|].
    right. by destruct (is_role_superuser_name le role) as [[]|].
  - exists rows. split; [done|]. by eapply loaded_nodes_are_rows.
Qed.

(** The probe never loses an instance: it reports that a graph is missing
    only when the origin transaction committed, the commit was visible to a
    fresh snapshot, and a later read still found nothing; and it reports an
    abort only when PostgreSQL did. *)
Theorem probe_missing_sound `{!SerdeJsonLaws SJ} env engine_id input_json :
  (probe_transaction env engine_id input_json = Ok (to_json CommittedMissing) ->
   transaction_status env = Some (Ok (Some "committed")) /\ snapshot_visible env = Some (Ok true) /\
   first_visible env = Some (Ok None) /\ second_visible env = Some (Ok None)) /\
  (probe_transaction env engine_id input_json = Ok (to_json Aborted) ->
   transaction_status env = Some (Ok (Some "aborted")) /\ first_visible env = Some (Ok None)).
Proof.
  assert (Hl : forall o i r q, load_outcome o i r = Ok (to_json q) -> q = Retry \/ exists g, q = Ready g).
  { intros o i r q. unfold load_outcome. destruct o as [le|]; [|intros <-%serialize_probe_inj; by left].
    destruct (load_visible_graph le i r) as [g|[e|e]]; [intros <-%serialize_probe_inj; eauto|intros <-%serialize_probe_inj; by left|done]. }
  assert (Hstatus : forall q, q <> Retry -> (forall g, q <> Ready g) ->
    probe_transaction env engine_id input_json = Ok (to_json q) ->
    first_visible env = Some (Ok None) /\ exists input, probe_status env input = Ok (to_json q)).
  { unfold probe_transaction. intros q Hr Hg H.
    apply result_bind_ok in H as (? & _ & H). apply result_bind_ok in H as (input & _ & H).
    destruct (parse_u64 _); [|done].
    destruct (first_visible env) as [[[row|]|e]|].
    - destruct (Hl _ _ _ _ H) as [?|[g ?]]; [done|by destruct (Hg g)].
    - eauto.
    - by apply probe_error_retry in H.
    - by apply serialize_probe_inj in H. }
  split; intros [Hf [input H]]%Hstatus; try done; unfold probe_status in H;
    destruct (transaction_status env) as [[[st|]|e]|]; try done;
    try (by apply probe_error_retry in H); try (by apply serialize_probe_inj in H);
    (destruct (String.eqb st "in progress"); [by apply serialize_probe_inj in H|]);
    (destruct (String.eqb_spec st "aborted") as [Ha|_]; [by apply serialize_probe_inj in H; rewrite ?Ha|]);
    (destruct (String.eqb_spec st "committed") as [Hc|_]; [|done]); unfold probe_committed in H;
    destruct (snapshot_visible env) as [[[]|e]|]; simpl in H;
    try (by apply probe_error_retry in H); try (by apply serialize_probe_inj in H);
    destruct (second_visible env) as [[[row|]|e]|];
    try (by destruct (Hl _ _ _ _ H) as [|[]]);
    try (by apply probe_error_retry in H); try (by apply serialize_probe_inj in H).
  by rewrite Hc.
Qed.
End Properties.

(** ** Concrete instances *)

#[local] Existing Instance text_json.
#[local] Existing Instance sample_uuid.

Definition sample_load_input : string := to_json (mkLoadInput "ab12cd34" "7001").
Definition sample_load_env : load_env :=
  mkLoadEnv false (fun _ => Ok false)
    (Ok [mkNodeRow "0000000a" "SQL" (Some "SELECT 1") None None None (Some "alice") None]).
Definition sample_ready_env : probe_env :=
  mkProbeEnv (Some (Ok (Some (mkInstance "0000000a" (Some "alice"))))) (Some sample_load_env)
    None None None None.
Definition sample_missing_env : probe_env :=
  mkProbeEnv (Some (Ok None)) None (Some (Ok (Some "committed"))) (Some (Ok true)) (Some (Ok None)) None.

Definition sample_loaded_graph : string :=
  match load_visible_graph sample_load_env "ab12cd34" (mkInstance "0000000a" (Some "alice")) with
  | Ok g => g | Err _ => "" end.

Lemma admission_guards_roles_witness :
  exists input row le role graph,
    from_json (A := TransactionAwareLoadInput) sample_load_input = Ok input /\
    read_from sample_ready_env row (Some le) /\ i_submitted_by row = Some role /\
    (superuser_instances_enabled le = true \/ is_role_superuser_name le role = Ok false) /\
    sample_loaded_graph = to_json graph /\ graph_instance_id graph = load_instance_id input /\
    root_node_id graph = i_root_node row /\ sql_quoting_version graph = V1 /\
    (exists rows, fetch_node_rows le = Ok rows /\ nodes_are_rows rows (nodes graph)).
Proof.
  apply (admission_guards_roles sample_ready_env "ab12cd34" sample_load_input). vm_compute. reflexivity.
Defined.

Lemma probe_missing_sound_witness :
  second_visible sample_missing_env = Some (Ok None).
Proof.
  refine (proj2 (proj2 (proj2 (proj1 (probe_missing_sound sample_missing_env "ab12cd34"
    sample_load_input) _)))).
  vm_compute. reflexivity.
Defined.
