(* ===== verification/GraphLoad.v ===== *)
(** Graph admission over the database ([src/activities/load_function_graph.rs]).

    [Admission] says what the probe answers to what its reads answer.  Here the reads
    are made: each in a transaction of its own under timeouts of the server, the
    probe's under a timer of the client, and the legacy activity polls by the clock. *)
From S2P Require Import Prelude RustString Json Substitution Graph Origin Admission Effects.

(** ** Calls *)

Inductive gop : Type :=
| BeginMetadata (origin : option Origin)
| SetStatementTimeout (ms : N)
| SetLockTimeout (ms : N)
| ReadInstance (instance_id : string)
| ReadXactStatus (xid : string)
| ReadSnapshot (xid : string)
| ReadNodes (instance_id : string)
| Rollback
| DropTransaction
| IsRoleSuperuser (role : string)
| TimerStruck
(** nanoseconds since the start of the activity *)
| ElapsedNanos
| SleepMs (ms : N).

Definition reply (o : gop) : Type :=
  match o with
  | BeginMetadata _ | SetStatementTimeout _ | SetLockTimeout _ => result unit sqlx_error
  | ReadInstance _ => result (option instance_row) sqlx_error
  | ReadXactStatus _ => result (option string) sqlx_error
  | ReadSnapshot _ => result bool sqlx_error
  | ReadNodes _ => result (list node_row) sqlx_error
  | Rollback | DropTransaction | SleepMs _ => unit
  | IsRoleSuperuser _ => result bool string
  | TimerStruck => bool
  | ElapsedNanos => N
  end.

Definition loading (A : Type) : Type := @act unit gop reply A.
Definition ask (o : gop) : loading (reply o) := call o.

(** ** Reads *)

Definition PROBE_STATEMENT_TIMEOUT_MS : N := 1500.
Definition PROBE_LOCK_TIMEOUT_MS : N := 1500.
Definition GRAPH_LOAD_STATEMENT_TIMEOUT_MS : N := 15000.
Definition GRAPH_LOAD_LOCK_TIMEOUT_MS : N := 5000.

(** A setting whose error leaves the function: the transaction is dropped. *)
Definition set_or_drop (r : result unit sqlx_error) : loading (result unit sqlx_error) :=
  match r with
  | Ok _ => Pure (Ok tt)
  | Err e => let* _ := ask DropTransaction in Pure (Err e)
  end.

Definition begin_read (statement_ms lock_ms : N) (origin : option Origin)
    : loading (result unit sqlx_error) :=
  let*? _ := ask (BeginMetadata origin) in
  let*? _ := (let* r := ask (SetStatementTimeout statement_ms) in set_or_drop r) in
  let* r := ask (SetLockTimeout lock_ms) in set_or_drop r.

Definition begin_probe_tx : option Origin -> loading (result unit sqlx_error) :=
  begin_read PROBE_STATEMENT_TIMEOUT_MS PROBE_LOCK_TIMEOUT_MS.

Definition find_visible_instance (origin : option Origin) (instance_id : string)
    : loading (result (option instance_row) sqlx_error) :=
  let*? _ := begin_probe_tx origin in
  let* row := ask (ReadInstance instance_id) in
  let* _ := ask Rollback in
  Pure row.

Definition probe_origin_transaction_status (origin : option Origin) (origin_xid : string)
    : loading (result (option string) sqlx_error) :=
  let*? _ := begin_probe_tx origin in
  let* status := ask (ReadXactStatus origin_xid) in
  let* _ := ask Rollback in
  Pure status.

Definition probe_snapshot_visible (origin : option Origin) (origin_xid : string)
    : loading (result bool sqlx_error) :=
  let*? _ := begin_probe_tx origin in
  let* visible := ask (ReadSnapshot origin_xid) in
  let* _ := ask Rollback in
  Pure visible.

Definition fetch_node_rows (origin : option Origin) (instance_id : string)
    : loading (result (list node_row) sqlx_error) :=
  let*? _ := begin_read GRAPH_LOAD_STATEMENT_TIMEOUT_MS GRAPH_LOAD_LOCK_TIMEOUT_MS origin in
  let* rows := ask (ReadNodes instance_id) in
  let* _ := ask Rollback in
  Pure rows.

(** [tokio::time::timeout]: [None] when the timer strikes first. *)
Definition within {A} (p : loading A) : loading (option A) := interrupt TimerStruck (fun b => b) p.

Section Load.
Context {SJ : SerdeJson} {U : UuidCrate} (superuser_instances_enabled : bool).

Definition check_role (instance_id role : string) : loading (result unit LoadGraphError) :=
  if superuser_instances_enabled then Pure (Ok tt)
  else
    let* s := ask (IsRoleSuperuser role) in
    Pure (superuser_guard (mkLoadEnv false (fun _ => s) (Ok [])) instance_id role).

Definition load_visible_graph (origin : option Origin) (instance_id : string) (row : instance_row)
    : loading (result string LoadGraphError) :=
  let*? role := Pure (ok_or (i_submitted_by row)
                      (LoadPermanent ("Instance " +:+ instance_id +:+
                                      ": submitted_by role no longer exists in pg_roles"))) in
  let*? _ := check_role instance_id role in
  let* rows := fetch_node_rows origin instance_id in
  Pure (let? rows := map_err (classified_load_graph_error "Failed to load function nodes") rows in
    let? ns := collect_results (load_node instance_id) rows in
    Ok (to_json (mkGraph instance_id (i_root_node row) (nodes_of ns) V1))).

(** ** The probe *)

Definition probe_load (origin : option Origin) (instance_id : string) (row : instance_row)
    : loading (result string string) :=
  let* loaded := within (load_visible_graph origin instance_id row) in
  Pure (match loaded with
        | None | Some (Err (LoadRetryable _)) => retry_probe
        | Some (Ok graph) => serialize_probe (Ready graph)
        | Some (Err (LoadPermanent error)) => Err error
        end).

Definition probe_after_commit (origin : option Origin) (input : TransactionAwareLoadInput)
    : loading (result string string) :=
  let instance_id := load_instance_id input in
  let* visible := within (probe_snapshot_visible origin (load_origin_xid input)) in
  match visible with
  | None => Pure retry_probe
  | Some (Err e) => Pure (probe_error_outcome "post-commit snapshot visibility check" instance_id e)
  | Some (Ok visible) =>
      match committed_probe_step visible with
      | AwaitSnapshotVisibility => Pure retry_probe
      | ReadyToReread =>
          let* visible := within (find_visible_instance origin instance_id) in
          match visible with
          | None => Pure retry_probe
          | Some (Err e) => Pure (probe_error_outcome "post-commit graph visibility check" instance_id e)
          | Some (Ok (Some row)) => probe_load origin instance_id row
          | Some (Ok None) => Pure (serialize_probe CommittedMissing)
          end
      end
  end.

Definition probe_origin (origin : option Origin) (input : TransactionAwareLoadInput)
    : loading (result string string) :=
  let instance_id := load_instance_id input in
  let* status := within (probe_origin_transaction_status origin (load_origin_xid input)) in
  match status with
  | None => Pure retry_probe
  | Some (Err e) => Pure (probe_error_outcome "origin transaction check" instance_id e)
  | Some (Ok None) =>
      Pure (Err ("Origin transaction " +:+ load_origin_xid input +:+ " for instance " +:+ instance_id +:+
                 " has no available status"))
  | Some (Ok (Some status)) =>
      if String.eqb status "in progress" then Pure (serialize_probe InProgress)
      else if String.eqb status "aborted" then Pure (serialize_probe Aborted)
      else if String.eqb status "committed" then probe_after_commit origin input
      else Pure (Err ("Origin transaction " +:+ load_origin_xid input +:+ " for instance " +:+
                      instance_id +:+ " has unknown status " +:+ in_quotes status))
  end.

Definition probe_transaction (engine_id input_json : string) : loading (result string string) :=
  let*? origin := Pure (from_engine_id engine_id) in
  let*? input := Pure (map_err (fun e => "Invalid transaction-aware graph probe input: " +:+ e)
                       (from_json (A := TransactionAwareLoadInput) input_json)) in
  match parse_u64 (load_origin_xid input) with
  | None => Pure (Err ("Invalid origin transaction id " +:+ in_quotes (load_origin_xid input) +:+
                       " for instance " +:+ load_instance_id input))
  | Some _ =>
      let* visible := within (find_visible_instance origin (load_instance_id input)) in
      match visible with
      | None => Pure retry_probe
      | Some (Err e) => Pure (probe_error_outcome "graph visibility check" (load_instance_id input) e)
      | Some (Ok (Some row)) => probe_load origin (load_instance_id input) row
      | Some (Ok None) => probe_origin origin input
      end
  end.

(** ** The legacy activity *)

Definition MAX_WAIT_SECS : N := 5.
Definition POLL_INTERVAL_MS : N := 100.

(** The loop that waits for the row; [None] when it is cut off. *)
Fixpoint wait_for_row (fuel : nat) (origin : option Origin) (instance_id : string)
    : loading (option (result instance_row string)) :=
  match fuel with
  | O => Pure None
  | S fuel' =>
      let* found := find_visible_instance origin instance_id in
      let again (late : string) :=
        let* elapsed := ask ElapsedNanos in
        if (MAX_WAIT_SECS <=? elapsed / NANOS_PER_SEC)%N then Pure (Some (Err late))
        else
          let* _ := ask (SleepMs POLL_INTERVAL_MS) in
          wait_for_row fuel' origin instance_id in
      let not_found := "Instance " +:+ instance_id +:+ " not found after " +:+ show_N MAX_WAIT_SECS +:+ "s" in
      match found with
      | Ok (Some row) => Pure (Some (Ok row))
      | Ok None => again (not_found +:+ " (transaction may have been rolled back)")
      | Err e => again (not_found +:+ ": " +:+ error_text e)
      end
  end.

Definition execute (fuel : nat) (engine_id instance_id : string) : loading (option (result string string)) :=
  match from_engine_id engine_id with
  | Err e => Pure (Some (Err e))
  | Ok origin =>
      let* row := wait_for_row fuel origin instance_id in
      match row with
      | None => Pure None
      | Some (Err e) => Pure (Some (Err e))
      | Some (Ok row) =>
          let* loaded := load_visible_graph origin instance_id row in
          Pure (Some (map_err into_message loaded))
      end
  end.
End Load.
