(* ===== verification/GraphLoadSpec.v ===== *)
(** The reads behind a verdict of the graph probe, the transactions they are made in,
    and that the legacy activity ends. *)
From S2P Require Import Prelude RustString Json JsonText Substitution Graph Origin Admission.
From S2P Require Import Effects.
From S2P Require Import GraphLoad.

(** ** Refinement *)

Lemma does_within {A} (p : loading A) s tr o s' :
  does (within p) s tr o s' -> match o with
  | Some a => exists tr', does p s tr' a s' /\ sublist tr' tr
  | None => True
  end.
Proof.
  unfold within. destruct o as [a|]; [|done]. revert s tr.
  induction p as [a0|k IH|s1 p IH|o k IH]; intros s tr; cbn [interrupt does].
  - intros (-> & [= ->] & ->). by exists [].
  - intros H. apply IH in H as (tr' & H1 & H2). eauto.
  - intros H. apply IH in H as (tr' & H1 & H2). eauto.
  - intros (r & tr1 & -> & b & tr2 & -> & H). destruct b; [by destruct H as (_ & ? & _)|].
    apply IH in H as (tr' & H1 & H2). exists (Ev o r :: tr'). split; [cbn; eauto|]. by constructor 2; constructor 3.
Qed.

Section Refinement.
Context {SJ : SerdeJson} {U : UuidCrate} (enabled : bool).

(** A read that answered did so in its transaction. *)
Lemma begin_read_then {A} ms1 ms2 origin (q : gop) (k : reply q -> result A sqlx_error) s tr a s' :
  does (let*? _ := begin_read ms1 ms2 origin in let* r := ask q in let* _ := ask Rollback in Pure (k r))
    s tr (Ok a) s' -> exists r, k r = Ok a /\ Ev q r ∈ tr.
Proof.
  intros (t1 & t2 & r & s1 & -> & _ & H)%does_try. destruct r; [|by destruct H as (_ & ? & _)].
  apply does_bind in H as (t3 & t4 & r & s2 & -> & (answer & ? & -> & -> & -> & ->) & H).
  apply does_bind in H as (t5 & t6 & [] & s3 & -> & _ & -> & E & ->). exists answer. split; [done|].
  set_solver.
Qed.

Lemma find_visible_instance_read origin i s tr o s' :
  does (find_visible_instance origin i) s tr (Ok o) s' -> Ev (ReadInstance i) (Ok o) ∈ tr.
Proof. by intros (r & -> & H)%(begin_read_then _ _ _ (ReadInstance i) (fun r => r)). Qed.

Lemma status_read origin x s tr o s' :
  does (probe_origin_transaction_status origin x) s tr (Ok o) s' -> Ev (ReadXactStatus x) (Ok o) ∈ tr.
Proof. by intros (r & -> & H)%(begin_read_then _ _ _ (ReadXactStatus x) (fun r => r)). Qed.

Lemma snapshot_read origin x s tr o s' :
  does (probe_snapshot_visible origin x) s tr (Ok o) s' -> Ev (ReadSnapshot x) (Ok o) ∈ tr.
Proof. by intros (r & -> & H)%(begin_read_then _ _ _ (ReadSnapshot x) (fun r => r)). Qed.

Lemma fetch_read origin i s tr o s' :
  does (fetch_node_rows origin i) s tr (Ok o) s' -> Ev (ReadNodes i) (Ok o) ∈ tr.
Proof. by intros (r & -> & H)%(begin_read_then _ _ _ (ReadNodes i) (fun r => r)). Qed.

(** Under the timer of the client. *)
Lemma within_read {A} (p : loading (result A sqlx_error)) (ev : A -> @event gop reply) s tr o s' :
  (forall tr' a, does p s tr' (Ok a) s' -> ev a ∈ tr') ->
  does (within p) s tr o s' -> forall a, o = Some (Ok a) -> ev a ∈ tr.
Proof.
  intros Hp H a ->. apply does_within in H as (tr' & H & Hin).
  apply singleton_sublist_l. etrans; [|exact Hin]. apply singleton_sublist_l. eauto.
Qed.

(** What a load was told. *)
Definition loaded_from (i : string) (row : instance_row) (le : load_env) (tr : list (@event gop reply)) : Prop :=
  Admission.superuser_instances_enabled le = enabled /\
  forall role rows, i_submitted_by row = Some role -> Admission.fetch_node_rows le = Ok rows ->
  enabled = true \/ is_role_superuser_name le role = Ok false ->
  sublist ((if enabled then [] else [Ev (IsRoleSuperuser role) (Ok false)]) ++ [Ev (ReadNodes i) (Ok rows)]) tr.

Definition unread : sqlx_error := mkSqlxError None false "".

Lemma load_refines origin i row s tr r s' :
  does (load_visible_graph enabled origin i row) s tr r s' ->
  exists le, loaded_from i row le tr /\ r = Admission.load_visible_graph le i row.
Proof.
  unfold load_visible_graph, Admission.load_visible_graph, build_graph, loaded_from.
  destruct (i_submitted_by row) as [role|]; cbn [ok_or try_act bind_act].
  2: { intros (-> & -> & ->). exists (mkLoadEnv enabled (fun _ => Err "") (Err unread)). by split. }
  intros (t1 & t2 & checked & s1 & -> & Hc & H)%does_try.
  assert (exists answer, checked = superuser_guard (mkLoadEnv enabled (fun _ => answer) (Err unread)) i role /\
    (enabled = true \/ answer = Ok false ->
    sublist (if enabled then [] else [Ev (IsRoleSuperuser role) (Ok false)]) t1))
    as (answer & -> & Hanswer).
  { revert Hc. unfold check_role, superuser_guard. cbn [Admission.superuser_instances_enabled is_role_superuser_name].
    destruct enabled; [intros (-> & -> & ->); by exists (Err "")|].
    intros (answer & t & -> & -> & -> & ->). exists answer. split; [done|]. by intros [? | ->]. }
  destruct (superuser_guard _ i role) as [[]|e] eqn:Eg.
  2: { destruct H as (-> & -> & ->). exists (mkLoadEnv enabled (fun _ => answer) (Err unread)).
  split; [done|]. by cbn; rewrite Eg. }
  apply does_bind in H as (t3 & t4 & rows & s2 & -> & Hf & (-> & -> & ->)).
  exists (mkLoadEnv enabled (fun _ => answer) rows). split.
  - split; [done|]. intros ? rows' [= <-] E Ha. cbn in E, Ha. subst rows. apply fetch_read in Hf.
    apply sublist_app; [auto|]. by apply sublist_inserts_r, singleton_sublist_l.
  - assert (Eg' : superuser_guard (mkLoadEnv enabled (fun _ => answer) rows) i role = Ok tt) by exact Eg.
    cbn [result_bind]. rewrite Eg'. cbn [result_bind Admission.fetch_node_rows].
    destruct (map_err _ rows) as [rows'|]; [|done]. cbn [result_bind]. by destruct (collect_results _ rows').
Qed.

Lemma probe_load_refines origin i row s tr r s' :
  does (probe_load enabled origin i row) s tr r s' ->
  exists load, r = load_outcome load i row /\ forall le, load = Some le -> loaded_from i row le tr.
Proof.
  intros (t1 & t2 & loaded & s1 & -> & Hl & (-> & -> & ->))%does_bind. rewrite app_nil_r.
  destruct loaded as [r|]; [|by exists None].
  apply does_within in Hl as (t & H & Hin). apply load_refines in H as (le & (H1 & H2) & ->).
  exists (Some le). split; [done|]. intros ? [= <-]. split; [done|]. intros role rows Hr Hrows Ha.
  etrans; [by eapply H2|done].
Qed.

(** ** The reads of a verdict *)

(** Every answer that the environment of [Admission] holds was read, in this order. *)
Definition told (input : TransactionAwareLoadInput) (env : probe_env) (tr : list (@event gop reply)) : Prop :=
  let i := load_instance_id input in let x := load_origin_xid input in
  exists t1 t2 t3 t4 t5 t6, tr = t1 ++ t2 ++ t3 ++ t4 ++ t5 ++ t6 /\
  (forall o, first_visible env = Some (Ok o) -> Ev (ReadInstance i) (Ok o) ∈ t1) /\
  (forall row le, first_visible env = Some (Ok (Some row)) -> first_load env = Some le ->
   loaded_from i row le t2) /\
  (forall o, transaction_status env = Some (Ok o) -> Ev (ReadXactStatus x) (Ok o) ∈ t3) /\
  (forall b, snapshot_visible env = Some (Ok b) -> Ev (ReadSnapshot x) (Ok b) ∈ t4) /\
  (forall o, second_visible env = Some (Ok o) -> Ev (ReadInstance i) (Ok o) ∈ t5) /\
  (forall row le, second_visible env = Some (Ok (Some row)) -> second_load env = Some le ->
   loaded_from i row le t6).

Lemma probe_after_commit_refines origin input s tr r s' v :
  does (probe_after_commit enabled origin input) s tr r s' ->
  exists visible second load t4 t5 t6, tr = t4 ++ t5 ++ t6 /\
  r = probe_committed (mkProbeEnv v None None visible second load) (load_instance_id input) /\
  (forall b, visible = Some (Ok b) -> Ev (ReadSnapshot (load_origin_xid input)) (Ok b) ∈ t4) /\
  (forall o, second = Some (Ok o) -> Ev (ReadInstance (load_instance_id input)) (Ok o) ∈ t5) /\
  (forall row le, second = Some (Ok (Some row)) -> load = Some le -> loaded_from (load_instance_id input) row le t6).
Proof.
  intros (t4 & t & visible & s1 & -> & Hv & H)%does_bind.
  pose proof (within_read _ (fun b => Ev (ReadSnapshot (load_origin_xid input)) (Ok b)) _ _ _ _
    (fun _ _ => snapshot_read _ _ _ _ _ _) Hv) as Hvisible.
  assert (Hstop : r = probe_committed (mkProbeEnv v None None visible None None) (load_instance_id input) ->
    t = [] -> exists visible second load t4' t5 t6, t4 ++ t = t4' ++ t5 ++ t6 /\
    r = probe_committed (mkProbeEnv v None None visible second load) (load_instance_id input) /\
    (forall b, visible = Some (Ok b) -> Ev (ReadSnapshot (load_origin_xid input)) (Ok b) ∈ t4') /\
    (forall o, second = Some (Ok o) -> Ev (ReadInstance (load_instance_id input)) (Ok o) ∈ t5) /\
    (forall row le, second = Some (Ok (Some row)) -> load = Some le -> loaded_from (load_instance_id input) row le t6)).
  { intros -> ->. by exists visible, None, None, t4, [], []. }
  destruct visible as [[[]|e]|]; cbn [committed_probe_step] in H;
    [|destruct H as (-> & -> & ->); by apply Hstop..].
  apply does_bind in H as (t5 & t6 & second & s2 & -> & Hs & H).
  pose proof (within_read _ (fun o => Ev (ReadInstance (load_instance_id input)) (Ok o)) _ _ _ _
    (fun _ _ => find_visible_instance_read _ _ _ _ _ _) Hs) as Hsecond.
  destruct second as [[[row|]|e]|].
  1: { apply probe_load_refines in H as (load & -> & Hload).
  exists (Some (Ok true)), (Some (Ok (Some row))), load, t4, t5, t6. split_and!; try done.
  intros ? ? [= <-] E. by apply Hload. }
  all: destruct H as (-> & -> & ->).
  - by exists (Some (Ok true)), (Some (Ok None)), None, t4, t5, [].
  - by exists (Some (Ok true)), (Some (Err e)), None, t4, t5, [].
  - by exists (Some (Ok true)), None, None, t4, t5, [].
Qed.

Lemma probe_origin_refines origin input s tr r s' t1 :
  Ev (ReadInstance (load_instance_id input)) (Ok None) ∈ t1 ->
  does (probe_origin enabled origin input) s tr r s' ->
  exists env, first_visible env = Some (Ok None) /\ r = probe_status env input /\ told input env (t1 ++ tr).
Proof.
  intros Hfirst (t3 & t & status & s2 & -> & Hst & H)%does_bind.
  pose proof (within_read _ (fun o => Ev (ReadXactStatus (load_origin_xid input)) (Ok o)) _ _ _ _
    (fun _ _ => status_read _ _ _ _ _ _) Hst) as Hstatus.
  assert (Hstop : t = [] -> told input (mkProbeEnv (Some (Ok None)) None status None None None) (t1 ++ t3 ++ t)).
  { intros ->. exists t1, [], t3, [], [], []. split_and!; try done. by intros o [= <-]. }
  pose (env := mkProbeEnv (Some (Ok None)) None status None None None).
  destruct status as [[[status|]|e]|];
    [|destruct H as (-> & -> & ->); exists env; split_and!; [done|done|by apply Hstop]..].
  unfold probe_status.
  destruct (String.eqb status "in progress") eqn:E1;
    [destruct H as (-> & -> & ->); exists env; cbn; rewrite E1; split_and!; [done|done|by apply Hstop]|].
  destruct (String.eqb status "aborted") eqn:E2;
    [destruct H as (-> & -> & ->); exists env; cbn; rewrite E1, E2; split_and!; [done|done|by apply Hstop]|].
  destruct (String.eqb status "committed") eqn:E3;
    [|destruct H as (-> & -> & ->); exists env; cbn; rewrite E1, E2, E3; split_and!; [done|done|by apply Hstop]].
  apply (probe_after_commit_refines _ _ _ _ _ _ (Some (Ok None))) in H
    as (visible & second & load & t4 & t5 & t6 & -> & -> & Hv & Hs & Hl).
  exists (mkProbeEnv (Some (Ok None)) None (Some (Ok (Some status))) visible second load).
  cbn [first_visible transaction_status]. rewrite E1, E2, E3. split_and!; [done|done|].
  exists t1, [], t3, t4, t5, t6. split_and!; try done. by intros o [= <-].
Qed.

(** The probe's answer is the one [Admission] gives to what was read. *)
Lemma probe_refines engine_id input_json s tr r s' :
  does (probe_transaction enabled engine_id input_json) s tr r s' ->
  exists env, r = Admission.probe_transaction env engine_id input_json /\
  forall input, from_json (A := TransactionAwareLoadInput) input_json = Ok input -> told input env tr.
Proof.
  unfold probe_transaction, Admission.probe_transaction.
  destruct (from_engine_id engine_id) as [origin|e]; cbn [try_act bind_act result_bind].
  2: { intros (-> & -> & ->). exists (mkProbeEnv None None None None None None). split; [done|].
  intros input _. by exists [], [], [], [], [], []. }
  destruct (from_json input_json) as [input|e]; cbn [map_err try_act bind_act result_bind].
  2: { intros (-> & -> & ->). by exists (mkProbeEnv None None None None None None). }
  destruct (parse_u64 (load_origin_xid input)).
  2: { intros (-> & -> & ->). exists (mkProbeEnv None None None None None None). split; [done|].
  intros ? [= <-]. by exists [], [], [], [], [], []. }
  intros (t1 & t & first & s1 & -> & Hf & H)%does_bind.
  pose proof (within_read _ (fun o => Ev (ReadInstance (load_instance_id input)) (Ok o)) _ _ _ _
    (fun _ _ => find_visible_instance_read _ _ _ _ _ _) Hf) as Hfirst.
  destruct first as [[[row|]|e]|].
  - apply probe_load_refines in H as (load & -> & Hload).
    exists (mkProbeEnv (Some (Ok (Some row))) load None None None None). split; [done|]. intros ? [= <-].
    exists t1, t, [], [], [], []. rewrite !app_nil_r. split_and!; try done.
    intros ? le [= <-] E. by apply Hload.
  - apply (probe_origin_refines _ _ _ _ _ _ t1) in H as (env & Hfv & -> & Htold); [|by apply Hfirst].
    exists env. rewrite Hfv. split; [done|]. by intros ? [= <-].
  - destruct H as (-> & -> & ->). exists (mkProbeEnv (Some (Err e)) None None None None None). split; [done|].
    intros ? [= <-]. by exists t1, [], [], [], [], [].
  - destruct H as (-> & -> & ->). exists (mkProbeEnv None None None None None None). split; [done|].
    intros ? [= <-]. by exists t1, [], [], [], [], [].
Qed.
End Refinement.

(** ** Verdicts *)

Lemma sublist_read {A} (e : A) l t1 t2 : e ∈ t1 -> sublist l t2 -> sublist (e :: l) (t1 ++ t2).
Proof. intros He Hl. change (e :: l) with ([e] ++ l). apply sublist_app; [by apply singleton_sublist_l|done]. Qed.

Lemma sublist_later {A} (l t1 t2 : list A) : sublist l t2 -> sublist l (t1 ++ t2).
Proof. intros Hl. by apply sublist_inserts_l. Qed.

Lemma sublist_last {A} (e : A) t1 t2 : e ∈ t1 -> sublist [e] (t1 ++ t2).
Proof. intros He. by apply sublist_inserts_r, singleton_sublist_l. Qed.

Lemma told_missing enabled input env tr :
  told enabled input env tr -> transaction_status env = Some (Ok (Some "committed")) ->
  snapshot_visible env = Some (Ok true) -> first_visible env = Some (Ok None) ->
  second_visible env = Some (Ok None) ->
  sublist [Ev (ReadInstance (load_instance_id input)) (Ok None);
           Ev (ReadXactStatus (load_origin_xid input)) (Ok (Some "committed"));
           Ev (ReadSnapshot (load_origin_xid input)) (Ok true);
           Ev (ReadInstance (load_instance_id input)) (Ok None) : @event gop reply] tr.
Proof.
  intros (t1 & t2 & t3 & t4 & t5 & t6 & -> & H1 & _ & H3 & H4 & H5 & _) E3 E4 E1 E5.
  apply sublist_read; [auto|]. apply sublist_later. apply sublist_read; [auto|].
  apply sublist_read; [auto|]. apply sublist_last. auto.
Qed.

Lemma told_aborted enabled input env tr :
  told enabled input env tr -> transaction_status env = Some (Ok (Some "aborted")) ->
  first_visible env = Some (Ok None) ->
  sublist [Ev (ReadInstance (load_instance_id input)) (Ok None);
           Ev (ReadXactStatus (load_origin_xid input)) (Ok (Some "aborted")) : @event gop reply] tr.
Proof.
  intros (t1 & t2 & t3 & t4 & t5 & t6 & -> & H1 & _ & H3 & _) E3 E1.
  apply sublist_read; [auto|]. apply sublist_later, sublist_last. auto.
Qed.

(** A graph that was read: its instance was found, the instance's role may run it, its
    root is the one of the instance's row, and its nodes are the rows of the instance
    whose roles exist, all of them and as they are. *)
Definition graph_was_read (enabled : bool) (i g : string) (tr : list (@event gop reply)) {SJ : SerdeJson} : Prop :=
  exists row role rows graph,
  i_submitted_by row = Some role /\
  sublist ([Ev (ReadInstance i) (Ok (Some row))] ++
    (if enabled then [] else [Ev (IsRoleSuperuser role) (Ok false)]) ++ [Ev (ReadNodes i) (Ok rows)]) tr /\
  g = to_json graph /\ graph_instance_id graph = i /\ root_node_id graph = i_root_node row /\
  sql_quoting_version graph = V1 /\ nodes_are_rows rows (nodes graph).

Section Verdict.
Context {SJ : SerdeJson} {SJL : SerdeJsonLaws SJ} {U : UuidCrate}.

Lemma told_ready enabled input env tr row load le graph rows :
  told enabled input env tr -> read_from env row load -> load = Some le ->
  i_submitted_by row = Some graph -> Admission.fetch_node_rows le = Ok rows ->
  enabled = true \/ is_role_superuser_name le graph = Ok false ->
  sublist ([Ev (ReadInstance (load_instance_id input)) (Ok (Some row))] ++
           (if enabled then [] else [Ev (IsRoleSuperuser graph) (Ok false)]) ++
           [Ev (ReadNodes (load_instance_id input)) (Ok rows) : @event gop reply]) tr.
Proof.
  intros (t1 & t2 & t3 & t4 & t5 & t6 & -> & H1 & H2 & _ & _ & H5 & H6) Hread -> Hrole Hrows Ha.
  destruct Hread as [[E1 E2]|(E1 & _ & _ & E5 & E6)].
  - apply sublist_read; [auto|]. apply sublist_inserts_r. by eapply H2.
  - do 4 apply sublist_later. apply sublist_read; [auto|]. by eapply H6.
Qed.

(** C35: A verdict of the graph probe is backed by what was read, in the order that
    makes it safe.  A graph is reported missing only after its instance was not found,
    then PostgreSQL called the origin transaction committed, then a fresh snapshot saw
    it, and then the instance was again not found; it is reported aborted only after
    PostgreSQL said so; and a graph is handed over only as read, with the root of its
    instance's row and a node for every row of the instance, each with the id, type,
    query, result name, children, role and database of its row, after its instance was
    found and, unless superuser instances are enabled, its role was found not to be a
    superuser. *)
Theorem graph_verdict_backed enabled engine_id input_json tr verdict :
  does (probe_transaction enabled engine_id input_json) tt tr (Ok (to_json verdict)) tt ->
  exists input, from_json (A := TransactionAwareLoadInput) input_json = Ok input /\
  match verdict with
  | CommittedMissing =>
      sublist [Ev (ReadInstance (load_instance_id input)) (Ok None);
               Ev (ReadXactStatus (load_origin_xid input)) (Ok (Some "committed"));
               Ev (ReadSnapshot (load_origin_xid input)) (Ok true);
               Ev (ReadInstance (load_instance_id input)) (Ok None)] tr
  | Aborted =>
      sublist [Ev (ReadInstance (load_instance_id input)) (Ok None);
               Ev (ReadXactStatus (load_origin_xid input)) (Ok (Some "aborted"))] tr
  | Ready g => graph_was_read enabled (load_instance_id input) g tr
  | InProgress | Retry => True
  end.
Proof.
  intros (env & E & Htold)%probe_refines.
  assert (exists input, from_json (A := TransactionAwareLoadInput) input_json = Ok input) as [input Hinput].
  { unfold Admission.probe_transaction in E. destruct (from_engine_id engine_id); [|done].
    cbn [result_bind] in E. destruct (from_json input_json) as [input|]; [by exists input|done]. }
  exists input. split; [done|]. specialize (Htold _ Hinput). symmetry in E.
  pose proof (probe_missing_sound env engine_id input_json) as [Hmissing Haborted].
  destruct verdict as [g| | | |]; [|done..| |].
  - apply admission_guards_roles in E as (input' & row & le & role & graph & Hi & Hread & Hrole & Hguard & -> &
      Hid & Hroot & Hv1 & rows & Hrows & Hnodes). rewrite Hinput in Hi. injection Hi as <-.
    assert (Hen : Admission.superuser_instances_enabled le = enabled).
    { destruct Htold as (t1 & t2 & t3 & t4 & t5 & t6 & _ & _ & H2 & _ & _ & _ & H6).
      destruct Hread as [[E1 E2]|(_ & _ & _ & E5 & E6)]; [by eapply H2|by eapply H6]. }
    exists row, role, rows, graph. split_and!; try done. eapply told_ready; try done. by rewrite <- Hen.
  - destruct (Haborted E). by eapply told_aborted.
  - destruct (Hmissing E) as (? & ? & ? & ?). by eapply told_missing.
Qed.
End Verdict.

(** ** Transactions *)

(** A transaction: begun, with the timeout of its statements, with that of its locks
    too, and after its read. *)
Inductive conn := Closed | Begun | HalfBounded | Bounded | Spent.
#[export] Instance conn_eq_dec : EqDecision conn.
Proof. solve_decision. Defined.

Definition next_conn (c : conn) (e : @event gop reply) : option conn :=
  let (o, r) := e in
  match o as o return reply o -> option conn with
  | BeginMetadata _ => fun r => if bool_decide (c = Closed) then Some (if is_ok r then Begun else Closed) else None
  | SetStatementTimeout ms => fun r =>
      if bool_decide (c = Begun) && (0 <? ms)%N then Some (if is_ok r then HalfBounded else Begun) else None
  | SetLockTimeout ms => fun r =>
      if bool_decide (c = HalfBounded) && (0 <? ms)%N then Some (if is_ok r then Bounded else HalfBounded)
      else None
  | ReadInstance _ | ReadXactStatus _ | ReadSnapshot _ | ReadNodes _ => fun _ =>
      if bool_decide (c = Bounded) then Some Spent else None
  | Rollback => fun _ => if bool_decide (c = Spent) then Some Closed else None
  | DropTransaction => fun _ => if bool_decide (c ∈ [Begun; HalfBounded]) then Some Closed else None
  (** a future that is cut off is dropped with its transaction *)
  | TimerStruck => fun struck => Some (if struck then Closed else c)
  | IsRoleSuperuser _ | ElapsedNanos | SleepMs _ => fun _ => if bool_decide (c = Closed) then Some Closed else None
  end r.

Abbreviation goes := (follows next_conn).
Ltac ask_as r := intros r; eexists; split; [reflexivity|]; cbn [follows bind_act].

Lemma goes_within {A} (p : loading A) s c (Q : A -> unit -> conn -> Prop) :
  goes p s c Q -> goes (within p) s c (fun o s' c' => match o with Some a => Q a s' c' | None => c' = Closed end).
Proof.
  unfold within. revert s c. induction p as [a|k IH|s1 p IH|o k IH]; intros s c; cbn [interrupt follows]; [done|..].
  - apply IH.
  - apply IH.
  - intros H r. destruct (H r) as (c' & E & Hk). exists c'. split; [done|]. intros struck. eexists.
    split; [reflexivity|]. destruct struck; [done|by apply IH].
Qed.

Lemma begin_read_goes ms1 ms2 origin :
  (0 < ms1)%N -> (0 < ms2)%N ->
  goes (begin_read ms1 ms2 origin) tt Closed (fun r _ c => c = if is_ok r then Bounded else Closed).
Proof.
  intros H1%N.ltb_lt H2%N.ltb_lt. unfold begin_read. apply follows_try. ask_as begun.
  destruct begun as [[]|e]; [|done]. apply follows_try. intros r. eexists. split; [cbn; rewrite H1; reflexivity|].
  cbn [bind_act]. destruct r as [[]|e]; cbn [set_or_drop bind_act]; [|by ask_as dropped].
  intros r. eexists. split; [cbn; rewrite H2; reflexivity|].
  destruct r as [[]|e]; cbn [set_or_drop bind_act]; [done|by ask_as dropped].
Qed.

(** A read takes nothing along. *)
Lemma read_goes {A} ms1 ms2 origin (q : gop) (k : reply q -> A) (err : sqlx_error -> A) :
  (0 < ms1)%N -> (0 < ms2)%N -> (forall r, next_conn Bounded (Ev q r) = Some Spent) ->
  goes (bind_act (begin_read ms1 ms2 origin) (fun b => match b with
    | Ok _ => let* r := ask q in let* _ := ask Rollback in Pure (k r)
    | Err e => Pure (err e) end)) tt Closed (fun _ _ c => c = Closed).
Proof.
  intros H1 H2 Hq. apply follows_bind. eapply follows_mono; [by apply begin_read_goes|].
  intros [[]|e] [] c ->; [|done]. intros r. exists Spent. split; [apply Hq|]. by ask_as rolled_back.
Qed.

Section Transactions.
Context {SJ : SerdeJson} {U : UuidCrate} (enabled : bool).

Lemma find_goes origin i : goes (find_visible_instance origin i) tt Closed (fun _ _ c => c = Closed).
Proof. by apply (read_goes _ _ _ (ReadInstance i) (fun r => r) Err). Qed.

Lemma load_goes origin i row :
  goes (load_visible_graph enabled origin i row) tt Closed (fun _ _ c => c = Closed).
Proof.
  unfold load_visible_graph. destruct (i_submitted_by row) as [role|]; cbn [ok_or]; [|done].
  apply follows_try. cbn [follows]. apply follows_try. unfold check_role.
  assert (Hfetch : goes (let* rows := fetch_node_rows origin i in
    Pure (let? rows := map_err (classified_load_graph_error "Failed to load function nodes") rows in
    let? ns := collect_results (load_node i) rows in
    Ok (to_json (mkGraph i (i_root_node row) (nodes_of ns) V1)))) tt Closed (fun _ _ c => c = Closed)).
  { apply follows_bind. eapply follows_mono; [by apply (read_goes _ _ _ (ReadNodes i) (fun r => r) Err)|done]. }
  destruct enabled; [exact Hfetch|]. ask_as s. destruct (superuser_guard _ _ _) as [[]|e]; [exact Hfetch|done].
Qed.

Lemma probe_load_goes origin i row :
  goes (probe_load enabled origin i row) tt Closed (fun _ _ c => c = Closed).
Proof.
  apply follows_bind. eapply follows_mono; [apply goes_within, load_goes|]. by intros [r|] [] c ->.
Qed.

(** A read of the probe, and what comes after. *)
Lemma then_goes {A B} (p : loading A) (k : option A -> loading B) :
  goes p tt Closed (fun _ _ c => c = Closed) ->
  (forall o, goes (k o) tt Closed (fun _ _ c => c = Closed)) ->
  goes (let* o := within p in k o) tt Closed (fun _ _ c => c = Closed).
Proof.
  intros Hp Hk. apply follows_bind. eapply follows_mono; [by apply goes_within|]. by intros [a|] [] c ->.
Qed.

Lemma probe_goes engine_id input_json :
  goes (probe_transaction enabled engine_id input_json) tt Closed (fun _ _ c => c = Closed).
Proof.
  unfold probe_transaction. apply follows_try. destruct (from_engine_id engine_id) as [origin|e]; [|done].
  cbn [follows]. apply follows_try. destruct (map_err _ _) as [input|e]; [|done]. cbn [follows].
  destruct (parse_u64 _); [|done]. apply then_goes; [apply find_goes|].
  intros [[[row|]|e]|]; [apply probe_load_goes| |done..].
  apply then_goes; [by apply (read_goes _ _ _ (ReadXactStatus _) (fun r => r) Err)|].
  intros [[[status|]|e]|]; [|done..]. do 2 (destruct (String.eqb status _); [done|]).
  destruct (String.eqb status _); [|done].
  apply then_goes; [by apply (read_goes _ _ _ (ReadSnapshot _) (fun r => r) Err)|].
  intros [[[]|e]|]; cbn [committed_probe_step]; [|done..].
  apply then_goes; [apply find_goes|]. intros [[[row|]|e]|]; [apply probe_load_goes|done..].
Qed.

Lemma wait_goes fuel origin i : goes (wait_for_row fuel origin i) tt Closed (fun _ _ c => c = Closed).
Proof.
  induction fuel as [|fuel IH]; cbn [wait_for_row]; [done|].
  apply follows_bind. eapply follows_mono; [apply find_goes|].
  intros [[row|]|e] [] c ->; [done|..]; ask_as elapsed; (destruct (_ <=? _)%N; [done|]); ask_as slept; exact IH.
Qed.

Lemma execute_goes fuel engine_id i :
  goes (execute enabled fuel engine_id i) tt Closed (fun _ _ c => c = Closed).
Proof.
  unfold execute. destruct (from_engine_id engine_id) as [origin|e]; [|done].
  apply follows_bind. eapply follows_mono; [apply wait_goes|]. intros [[row|e]|] [] c ->; [|done..].
  apply follows_bind. eapply follows_mono; [apply load_goes|done].
Qed.
End Transactions.

(** C36: Every read of graph admission, by the probe and by the legacy activity, is the
    one read of a transaction whose statement and lock timeouts were set before it.
    One transaction is open at a time, none while a role is looked up or the activity
    sleeps, and each is rolled back after its read, dropped when a setting fails, or
    dropped by the timer. *)
Theorem graph_reads_bounded {SJ : SerdeJson} {U : UuidCrate} enabled fuel engine_id instance_id input_json tr tr' r r' :
  does (probe_transaction enabled engine_id input_json) tt tr r tt ->
  does (execute enabled fuel engine_id instance_id) tt tr' r' tt ->
  run_protocol next_conn Closed tr = Some Closed /\ run_protocol next_conn Closed tr' = Some Closed.
Proof.
  intros H1%(follows_sound _ _ _ _ _ _ _ _ (probe_goes enabled engine_id input_json)).
  intros H2%(follows_sound _ _ _ _ _ _ _ _ (execute_goes enabled fuel engine_id instance_id)).
  by destruct H1 as (? & ? & ->), H2 as (? & ? & ->).
Qed.

(** ** That the legacy activity ends *)

(** The legacy activity answers once its wait is over: with one more poll of fuel
    than calls were made before five seconds had passed, its loop is not cut off. *)
Theorem legacy_load_answers {SJ : SerdeJson} {U : UuidCrate} enabled n
    (world : list (@event gop reply) -> forall o, reply o) engine_id instance_id :
  (forall hist, n <= length hist -> (5 * NANOS_PER_SEC <= world hist ElapsedNanos)%N) ->
  ends world [] (execute enabled (S n) engine_id instance_id) tt.
Proof.
  intros Hlate. unfold execute. destruct (from_engine_id engine_id) as [origin|e]; [|by eexists].
  assert (Hwait : forall fuel hist, 1 <= fuel -> n < fuel + length hist ->
    ends world hist (wait_for_row fuel origin instance_id) tt).
  { induction fuel as [|fuel IH]; [lia|]. intros hist _ Hf. cbn [wait_for_row]. apply ends_bind.
    assert (Hagain : forall late tr, ends world (hist ++ tr)
      (let* elapsed := ask ElapsedNanos in
       if (MAX_WAIT_SECS <=? elapsed / NANOS_PER_SEC)%N then Pure (Some (Err late))
       else let* _ := ask (SleepMs POLL_INTERVAL_MS) in wait_for_row fuel origin instance_id) tt).
    { intros late tr. unfold ends. cbn [ask call bind_act eval].
      destruct (_ <=? _)%N eqn:El; [by eexists|]. cbn [eval].
      assert (Hn : length (hist ++ tr) < n).
      { destruct (decide (n <= length (hist ++ tr))) as [Hn|]; [|lia]. apply N.leb_gt in El.
        specialize (Hlate _ Hn). apply (N.Div0.div_le_mono _ _ NANOS_PER_SEC) in Hlate.
        rewrite N.div_mul in Hlate by done. unfold MAX_WAIT_SECS in El. lia. }
      rewrite length_app in Hn. apply IH; rewrite ?length_app; cbn; lia. }
    intros [[row|]|e] tr []; [by eexists|apply Hagain..]. }
  apply ends_run; [apply Hwait; cbn; lia|]. intros [row|e] tr []; [|by eexists].
  apply ends_bind. intros loaded tr' []. by eexists.
Qed.

(** ** A sample probe *)

#[local] Existing Instance text_json.
#[local] Existing Instance sample_uuid.

Module SampleLoad.
(** The instance is not there, before and after its transaction is seen committed; the
    clock advances by half a second with every call. *)
Definition world (hist : list (@event gop reply)) (o : gop) : reply o :=
  match o as o return reply o with
  | BeginMetadata _ | SetStatementTimeout _ | SetLockTimeout _ => Ok tt
  | ReadInstance _ => Ok None
  | ReadXactStatus _ => Ok (Some "committed")
  | ReadSnapshot _ => Ok true
  | ReadNodes _ => Ok []
  | Rollback | DropTransaction | SleepMs _ => tt
  | IsRoleSuperuser _ => Ok false
  | TimerStruck => false
  | ElapsedNanos => (N.of_nat (length hist) * (NANOS_PER_SEC / 2))%N
  end.
Definition input : string := to_json (mkLoadInput "ab12cd34" "7001").
Definition probe : loading (result string string) := probe_transaction false "ab12cd34" input.
Definition legacy : loading (option (result string string)) := execute false 11 "ab12cd34" "ab12cd34".
End SampleLoad.

Lemma sample_probe_does :
  exists tr, does SampleLoad.probe tt tr (Ok (to_json CommittedMissing)) tt.
Proof.
  destruct (eval_does SampleLoad.world [] SampleLoad.probe tt) as (tr & _ & H). exists tr.
  assert (E : fst (fst (eval SampleLoad.world [] SampleLoad.probe tt)) = Ok (to_json CommittedMissing))
    by (vm_compute; reflexivity).
  rewrite E in H. by destruct (snd (fst _)).
Qed.

Lemma graph_verdict_backed_witness :
  exists tr, does SampleLoad.probe tt tr (Ok (to_json CommittedMissing)) tt /\
    sublist [Ev (ReadInstance "ab12cd34") (Ok None); Ev (ReadXactStatus "7001") (Ok (Some "committed"));
             Ev (ReadSnapshot "7001") (Ok true); Ev (ReadInstance "ab12cd34") (Ok None)] tr.
Proof.
  destruct sample_probe_does as [tr H]. exists tr. split; [exact H|].
  destruct (graph_verdict_backed false "ab12cd34" SampleLoad.input tr CommittedMissing H) as (input & E & Hs).
  assert (E' : from_json (A := TransactionAwareLoadInput) SampleLoad.input = Ok (mkLoadInput "ab12cd34" "7001"))
    by (vm_compute; reflexivity).
  rewrite E' in E. injection E as <-. exact Hs.
Defined.

Lemma graph_reads_bounded_witness :
  exists tr tr' r, does SampleLoad.probe tt tr (Ok (to_json CommittedMissing)) tt /\
    does SampleLoad.legacy tt tr' (Some r) tt /\ length tr' = 13 /\
    run_protocol next_conn Closed tr = Some Closed /\ run_protocol next_conn Closed tr' = Some Closed.
Proof.
  destruct sample_probe_does as [tr H].
  destruct (eval_does SampleLoad.world [] SampleLoad.legacy tt) as (tr' & E & H').
  exists tr, tr', (Err "Instance ab12cd34 not found after 5s (transaction may have been rolled back)").
  assert (Hr : fst (fst (eval SampleLoad.world [] SampleLoad.legacy tt)) =
    Some (Err "Instance ab12cd34 not found after 5s (transaction may have been rolled back)"))
    by (vm_compute; reflexivity).
  assert (Hl : length (snd (eval SampleLoad.world [] SampleLoad.legacy tt)) = 13) by (vm_compute; reflexivity).
  rewrite E in Hl. rewrite Hr in H'. destruct (snd (fst _)). split; [exact H|]. split; [exact H'|]. split; [exact Hl|].
  exact (graph_reads_bounded false 11 "ab12cd34" "ab12cd34" SampleLoad.input tr tr' _ _ H H').
Defined.

Lemma legacy_load_answers_witness : ends SampleLoad.world [] SampleLoad.legacy tt.
Proof.
  apply (legacy_load_answers false 10 SampleLoad.world "ab12cd34" "ab12cd34"). intros hist Hn.
  cbn [SampleLoad.world]. change (5 * NANOS_PER_SEC)%N with (10 * (NANOS_PER_SEC / 2))%N.
  apply N.mul_le_mono_r. lia.
Defined.
