(* ===== verification/Orchestration.v ===== *)
(** The graph-executing orchestrations
    ([src/orchestrations/execute_function_graph.rs]).

    Every handler of the source is a definition here.  Handlers run in [M], a
    state and error monad over [prog]: the state is the map of named results that
    the source threads as [&mut HashMap], the error is [NodeError].  The
    recursion over the graph is open: a handler gets the recursive call as an
    argument, and [execute_function_node_with_vars] closes the loop with fuel.
    Trace messages are left out. *)
From S2P Require Import Prelude RustString Json Durable Substitution Graph Lineage HttpConfig.
From S2P Require Import Admission.

(** ** Names *)

Definition SUBTREE_NAME : string := "pg_durable::orchestration::execute-subtree".
Definition LOAD_GRAPH : string := "pg_durable::activity::load-function-graph".
Definition PROBE_GRAPH : string := "pg_durable::activity::probe-function-graph-transaction-v1".
Definition UPDATE_NODE : string := "pg_durable::activity::update-node-status".
Definition UPDATE_INSTANCE : string := "pg_durable::activity::update-instance-status".
Definition EXECUTE_SQL : string := "pg_durable::activity::execute-sql".
Definition EXECUTE_HTTP : string := "pg_durable::activity::execute-http".
Definition EXECUTE_MULTIPART : string := "pg_durable::activity::execute-multipart".

(** ** Data *)

Inductive Continuation := Root | Subtree.

Record ExecutionContext := mkExecCtx {
  vars : gmap string string;
  label : option string;
  failure_isolated : bool;
  loop_iteration : N;
  subtree_root : string;
  continuation : Continuation;
}.

Record SubtreeInput := mkSubtreeInput {
  sub_instance_id : string;
  sub_node_id : string;
  sub_graph : string;
  sub_results : string;
  sub_vars : option string;
  sub_label : option string;
  sub_iteration : N;
  sub_failure_isolated : bool;
}.

Inductive NodeError :=
| Break (value : string)
| Application (message : string)
| Failure (message : string).

#[export] Instance NodeError_eq_dec : EqDecision NodeError.
Proof. solve_decision. Defined.

Definition message (e : NodeError) : string :=
  match e with Break m | Application m | Failure m => m end.

Abbreviation NodeResult := (result string NodeError).

Inductive SubtreeControl := ControlNormal | ControlBreak.

Record SubtreeEnvelope := mkEnvelope {
  control : option SubtreeControl;
  env_result : string;
  env_results : gmap string string;
}.

Record ExecuteSqlInput := mkSqlInput {
  sql_query : string;
  sql_submitted_by : string;
  sql_database : option string;
  sql_quoting : SqlQuotingVersion;
}.

(** ** Serialization *)

Definition en_subtree_input (x : SubtreeInput) : value := Object (
  [("instance_id", JString (sub_instance_id x)); ("node_id", JString (sub_node_id x));
   ("graph", JString (sub_graph x)); ("results", JString (sub_results x));
   ("vars", en_opt_string (sub_vars x)); ("label", en_opt_string (sub_label x));
   ("iteration", en_u64 (sub_iteration x))]
  ++ skip_if (is_false (sub_failure_isolated x)) "failure_isolated" (Bool (sub_failure_isolated x))).
Definition de_subtree_input (v : value) : option SubtreeInput :=
  l ← as_object v;
  i ← req "instance_id" as_str l; n ← req "node_id" as_str l;
  g ← req "graph" as_str l; r ← req "results" as_str l;
  vs ← opt "vars" as_str l; lb ← opt "label" as_str l;
  it ← dflt "iteration" 0%N de_u64 l; f ← dflt "failure_isolated" false as_bool l;
  Some (mkSubtreeInput i n g r vs lb it f).

Definition en_control (c : SubtreeControl) : value :=
  JString (match c with ControlNormal => "Normal" | ControlBreak => "Break" end).
Definition de_control (v : value) : option SubtreeControl :=
  s ← de_unit_variant v;
  if String.eqb s "Normal" then Some ControlNormal
  else if String.eqb s "Break" then Some ControlBreak else None.

Definition en_envelope (e : SubtreeEnvelope) : value :=
  Object [("control", match control e with Some c => en_control c | None => Null end);
          ("result", JString (env_result e)); ("results", en_string_map (env_results e))].
Definition de_envelope (v : value) : option SubtreeEnvelope :=
  l ← as_object v;
  c ← opt "control" de_control l; r ← req "result" as_str l; rs ← req "results" de_string_map l;
  Some (mkEnvelope c r rs).

Definition en_sql_input (x : ExecuteSqlInput) : value := Object (
  [("query", JString (sql_query x)); ("submitted_by", JString (sql_submitted_by x));
   ("database", en_opt_string (sql_database x))]
  ++ skip_if (is_legacy (sql_quoting x)) "sql_quoting_version" (en_sql_quoting (sql_quoting x))).

(** [SubtreeFailure::Application], adjacently tagged. *)
Definition en_subtree_failure (msg : string) : value :=
  Object [("pg_durable_subtree_failure", JString "application"); ("message", JString msg)].
Definition de_subtree_failure (v : value) : option string :=
  l ← as_object v;
  t ← req "pg_durable_subtree_failure" as_str l;
  if String.eqb t "application" then req "message" as_str l else None.

#[export] Instance subtree_input_codec : Codec SubtreeInput := {|
  type_name := "struct SubtreeInput"; en := en_subtree_input; de := de_subtree_input;
  valid x := (sub_iteration x <= u64_max)%N |}.
#[export] Instance envelope_codec : Codec SubtreeEnvelope := {|
  type_name := "struct SubtreeEnvelope"; en := en_envelope; de := de_envelope; valid _ := True |}.

(** [serde_json::to_string] through the fallible interface the source uses. *)
Definition to_json_res `{SerdeJson} {A} `{Codec A} (a : A) : result string string := Ok (to_json a).

(** ** Errors *)

Section Errors.
Context {SJ : SerdeJson}.

Definition encode_subtree_application_failure (msg : string) : string :=
  value_to_string (en_subtree_failure msg).

Definition decode_subtree_application_failure (error : string) : option string :=
  ok (from_str_as "enum SubtreeFailure" de_subtree_failure error).

Definition classify_subtree_failure (error : string) : NodeError :=
  match decode_subtree_application_failure error with
  | Some msg => Application msg
  | None => Failure error
  end.

Definition contextualize_subtree_failure (context error : string) : NodeError :=
  match classify_subtree_failure error with
  | Application m => Application (context +:+ ": " +:+ m)
  | Failure m => Failure (context +:+ ": " +:+ m)
  | Break m => Break m
  end.
End Errors.

Definition priority (e : NodeError) : nat :=
  match e with Application _ => 0 | Break _ => 1 | Failure _ => 2 end.

Definition retain_higher_priority_join_error (selected : option (NodeError * option string))
    (candidate : NodeError) (loop_node_id : option string) : option (NodeError * option string) :=
  match selected with
  | None => Some (candidate, loop_node_id)
  | Some (current, _) =>
      if Nat.ltb (priority current) (priority candidate)
      then Some (candidate, loop_node_id) else selected
  end.

Inductive FailureIsolatedBodyOutcome :=
| Succeeded (result : string)
| ApplicationFailed
| BrokeOut (value : string).

(** ** Admission polling *)

Definition INITIAL_TRANSACTION_POLL_MS : N := 100.
Definition MAX_TRANSACTION_POLL_MS : N := 5000.
Definition GRAPH_WAIT_POLLS_PER_EXECUTION : N := 64.
Definition MAX_GRAPH_RETRY_ATTEMPTS : N := 20.
Definition MAX_STATUS_FINALIZE_ATTEMPTS : N := 20.

Definition transaction_poll_delay (attempt : N) : N :=
  let multiplier := N.shiftl 1 (N.min attempt 6) in
  from_millis (N.min (u64_saturating_mul INITIAL_TRANSACTION_POLL_MS multiplier)
                 MAX_TRANSACTION_POLL_MS).

Definition should_compact_graph_wait (polls_in_execution : N) : bool :=
  (GRAPH_WAIT_POLLS_PER_EXECUTION <=? polls_in_execution)%N.

Definition graph_retry_budget_exceeded (retry_attempt : N) : bool :=
  (MAX_GRAPH_RETRY_ATTEMPTS <? retry_attempt)%N.

Definition with_attempts (x : FunctionInput) (wait retry : N) : FunctionInput :=
  mkInput (input_instance_id x) (input_label x) (input_vars x) (input_loop_iteration x)
    (input_graph x) (origin_xid x) wait retry.

Section Admission.
Context {SJ : SerdeJson}.

Definition graph_wait_continuation (input : FunctionInput) (wait retry : N)
    : result string string := to_json_res (with_attempts input wait retry).

Definition subject (input : FunctionInput) (origin_xid : string) : string :=
  "Instance " +:+ input_instance_id input +:+ " origin transaction " +:+ origin_xid.

(** The end of one poll: sleep, then poll again or continue as new. *)
Definition after_poll (again : N -> prog (result string string)) (input : FunctionInput)
    (delay wait retry polls : N) : prog (result string string) :=
  let! _ := op (ScheduleTimer delay) in
  let polls := u32_saturating_add polls 1 in
  if should_compact_graph_wait polls then
    let~? json := map_err (fun e => "Failed to serialize graph-wait continuation: " +:+ e)
        (graph_wait_continuation input wait retry) in
    Stop (ContinuedAsNew json)
  else again polls.

Fixpoint poll_graph (fuel : nat) (input : FunctionInput) (origin_xid probe_input : string)
    (wait_attempt retry_attempt polls_in_execution : N) : prog (result string string) :=
  match fuel with
  | O => Stop OutOfFuel
  | S fuel' =>
      let!? raw := op (ScheduleActivity PROBE_GRAPH probe_input) in
      let~? probe := map_err
          (fun e => "Failed to parse transaction-aware graph probe result: " +:+ e)
          (from_json (A := TransactionGraphProbe) raw) in
      match probe with
      | Ready graph => Ret (Ok graph)
      | InProgress =>
          let wait := u32_saturating_add wait_attempt 1 in
          after_poll (fun polls => poll_graph fuel' input origin_xid probe_input wait retry_attempt polls)
            input (transaction_poll_delay wait_attempt) wait retry_attempt polls_in_execution
      | Retry =>
          let retry := u32_saturating_add retry_attempt 1 in
          if graph_retry_budget_exceeded retry then
            Ret (Err ("Instance " +:+ input_instance_id input +:+
                      " graph admission for origin transaction " +:+ origin_xid +:+
                      " failed: exceeded " +:+ show_N MAX_GRAPH_RETRY_ATTEMPTS +:+ " transient retries"))
          else
            after_poll (fun polls => poll_graph fuel' input origin_xid probe_input wait_attempt retry polls)
              input (transaction_poll_delay retry) wait_attempt retry polls_in_execution
      | Aborted =>
          Ret (Err (subject input origin_xid +:+ " aborted before its graph became visible"))
      | CommittedMissing =>
          Ret (Err (subject input origin_xid +:+
                    " committed but its instance graph is absent " +:+
                    "(the start may have been rolled back to a savepoint)"))
      end
  end.

Definition poll_fuel : nat := N.to_nat GRAPH_WAIT_POLLS_PER_EXECUTION.

Definition load_initial_graph (input : FunctionInput) : prog (result string string) :=
  match origin_xid input with
  | None => op (ScheduleActivity LOAD_GRAPH (input_instance_id input))
  | Some origin_xid =>
      let~? probe_input :=
        map_err (fun e => "Failed to serialize transaction-aware graph probe: " +:+ e)
          (to_json_res (mkLoadInput (input_instance_id input) origin_xid)) in
      poll_graph poll_fuel input origin_xid probe_input
        (graph_wait_attempt input) (graph_retry_attempt input) 0
  end.

(** ** Finalization *)

Definition instance_status_input (instance_id status : string) : string :=
  value_to_string (Object [("instance_id", JString instance_id); ("status", JString status)]).

Fixpoint finalize_go (fuel : nat) (status_input : string) (attempt : N) : prog unit :=
  match fuel with
  | O => Stop OutOfFuel
  | S fuel' =>
      let! r := op (ScheduleActivity UPDATE_INSTANCE status_input) in
      match r with
      | Ok _ => Ret tt
      | Err _ =>
          if (MAX_STATUS_FINALIZE_ATTEMPTS <=? attempt)%N then Ret tt
          else
            let! _ := op (ScheduleTimer (transaction_poll_delay attempt)) in
            finalize_go fuel' status_input (u32_saturating_add attempt 1)
      end
  end.

Definition finalize_fuel : nat := S (N.to_nat MAX_STATUS_FINALIZE_ATTEMPTS).

Definition finalize_instance_status (instance_id status : string) : prog unit :=
  finalize_go finalize_fuel (instance_status_input instance_id status) 0.
End Admission.

(** ** The handler monad *)

Abbreviation named_results := (gmap string string).
Definition M (A : Type) : Type := named_results -> prog (result A NodeError * named_results).

Definition ret {A} (a : A) : M A := fun s => Ret (Ok a, s).
Definition throw {A} (e : NodeError) : M A := fun s => Ret (Err e, s).
Definition bindM {A B} (m : M A) (k : A -> M B) : M B := fun s =>
  let! rs := m s in
  match fst rs with Ok a => k a (snd rs) | Err e => Ret (Err e, snd rs) end.
(** The result of [m] as a value: a [match] on the [Result] instead of [?]. *)
Definition attempt {A} (m : M A) : M (result A NodeError) := fun s =>
  let! rs := m s in Ret (Ok (fst rs), snd rs).
Definition lift {A} (p : prog A) : M A := fun s => let! a := p in Ret (Ok a, s).
Definition get_results : M named_results := fun s => Ret (Ok s, s).
Definition put_results (s : named_results) : M unit := fun _ => Ret (Ok tt, s).
(** [r?] for a [Result<_, NodeError>] and, through [From<String>], for a
    [Result<_, String>]. *)
Definition of_result {A} (r : result A NodeError) : M A := fun s => Ret (r, s).
Definition of_string_result {A} (r : result A string) : M A := of_result (map_err Failure r).
Definition panic {A} (msg : string) : M A := fun _ => Stop (Panicked msg).

(** [letM x := m in k] is [let x = m?; k]. *)
Notation "'letM' x ':=' m 'in' k" := (bindM m (fun x => k))
  (at level 10, x pattern, m at level 100, k at level 200) : rust_scope.

(** ** Node handlers *)

(** The [cron] crate, a dependency: parsing an expression with seconds, and the
    first tick after an instant. *)
Class CronCrate : Type := {
  cron_schedule : Type;
  cron_from_str : string -> result cron_schedule string;
  cron_next_after : cron_schedule -> Z -> option Z;
}.

(** A [cron] crate for witnesses: every expression ticks a nanosecond later. *)
Definition sample_cron : CronCrate :=
  {| cron_schedule := unit; cron_from_str := fun _ => Ok tt;
     cron_next_after := fun _ now => Some (now + 1)%Z |}.

Definition LOOP_MIN_ITER_DURATION : N := from_secs 1.
Definition MAX_LOOP_ITERATIONS : N := 8388608.

Definition LEGACY_BREAK_SENTINEL : string := "__break__".

Definition is_loop_type (t : string) : bool := eq_ignore_ascii_case t "loop".

Section Handlers.
Context {SJ : SerdeJson} {PE : PgEscape} {HD : HttpDeps} {CC : CronCrate}.

Context (ctx : OrchestrationContext) (graph : FunctionGraph) (exec_ctx : ExecutionContext).

(** *** Status stamps *)

Definition subtree_instance_id (child_root_node_id : string) : string :=
  compose_subtree_instance_id (ctx_instance_id ctx) (show_N (ctx_execution_id ctx))
    child_root_node_id.

Definition own_stamp : string := execution_stamp (ctx_instance_id ctx) (ctx_execution_id ctx).

Definition serialize_node_status_input (node_id instance_id status : string)
    (res : option string) (execution_id : string) : string :=
  value_to_string (Object (
    [("node_id", JString node_id); ("instance_id", JString instance_id); ("status", JString status)]
    ++ skip_none "result" res ++ [("execution_id", JString execution_id)])).

(** [let _ = ctx.schedule_activity(..).await;] *)
Definition fire_activity (name input : string) : M unit :=
  letM _ := lift (op (ScheduleActivity name input)) in ret tt.

Definition stamp_loop_node (instance_id loop_node_id status : string) (res : option string)
    (stamp : string) : M unit :=
  fire_activity UPDATE_NODE (value_to_string (Object (
    [("node_id", JString loop_node_id); ("instance_id", JString instance_id);
     ("status", JString status); ("execution_id", JString stamp)]
    ++ skip_none "result" res))).

Definition fail_loop_before_start {A} (loop_node_id error : string) : M A :=
  letM _ := stamp_loop_node (graph_instance_id graph) loop_node_id "failed" (Some error) own_stamp in
  throw (Failure error).

Definition fail_loop_child_future {A} (loop_node_id : string) (error : NodeError) : M A :=
  letM _ := stamp_loop_node (graph_instance_id graph) loop_node_id "failed" (Some (message error))
      (subtree_instance_id loop_node_id +:+ "::1") in
  throw error.

Definition store_named_result (node : FunctionNode) (res : string) : M unit :=
  match result_name node with
  | Some name => letM s := get_results in put_results (<[name := res]> s)
  | None => ret tt
  end.

(** *** Subtrees *)

Definition build_subtree_input (isolated : bool) (node_id : string) (results : named_results)
    : result string string :=
  let? g := map_err (fun e => "Failed to serialize graph: " +:+ e) (to_json_res graph) in
  let? rs := map_err (fun e => "Failed to serialize results: " +:+ e) (string_map_to_json results) in
  let? vs := map_err (fun e => "Failed to serialize vars: " +:+ e)
      (string_map_to_json (vars exec_ctx)) in
  map_err (fun e => "Failed to serialize subtree input: " +:+ e)
    (to_json_res (mkSubtreeInput (graph_instance_id graph) node_id g rs (Some vs) (label exec_ctx)
                  0 isolated)).

Definition parse_legacy_break_sentinel (raw : string) : option string :=
  v ← ok (value_from_str raw);
  if bool_decide ((get LEGACY_BREAK_SENTINEL v ≫= as_bool) = Some true)
  then Some (match get "value" v with Some x => value_to_string x | None => "null" end)
  else None.

(** The value of an envelope. *)
Definition envelope_result (e : SubtreeEnvelope) : NodeResult :=
  match control e with
  | Some ControlBreak => Err (Break (env_result e))
  | Some ControlNormal => Ok (env_result e)
  | None =>
      match parse_legacy_break_sentinel (env_result e) with
      | Some v => Err (Break v)
      | None => Ok (env_result e)
      end
  end.

Definition parse_subtree_envelope (raw context : string) : M string :=
  letM e := of_string_result (map_err (fun e => context +:+ " envelope parse error: " +:+ e)
                              (from_json (A := SubtreeEnvelope) raw)) in
  letM s := get_results in
  letM _ := put_results (env_results e ∪ s) in
  of_result (envelope_result e).

(** *** Leaf nodes *)

Definition sys_vars : SystemVars :=
  {| sys_instance_id := graph_instance_id graph; sys_label := label exec_ctx |}.

(** [schedule_activity(..).await.map_err(NodeError::Application)?] *)
Definition user_activity (name input : string) : M string :=
  letM r := lift (op (ScheduleActivity name input)) in of_result (map_err Application r).

Definition execute_sql_node (node : FunctionNode) (node_id : string) : M string :=
  letM q := of_string_result (ok_or (query node) ("SQL node " +:+ node_id +:+ " has no query")) in
  letM s := get_results in
  letM final_query := of_string_result (substitute_all_with_options q s (vars exec_ctx) sys_vars
      (Some (sql_quoting_version graph))) in
  letM res := user_activity EXECUTE_SQL (value_to_string (en_sql_input
      (mkSqlInput final_query (submitted_by node) (database node) (sql_quoting_version graph)))) in
  letM _ := store_named_result node res in
  ret res.

Definition slept (seconds : N) : string :=
  "{" +:+ String dquote ("slept" +:+ String dquote (": true, " +:+ String dquote ("seconds" +:+
      String dquote (": " +:+ show_N seconds +:+ "}")))).

Definition execute_sleep_node (node : FunctionNode) (node_id : string) : M string :=
  letM q := of_string_result (ok_or (query node) ("SLEEP node " +:+ node_id +:+ " has no duration")) in
  letM seconds := of_string_result (ok_or (parse_u64 q) ("Invalid sleep duration: " +:+ q)) in
  letM _ := lift (op (ScheduleTimer (from_secs seconds))) in
  ret (slept seconds).

Definition scheduled : string :=
  "{" +:+ String dquote ("scheduled" +:+ String dquote ": true}").

Definition execute_wait_schedule_node (node : FunctionNode) (node_id : string) : M string :=
  letM config_str := of_string_result
      (ok_or (query node) ("WAIT_SCHEDULE node " +:+ node_id +:+ " has no config")) in
  letM config := of_string_result
      (map_err (fun e => "Invalid WAIT_SCHEDULE config: " +:+ e) (value_from_str config_str)) in
  letM cron_expr := of_string_result
      (ok_or (as_str (index config "cron_expr")) "WAIT_SCHEDULE missing cron_expr") in
  letM now := lift (op UtcNow) in
  letM now := of_string_result
      (map_err (fun e => "WAIT_SCHEDULE failed to read deterministic clock: " +:+ e) now) in
  letM schedule := of_string_result
      (map_err (fun e => "Invalid cron expression '" +:+ cron_expr +:+ "': " +:+ e)
       (cron_from_str ("0 " +:+ cron_expr))) in
  letM next := of_string_result
      (ok_or (cron_next_after schedule now) ("No upcoming schedule found for '" +:+ cron_expr +:+ "'")) in
  letM _ := lift (op (ScheduleTimer (Z.to_N (next - now)))) in
  ret scheduled.

Definition execute_break_node (node : FunctionNode) : M string :=
  let break_value :=
    config ← (query node ≫= fun c => ok (value_from_str c)); get "break_value" config ≫= as_str in
  throw (Break (match break_value with
                | Some v => value_to_string
                      (match value_from_str v with Ok j => j | Err _ => JString v end)
                | None => "null"
                end)).

(** *** HTTP *)

(** [config["key"] = v], a panic when [config] is not an object. *)
Definition set_index (config : value) (key : string) (v : value) : M value :=
  match index_set config key v with
  | Some c => ret c
  | None => panic "cannot access key in JSON value"
  end.

Definition substitute_raw (s : string) : M string :=
  letM results := get_results in
  of_string_result (substitute_all_raw s results (vars exec_ctx) sys_vars).

(** A string field, substituted in place when present. *)
Definition substitute_field (key : string) (config : value) : M value :=
  match get key config ≫= as_str with
  | Some text => letM t := substitute_raw text in set_index config key (JString t)
  | None => ret config
  end.

Fixpoint substitute_header_values (headers : members) (keys : list string) (new : members)
    : M members :=
  match keys with
  | [] => ret new
  | key :: keys' =>
      match obj_get key headers with
      | Some (JString v) =>
          letM t := substitute_raw v in
          substitute_header_values headers keys' (obj_insert key (JString t) new)
      | Some v => substitute_header_values headers keys' (obj_insert key v new)
      | None => substitute_header_values headers keys' new
      end
  end.

Definition substitute_headers (config : value) : M value :=
  match get "headers" config ≫= as_object with
  | Some headers =>
      letM new := substitute_header_values headers (sort_strings (obj_keys headers)) [] in
      set_index config "headers" (Object new)
  | None => ret config
  end.

Definition send_http (activity : string) (node : FunctionNode) (config : value) : M string :=
  letM _ := of_result (map_err Application (check_http_request_size config false)) in
  match set_execution_context config (submitted_by node) (database node) with
  | None => panic "cannot access key in JSON value"
  | Some final_config =>
      letM res := user_activity activity (value_to_string final_config) in
      letM _ := store_named_result node res in
      ret res
  end.

Definition execute_http_node (node : FunctionNode) (node_id : string) : M string :=
  letM config_str := of_string_result
      (ok_or (query node) ("HTTP node " +:+ node_id +:+ " has no config")) in
  letM config := of_string_result
      (map_err (fun e => "Invalid HTTP config: " +:+ e) (value_from_str config_str)) in
  letM config := substitute_field "body" config in
  letM config := substitute_field "url" config in
  letM config := substitute_headers config in
  send_http EXECUTE_HTTP node config.

Definition substitute_part (node_id : string) (part : value) : M value :=
  letM part := substitute_field "name" part in
  letM part := substitute_field "filename" part in
  match get "data_b64" part ≫= as_str with
  | Some data =>
      if is_whole_value_reference data then substitute_field "data_b64" part
      else if contains_char "$" data || contains_char "{" data then
        throw (Failure ("HTTP_MULTIPART node " +:+ node_id +:+ ": data_b64 for part '" +:+
                        default "?" (get "name" part ≫= as_str) +:+ "' mixes a variable reference with other text. " +:+
                        "Only a whole-value reference is supported (e.g. data_b64 => '$result' or '{myvar}'), " +:+
                        "because splicing into base64 would corrupt the payload."))
      else ret part
  | None => ret part
  end.

Fixpoint substitute_parts (node_id : string) (parts : list value) : M (list value) :=
  match parts with
  | [] => ret []
  | p :: parts' =>
      letM p := substitute_part node_id p in
      letM ps := substitute_parts node_id parts' in
      ret (p :: ps)
  end.

Definition execute_http_multipart_node (node : FunctionNode) (node_id : string) : M string :=
  letM config_str := of_string_result
      (ok_or (query node) ("HTTP_MULTIPART node " +:+ node_id +:+ " has no config")) in
  letM config := of_string_result
      (map_err (fun e => "Invalid multipart HTTP config: " +:+ e) (value_from_str config_str)) in
  letM config := substitute_field "url" config in
  letM config := substitute_headers config in
  letM config :=
    match get "parts" config ≫= as_array with
    | Some parts =>
        letM new := substitute_parts node_id parts in set_index config "parts" (Array new)
    | None => ret config
    end in
  send_http EXECUTE_MULTIPART node config.

(** *** Signals *)

Definition parse_signal_data (s : string) : value :=
  match value_from_str s with Ok v => v | Err _ => JString s end.

Definition signal_result (signal_name : string) (timed_out : bool) (data : value) : string :=
  value_to_string (Object [("signal_name", JString signal_name); ("timed_out", Bool timed_out);
                           ("data", data)]).

Definition execute_signal_node (node : FunctionNode) (node_id : string) : M string :=
  letM config_str := of_string_result
      (ok_or (query node) ("SIGNAL node " +:+ node_id +:+ " has no config")) in
  letM config := of_string_result
      (map_err (fun e => "Invalid SIGNAL config: " +:+ e) (value_from_str config_str)) in
  letM signal_name := of_string_result
      (ok_or (as_str (index config "signal_name")) "Missing signal_name in SIGNAL config") in
  letM res :=
    match as_i64 (index config "timeout_seconds") with
    | Some timeout_secs =>
        letM signal_fut := lift (op (StartWait signal_name)) in
        letM timeout_fut := lift (op (StartTimer (from_secs (i64_as_u64 timeout_secs)))) in
        letM winner := lift (op (Select2WaitTimer signal_fut timeout_fut)) in
        ret (match winner with
             | First data => signal_result signal_name false (parse_signal_data data)
             | Second _ => signal_result signal_name true Null
             end)
    | None =>
        letM data := lift (op (ScheduleWait signal_name)) in
        ret (signal_result signal_name false (parse_signal_data data))
    end in
  letM _ := store_named_result node res in
  ret res.

(** *** Compound nodes

    [rec] is [execute_function_node_with_vars]. *)
Section Compound.
Context (rec : string -> M string).

Definition execute_then_node (node : FunctionNode) (node_id : string) : M string :=
  letM left_id := of_string_result
      (ok_or (left_node node) ("THEN node " +:+ node_id +:+ " has no left_node")) in
  letM right_id := of_string_result
      (ok_or (right_node node) ("THEN node " +:+ node_id +:+ " has no right_node")) in
  letM _ := rec left_id in
  letM right_result := rec right_id in
  letM _ := store_named_result node right_result in
  ret right_result.

(** The condition of an IF node. *)
Definition if_condition (config : value) : M bool :=
  if bool_decide (get "condition_type" config ≫= as_str = Some "result_has_rows") then
    letM name := of_string_result
        (ok_or (as_str (index config "result_name")) "df.if_rows: missing result_name") in
    letM s := get_results in
    letM result_json := of_string_result
        (ok_or (s !! name) ("df.if_rows: result '" +:+ name +:+ "' not found")) in
    letM parsed := of_string_result
        (map_err (fun e => "df.if_rows: invalid result JSON: " +:+ e) (value_from_str result_json)) in
    letM row_count := of_string_result
        (ok_or (get "row_count" parsed ≫= as_u64)
         ("df.if_rows: result '" +:+ name +:+ "' is not a SQL result (missing row_count)")) in
    ret (0 <? row_count)%N
  else
    letM condition_node_id := of_string_result
        (ok_or (as_str (index config "condition_node")) "IF node missing condition_node") in
    letM condition_result := rec condition_node_id in
    of_string_result (evaluate_condition condition_result).

Definition execute_if_node (node : FunctionNode) (node_id : string) : M string :=
  letM config_str := of_string_result
      (ok_or (query node) ("IF node " +:+ node_id +:+ " has no config")) in
  letM config := of_string_result
      (map_err (fun e => "Invalid IF config: " +:+ e) (value_from_str config_str)) in
  letM then_id := of_string_result
      (ok_or (left_node node) ("IF node " +:+ node_id +:+ " has no then branch")) in
  letM else_id := of_string_result
      (ok_or (right_node node) ("IF node " +:+ node_id +:+ " has no else branch")) in
  letM is_true := if_condition config in
  letM res := rec (if is_true : bool then then_id else else_id) in
  letM _ := store_named_result node res in
  ret res.

(** **** Loops *)

Definition parse_loop_config (node : FunctionNode) (node_id : string)
    : result LoopConfig string :=
  match query node with
  | Some q => map_err (fun e => "LOOP node " +:+ node_id +:+ ": failed to parse config: " +:+ e)
        (from_json (A := LoopConfig) q)
  | None => Ok (mkLoopConfig false None)
  end.

Definition evaluate_loop_condition (node : FunctionNode) (condition_node : option string)
    (body_result : string) : M (option string) :=
  match condition_node with
  | None => ret None
  | Some condition_node_id =>
      letM r := attempt (rec condition_node_id) in
      match r with
      | Ok condition_result =>
          let should_continue :=
            match evaluate_condition condition_result with Ok b => b | Err _ => false end in
          if should_continue then ret None
          else letM _ := store_named_result node body_result in ret (Some body_result)
      | Err (Break v) => letM _ := store_named_result node v in ret (Some v)
      | Err (Application e) | Err (Failure e) => throw (Failure e)
      end
  end.

Definition run_loop_iteration (node : FunctionNode) (body_id : string)
    (condition_node : option string) : M (option string) :=
  letM r := attempt (rec body_id) in
  match r with
  | Ok body_result => evaluate_loop_condition node condition_node body_result
  | Err (Break v) => letM _ := store_named_result node v in ret (Some v)
  | Err e => throw e
  end.

Definition classify_isolated_body_result (r : result string string)
    : M FailureIsolatedBodyOutcome :=
  match r with
  | Ok raw =>
      letM e := attempt (parse_subtree_envelope raw "LOOP iteration") in
      match e with
      | Ok body_result => ret (Succeeded body_result)
      | Err (Break v) => ret (BrokeOut v)
      | Err e => throw e
      end
  | Err error =>
      match decode_subtree_application_failure error with
      | Some _ => ret ApplicationFailed
      | None => throw (Failure error)
      end
  end.

Definition call_subtree (isolated : bool) (node_id : string) : M (result string string) :=
  letM s := get_results in
  letM input := of_string_result (build_subtree_input isolated node_id s) in
  lift (op (CallSubOrchestration SUBTREE_NAME (subtree_instance_id node_id) input)).

Definition run_failure_isolated_body (body_id : string) : M FailureIsolatedBodyOutcome :=
  letM r := call_subtree true body_id in classify_isolated_body_result r.

(** One iteration: the loop's result, or [None] when it goes on. *)
Definition loop_body (config : LoopConfig) (node : FunctionNode) (body_id : string)
    : M (option string) :=
  if continue_on_failure config then
    letM outcome := run_failure_isolated_body body_id in
    match outcome with
    | Succeeded body_result =>
        evaluate_loop_condition node (loop_condition_node config) body_result
    | ApplicationFailed => ret None
    | BrokeOut v => letM _ := store_named_result node v in ret (Some v)
    end
  else run_loop_iteration node body_id (loop_condition_node config).

(** The compensating timer. *)
Definition rate_limit (iter_started : option Z) : M unit :=
  match iter_started with
  | None => ret tt
  | Some started =>
      letM now := lift (op UtcNow) in
      match now with
      | Ok now =>
          let elapsed := Z.to_N (now - started) in
          if (elapsed <? LOOP_MIN_ITER_DURATION)%N
          then lift (op (ScheduleTimer (LOOP_MIN_ITER_DURATION - elapsed)))
          else ret tt
      | Err _ => ret tt
      end
  end.

(** The input of the next generation. *)
Definition next_input (node_id : string) (next_iteration : N) (s : named_results)
    : result string string :=
  let? graph_json := map_err (fun e => "Failed to serialize graph: " +:+ e) (to_json_res graph) in
  match continuation exec_ctx with
  | Root =>
      map_err (fun e => "Failed to serialize loop input: " +:+ e)
        (to_json_res (mkInput (graph_instance_id graph) (label exec_ctx) (vars exec_ctx)
                      next_iteration (Some graph_json) None 0 0))
  | Subtree =>
      let? rs := map_err (fun e => "Failed to serialize updated results: " +:+ e)
          (string_map_to_json s) in
      let? vs := map_err (fun e => "Failed to serialize vars: " +:+ e)
          (string_map_to_json (vars exec_ctx)) in
      map_err (fun e => "Failed to serialize loop input: " +:+ e)
        (to_json_res (mkSubtreeInput (graph_instance_id graph) node_id graph_json rs (Some vs)
                      (label exec_ctx) next_iteration (failure_isolated exec_ctx)))
  end.

Definition continue_as_new {A} (input : string) : M A := fun _ => Stop (ContinuedAsNew input).

Definition loop_again {A} (node_id : string) (iter_started : option Z) : M A :=
  let next_iteration := u64_wrapping_add (loop_iteration exec_ctx) 1 in
  if (MAX_LOOP_ITERATIONS <=? next_iteration)%N then
    throw (Failure ("Loop exceeded maximum iteration count of " +:+ show_N MAX_LOOP_ITERATIONS
                    +:+ ". Use df.break() to exit the loop or restructure the workflow."))
  else
    letM _ := rate_limit iter_started in
    letM s := get_results in
    letM input := of_string_result (next_input node_id next_iteration s) in
    continue_as_new input.

Definition execute_loop_node (node : FunctionNode) (node_id : string) : M string :=
  letM body_id := of_string_result
      (ok_or (left_node node) ("LOOP node " +:+ node_id +:+ " has no body")) in
  letM config := of_string_result (parse_loop_config node node_id) in
  letM started := lift (op UtcNow) in
  letM final_result := loop_body config node body_id in
  match final_result with
  | Some r => ret r
  | None => loop_again node_id (ok started)
  end.

Definition execute_loop_suborchestration (node : FunctionNode) (node_id : string) : M string :=
  match left_node node with
  | None => fail_loop_before_start node_id ("LOOP node " +:+ node_id +:+ " has no body")
  | Some _ =>
      letM s := get_results in
      match build_subtree_input (failure_isolated exec_ctx) node_id s with
      | Err e => fail_loop_before_start node_id e
      | Ok loop_input =>
          letM r := lift (op (CallSubOrchestration SUBTREE_NAME (subtree_instance_id node_id)
                              loop_input)) in
          match r with
          | Ok raw => parse_subtree_envelope raw "LOOP"
          | Err e =>
              fail_loop_child_future node_id
                (contextualize_subtree_failure "Loop sub-orchestration failed" e)
          end
      end
  end.

(** **** Branches *)

Definition node_is_loop (node_id : string) : bool :=
  match nodes graph !! node_id with Some n => is_loop_type (node_type n) | None => false end.

Definition start_subtree (node_id : string) : M fut :=
  letM s := get_results in
  letM input := of_string_result (build_subtree_input (failure_isolated exec_ctx) node_id s) in
  lift (op (StartSubOrchestration SUBTREE_NAME (subtree_instance_id node_id) input)).

Fixpoint start_subtrees (ids : list string) : M (list fut) :=
  match ids with
  | [] => ret []
  | i :: ids' =>
      letM f := start_subtree i in
      letM fs := start_subtrees ids' in
      ret (f :: fs)
  end.

Definition extra_branches (node : FunctionNode) : list string :=
  match query node ≫= fun q => ok (value_from_str q) with
  | Some config => omap as_str (default [] (as_array (index config "extra_nodes")))
  | None => []
  end.

Definition join_branch (i : nat) : string := "JOIN branch " +:+ show_nat (S i).

(** Raises or retains an error that concerns no loop branch. *)
Abbreviation selection := (option (NodeError * option string)).

Fixpoint join_results (branch_ids : list string) (i : nat) (rs : list (result string string))
    (acc : list value) (selected : selection) : M (list value * selection) :=
  match rs with
  | [] => ret (acc, selected)
  | r :: rs' =>
      let go := join_results branch_ids (S i) rs' in
      let retain error :=
        if failure_isolated exec_ctx
        then go acc (retain_higher_priority_join_error selected error None)
        else throw error in
      match r with
      | Ok raw =>
          letM e := attempt (parse_subtree_envelope raw (join_branch i)) in
          match e with
          | Ok branch_result =>
              match value_from_str branch_result with
              | Ok parsed => go (acc ++ [parsed]) selected
              | Err e => retain (Failure (join_branch i +:+ " result parse error: " +:+ e))
              end
          | Err error => retain error
          end
      | Err e =>
          let error := contextualize_subtree_failure (join_branch i +:+ " failed") e in
          match branch_ids !! i with
          | None => panic "index out of bounds"
          | Some branch_id =>
              let loop_node_id := if node_is_loop branch_id then Some branch_id else None in
              if failure_isolated exec_ctx
              then go acc (retain_higher_priority_join_error selected error loop_node_id)
              else
                match loop_node_id with
                | Some l => fail_loop_child_future l error
                | None => throw error
                end
          end
      end
  end.

Definition execute_join_node (node : FunctionNode) (node_id : string) : M string :=
  letM left_id := of_string_result
      (ok_or (left_node node) ("JOIN node " +:+ node_id +:+ " has no left branch")) in
  letM right_id := of_string_result
      (ok_or (right_node node) ("JOIN node " +:+ node_id +:+ " has no right branch")) in
  let branch_ids := left_id :: right_id :: extra_branches node in
  letM futures := start_subtrees branch_ids in
  letM rs := lift (op (Join futures)) in
  letM joined := join_results branch_ids 0 rs [] None in
  match snd joined with
  | Some (error, Some loop_node_id) => fail_loop_child_future loop_node_id error
  | Some (error, None) => throw error
  | None =>
      let res := value_to_string (Array (fst joined)) in
      letM _ := store_named_result node res in
      ret res
  end.

Definition cancel_losing_loop_branch (branch_node_id : string) : M unit :=
  if node_is_loop branch_node_id then
    stamp_loop_node (graph_instance_id graph) branch_node_id "failed"
      (Some "Loop branch cancelled after losing RACE")
      (subtree_instance_id branch_node_id +:+ "::1")
  else ret tt.

(** The outcome of a RACE: [winner] finished first, [loser] did not. *)
Definition race_outcome (side winner loser : string) (r : result string string) : M string :=
  letM _ := cancel_losing_loop_branch loser in
  match r with
  | Ok raw => ret raw
  | Err e =>
      let error := contextualize_subtree_failure ("RACE " +:+ side +:+ " branch failed") e in
      if node_is_loop winner then fail_loop_child_future winner error else throw error
  end.

Definition execute_race_node (node : FunctionNode) (node_id : string) : M string :=
  letM left_id := of_string_result
      (ok_or (left_node node) ("RACE node " +:+ node_id +:+ " has no left branch")) in
  letM right_id := of_string_result
      (ok_or (right_node node) ("RACE node " +:+ node_id +:+ " has no right branch")) in
  letM s := get_results in
  letM left_input := of_string_result
      (build_subtree_input (failure_isolated exec_ctx) left_id s) in
  letM right_input := of_string_result
      (build_subtree_input (failure_isolated exec_ctx) right_id s) in
  letM left_fut := lift (op (StartSubOrchestration SUBTREE_NAME (subtree_instance_id left_id)
                             left_input)) in
  letM right_fut := lift (op (StartSubOrchestration SUBTREE_NAME (subtree_instance_id right_id)
                              right_input)) in
  letM winner := lift (op (Select2Subs left_fut right_fut)) in
  letM raw := match winner with
    | First r => race_outcome "left" left_id right_id r
    | Second r => race_outcome "right" right_id left_id r
    end in
  letM res := parse_subtree_envelope raw "RACE branch" in
  letM _ := store_named_result node res in
  ret res.

(** *** One node *)

Definition execute_node_inner (node : FunctionNode) (node_id : string) : M string :=
  let t := to_lowercase (node_type node) in
  if String.eqb t "sql" then execute_sql_node node node_id
  else if String.eqb t "then" then execute_then_node node node_id
  else if String.eqb t "sleep" then execute_sleep_node node node_id
  else if String.eqb t "wait_schedule" then execute_wait_schedule_node node node_id
  else if String.eqb t "loop" then execute_loop_node node node_id
  else if String.eqb t "if" then execute_if_node node node_id
  else if String.eqb t "join" then execute_join_node node node_id
  else if String.eqb t "race" then execute_race_node node node_id
  else if String.eqb t "http" then execute_http_node node node_id
  else if String.eqb t "http_multipart" then execute_http_multipart_node node node_id
  else if String.eqb t "signal" then execute_signal_node node node_id
  else if String.eqb t "break" then execute_break_node node
  else throw (Failure ("Unknown node type: " +:+ t)).

(** What the final stamp records. *)
Definition final_status (r : NodeResult) : string * string :=
  match r with
  | Ok v => ("completed", v)
  | Err (Break v) => ("completed", v)
  | Err (Application e) | Err (Failure e) => ("failed", e)
  end.

Definition stamp_node (node_id status : string) (res : option string) : M unit :=
  fire_activity UPDATE_NODE
    (serialize_node_status_input node_id (graph_instance_id graph) status res own_stamp).

(** The body of [execute_function_node_with_vars]. *)
Definition execute_node_body (node_id : string) : M string :=
  letM node := of_string_result
      (ok_or (nodes graph !! node_id) ("Node not found: " +:+ node_id)) in
  if is_loop_type (node_type node) && negb (String.eqb node_id (subtree_root exec_ctx)) then
    execute_loop_suborchestration node node_id
  else
    letM _ := stamp_node node_id "running" None in
    letM execute_result := attempt (execute_node_inner node node_id) in
    let '(status, status_result) := final_status execute_result in
    letM _ := stamp_node node_id status (Some status_result) in
    of_result execute_result.
End Compound.

Fixpoint execute_function_node_with_vars (fuel : nat) (node_id : string) : M string :=
  match fuel with
  | O => fun _ => Stop OutOfFuel
  | S fuel' => execute_node_body (execute_function_node_with_vars fuel') node_id
  end.
End Handlers.

(** ** The orchestrations *)

Section Orchestrations.
Context {SJ : SerdeJson} {PE : PgEscape} {HD : HttpDeps} {CC : CronCrate}.

(** The recursion over the graph gets one level per node, which is enough for
    an acyclic graph. *)
Definition node_fuel (graph : FunctionGraph) : nat := S (size (nodes graph)).

Definition run_node (ctx : OrchestrationContext) (graph : FunctionGraph)
    (exec_ctx : ExecutionContext) (node_id : string) : M string :=
  execute_function_node_with_vars ctx graph exec_ctx (node_fuel graph) node_id.

Definition break_outside_loop : string :=
  "df.break() was called outside of a loop. df.break() may only be used inside df.loop().".

Definition function_result (r : NodeResult) : result string string :=
  match r with
  | Ok v => Ok v
  | Err (Application e) | Err (Failure e) => Err e
  | Err (Break _) => Err break_outside_loop
  end.

(** From the parsed graph on. *)
Definition execute_graph (ctx : OrchestrationContext) (input : FunctionInput)
    (graph : FunctionGraph) : prog (result string string) :=
  let! _ := op (ScheduleActivity UPDATE_INSTANCE
                (instance_status_input (input_instance_id input) "running")) in
  let exec_ctx := mkExecCtx (input_vars input) (input_label input) false
      (input_loop_iteration input) (root_node_id graph) Root in
  let! outcome := run_node ctx graph exec_ctx (root_node_id graph) ∅ in
  let function_result := function_result (fst outcome) in
  let! _ := finalize_instance_status (input_instance_id input)
      (if is_ok function_result then "completed" else "failed") in
  Ret function_result.

(** Parsing the graph: a failure here is returned as it is. *)
Definition execute_graph_json (ctx : OrchestrationContext) (input : FunctionInput)
    (graph_json : string) : prog (result string string) :=
  let~? graph := map_err (fun e => "Failed to parse function graph: " +:+ e)
      (from_json (A := FunctionGraph) graph_json) in
  execute_graph ctx input graph.

Definition execute (ctx : OrchestrationContext) (input_json : string)
    : prog (result string string) :=
  let~? input := map_err (fun e => "Invalid orchestration input: " +:+ e)
      (from_json (A := FunctionInput) input_json) in
  match input_graph input with
  | Some json => execute_graph_json ctx input json
  | None =>
      let! loaded := load_initial_graph input in
      match loaded with
      | Ok json => execute_graph_json ctx input json
      | Err e =>
          let! _ := finalize_instance_status (input_instance_id input) "failed" in
          Ret (Err e)
      end
  end.

(** The parts of a subtree's input that are text themselves. *)
Definition parse_subtree (input : SubtreeInput)
    : result (FunctionGraph * gmap string string * gmap string string) string :=
  let? graph := map_err (fun e => "Failed to parse graph in ExecuteSubtree: " +:+ e)
      (from_json (A := FunctionGraph) (sub_graph input)) in
  let? results := map_err (fun e => "Failed to parse results in ExecuteSubtree: " +:+ e)
      (from_json (A := gmap string string) (sub_results input)) in
  let? vars :=
    match sub_vars input with
    | Some v => map_err (fun e => "Failed to parse vars in ExecuteSubtree: " +:+ e)
          (from_json (A := gmap string string) v)
    | None => Ok ∅
    end in
  Ok (graph, results, vars).

Definition subtree_outcome (outcome : NodeResult * named_results) : result string string :=
  let envelope control res := to_json (mkEnvelope (Some control) res (snd outcome)) in
  match fst outcome with
  | Ok res => Ok (envelope ControlNormal res)
  | Err (Break v) => Ok (envelope ControlBreak v)
  | Err (Application e) => Err (encode_subtree_application_failure e)
  | Err (Failure e) => Err e
  end.

Definition execute_subtree (ctx : OrchestrationContext) (input_json : string)
    : prog (result string string) :=
  let~? input := map_err (fun e => "Failed to parse ExecuteSubtree input: " +:+ e)
      (from_json (A := SubtreeInput) input_json) in
  match parse_subtree input with
  | Err e =>
      let! _ := op (ScheduleActivity UPDATE_NODE
                    (serialize_node_status_input (sub_node_id input) (sub_instance_id input) "failed" (Some e)
                     (own_stamp ctx))) in
      Ret (Err e)
  | Ok (graph, results, vars) =>
      let exec_ctx := mkExecCtx vars (sub_label input) (sub_failure_isolated input)
          (sub_iteration input) (sub_node_id input) Subtree in
      let! outcome := run_node ctx graph exec_ctx (sub_node_id input) results in
      Ret (subtree_outcome outcome)
  end.
End Orchestrations.
