(* ===== verification/OrchestrationFacts.v ===== *)
(** A program logic for handlers.

    [within T S E m] bounds every run of a handler: all its events satisfy [T],
    it stops only as [S] allows, and the errors it returns satisfy [E].  One rule
    per construct of the monad, and one per handler, the latter parameterized by
    what the recursive call satisfies. *)
From S2P Require Import Prelude RustString Json Durable Substitution Graph Lineage HttpConfig.
From S2P Require Import Admission Orchestration.

(** ** Runs of the monad's constructs *)

Lemma runs_bindM {A B} (m : M A) (k : A -> M B) s tr o :
  runs (bindM m k s) tr o <->
  (exists tr1 tr2 a s1, tr = tr1 ++ tr2 /\ runs (m s) tr1 (Done (Ok a, s1)) /\ runs (k a s1) tr2 o) \/
  (exists e s1, o = Done (Err e, s1) /\ runs (m s) tr (Done (Err e, s1))) \/
  (exists st, o = Stopped st /\ runs (m s) tr (Stopped st)).
Proof.
  unfold bindM. rewrite runs_bind. split.
  - intros [(tr1 & tr2 & [[a|e] s1] & -> & H1 & H2)|(st & -> & H)].
    + left. eauto 10.
    + destruct H2 as [-> ->]. right; left. rewrite app_nil_r. eauto.
    + eauto.
  - intros [(tr1 & tr2 & a & s1 & -> & H1 & H2)|[(e & s1 & -> & H)|(st & -> & H)]].
    + left. by exists tr1, tr2, (Ok a, s1).
    + left. exists tr, [], (Err e, s1). by rewrite app_nil_r.
    + right. eauto.
Qed.

Lemma runs_attempt {A} (m : M A) s tr o :
  runs (attempt m s) tr o <->
  (exists r s1, o = Done (Ok r, s1) /\ runs (m s) tr (Done (r, s1))) \/
  (exists st, o = Stopped st /\ runs (m s) tr (Stopped st)).
Proof.
  unfold attempt. rewrite runs_bind. split.
  - intros [(tr1 & tr2 & [r s1] & -> & H1 & [-> ->])|(st & -> & H)]; [|eauto].
    left. rewrite app_nil_r. eauto.
  - intros [(r & s1 & -> & H)|(st & -> & H)]; [|eauto].
    left. exists tr, [], (r, s1). by rewrite app_nil_r.
Qed.

(** [r?] on a known result, [let m = attempt]: the continuation directly. *)
Lemma runs_op_bindM {B} c (k : resp c -> M B) s tr o :
  runs (bindM (lift (op c)) k s) tr o <-> exists r tr', tr = Ev c r :: tr' /\ runs (k r s) tr' o.
Proof. done. Qed.

Lemma runs_fire_bindM {B} name input (k : unit -> M B) s tr o :
  runs (bindM (fire_activity name input) k s) tr o <->
  exists r tr', tr = Ev (ScheduleActivity name input) r :: tr' /\ runs (k tt s) tr' o.
Proof. done. Qed.

Section Within.
Context (T : event -> Prop) (S : stop -> Prop) (E : NodeError -> Prop).

Definition outcome_within {A} (o : outcome (result A NodeError * named_results)) : Prop :=
  match o with
  | Done (Ok _, _) => True
  | Done (Err e, _) => E e
  | Stopped st => S st
  end.

Definition within {A} (m : M A) : Prop :=
  forall s tr o, runs (m s) tr o -> Forall T tr /\ outcome_within o.
End Within.

Create HintDb within.

Section Rules.
Context (T : event -> Prop) (S : stop -> Prop) (E : NodeError -> Prop).

Lemma within_ret {A} (a : A) : within T S E (ret a).
Proof. intros s tr o [-> ->]. done. Qed.

Lemma within_throw {A} e : E e -> within T S E (throw (A := A) e).
Proof. intros He s tr o [-> ->]. done. Qed.

Lemma within_bind {A B} (m : M A) (k : A -> M B) :
  within T S E m -> (forall a, within T S E (k a)) -> within T S E (bindM m k).
Proof.
  intros Hm Hk s tr o [(tr1 & tr2 & [r s'] & -> & H1 & H2)|(st & -> & H)]%runs_bind.
  - apply Hm in H1 as [HT Ho]. simpl in H2. destruct r as [a|e].
    + apply Hk in H2 as [HT2 Ho2]. split; [by apply Forall_app|done].
    + destruct H2 as [-> ->]. by rewrite app_nil_r.
  - by apply Hm in H.
Qed.

Lemma within_attempt {A} (m : M A) (E' : NodeError -> Prop) :
  within T S E' m -> within T S E (attempt m).
Proof.
  intros Hm s tr o [(tr1 & tr2 & [r s'] & -> & H1 & [-> ->])|(st & -> & H)]%runs_bind.
  - apply Hm in H1 as [HT _]. by rewrite app_nil_r.
  - by apply Hm in H.
Qed.

(** After [attempt] the continuation sees an error only if [m] may return it. *)
Lemma within_attempt_bind {A B} (m : M A) (E' : NodeError -> Prop) (k : result A NodeError -> M B) :
  within T S E' m ->
  (forall a, within T S E (k (Ok a))) -> (forall e, E' e -> within T S E (k (Err e))) ->
  within T S E (bindM (attempt m) k).
Proof.
  intros Hm Hok Herr s tr o [(tr1 & tr2 & [r s'] & -> & H1 & H2)|(st & -> & H)]%runs_bind.
  - apply runs_bind in H1 as [(tr3 & tr4 & [r' s''] & -> & H3 & [-> [= -> ->]])|(st & [=] & _)].
    apply Hm in H3 as [HT Ho]. rewrite app_nil_r. simpl in H2. destruct r' as [a|e].
    + apply Hok in H2 as [HT2 Ho2]. split; [by apply Forall_app|done].
    + apply (Herr e Ho) in H2 as [HT2 Ho2]. split; [by apply Forall_app|done].
  - apply runs_bind in H as [(tr3 & tr4 & rs & -> & H3 & [_ [=]])|(st' & [= <-] & H)].
    by apply Hm in H.
Qed.

Lemma within_op c : (forall r, T (Ev c r)) -> within T S E (lift (op c)).
Proof.
  intros HT s tr o (r & tr' & -> & [-> ->]). split; [|done]. by constructor.
Qed.

Lemma within_get : within T S E get_results.
Proof. intros s tr o [-> ->]. done. Qed.

Lemma within_put s0 : within T S E (put_results s0).
Proof. intros s tr o [-> ->]. done. Qed.

Lemma within_of_result {A} (r : result A NodeError) :
  (forall e, r = Err e -> E e) -> within T S E (of_result r).
Proof. intros He s tr o [-> ->]. destruct r; simpl; auto. Qed.

Lemma within_of_string_result {A} (r : result A string) :
  (forall e, r = Err e -> E (Failure e)) -> within T S E (of_string_result r).
Proof. intros He. apply within_of_result. destruct r; simpl; intros e' [= <-]. auto. Qed.

(** [r?] goes on only when [r] succeeds. *)
Lemma within_result_bind {A B} (r : result A NodeError) (k : A -> M B) :
  (forall e, r = Err e -> E e) -> (forall a, r = Ok a -> within T S E (k a)) ->
  within T S E (bindM (of_result r) k).
Proof.
  intros He Hk. destruct r as [a|e].
  - intros s tr o H. by apply (Hk a eq_refl s tr o).
  - intros s tr o [-> ->]. split; [done|]. by apply He.
Qed.

Lemma within_string_result_bind {A B} (r : result A string) (k : A -> M B) :
  (forall e, r = Err e -> E (Failure e)) -> (forall a, r = Ok a -> within T S E (k a)) ->
  within T S E (bindM (of_string_result r) k).
Proof.
  intros He Hk. apply within_result_bind; destruct r; simpl; intros ? [= <-]; eauto.
Qed.

Lemma within_panic {A} msg : S (Panicked msg) -> within T S E (panic (A := A) msg).
Proof. intros H s tr o [-> ->]. done. Qed.

Lemma within_stop {A} input : S (ContinuedAsNew input) -> within T S E (continue_as_new (A := A) input).
Proof. intros H s tr o [-> ->]. done. Qed.

Lemma within_mono {A} (m : M A) (T' : event -> Prop) (S' : stop -> Prop) (E' : NodeError -> Prop) :
  within T' S' E' m -> (forall e, T' e -> T e) -> (forall st, S' st -> S st) ->
  (forall e, E' e -> E e) -> within T S E m.
Proof.
  intros Hm HT HS HE s tr o [Ht Ho]%Hm. split; [by eapply Forall_impl|].
  destruct o as [[[a|e] s']|st]; simpl in *; auto.
Qed.
End Rules.

#[export] Hint Resolve within_ret within_get within_put : within.

(** What a handler returns when it succeeds. *)
Section Returns.
Definition returns {A} (P : A -> Prop) (m : M A) : Prop :=
  forall s tr a s', runs (m s) tr (Done (Ok a, s')) -> P a.

Lemma returns_ret {A} (P : A -> Prop) a : P a -> returns P (ret a).
Proof. intros H s tr a' s' [_ [= -> _]]. done. Qed.
Lemma returns_throw {A} (P : A -> Prop) e : returns P (throw e).
Proof. intros s tr a' s' [_ [=]]. Qed.
Lemma returns_panic {A} (P : A -> Prop) msg : returns P (panic msg).
Proof. intros s tr a' s' [_ [=]]. Qed.
Lemma returns_bind {A B} (P : B -> Prop) (m : M A) (k : A -> M B) :
  (forall a, returns P (k a)) -> returns P (bindM m k).
Proof.
  intros Hk s tr b s' [(? & ? & a & s1 & _ & _ & H)|[(? & ? & [=] & _)|(? & [=] & _)]]%runs_bindM.
  by apply Hk in H.
Qed.

Lemma within_bind_returns {A B} T S E (P : A -> Prop) (m : M A) (k : A -> M B) :
  within T S E m -> returns P m -> (forall a, P a -> within T S E (k a)) ->
  within T S E (bindM m k).
Proof.
  intros Hm Hr Hk s tr o
    [(tr1 & tr2 & a & s1 & -> & H1 & H2)|[(e & s1 & -> & H)|(st & -> & H)]]%runs_bindM.
  - pose proof (Hr _ _ _ _ H1) as Ha. apply Hm in H1 as [HT _]. apply (Hk a Ha) in H2 as [HT2 Ho].
    split; [by apply Forall_app|done].
  - by apply Hm in H.
  - by apply Hm in H.
Qed.
End Returns.

(** Reads a successful [Result] back to what made it succeed. *)
Ltac simp_ok :=
  repeat match goal with
  | H : ok_or _ _ = Ok _ |- _ => apply ok_or_ok in H
  | H : map_err _ _ = Ok _ |- _ => apply map_err_ok in H
  end.

(** Takes a handler apart along its constructs; stops at calls that have a rule
    of their own in the database. *)
Ltac within_step :=
  match goal with
  | |- within _ _ _ (match ?x with _ => _ end) => destruct x eqn:?
  | |- within _ _ _ (let '(_, _) := ?x in _) => destruct x eqn:?
  | |- within _ _ _ (let x := _ in _) => cbv zeta
  | |- within _ _ _ (bindM (of_string_result _) _) =>
      apply within_string_result_bind; [intros ? ?|intros ? ?; simp_ok]
  | |- within _ _ _ (bindM (of_result _) _) =>
      apply within_result_bind; [intros ? ?|intros ? ?; simp_ok]
  | |- within _ _ _ (bindM _ _) => apply within_bind; [|intros ?]
  | |- within _ _ _ (ret _) => apply within_ret
  | |- within _ _ _ (throw _) => apply within_throw
  | |- within _ _ _ get_results => apply within_get
  | |- within _ _ _ (put_results _) => apply within_put
  | |- within _ _ _ (of_string_result _) => apply within_of_string_result; intros ? ?
  | |- within _ _ _ (of_result _) => apply within_of_result; intros ? ?
  | |- within _ _ _ (lift (op ?c)) => refine (within_op _ _ _ c _); intros ?
  | |- within _ _ _ (panic _) => apply within_panic
  | |- within _ _ _ (continue_as_new _) => apply within_stop
  end.
Ltac within := repeat (first [progress (eauto with within) | within_step]).

(** ** What an orchestration may do *)

Section Allowed.
Context {SJ : SerdeJson}.
Context (ctx : OrchestrationContext) (graph : FunctionGraph) (scope : string -> Prop).

(** The stamps this orchestration writes: its own, or the first generation of
    a child it answers for. *)
Definition own_or_child_stamp (stamp : string) : Prop :=
  stamp = own_stamp ctx \/ exists child, stamp = subtree_instance_id ctx child +:+ "::1".

(** The operations of an orchestration that runs [graph] as [ctx] and concerns
    itself with the nodes in [scope]. *)
Inductive allowed : dop -> Prop :=
  | allow_node_status v node_id status stamp :
      get "instance_id" v = Some (JString (graph_instance_id graph)) ->
      get "node_id" v = Some (JString node_id) -> get "status" v = Some (JString status) ->
      get "execution_id" v = Some (JString stamp) -> own_or_child_stamp stamp ->
      scope node_id ->
      allowed (ScheduleActivity UPDATE_NODE (value_to_string v))
  | allow_sql i node q :
      nodes graph !! i = Some node ->
      allowed (ScheduleActivity EXECUTE_SQL (value_to_string (en_sql_input
          (mkSqlInput q (submitted_by node) (database node) (sql_quoting_version graph)))))
  | allow_http i node activity v :
      activity = EXECUTE_HTTP \/ activity = EXECUTE_MULTIPART ->
      nodes graph !! i = Some node -> get "submitted_by" v = Some (JString (submitted_by node)) ->
      (resolves_objects v -> get "database" v = Some (en_opt_string (database node))) ->
      allowed (ScheduleActivity activity (value_to_string v))
  | allow_timer d : allowed (ScheduleTimer d)
  | allow_wait x : allowed (ScheduleWait x)
  | allow_now : allowed UtcNow
  | allow_call child x :
      sub_instance_id x = graph_instance_id graph -> sub_node_id x = child ->
      sub_graph x = to_json graph -> scope child ->
      allowed (CallSubOrchestration SUBTREE_NAME (subtree_instance_id ctx child) (to_json x))
  | allow_start child x :
      sub_instance_id x = graph_instance_id graph -> sub_node_id x = child ->
      sub_graph x = to_json graph -> scope child ->
      allowed (StartSubOrchestration SUBTREE_NAME (subtree_instance_id ctx child) (to_json x))
  | allow_start_timer d : allowed (StartTimer d)
  | allow_start_wait x : allowed (StartWait x)
  | allow_join fs : allowed (Join fs)
  | allow_select_subs a b : allowed (Select2Subs a b)
  | allow_select_wait a b : allowed (Select2WaitTimer a b).
End Allowed.

#[export] Hint Constructors allowed : within.

(** The ids a node's handler may recurse into: both references, and the
    condition in the config of an IF or a LOOP node. *)
Definition if_children `{SerdeJson} (node : FunctionNode) : list string :=
  option_list ((query node ≫= fun q => ok (value_from_str q)) ≫= fun c => as_str (index c "condition_node")).
Definition loop_children `{SerdeJson} (node : FunctionNode) : list string :=
  option_list (ok (parse_loop_config node "") ≫= loop_condition_node).
Definition config_children `{SerdeJson} (node : FunctionNode) : list string :=
  let t := to_lowercase (node_type node) in
  (if String.eqb t "if" then if_children node else [])
  ++ (if String.eqb t "loop" then loop_children node else []).
Definition inline_children `{SerdeJson} (node : FunctionNode) : list string :=
  option_list (left_node node) ++ option_list (right_node node) ++ config_children node.

(** All children of a node: those, and the further branches of a JOIN, which
    like the other branches run as subtrees of their own. *)
Definition join_children `{SerdeJson} (node : FunctionNode) : list string :=
  if String.eqb (to_lowercase (node_type node)) "join" then extra_branches node else [].
Definition child_links `{SerdeJson} (node : FunctionNode) : list string :=
  inline_children node ++ join_children node.

Lemma left_child `{SerdeJson} node c : left_node node = Some c -> c ∈ inline_children node.
Proof. intros H1. unfold inline_children. rewrite H1. set_solver. Qed.
Lemma right_child `{SerdeJson} node c : right_node node = Some c -> c ∈ inline_children node.
Proof. intros H1. unfold inline_children. rewrite H1. set_solver. Qed.

Lemma loop_condition_child `{SerdeJson} node node_id config c :
  to_lowercase (node_type node) = "loop" ->
  parse_loop_config node node_id = Ok config -> loop_condition_node config = Some c ->
  c ∈ inline_children node.
Proof.
  intros Ht Hp Hc. unfold inline_children, config_children. rewrite Ht. do 3 (apply elem_of_app; right).
  change (String.eqb "loop" "loop") with true. cbv iota.
  unfold loop_children, parse_loop_config in *. destruct (query node) as [q|]; [|by simplify_eq].
  apply map_err_ok in Hp as ->. simpl. rewrite Hc. set_solver.
Qed.

Lemma if_condition_child `{SerdeJson} node q config c :
  to_lowercase (node_type node) = "if" -> query node = Some q -> value_from_str q = Ok config ->
  as_str (index config "condition_node") = Some c -> c ∈ inline_children node.
Proof.
  intros Ht Hq Hv Hc. unfold inline_children, config_children, if_children.
  rewrite Ht, Hq. simpl. rewrite Hv. simpl. rewrite Hc. set_solver.
Qed.

(** Proves that an id read out of a node is one of its children. *)
Ltac inline_child :=
  try case_match; eauto using left_child, right_child, if_condition_child, loop_condition_child.

Lemma inline_link `{SerdeJson} node c : c ∈ inline_children node -> c ∈ child_links node.
Proof. intros H1. apply elem_of_app. by left. Qed.
Lemma extra_link `{SerdeJson} node c :
  to_lowercase (node_type node) = "join" -> c ∈ extra_branches node -> c ∈ child_links node.
Proof. intros Ht Hc. apply elem_of_app. right. unfold join_children. by rewrite Ht. Qed.

Lemma to_lowercase_ascii s :
  str_forall (fun c => byte_of c <? 128)%N s = true -> to_lowercase s = to_ascii_lowercase s.
Proof.
  unfold to_lowercase, to_ascii_lowercase. induction s as [|c s IH]; [done|].
  cbn [str_forall rewrite_go str_map]. intros [Hc Hs]%andb_true_iff.
  assert (Hn : strip_prefix (bytes [226; 132; 170]%N) (String c s) = None).
  { cbn [bytes fold_right strip_prefix]. destruct (Ascii.eqb_spec (ascii_of_N 226) c) as [<-|]; [|done].
    vm_compute in Hc. done. }
  cbn [first_rewrite]. rewrite Hn. by rewrite IH.
Qed.

Lemma ascii_lower_ascii c : (byte_of (ascii_lower c) <? 128)%N = true -> (byte_of c <? 128)%N = true.
Proof. destruct c as [[] [] [] [] [] [] [] []]; vm_compute; auto. Qed.

Lemma str_forall_lower s :
  str_forall (fun c => byte_of c <? 128)%N (to_ascii_lowercase s) = true ->
  str_forall (fun c => byte_of c <? 128)%N s = true.
Proof.
  induction s as [|c s IH]; [done|]. cbn. intros [Hc Hs]%andb_true_iff.
  apply andb_true_iff. split; [by apply ascii_lower_ascii|by apply IH].
Qed.

(** The two spellings of "is this a loop" in the source agree. *)
Lemma is_loop_type_lowercase t : is_loop_type t = true -> to_lowercase t = "loop".
Proof.
  unfold is_loop_type, eq_ignore_ascii_case. intros H%String.eqb_eq.
  change (to_ascii_lowercase "loop") with "loop" in H.
  rewrite to_lowercase_ascii; [done|]. apply str_forall_lower. by rewrite H.
Qed.

Section HandlerRules.
Context {SJ : SerdeJson} {PE : PgEscape} {HD : HttpDeps} {CC : CronCrate}.
Context (ctx : OrchestrationContext) (graph : FunctionGraph) (exec_ctx : ExecutionContext).
Context (S : stop -> Prop) (E : NodeError -> Prop).
Context (HSp : forall m, S (Panicked m)) (HSc : forall i, S (ContinuedAsNew i)).
Context (Hf : forall e, E (Failure e)) (Ha : forall e, E (Application e)).
Context (scope : string -> Prop).

Let T (e : event) : Prop := allowed ctx graph scope (ev_op e).

Hint Resolve HSp HSc Hf Ha : within.
Hint Extern 1 (T _) => (unfold T; cbn [ev_op]) : within.

Lemma within_fire name input :
  allowed ctx graph scope (ScheduleActivity name input) -> within T S E (fire_activity name input).
Proof. intros H. unfold fire_activity. within. Qed.

Lemma within_stamp_node node_id status res :
  scope node_id -> within T S E (stamp_node ctx graph node_id status res).
Proof.
  intros Hs. apply within_fire. eapply allow_node_status; [..|by left|done];
    unfold get; simpl; try reflexivity; by destruct res.
Qed.

Lemma within_stamp_loop_node node_id status res stamp :
  own_or_child_stamp ctx stamp -> scope node_id ->
  within T S E (stamp_loop_node (graph_instance_id graph) node_id status res stamp).
Proof. intros H Hs. apply within_fire. by eapply allow_node_status. Qed.

Lemma within_fail_before {A} node_id error :
  scope node_id -> within T S E (fail_loop_before_start ctx graph (A := A) node_id error).
Proof.
  intros Hs. unfold fail_loop_before_start. apply within_bind; [|intros; within].
  apply within_stamp_loop_node; [by left|done].
Qed.

Lemma within_fail_child {A} node_id error :
  E error -> scope node_id -> within T S E (fail_loop_child_future ctx graph (A := A) node_id error).
Proof.
  intros He Hs. unfold fail_loop_child_future. apply within_bind; [|intros; within].
  apply within_stamp_loop_node; [|done]. right. by eexists.
Qed.

Lemma within_store node res : within T S E (store_named_result node res).
Proof. unfold store_named_result. within. Qed.

Hint Resolve within_stamp_node within_fail_before within_fail_child within_store : within.

Lemma within_user_activity name input :
  allowed ctx graph scope (ScheduleActivity name input) -> within T S E (user_activity name input).
Proof.
  intros H. unfold user_activity. within.
  match goal with H : map_err Application ?r = _ |- _ => destruct r; simpl in H; simplify_eq end.
  auto.
Qed.

Lemma build_subtree_input_ok isolated i s input :
  build_subtree_input graph exec_ctx isolated i s = Ok input ->
  exists x, input = to_json x /\ sub_instance_id x = graph_instance_id graph /\
  sub_node_id x = i /\ sub_graph x = to_json graph.
Proof. unfold build_subtree_input. intros [= <-]. by eexists. Qed.

(** Calling and starting a subtree from its serialized input. *)
Lemma allowed_call isolated i s input :
  build_subtree_input graph exec_ctx isolated i s = Ok input -> scope i ->
  allowed ctx graph scope (CallSubOrchestration SUBTREE_NAME (subtree_instance_id ctx i) input).
Proof. intros (x & -> & H1 & H2 & H3)%build_subtree_input_ok Hs. by apply allow_call. Qed.

Lemma allowed_start isolated i s input :
  build_subtree_input graph exec_ctx isolated i s = Ok input -> scope i ->
  allowed ctx graph scope (StartSubOrchestration SUBTREE_NAME (subtree_instance_id ctx i) input).
Proof. intros (x & -> & H1 & H2 & H3)%build_subtree_input_ok Hs. by apply allow_start. Qed.
Hint Resolve allowed_call allowed_start : within.

(** *** Leaf nodes *)

Lemma within_sql i node : nodes graph !! i = Some node ->
  within T S E (execute_sql_node graph exec_ctx node i).
Proof.
  intros Hn. unfold execute_sql_node. within. apply within_user_activity. by eapply allow_sql.
Qed.

Lemma within_sleep node i : within T S E (execute_sleep_node node i).
Proof. unfold execute_sleep_node. within. Qed.

Lemma within_wait_schedule node i : within T S E (execute_wait_schedule_node node i).
Proof. unfold execute_wait_schedule_node. within. Qed.

Lemma within_signal node i : within T S E (execute_signal_node node i).
Proof. unfold execute_signal_node. within. Qed.

Lemma within_set_index c k v : within T S E (set_index c k v).
Proof. unfold set_index. within. Qed.
Lemma within_substitute_raw s : within T S E (substitute_raw graph exec_ctx s).
Proof. unfold substitute_raw. within. Qed.
Hint Resolve within_set_index within_substitute_raw : within.

Lemma within_substitute_field k c : within T S E (substitute_field graph exec_ctx k c).
Proof. unfold substitute_field. within. Qed.
Hint Resolve within_substitute_field : within.

Lemma within_header_values h keys new :
  within T S E (substitute_header_values graph exec_ctx h keys new).
Proof.
  revert new. induction keys as [|key keys IH]; intros new; simpl; [within|].
  destruct (obj_get key h) as [[]|]; within.
Qed.
Hint Resolve within_header_values : within.

Lemma within_headers c : within T S E (substitute_headers graph exec_ctx c).
Proof. unfold substitute_headers. within. Qed.
Hint Resolve within_headers : within.

Lemma within_send_http activity i node c :
  activity = EXECUTE_HTTP \/ activity = EXECUTE_MULTIPART -> nodes graph !! i = Some node ->
  within T S E (send_http activity node c).
Proof.
  intros Hact Hn. unfold send_http. apply within_bind.
  - within. match goal with H : map_err Application ?r = _ |- _ => destruct r; simpl in H; simplify_eq end.
    auto.
  - intros _. destruct (set_execution_context c _ _) as [c'|] eqn:Hc; [|within].
    apply within_bind; [|intros; within]. apply within_user_activity.
    apply execution_context_sent in Hc as [Hs Hd]. by eapply allow_http.
Qed.

Lemma within_http i node : nodes graph !! i = Some node ->
  within T S E (execute_http_node graph exec_ctx node i).
Proof. intros Hn. unfold execute_http_node. within. eapply within_send_http; [by left|done]. Qed.

Lemma within_part i p : within T S E (substitute_part graph exec_ctx i p).
Proof. unfold substitute_part. within. Qed.
Hint Resolve within_part : within.

Lemma within_parts i ps : within T S E (substitute_parts graph exec_ctx i ps).
Proof. induction ps as [|p ps IH]; simpl; within. Qed.
Hint Resolve within_parts : within.

Lemma within_http_multipart i node : nodes graph !! i = Some node ->
  within T S E (execute_http_multipart_node graph exec_ctx node i).
Proof.
  intros Hn. unfold execute_http_multipart_node. within.
  eapply within_send_http; [by right|done].
Qed.

Lemma within_parse_envelope (E' : NodeError -> Prop) raw context :
  (forall e, E' e) -> within T S E' (parse_subtree_envelope raw context).
Proof. intros HE. unfold parse_subtree_envelope. within. Qed.

(** *** Compound nodes *)

Context (rec : string -> M string).

Lemma within_then node i : (forall e, E e) ->
  (forall j, j ∈ inline_children node -> within T S E (rec j)) ->
  within T S E (execute_then_node rec node i).
Proof.
  intros HE Hrec. unfold execute_then_node. within; apply Hrec; inline_child.
Qed.

Lemma within_if node i : (forall e, E e) -> to_lowercase (node_type node) = "if" ->
  (forall j, j ∈ inline_children node -> within T S E (rec j)) ->
  within T S E (execute_if_node rec node i).
Proof.
  intros HE Ht Hrec. unfold execute_if_node, if_condition. within; apply Hrec; inline_child.
Qed.

(** A loop handler contains the breaks of its body and of its condition: its
    own errors satisfy [E] whatever the recursive calls raise. *)
Section Loop.
Context (node : FunctionNode) (node_id : string) (Hloop : to_lowercase (node_type node) = "loop").
Context (Hrec : forall j, j ∈ inline_children node -> within T S (fun _ => True) (rec j)).

Lemma within_evaluate_condition c v :
  from_option (fun j => j ∈ inline_children node) True c ->
  within T S E (evaluate_loop_condition rec node c v).
Proof.
  intros Hc. unfold evaluate_loop_condition. destruct c as [c|]; [|within].
  eapply within_attempt_bind; [by apply Hrec| |].
  - intros a. within.
  - intros e _. destruct e; within.
Qed.

Lemma within_iteration body c :
  body ∈ inline_children node -> from_option (fun j => j ∈ inline_children node) True c ->
  within T S E (run_loop_iteration rec node body c).
Proof.
  intros Hb Hc. unfold run_loop_iteration.
  eapply within_attempt_bind; [by apply Hrec| |].
  - intros a. by apply within_evaluate_condition.
  - intros e _. destruct e; within.
Qed.

Lemma within_classify r : within T S E (classify_isolated_body_result r).
Proof.
  unfold classify_isolated_body_result. destruct r as [raw|e]; [|within].
  eapply within_attempt_bind; [by apply (within_parse_envelope (fun _ => True))| |].
  - intros a. within.
  - intros e _. destruct e; within.
Qed.

Lemma within_call_subtree isolated i :
  scope i -> within T S E (call_subtree ctx graph exec_ctx isolated i).
Proof. intros Hs. unfold call_subtree. within. Qed.

Lemma within_isolated_body i :
  scope i -> within T S E (run_failure_isolated_body ctx graph exec_ctx i).
Proof.
  intros Hs. unfold run_failure_isolated_body. apply within_bind; [by apply within_call_subtree|].
  intros r. apply within_classify.
Qed.

Lemma within_loop_body config body :
  scope body -> body ∈ inline_children node ->
  from_option (fun j => j ∈ inline_children node) True (loop_condition_node config) ->
  within T S E (loop_body ctx graph exec_ctx rec config node body).
Proof.
  intros Hs Hb Hc. unfold loop_body. destruct (continue_on_failure config).
  - apply within_bind; [by apply within_isolated_body|]. intros []; [|within..].
    by apply within_evaluate_condition.
  - by apply within_iteration.
Qed.

Lemma within_rate_limit t : within T S E (rate_limit t).
Proof. unfold rate_limit. within. Qed.

Lemma within_loop_again {A} t : within T S E (loop_again graph exec_ctx (A := A) node_id t).
Proof.
  unfold loop_again. case_match; [within|].
  apply within_bind; [apply within_rate_limit|]. intros _. within.
Qed.

Lemma within_loop :
  (forall c, c ∈ child_links node -> scope c) ->
  within T S E (execute_loop_node ctx graph exec_ctx rec node node_id).
Proof.
  intros Hlinks. unfold execute_loop_node.
  do 2 (apply within_string_result_bind; [intros; apply Hf|]; intros ? ?; simp_ok).
  apply within_bind; [within|]. intros started.
  apply within_bind; [|intros [r|]; [within|apply within_loop_again]].
  apply within_loop_body; [by apply Hlinks, inline_link, left_child|inline_child|].
  destruct (loop_condition_node _) as [c|] eqn:Hc; [|done]. by eapply loop_condition_child.
Qed.
End Loop.

(** *** Branches *)

Lemma within_start_subtree i : scope i -> within T S E (start_subtree ctx graph exec_ctx i).
Proof. intros Hs. unfold start_subtree. within. Qed.
Hint Resolve within_start_subtree : within.

Lemma within_start_subtrees ids :
  Forall scope ids -> within T S E (start_subtrees ctx graph exec_ctx ids).
Proof. induction 1; simpl; within. Qed.

Section AnyError.
Context (HE : forall e, E e).
Hint Resolve HE : within.

Lemma within_join_results branch_ids i rs acc selected :
  Forall scope branch_ids ->
  within T S E (join_results ctx graph exec_ctx branch_ids i rs acc selected).
Proof.
  intros Hs. revert i acc selected. induction rs as [|r rs IH]; intros i acc selected; simpl; [within|].
  destruct r as [raw|e].
  - eapply within_attempt_bind; [by apply (within_parse_envelope (fun _ => True))| |].
    + intros a. within.
    + intros e _. within.
  - destruct (branch_ids !! i) as [b|] eqn:Hb; [|within].
    pose proof (proj1 (Forall_lookup _ _) Hs i b Hb). within.
    apply within_fail_child; [done|]. by case_match; simplify_eq.
Qed.

(** The error a JOIN retains for a loop branch belongs to one of its branches. *)
Definition selects_branch (selected : option (NodeError * option string)) : Prop :=
  forall e l, selected = Some (e, Some l) -> scope l.

Lemma selects_retained selected e l :
  selects_branch selected -> from_option scope True l ->
  selects_branch (retain_higher_priority_join_error selected e l).
Proof.
  unfold selects_branch, retain_higher_priority_join_error. intros Hs Hl e' l' H.
  repeat case_match; simplify_eq; eauto.
Qed.
Hint Resolve selects_retained : within.

Lemma join_results_select branch_ids i rs acc selected :
  Forall scope branch_ids -> selects_branch selected ->
  returns (fun a => selects_branch (snd a))
    (join_results ctx graph exec_ctx branch_ids i rs acc selected).
Proof.
  intros Hb. revert i acc selected. induction rs as [|r rs IH]; intros i acc selected Hs; simpl.
  - by apply returns_ret.
  - destruct r as [raw|e].
    + apply returns_bind. intros [r'|e]; repeat case_match;
        first [apply returns_throw|by apply IH|by apply IH, selects_retained].
    + destruct (branch_ids !! i) as [b|] eqn:Hi; [|apply returns_panic].
      pose proof (proj1 (Forall_lookup _ _) Hb i b Hi).
      destruct (failure_isolated exec_ctx).
      * apply IH. apply selects_retained; [done|]. by case_match.
      * case_match; [|apply returns_throw]. unfold fail_loop_child_future.
        apply returns_bind. intros. apply returns_throw.
Qed.

Lemma within_join node i :
  to_lowercase (node_type node) = "join" -> (forall c, c ∈ child_links node -> scope c) ->
  within T S E (execute_join_node ctx graph exec_ctx node i).
Proof.
  intros Ht Hlinks. unfold execute_join_node.
  do 2 (apply within_string_result_bind; [intros; apply Hf|]; intros ? ?; simp_ok).
  assert (Hb : Forall scope (a :: a0 :: extra_branches node)).
  { apply Forall_forall. intros c Hc. apply Hlinks.
    rewrite !elem_of_cons in Hc. destruct Hc as [->|[->|Hc]];
      eauto using inline_link, left_child, right_child, extra_link. }
  apply within_bind; [by apply within_start_subtrees|]. intros futures.
  apply within_bind; [within|]. intros rs.
  eapply within_bind_returns; [by apply within_join_results|by apply join_results_select|].
  intros [values selected] Hs. cbn [fst snd] in *.
  destruct selected as [[e [l|]]|]; [|within..]. apply within_fail_child; eauto.
Qed.

Lemma within_cancel_loser i : scope i -> within T S E (cancel_losing_loop_branch ctx graph i).
Proof.
  intros Hs. unfold cancel_losing_loop_branch. case_match; [|within].
  apply within_stamp_loop_node; [|done]. right. by eexists.
Qed.
Hint Resolve within_cancel_loser : within.

Lemma within_race_outcome side winner loser r :
  scope winner -> scope loser -> within T S E (race_outcome ctx graph side winner loser r).
Proof. intros Hw Hl. unfold race_outcome. within. Qed.

Lemma within_race node i :
  (forall c, c ∈ child_links node -> scope c) ->
  within T S E (execute_race_node ctx graph exec_ctx node i).
Proof.
  intros Hlinks. unfold execute_race_node.
  do 2 (apply within_string_result_bind; [intros; apply Hf|]; intros ? ?; simp_ok).
  assert (scope a) by by apply Hlinks, inline_link, left_child.
  assert (scope a0) by by apply Hlinks, inline_link, right_child.
  within; first [by apply within_race_outcome | by apply within_parse_envelope].
Qed.

Lemma within_loop_suborchestration node i :
  scope i -> within T S E (execute_loop_suborchestration ctx graph exec_ctx node i).
Proof.
  intros Hs. unfold execute_loop_suborchestration. within. by apply within_parse_envelope.
Qed.

Lemma within_node_inner i node :
  nodes graph !! i = Some node -> (forall c, c ∈ child_links node -> scope c) ->
  (forall j, j ∈ inline_children node -> within T S E (rec j)) ->
  within T S E (execute_node_inner ctx graph exec_ctx rec node i).
Proof.
  intros Hn Hlinks Hrec. unfold execute_node_inner. cbv zeta.
  repeat match goal with
    | |- within _ _ _ (if String.eqb ?a ?b then _ else _) => destruct (String.eqb_spec a b)
    end;
    first
    [ by apply within_sql | by apply within_then | apply within_sleep
    | apply within_wait_schedule | by apply within_if | by apply within_join
    | by apply within_race | by apply within_http | by apply within_http_multipart
    | apply within_signal
    | apply within_loop; [done|intros j Hj; eapply within_mono; [by apply Hrec|done..]|done]
    | apply within_throw; apply HE ].
Qed.

Lemma within_node_body i :
  scope i ->
  (forall node, nodes graph !! i = Some node -> forall c, c ∈ child_links node -> scope c) ->
  (forall node, nodes graph !! i = Some node ->
   forall j, j ∈ inline_children node -> within T S E (rec j)) ->
  within T S E (execute_node_body ctx graph exec_ctx rec i).
Proof.
  intros Hs Hlinks Hrec. unfold execute_node_body.
  apply within_string_result_bind; [intros; apply Hf|]. intros node Hn; simp_ok.
  case_match; [by apply within_loop_suborchestration|].
  apply within_bind; [by apply within_stamp_node|intros _].
  apply within_bind; [eapply within_attempt, within_node_inner; eauto|intros r].
  destruct (final_status r) as [st v].
  apply within_bind; [by apply within_stamp_node|intros _]. within.
Qed.
End AnyError.

(** The node a subtree is rooted at, when it is a loop: the loop handler runs
    here, and its errors are its own. *)
Lemma within_loop_root i node :
  nodes graph !! i = Some node -> is_loop_type (node_type node) = true ->
  subtree_root exec_ctx = i -> scope i -> (forall c, c ∈ child_links node -> scope c) ->
  (forall j, j ∈ inline_children node -> within T S (fun _ => True) (rec j)) ->
  within T S E (execute_node_body ctx graph exec_ctx rec i).
Proof.
  intros Hn Hl Hi Hs Hlinks Hrec. unfold execute_node_body.
  apply within_string_result_bind; [intros; apply Hf|]. intros node' Hn'; simp_ok; simplify_eq.
  rewrite Hl, String.eqb_refl. cbn [negb andb].
  apply within_bind; [by apply within_stamp_node|intros _].
  eapply within_attempt_bind.
  - unfold execute_node_inner. rewrite (is_loop_type_lowercase _ Hl). cbn [String.eqb Ascii.eqb Bool.eqb].
    apply within_loop; [by apply is_loop_type_lowercase|done..].
  - intros a. cbn [final_status]. apply within_bind; [by apply within_stamp_node|intros _]. within.
  - intros e He. destruct e; cbn [final_status];
      (apply within_bind; [by apply within_stamp_node|intros _]); within; by simplify_eq.
Qed.
End HandlerRules.

(** ** The recursion over the graph *)

(** The graph has no cycle through the edges a handler recurses along. *)
Definition linked `{SerdeJson} (graph : FunctionGraph) (i j : string) : Prop :=
  exists node, nodes graph !! i = Some node /\ j ∈ child_links node.
Definition acyclic `{SerdeJson} (graph : FunctionGraph) : Prop :=
  exists rank : string -> nat, forall i node j,
    nodes graph !! i = Some node -> j ∈ inline_children node -> rank j < rank i.

Section Recursion.
Context {SJ : SerdeJson} {PE : PgEscape} {HD : HttpDeps} {CC : CronCrate}.
Context (ctx : OrchestrationContext) (graph : FunctionGraph) (exec_ctx : ExecutionContext).
Context (S : stop -> Prop).
Context (HSp : forall m, S (Panicked m)) (HSc : forall i, S (ContinuedAsNew i)).

Context (scope : string -> Prop) (Hscope : forall i j, scope i -> linked graph i j -> scope j).

Let T (e : event) : Prop := allowed ctx graph scope (ev_op e).
Let any (_ : NodeError) : Prop := True.

(** With fuel to spare on a rank-decreasing graph: [seen] holds the nodes the
    recursion is inside of. *)
Lemma within_fuel rank fuel :
  (forall i node j, nodes graph !! i = Some node -> j ∈ inline_children node -> rank j < rank i) ->
  forall (seen : gset string) i,
  scope i -> seen ⊆ dom (nodes graph) -> (forall x, x ∈ seen -> rank i < rank x) ->
  size (nodes graph) < fuel + size seen ->
  within T S any (execute_function_node_with_vars ctx graph exec_ctx fuel i).
Proof.
  intros Hrank. induction fuel as [|fuel IH]; intros seen i Hsc Hsub Hlt Hfuel.
  - apply subseteq_size in Hsub. rewrite size_dom in Hsub. lia.
  - simpl. apply within_node_body; [done..| |]; [intros node Hn c Hc; eapply Hscope; [done|by exists node]|].
    intros node Hn j Hj.
    assert (Hi : i ∉ seen) by (intros Hi; specialize (Hlt i Hi); lia).
    apply (IH ({[i]} ∪ seen)).
    + eapply Hscope; [done|]. exists node. split; [done|by apply inline_link].
    + apply union_subseteq. split; [|done]. apply singleton_subseteq_l, elem_of_dom. eauto.
    + intros x [->%elem_of_singleton|Hx]%elem_of_union; [eauto|].
      specialize (Hrank _ _ _ Hn Hj). specialize (Hlt x Hx). lia.
    + rewrite size_union, size_singleton by set_solver. lia.
Qed.

Lemma within_run_node i : scope i -> acyclic graph -> within T S any (run_node ctx graph exec_ctx i).
Proof.
  intros Hs [rank Hrank]. apply (within_fuel rank _ Hrank ∅); [done|set_solver..|].
  unfold node_fuel. rewrite size_empty. lia.
Qed.

Lemma within_fuel_any (HSf : S OutOfFuel) fuel i :
  scope i -> within T S any (execute_function_node_with_vars ctx graph exec_ctx fuel i).
Proof.
  revert i. induction fuel as [|fuel IH]; intros i Hs; simpl.
  - intros s tr o [-> ->]. done.
  - assert (Hl : forall node c, nodes graph !! i = Some node -> c ∈ child_links node -> scope c).
    { intros node c Hn Hc. eapply Hscope; [done|by exists node]. }
    apply within_node_body; [done..| |]; [eauto|]. intros. by eapply IH, Hl, inline_link.
Qed.
End Recursion.

(** ** Below a node *)

(** A rank that every child link decreases excludes cycles of links. *)
Lemma rank_below `{SerdeJson} graph (rank : string -> nat) :
  (forall i j, linked graph i j -> rank j < rank i) ->
  forall i j, tc (linked graph) i j -> rank j < rank i.
Proof. intros Hr i j. induction 1 as [i j Hl|i j k Hl _ IH]; [auto|]. specialize (Hr _ _ Hl). lia. Qed.

Section Below.
Context {SJ : SerdeJson} {PE : PgEscape} {HD : HttpDeps} {CC : CronCrate}.
Context (ctx : OrchestrationContext) (graph : FunctionGraph) (exec_ctx : ExecutionContext).

Lemma within_run_reachable (S : stop -> Prop) fuel i :
  (forall st, S st) ->
  within (fun e => allowed ctx graph (rtc (linked graph) i) (ev_op e)) S (fun _ => True)
    (execute_function_node_with_vars ctx graph exec_ctx fuel i).
Proof. intros HS. apply within_fuel_any; [done..|by intros; eapply rtc_r|done|done]. Qed.

(** A handler concerns itself only with the nodes below its own. *)
Lemma within_inner_below fuel i node :
  nodes graph !! i = Some node ->
  within (fun e => allowed ctx graph (tc (linked graph) i) (ev_op e)) (fun _ => True) (fun _ => True)
    (execute_node_inner ctx graph exec_ctx
     (execute_function_node_with_vars ctx graph exec_ctx fuel) node i).
Proof.
  intros Hn. assert (Hl : forall c, c ∈ child_links node -> tc (linked graph) i c).
  { intros c Hc. apply tc_once. by exists node. }
  apply within_node_inner; try done. intros j Hj.
  apply within_fuel_any; [done..|by intros; eapply tc_r|done|by apply Hl, inline_link].
Qed.
End Below.
