(* ===== verification/WaitSpec.v ===== *)
(** The two retrying protocols of the root orchestration: waiting for the graph
    to become visible, and recording the final status of the instance. *)
From S2P Require Import Prelude RustString Json JsonText Durable Graph Admission Orchestration.

(** ** The back-off *)

Definition MIN_DELAY : N := from_millis INITIAL_TRANSACTION_POLL_MS.
Definition MAX_DELAY : N := from_millis MAX_TRANSACTION_POLL_MS.

Lemma transaction_poll_delay_exp a :
  transaction_poll_delay a = N.min (N.shiftl 1 (N.min a 6) * MIN_DELAY) MAX_DELAY.
Proof.
  unfold transaction_poll_delay, MIN_DELAY, MAX_DELAY, from_millis.
  assert (H : (N.shiftl 1 (N.min a 6) <= 64)%N).
  { rewrite N.shiftl_1_l. change 64%N with (2 ^ 6)%N. apply N.pow_le_mono_r; lia. }
  rewrite u64_saturating_mul_small; unfold INITIAL_TRANSACTION_POLL_MS, u64_max, NANOS_PER_MILLI,
    MAX_TRANSACTION_POLL_MS; lia.
Qed.

Lemma transaction_poll_delay_bounds a :
  (MIN_DELAY <= transaction_poll_delay a <= MAX_DELAY)%N.
Proof.
  rewrite transaction_poll_delay_exp.
  assert (H : (1 <= N.shiftl 1 (N.min a 6))%N).
  { rewrite N.shiftl_1_l. change 1%N with (2 ^ 0)%N at 1. apply N.pow_le_mono_r; lia. }
  change MAX_DELAY with (50 * MIN_DELAY)%N. split; [|lia]. unfold MIN_DELAY, from_millis,
    INITIAL_TRANSACTION_POLL_MS, NANOS_PER_MILLI. lia.
Qed.

Lemma transaction_poll_delay_mono a b :
  (a <= b)%N -> (transaction_poll_delay a <= transaction_poll_delay b)%N.
Proof.
  intros H. rewrite !transaction_poll_delay_exp.
  assert (Hs : (N.shiftl 1 (N.min a 6) <= N.shiftl 1 (N.min b 6))%N).
  { rewrite !N.shiftl_1_l. apply N.pow_le_mono_r; lia. }
  apply (N.mul_le_mono_r _ _ MIN_DELAY) in Hs. lia.
Qed.

(** The back-off between two polls starts at 100 ms, never decreases, doubles
    with each of the first five attempts and never exceeds 5 s. *)
Theorem transaction_poll_delay_backoff a b :
  (MIN_DELAY <= transaction_poll_delay a <= MAX_DELAY)%N /\
  (transaction_poll_delay a <= transaction_poll_delay (a + b))%N /\
  transaction_poll_delay 0 = MIN_DELAY /\
  ((a < 5)%N -> transaction_poll_delay (a + 1) = 2 * transaction_poll_delay a)%N.
Proof.
  split_and!.
  - apply transaction_poll_delay_bounds.
  - apply transaction_poll_delay_bounds.
  - apply transaction_poll_delay_mono. lia.
  - done.
  - intros Ha. assert (a = 0 \/ a = 1 \/ a = 2 \/ a = 3 \/ a = 4)%N as H by lia.
    destruct H as [-> |[-> |[-> |[-> | ->]]]]; done.
Qed.

Section Wait.
Context {SJ : SerdeJson}.

(** ** Recording the final status *)

(** [k] failed attempts, numbered from [a], each followed by its back-off, and
    one more attempt. *)
Fixpoint finalize_ops (input : string) (a : N) (k : nat) : list dop :=
  match k with
  | O => [ScheduleActivity UPDATE_INSTANCE input]
  | S k' => ScheduleActivity UPDATE_INSTANCE input :: ScheduleTimer (transaction_poll_delay a) ::
      finalize_ops input (a + 1) k'
  end.

Lemma finalize_go_runs fuel input a tr o :
  N.to_nat (MAX_STATUS_FINALIZE_ATTEMPTS - a) < fuel ->
  runs (finalize_go fuel input a) tr o ->
  o = Done tt /\ exists k tr' r, k <= N.to_nat (MAX_STATUS_FINALIZE_ATTEMPTS - a) /\
  ops tr = finalize_ops input a k /\ tr = tr' ++ [Ev (ScheduleActivity UPDATE_INSTANCE input) r] /\
  (k = N.to_nat (MAX_STATUS_FINALIZE_ATTEMPTS - a) \/ is_ok r = true).
Proof.
  revert a tr o. induction fuel as [|fuel IH]; intros a tr o Hf H; [lia|].
  destruct H as (r & tr1 & -> & H). destruct r as [v|e].
  { destruct H as [-> ->]. split; [done|]. exists 0, [], (Ok v). split_and!; [lia|done|done|by right]. }
  destruct (N.leb_spec MAX_STATUS_FINALIZE_ATTEMPTS a) as [Ha|Ha].
  { destruct H as [-> ->]. split; [done|]. exists 0, [], (Err e). split_and!; [lia|done|done|left; lia]. }
  destruct H as (r & tr2 & -> & H).
  assert (Hs : u32_saturating_add a 1 = (a + 1)%N).
  { unfold u32_saturating_add, u32_max, MAX_STATUS_FINALIZE_ATTEMPTS in *. lia. }
  rewrite Hs in H. apply IH in H as (-> & k & tr' & r' & Hk & Hops & -> & Hr).
  - split; [done|]. eexists (S k), (_ :: _ :: tr'), r'. split_and!.
    + lia.
    + cbn [ops map ev_op finalize_ops]. by rewrite <- Hops.
    + done.
    + destruct Hr as [-> |Hr]; [left; lia|by right].
  - lia.
Qed.

(** Recording the final status of an instance always ends, after at most 21
    writes: the [k] first ones failed and were each followed by their back-off,
    and the last one succeeded unless the budget of 20 retries is used up. *)
Theorem finalize_status_bounded instance_id status tr o :
  runs (finalize_instance_status instance_id status) tr o ->
  o = Done tt /\ exists k tr' r, k <= 20 /\
  ops tr = finalize_ops (instance_status_input instance_id status) 0 k /\
  tr = tr' ++ [Ev (ScheduleActivity UPDATE_INSTANCE (instance_status_input instance_id status)) r] /\
  (k = 20 \/ is_ok r = true).
Proof. intros H. apply finalize_go_runs in H; [exact H|]. vm_compute. lia. Qed.

(** ** Waiting for the graph *)

Definition probe_op (probe_input : string) : dop := ScheduleActivity PROBE_GRAPH probe_input.

(** [tr] is a series of polls, from [w] and [r] attempts to [w'] and [r']: every
    probe answered that the origin transaction is still in progress, or that it
    could not be read while retries are left, was counted and slept on. *)
Inductive polled (probe_input : string) : N -> N -> list event -> N -> N -> Prop :=
  | polled_none w r : polled probe_input w r [] w r
  | polled_in_progress w r t tr w' r' :
      from_json (A := TransactionGraphProbe) t = Ok InProgress ->
      polled probe_input (w + 1) r tr w' r' ->
      polled probe_input w r (Ev (probe_op probe_input) (Ok t) ::
                              Ev (ScheduleTimer (transaction_poll_delay w)) tt :: tr) w' r'
  | polled_retry w r t tr w' r' :
      from_json (A := TransactionGraphProbe) t = Ok Retry -> (r + 1 <= MAX_GRAPH_RETRY_ATTEMPTS)%N ->
      polled probe_input w (r + 1) tr w' r' ->
      polled probe_input w r (Ev (probe_op probe_input) (Ok t) ::
                              Ev (ScheduleTimer (transaction_poll_delay (r + 1))) tt :: tr) w' r'.

(** The answer [raw] of a probe, after [r] retries, ends the wait with [res]. *)
Definition settles (r : N) (raw : result string string) (res : result string string) : Prop :=
  match raw with
  | Err _ => is_ok res = false
  | Ok t =>
      match from_json (A := TransactionGraphProbe) t with
      | Ok (Ready g) => res = Ok g
      | Ok InProgress => False
      | Ok Retry => r = MAX_GRAPH_RETRY_ATTEMPTS /\ is_ok res = false
      | Ok Aborted | Ok CommittedMissing | Err _ => is_ok res = false
      end
  end.

(** What one execution of the wait does and how it ends, from [w] and [r]
    attempts with [n] polls left. *)
Definition wait_run (input : FunctionInput) (probe_input : string) (w r : N) (n : nat)
    (tr : list event) (o : outcome (result string string)) : Prop :=
  exists slept w' r', polled probe_input w r slept w' r' /\ length (activities tr) <= n /\
  match o with
  | Done res => exists raw, tr = slept ++ [Ev (probe_op probe_input) raw] /\ settles r' raw res
  | Stopped (ContinuedAsNew json) => tr = slept /\ length (activities tr) = n /\
      json = to_json (with_attempts input w' r')
  | Stopped _ => False
  end.

(** The counters account for every poll, and every sleep is within bounds. *)
Lemma polled_counts probe_input w r tr w' r' :
  polled probe_input w r tr w' r' ->
  ((w <= w') /\ (r <= r') /\ (r <= MAX_GRAPH_RETRY_ATTEMPTS -> r' <= MAX_GRAPH_RETRY_ATTEMPTS) /\
   w' + r' = w + r + N.of_nat (length (activities tr)))%N /\
  forall d, In (ScheduleTimer d) (ops tr) -> (MIN_DELAY <= d <= MAX_DELAY)%N.
Proof.
  induction 1 as [w r|w r t tr w' r' Ht H IH|w r t tr w' r' Ht Hr H IH].
  - split; [cbn; lia|done].
  - destruct IH as ((H1 & H2 & H3 & H4) & H5). split.
    + cbn. change (omap activity_of tr) with (activities tr). lia.
    + intros d [E|[[= <-]|Hd]]; [discriminate|apply transaction_poll_delay_bounds|by apply H5].
  - destruct IH as ((H1 & H2 & H3 & H4) & H5). split.
    + cbn. change (omap activity_of tr) with (activities tr). lia.
    + intros d [E|[[= <-]|Hd]]; [discriminate|apply transaction_poll_delay_bounds|by apply H5].
Qed.

(** One more poll before a run. *)
Lemma wait_run_cons input probe_input w r n w1 r1 raw d tr o :
  (forall tr w' r', polled probe_input w1 r1 tr w' r' ->
   polled probe_input w r (Ev (probe_op probe_input) raw :: Ev (ScheduleTimer d) tt :: tr) w' r') ->
  wait_run input probe_input w1 r1 n tr o ->
  wait_run input probe_input w r (S n)
    (Ev (probe_op probe_input) raw :: Ev (ScheduleTimer d) tt :: tr) o.
Proof.
  intros Hcons (slept & w' & r' & H1 & H2 & H3).
  exists (Ev (probe_op probe_input) raw :: Ev (ScheduleTimer d) tt :: slept), w', r'.
  split; [by apply Hcons|].
  split; [cbn; change (omap activity_of tr) with (activities tr); lia|].
  destruct o as [res|[json|m|]]; [|..|done|done].
  - destruct H3 as (raw' & -> & Hs). by exists raw'.
  - destruct H3 as (-> & Hn & ->). split_and!; [done| |done].
    cbn. change (omap activity_of slept) with (activities slept). lia.
Qed.

(** The poll that ends this execution. *)
Lemma wait_run_last input probe_input w r w1 r1 raw d :
  (forall tr w' r', polled probe_input w1 r1 tr w' r' ->
   polled probe_input w r (Ev (probe_op probe_input) raw :: Ev (ScheduleTimer d) tt :: tr) w' r') ->
  wait_run input probe_input w r 1 [Ev (probe_op probe_input) raw; Ev (ScheduleTimer d) tt]
    (Stopped (ContinuedAsNew (to_json (with_attempts input w1 r1)))).
Proof.
  intros Hcons. eexists _, w1, r1. split; [apply Hcons; constructor|]. split; [cbn; lia|done].
Qed.

(** A poll that goes on, from the rest of the run. *)
Lemma after_poll_runs again input probe_input delay w r w1 r1 polls raw tr o :
  (forall tr w' r', polled probe_input w1 r1 tr w' r' ->
   polled probe_input w r (Ev (probe_op probe_input) raw :: Ev (ScheduleTimer delay) tt :: tr) w' r') ->
  (polls < GRAPH_WAIT_POLLS_PER_EXECUTION)%N ->
  (forall tr o, (polls + 1 < GRAPH_WAIT_POLLS_PER_EXECUTION)%N -> runs (again (polls + 1)%N) tr o ->
   wait_run input probe_input w1 r1 (N.to_nat (GRAPH_WAIT_POLLS_PER_EXECUTION - (polls + 1))) tr o) ->
  runs (after_poll again input delay w1 r1 polls) tr o ->
  wait_run input probe_input w r (N.to_nat (GRAPH_WAIT_POLLS_PER_EXECUTION - polls))
    (Ev (probe_op probe_input) raw :: tr) o.
Proof.
  intros Hcons Hp Hk ([] & tr' & -> & H).
  assert (Ha : u32_saturating_add polls 1 = (polls + 1)%N).
  { unfold u32_saturating_add, u32_max, GRAPH_WAIT_POLLS_PER_EXECUTION in *. lia. }
  rewrite Ha in H. unfold should_compact_graph_wait in H.
  destruct (N.leb_spec GRAPH_WAIT_POLLS_PER_EXECUTION (polls + 1)).
  - destruct H as [-> ->].
    replace (N.to_nat (GRAPH_WAIT_POLLS_PER_EXECUTION - polls)) with 1 by lia.
    by apply wait_run_last.
  - replace (N.to_nat (GRAPH_WAIT_POLLS_PER_EXECUTION - polls)) with
      (S (N.to_nat (GRAPH_WAIT_POLLS_PER_EXECUTION - (polls + 1)))) by lia.
    apply (wait_run_cons _ _ _ _ _ w1 r1); [done|]. by apply Hk.
Qed.

Lemma wait_run_end input probe_input w r n raw res :
  settles r raw res -> 1 <= n ->
  wait_run input probe_input w r n [Ev (probe_op probe_input) raw] (Done res).
Proof.
  intros Hres Hn. exists [], w, r. split; [constructor|]. split; [done|]. by exists raw.
Qed.

Lemma poll_graph_runs fuel input xid probe_input w r polls tr o :
  (polls < GRAPH_WAIT_POLLS_PER_EXECUTION)%N ->
  fuel = N.to_nat (GRAPH_WAIT_POLLS_PER_EXECUTION - polls) ->
  (w + GRAPH_WAIT_POLLS_PER_EXECUTION - polls <= u32_max)%N -> (r <= MAX_GRAPH_RETRY_ATTEMPTS)%N ->
  runs (poll_graph fuel input xid probe_input w r polls) tr o ->
  wait_run input probe_input w r fuel tr o.
Proof.
  revert w r polls tr o. induction fuel as [|fuel IH]; intros w r polls tr o Hp Hfuel Hw Hr H; [lia|].
  destruct H as (raw & tr1 & -> & H). rewrite Hfuel.
  assert (Hn : 1 <= N.to_nat (GRAPH_WAIT_POLLS_PER_EXECUTION - polls)) by lia.
  destruct raw as [t|e]; [|destruct H as [-> ->]; by apply wait_run_end].
  cbn [poll_graph] in H. unfold bind_result at 1 in H. cbn [bind] in H.
  destruct (from_json t) as [p|e] eqn:Ht; cbn [map_err] in H;
    [|destruct H as [-> ->]; apply wait_run_end; [|done]; unfold settles; by rewrite Ht].
  assert (Hs : forall x, (x < u32_max)%N -> u32_saturating_add x 1 = (x + 1)%N).
  { intros x Hx. unfold u32_saturating_add. lia. }
  destruct p as [g| | | |];
    try (destruct H as [-> ->]; apply wait_run_end; [|done]; unfold settles; by rewrite Ht).
  - rewrite Hs in H by (unfold GRAPH_WAIT_POLLS_PER_EXECUTION in *; lia).
    eapply after_poll_runs; [..|exact H]; [intros; by apply polled_in_progress|lia|].
    intros tr' o' Hp' H'. eapply IH in H'; [|lia..].
    by replace (N.to_nat (GRAPH_WAIT_POLLS_PER_EXECUTION - (polls + 1))) with fuel by lia.
  - unfold MAX_GRAPH_RETRY_ATTEMPTS in Hr.
    rewrite Hs in H by (unfold u32_max; lia). unfold graph_retry_budget_exceeded in H.
    destruct (N.ltb_spec MAX_GRAPH_RETRY_ATTEMPTS (r + 1)) as [Hm|Hm].
    { destruct H as [-> ->]. apply wait_run_end; [|done]. unfold settles. rewrite Ht.
      split; [unfold MAX_GRAPH_RETRY_ATTEMPTS in *; lia|done]. }
    eapply after_poll_runs; [..|exact H]; [intros; by apply polled_retry|lia|].
    intros tr' o' Hp' H'. eapply IH in H'; [|lia..].
    by replace (N.to_nat (GRAPH_WAIT_POLLS_PER_EXECUTION - (polls + 1))) with fuel by lia.
Qed.

Definition probe_input_of (input : FunctionInput) (xid : string) : string :=
  to_json (mkLoadInput (input_instance_id input) xid).

Lemma load_initial_graph_probing input xid :
  origin_xid input = Some xid ->
  load_initial_graph input = poll_graph poll_fuel input xid (probe_input_of input xid)
    (graph_wait_attempt input) (graph_retry_attempt input) 0.
Proof. intros Hx. unfold load_initial_graph. rewrite Hx. generalize poll_fuel. done. Qed.

Lemma load_initial_graph_runs input xid tr o :
  origin_xid input = Some xid ->
  (graph_wait_attempt input + 64 <= u32_max)%N -> (graph_retry_attempt input <= 20)%N ->
  runs (load_initial_graph input) tr o ->
  wait_run input (probe_input_of input xid) (graph_wait_attempt input) (graph_retry_attempt input)
    64 tr o.
Proof.
  intros Hx Hw Hr H. rewrite (load_initial_graph_probing _ xid Hx) in H.
  revert H. change 64 with poll_fuel. generalize (eq_refl poll_fuel). generalize poll_fuel at 2 3 4.
  intros n Hn H. apply poll_graph_runs in H; unfold GRAPH_WAIT_POLLS_PER_EXECUTION; [done|lia| |lia|done].
  by rewrite <- Hn.
Qed.

(** C37: waiting for a graph ends, and it neither spins nor gives up early.
    One execution probes at most 64 times, each time for the instance and the
    origin transaction of the input.  Every probe that finds the transaction in
    progress, or cannot tell while fewer than 20 retries were used, is counted
    and slept on at once, for the exponential delay of its counter, between 100
    ms and 5 s, and is followed by the next probe.  The execution returns after
    a probe that settles the wait: a graph only if that probe answered [ready]
    with this graph, an error only if it failed, could not be read, found the
    transaction aborted or committed without the graph, or found it unreadable
    once more after 20 retries.  Otherwise it continues as new right after the
    64th sleep, with counters that account for each of the 64 probes. *)
Theorem graph_wait_bounded input xid tr o :
  origin_xid input = Some xid ->
  (graph_wait_attempt input + 64 <= u32_max)%N -> (graph_retry_attempt input <= 20)%N ->
  runs (load_initial_graph input) tr o ->
  length (activities tr) <= 64 /\
  (forall d, In (ScheduleTimer d) (ops tr) -> (MIN_DELAY <= d <= MAX_DELAY)%N) /\
  exists slept w r,
  polled (probe_input_of input xid) (graph_wait_attempt input) (graph_retry_attempt input) slept w r /\
  (w + r = graph_wait_attempt input + graph_retry_attempt input +
   N.of_nat (length (activities slept)))%N /\ (r <= 20)%N /\
  match o with
  | Done res => exists raw, tr = slept ++ [Ev (probe_op (probe_input_of input xid)) raw] /\
      settles r raw res
  | Stopped (ContinuedAsNew json) => tr = slept /\ length (activities tr) = 64 /\
      json = to_json (with_attempts input w r)
  | Stopped _ => False
  end.
Proof.
  intros Hx Hw Hr H. apply (load_initial_graph_runs _ xid) in H; [|done..].
  destruct H as (slept & w & r & Hp & Hn & H).
  destruct (polled_counts _ _ _ _ _ _ Hp) as ((_ & _ & Hm & Hsum) & Hd).
  split; [done|]. split; [|exists slept, w, r; split_and!; [done|done|by apply Hm|done]].
  destruct o as [res|[json|m|]]; [| |done|done].
  - destruct H as (raw & -> & _). intros d Hin. unfold ops in Hin. rewrite map_app in Hin.
    apply in_app_iff in Hin as [Hin|[E|[]]]; [by apply Hd|discriminate].
  - destruct H as (-> & _). done.
Qed.

(** The wait resumes where it stopped.  The input of the next execution
    parses back to the input of this one with only the two counters changed, so
    the instance, its label, its variables and the origin transaction survive
    any number of continuations. *)
Theorem graph_wait_resumes `{!SerdeJsonLaws SJ} input xid tr json :
  origin_xid input = Some xid -> valid input ->
  (graph_wait_attempt input + 64 <= u32_max)%N -> (graph_retry_attempt input <= 20)%N ->
  runs (load_initial_graph input) tr (Stopped (ContinuedAsNew json)) ->
  exists w r, from_json (A := FunctionInput) json = Ok (with_attempts input w r) /\
  (w + r = graph_wait_attempt input + graph_retry_attempt input + 64)%N /\ (r <= 20)%N.
Proof.
  intros Hx Hv Hw Hr H. apply (load_initial_graph_runs _ xid) in H; [|done..].
  destruct H as (slept & w & r & Hp & _ & -> & Hn & ->).
  destruct (polled_counts _ _ _ _ _ _ Hp) as ((Hw1 & Hr1 & Hm & Hs) & _). rewrite Hn in Hs.
  assert (Hr2 : (r <= 20)%N) by by apply Hm. clear Hm.
  exists w, r. change (N.of_nat 64) with 64%N in Hs.
  split_and!; [|done|done]. apply from_to_json. destruct Hv as (H1 & _ & _).
  split_and!; cbn; [done|lia|unfold u32_max; lia].
Qed.
End Wait.

(** ** Witnesses *)

#[local] Existing Instance text_json.

Definition waiting_input : FunctionInput := mkInput "0badcafe" None ∅ 0 None (Some "731") 0 0.

(** An engine whose probes always answer [p]. *)
Definition probing (p : TransactionGraphProbe) : env := answering (Ok (to_json p)) 0 "" (Ok "").

Definition finalized : list event * outcome unit :=
  exec (probing InProgress) [] (finalize_instance_status "0badcafe" "failed").

Lemma finalize_status_bounded_witness : snd finalized = Done tt /\ exists k tr' r, k <= 20 /\
  ops (fst finalized) = finalize_ops (instance_status_input "0badcafe" "failed") 0 k /\
  fst finalized = tr' ++ [Ev (ScheduleActivity UPDATE_INSTANCE (instance_status_input "0badcafe" "failed")) r] /\
  (k = 20 \/ is_ok r = true).
Proof. apply finalize_status_bounded, exec_runs. Defined.

(** The origin transaction stays open: the execution ends by continuing. *)
Definition waited : list event * outcome (result string string) :=
  exec (probing InProgress) [] (load_initial_graph waiting_input).

Lemma graph_wait_bounded_witness :
  length (activities (fst waited)) <= 64 /\
  (forall d, In (ScheduleTimer d) (ops (fst waited)) -> (MIN_DELAY <= d <= MAX_DELAY)%N) /\
  exists slept w r, polled (probe_input_of waiting_input "731") 0 0 slept w r /\
  (w + r = 0 + 0 + N.of_nat (length (activities slept)))%N /\ (r <= 20)%N /\
  match snd waited with
  | Done res => exists raw,
      fst waited = slept ++ [Ev (probe_op (probe_input_of waiting_input "731")) raw] /\ settles r raw res
  | Stopped (ContinuedAsNew json) => fst waited = slept /\ length (activities (fst waited)) = 64 /\
      json = to_json (with_attempts waiting_input w r)
  | Stopped _ => False
  end.
Proof.
  apply (graph_wait_bounded waiting_input "731"); [done|cbn; unfold u32_max; lia|cbn; lia|].
  apply exec_runs.
Defined.

Definition waited_input : string := to_json (with_attempts waiting_input 64 0).

Lemma graph_wait_resumes_witness :
  snd waited = Stopped (ContinuedAsNew waited_input) /\
  exists w r, from_json (A := FunctionInput) waited_input = Ok (with_attempts waiting_input w r) /\
    (w + r = 64)%N /\ (r <= 20)%N.
Proof.
  assert (H : snd waited = Stopped (ContinuedAsNew waited_input)) by (vm_compute; reflexivity).
  split; [done|].
  apply (graph_wait_resumes waiting_input "731" (fst waited)); [done| |cbn; unfold u32_max; lia|cbn; lia|].
  - repeat split; cbn; unfold u32_max, u64_max; lia.
  - rewrite <- H. apply exec_runs.
Defined.
