(* ===== verification/OrchestrationSpec.v ===== *)
(** What a run of an orchestration as a whole guarantees: the operations it may
    perform, the end of its recursion, the stamps around every node, the
    containment of breaks, the status its instance ends with. *)
From S2P Require Import Prelude RustString Json JsonText Durable Substitution SubstitutionSpec.
From S2P Require Import Graph Lineage HttpConfig Admission Orchestration OrchestrationFacts.
From S2P Require Import WaitSpec.

(** ** A concrete graph and engine for the witnesses *)

#[local] Existing Instance sample_cron.
#[local] Existing Instance text_json.
#[local] Existing Instance sample_escape.
#[local] Existing Instance sample_http.

Definition sql_leaf (id : string) : FunctionNode :=
  mkNode id "SQL" (Some "SELECT 1") (Some "r") None None "alice" None.
(** [then(a, loop(b))] *)
Definition sample_graph : FunctionGraph :=
  mkGraph "0badcafe" "t"
    (list_to_map [("t", mkNode "t" "THEN" None None (Some "a") (Some "l") "alice" None);
                  ("a", sql_leaf "a"); ("b", sql_leaf "b");
                  ("l", mkNode "l" "LOOP" None None (Some "b") None "alice" None)]) V1.

Definition sample_rank (i : string) : nat :=
  if String.eqb i "t" then 2 else if String.eqb i "l" then 1 else 0.

Lemma sample_graph_ranked i j : linked sample_graph i j -> sample_rank j < sample_rank i.
Proof.
  assert (H : map_Forall (fun i node => Forall (fun j => sample_rank j < sample_rank i)
    (child_links node)) (nodes sample_graph)) by (apply (bool_decide_unpack _); vm_compute; done).
  intros (node & Hi & Hj). specialize (H i node Hi). by eapply Forall_forall in H.
Qed.
Lemma sample_graph_acyclic : acyclic sample_graph.
Proof.
  exists sample_rank. intros i node j Hi Hj. apply sample_graph_ranked.
  exists node. split; [done|by apply inline_link].
Qed.

(** Every operation succeeds at once. *)
Definition sample_env : env :=
  answering (Ok "null") 0 "null" (Ok (to_json (mkEnvelope (Some ControlNormal) "1" ∅))).

Definition sample_ctx : OrchestrationContext := mkContext "0badcafe-0001" 1.
Definition sample_exec_ctx : ExecutionContext := mkExecCtx ∅ None false 0 "t" Root.

Section Properties.
Context {SJ : SerdeJson} {PE : PgEscape} {HD : HttpDeps} {CC : CronCrate}.

(** C1: an orchestration never leaves its own scope.  Whatever the graph and
    whatever the engine answers, a run of a node only performs [allowed]
    operations: it runs SQL only under the user and database of a node of its
    graph, and HTTP only under the user of a node, with the database of that
    same node in every config sent that names an endpoint, secrets, a form or a
    sink (the others resolve nothing in a database), writes node statuses only of its own instance and under its
    own stamp or the first stamp of a child it answers for, starts subtrees only
    under the id composed for them and with the same graph, and never touches
    the status of an instance.  The nodes it stamps or runs as subtrees are
    [node_id] itself and those its child links lead to. *)
Theorem node_run_scoped ctx graph exec_ctx node_id s tr o :
  runs (run_node ctx graph exec_ctx node_id s) tr o ->
  Forall (fun e => allowed ctx graph (rtc (linked graph) node_id) (ev_op e)) tr.
Proof. intros H. apply (within_run_reachable _ _ _ (fun _ => True)) in H; [|done]. apply H. Qed.

(** The recursion over the nodes of a graph ends.  When no node can reach
    itself through the edges that are executed inline, one level of recursion
    per node of the graph is enough: no run is cut off, so each ends with a
    result, continues as new or panics. *)
Theorem node_recursion_terminates ctx graph exec_ctx node_id s tr o :
  acyclic graph -> runs (run_node ctx graph exec_ctx node_id s) tr o -> o <> Stopped OutOfFuel.
Proof.
  intros Ha H.
  apply (within_run_node ctx graph exec_ctx (fun st => st <> OutOfFuel)) with (scope := fun _ => True)
    in H as [_ H]; [|done..].
  intros ->. by apply H.
Qed.

(** A loop contains the breaks raised inside it.  The orchestration rooted
    at a loop node never ends in [Break]: whatever its body or its condition
    raises, its error is an application error or a failure. *)
Theorem loop_contains_break ctx graph exec_ctx node s tr e s' :
  nodes graph !! subtree_root exec_ctx = Some node -> is_loop_type (node_type node) = true ->
  runs (run_node ctx graph exec_ctx (subtree_root exec_ctx) s) tr (Done (Err e, s')) ->
  forall v, e <> Break v.
Proof.
  intros Hn Hl H.
  assert (Hw : within (fun e => allowed ctx graph (fun _ => True) (ev_op e)) (fun _ => True)
    (fun e => forall v, e <> Break v) (run_node ctx graph exec_ctx (subtree_root exec_ctx))).
  { eapply within_loop_root; try done. intros j _. by apply within_fuel_any. }
  by apply Hw in H as [_ H].
Qed.

(** A status write concerns a node below [node_id], and another one. *)
Definition stamps_below (graph : FunctionGraph) (node_id : string) (o : dop) : Prop :=
  forall input, o = ScheduleActivity UPDATE_NODE input ->
  exists v k, input = value_to_string v /\ get "node_id" v = Some (JString k) /\
  tc (linked graph) node_id k /\ k <> node_id.

Lemma allowed_stamps_below ctx graph node_id o :
  ~ tc (linked graph) node_id node_id ->
  allowed ctx graph (tc (linked graph) node_id) o -> stamps_below graph node_id o.
Proof.
  intros Hc H input ->. inversion H as [v k ? ? ? ? ? ? ? Hk| |? ? ? ? Ha| | | | | | | | | |]; subst;
    [|by destruct Ha].
  exists v, k. split_and!; [done..|by intros ->].
Qed.

(** The stamp of a node as an operation. *)
Definition stamp_op (ctx : OrchestrationContext) (graph : FunctionGraph) (node_id status : string)
    (res : option string) : dop :=
  ScheduleActivity UPDATE_NODE
    (serialize_node_status_input node_id (graph_instance_id graph) status res (own_stamp ctx)).

(** C32: stamps bracket every node.  A node that runs in this orchestration is
    stamped [running] before anything else happens; if its handler ends, the
    last thing to happen is the stamp [completed] with its result or [failed]
    with its error, and a break counts as completed with the value it carries.
    If the handler does not end, the node stays [running]: no other operation is
    a status write of this node, since in between only nodes below it, along
    every child link, are written (a node of a started graph is never below
    itself). *)
Theorem node_stamps_bracket ctx graph exec_ctx fuel node_id node s tr o :
  nodes graph !! node_id = Some node ->
  is_loop_type (node_type node) = false \/ node_id = subtree_root exec_ctx ->
  ~ tc (linked graph) node_id node_id ->
  runs (execute_function_node_with_vars ctx graph exec_ctx (S fuel) node_id s) tr o ->
  exists inner, Forall (stamps_below graph node_id) inner /\ match o with
    | Done (r, _) => ops tr = stamp_op ctx graph node_id "running" None :: inner ++
        [stamp_op ctx graph node_id (fst (final_status r)) (Some (snd (final_status r)))]
    | Stopped _ => ops tr = stamp_op ctx graph node_id "running" None :: inner
    end.
Proof.
  intros Hn Hl Hc H. assert (Hinner : forall s tr o, runs (execute_node_inner ctx graph exec_ctx
    (execute_function_node_with_vars ctx graph exec_ctx fuel) node node_id s) tr o ->
    Forall (stamps_below graph node_id) (ops tr)).
  { intros s1 tr1 o1 [H1 _]%within_inner_below; [|done]. apply Forall_map.
    eapply Forall_impl; [exact H1|]. intros e. by apply allowed_stamps_below. }
  cbn [execute_function_node_with_vars] in H. unfold execute_node_body in H.
  rewrite Hn in H. change (bindM (of_string_result (ok_or (Some node) _)) ?k s) with (k node s) in H.
  cbv beta in H.
  replace (is_loop_type (node_type node) && _) with false in H.
  2: { destruct Hl as [-> | ->]; [done|]. by rewrite String.eqb_refl, andb_false_r. }
  apply runs_fire_bindM in H as (r1 & tr1 & -> & H). cbn [ops map ev_op].
  apply runs_bindM in H as [(tr2 & tr3 & r & s2 & -> & H2 & H)|[(e & s1 & -> & H)|(st & -> & H)]].
  - apply runs_attempt in H2 as [(r' & s3 & [= <- <-] & H2)|(st & [=] & _)].
    destruct (final_status r) as [status v] eqn:Hf.
    apply runs_fire_bindM in H as (r3 & tr4 & -> & [-> ->]).
    exists (ops tr2). rewrite Hf, map_app. eauto.
  - by apply runs_attempt in H as [(r' & s3 & [=] & _)|(st & [=] & _)].
  - apply runs_attempt in H as [(r' & s3 & [=] & _)|(st' & [= <-] & H)]. eauto.
Qed.

(** *** The status of the instance *)

Definition instance_write (e : event) : option string :=
  match ev_op e with
  | ScheduleActivity name input => if String.eqb name UPDATE_INSTANCE then Some input else None
  | _ => None
  end.
Definition instance_writes (tr : list event) : list string := omap instance_write tr.

Lemma instance_writes_app tr1 tr2 : instance_writes (tr1 ++ tr2) = instance_writes tr1 ++ instance_writes tr2.
Proof. apply omap_app. Qed.

Lemma instance_writes_none tr : Forall (fun e => instance_write e = None) tr -> instance_writes tr = [].
Proof. induction 1 as [|e tr He _ IH]; [done|]. unfold instance_writes. cbn. by rewrite He. Qed.

Lemma allowed_no_instance_write ctx graph scope e : allowed ctx graph scope (ev_op e) -> instance_write e = None.
Proof.
  unfold instance_write. destruct 1 as [| |? ? ? ? Ha| | | | | | | | | |]; try reflexivity.
  by destruct Ha as [-> | ->].
Qed.

Lemma run_node_no_instance_write ctx graph exec_ctx node_id s tr o :
  runs (run_node ctx graph exec_ctx node_id s) tr o -> instance_writes tr = [].
Proof.
  intros [H _]%(within_run_reachable _ _ _ (fun _ => True)); [|done].
  apply instance_writes_none. eapply Forall_impl; [done|]. intros e. apply allowed_no_instance_write.
Qed.

Lemma finalize_ops_writes tr input a k :
  ops tr = finalize_ops input a k -> instance_writes tr = repeat input (S k).
Proof.
  revert tr a. induction k as [|k IH]; intros tr a; simpl; unfold ops; intros H.
  - destruct tr as [|e [|]]; try discriminate. injection H as He. unfold instance_writes, instance_write.
    cbn. by rewrite He.
  - destruct tr as [|e1 [|e2 tr]]; try discriminate. injection H as H1 H2 H3.
    unfold instance_writes, instance_write. cbn. rewrite H1, H2. cbn. f_equal. by eapply IH.
Qed.

Lemma finalize_writes instance_id status tr o :
  runs (finalize_instance_status instance_id status) tr o ->
  o = Done tt /\ exists k, k <= 20 /\
  instance_writes tr = repeat (instance_status_input instance_id status) (S k).
Proof.
  intros H. apply finalize_go_runs in H as (-> & k & _ & _ & Hk & Hops & _); [|vm_compute; lia].
  split; [done|]. exists k. split; [exact Hk|]. by eapply finalize_ops_writes.
Qed.

Definition final_instance_status (r : result string string) : string :=
  if is_ok r then "completed" else "failed".

Lemma execute_graph_writes ctx input graph tr o :
  runs (execute_graph ctx input graph) tr o ->
  match o with
  | Done r => exists k, k <= 20 /\ instance_writes tr =
        instance_status_input (input_instance_id input) "running" ::
      repeat (instance_status_input (input_instance_id input) (final_instance_status r)) (S k)
  | Stopped _ => instance_writes tr = [instance_status_input (input_instance_id input) "running"]
  end.
Proof.
  intros (r & tr1 & -> & H). cbn [bind] in H. cbv zeta in H.
  change (Ev ?c r :: tr1) with ([Ev c r] ++ tr1). rewrite instance_writes_app.
  change (instance_writes [Ev _ r]) with [instance_status_input (input_instance_id input) "running"].
  apply runs_bind in H as [(tr2 & tr3 & [r2 s2] & -> & H2 & H)|(st & -> & H)].
  - apply run_node_no_instance_write in H2. cbn [fst] in H.
    apply runs_bind in H as [(tr4 & tr5 & [] & -> & H4 & [-> ->])|(st & -> & H)].
    + apply finalize_writes in H4 as (_ & k & Hk & H4). exists k. split; [done|].
      rewrite !instance_writes_app, H2, H4. by rewrite app_nil_r.
    + by apply finalize_writes in H as [[=] _].
  - apply run_node_no_instance_write in H. by rewrite H.
Qed.

Lemma poll_graph_no_instance_write fuel input xid probe_input w r polls tr o :
  runs (poll_graph fuel input xid probe_input w r polls) tr o ->
  Forall (fun e => instance_write e = None) tr.
Proof.
  revert w r polls tr o. induction fuel as [|fuel IH]; intros w r polls tr o H.
  { by destruct H as [-> ->]. }
  assert (Hafter : forall delay w1 r1 tr' o', runs (after_poll
    (fun polls => poll_graph fuel input xid probe_input w1 r1 polls) input delay w1 r1 polls) tr' o' ->
    Forall (fun e => instance_write e = None) tr').
  { intros delay w1 r1 tr' o' ([] & tr2 & -> & H'). constructor; [done|].
    change (runs (if should_compact_graph_wait (u32_saturating_add polls 1) then
      (let~? json := map_err (fun e => "Failed to serialize graph-wait continuation: " +:+ e)
      (graph_wait_continuation input w1 r1) in Stop (ContinuedAsNew json))
      else poll_graph fuel input xid probe_input w1 r1 (u32_saturating_add polls 1)) tr2 o') in H'.
    destruct (should_compact_graph_wait _); [by destruct H' as [-> ->]|]. by eapply IH. }
  destruct H as (raw & tr1 & -> & H). constructor; [done|].
  destruct raw as [t|e]; [|by destruct H as [-> ->]].
  cbn [poll_graph] in H. unfold bind_result at 1 in H. cbn [bind] in H.
  destruct (from_json t) as [p|e] eqn:Ht; [|by destruct H as [-> ->]]. cbn [map_err] in H.
  destruct p; try (by destruct H as [-> ->]); [by eapply Hafter|].
  destruct (graph_retry_budget_exceeded _); [by destruct H as [-> ->]|by eapply Hafter].
Qed.

Lemma load_initial_graph_no_instance_write input tr o :
  runs (load_initial_graph input) tr o -> instance_writes tr = [].
Proof.
  intros H. apply instance_writes_none. destruct (origin_xid input) as [xid|] eqn:Hx.
  { rewrite (load_initial_graph_probing _ xid Hx) in H. by eapply poll_graph_no_instance_write. }
  unfold load_initial_graph in H. rewrite Hx in H.
  destruct H as (r & tr' & -> & [-> _]). by constructor.
Qed.

Lemma execute_graph_json_writes ctx input json tr o :
  runs (execute_graph_json ctx input json) tr o ->
  (exists graph, from_json (A := FunctionGraph) json = Ok graph /\
   runs (execute_graph ctx input graph) tr o) \/
  (exists e, from_json (A := FunctionGraph) json = Err e /\ tr = [] /\
   o = Done (Err ("Failed to parse function graph: " +:+ e))).
Proof.
  unfold execute_graph_json, bind_result. cbn [bind].
  destruct (from_json json) as [graph|e]; cbn [map_err]; intros H; [eauto|].
  destruct H as [-> ->]. eauto 6.
Qed.

Lemma execute_writes ctx json input tr o :
  from_json (A := FunctionInput) json = Ok input ->
  runs (execute ctx json) tr o ->
  let running := instance_status_input (input_instance_id input) "running" in
  match o with
  | Done r => (exists pre k, (pre = [] \/ pre = [running]) /\ k <= 20 /\ instance_writes tr =
               pre ++ repeat (instance_status_input (input_instance_id input) (final_instance_status r)) (S k)) \/
      (exists e, r = Err ("Failed to parse function graph: " +:+ e) /\ instance_writes tr = [])
  | Stopped _ => instance_writes tr = [] \/ instance_writes tr = [running]
  end.
Proof.
  intros Hin H running. unfold execute, bind_result in H. rewrite Hin in H. cbn [bind map_err] in H.
  assert (Hjson : forall g tr, runs (execute_graph_json ctx input g) tr o ->
    match o with
    | Done r => (exists k, k <= 20 /\ instance_writes tr = [running] ++
    repeat (instance_status_input (input_instance_id input) (final_instance_status r)) (S k)) \/
    (exists e, r = Err ("Failed to parse function graph: " +:+ e) /\ instance_writes tr = [])
    | Stopped _ => instance_writes tr = [running]
    end).
  { intros g tr1 [(graph & _ & Hg%execute_graph_writes)|(e & _ & -> & ->)]%execute_graph_json_writes.
    - destruct o; [by left|done].
    - right. eauto. }
  destruct (input_graph input) as [g|].
  - apply Hjson in H. destruct o; [|by right]. destruct H as [(k & Hk & H)|H]; [|by right].
    left. exists [running], k. auto.
  - apply runs_bind in H as [(tr1 & tr2 & [g|e] & -> & H1%load_initial_graph_no_instance_write & H)
      |(st & -> & H%load_initial_graph_no_instance_write)].
    + apply Hjson in H. rewrite instance_writes_app, H1. destruct o; [|by right].
      destruct H as [(k & Hk & H)|H]; [|by right]. left. exists [running], k. auto.
    + rewrite instance_writes_app, H1.
      apply runs_bind in H as [(tr4 & tr5 & [] & -> & H4 & [-> ->])|(st & -> & H)].
      * apply finalize_writes in H4 as (_ & k & Hk & H4). left. exists [], k.
        rewrite instance_writes_app, H4, app_nil_r. auto.
      * by apply finalize_writes in H as [[=] _].
    + by left.
Qed.

(** C2: the status an instance ends with is the outcome of its function.  When
    [execute] returns, the writes to the status of the instance are at most one
    [running], followed by one to 21 equal writes: [completed] if the function
    returned a value, [failed] if it returned an error (an uncaught break is
    one).  The only exception is an error before the graph is known to parse: then
    nothing is recorded at all.  An execution that continues as new never records
    a final status. *)
Theorem instance_final_status ctx json input tr o :
  from_json (A := FunctionInput) json = Ok input ->
  runs (execute ctx json) tr o ->
  let running := instance_status_input (input_instance_id input) "running" in
  match o with
  | Done r => (exists pre k, (pre = [] \/ pre = [running]) /\ k <= 20 /\ instance_writes tr =
               pre ++ repeat (instance_status_input (input_instance_id input) (final_instance_status r)) (S k)) \/
      (exists e, r = Err ("Failed to parse function graph: " +:+ e) /\ instance_writes tr = [])
  | Stopped _ => instance_writes tr = [] \/ instance_writes tr = [running]
  end.
Proof. apply execute_writes. Qed.
End Properties.

(** ** Witnesses *)

(** The whole graph of [sample_graph], run from its root: [then(a, loop(b))],
    the loop as a child orchestration. *)
Definition sample_run : list event * outcome (NodeResult * named_results) :=
  exec sample_env [] (run_node sample_ctx sample_graph sample_exec_ctx "t" ∅).

Lemma node_run_scoped_witness : length (fst sample_run) = 6 /\
  Forall (fun e => allowed sample_ctx sample_graph (rtc (linked sample_graph) "t") (ev_op e))
    (fst sample_run).
Proof.
  split; [vm_compute; reflexivity|].
  apply (node_run_scoped sample_ctx sample_graph sample_exec_ctx "t" ∅ _ (snd sample_run)).
  apply exec_runs.
Defined.

Lemma node_recursion_terminates_witness :
  (exists s, snd sample_run = Done (Ok "1", s)) /\ snd sample_run <> Stopped OutOfFuel.
Proof.
  split; [eexists; vm_compute; reflexivity|].
  apply (node_recursion_terminates sample_ctx sample_graph sample_exec_ctx "t" ∅ (fst sample_run));
    [apply sample_graph_acyclic|apply exec_runs].
Defined.

(** A loop whose body breaks, and one whose body fails. *)
Definition loop_graph (body : FunctionNode) : FunctionGraph :=
  mkGraph "0badcafe" "l"
    (list_to_map [("b", body); ("l", mkNode "l" "Loop" None None (Some "b") None "alice" None)]) V1.
Definition break_leaf : FunctionNode := mkNode "b" "BREAK" None None None None "alice" None.
Definition broken_leaf : FunctionNode := mkNode "b" "SQL" None None None None "alice" None.
Definition loop_ctx : ExecutionContext := mkExecCtx ∅ None false 0 "l" Subtree.

Definition loop_run (body : FunctionNode) : list event * outcome (NodeResult * named_results) :=
  exec sample_env [] (run_node sample_ctx (loop_graph body) loop_ctx "l" ∅).

Lemma loop_contains_break_witness :
  (exists s, snd (loop_run break_leaf) = Done (Ok "null", s)) /\
  exists e s, snd (loop_run broken_leaf) = Done (Err e, s) /\ forall v, e <> Break v.
Proof.
  split; [eexists; vm_compute; reflexivity|].
  eexists (Failure "SQL node b has no query"), _.
  assert (H : exists s, snd (loop_run broken_leaf) = Done (Err (Failure "SQL node b has no query"), s))
    by (eexists; vm_compute; reflexivity).
  destruct H as [s H]. split; [vm_compute; reflexivity|].
  apply (loop_contains_break sample_ctx (loop_graph broken_leaf) loop_ctx
    (mkNode "l" "Loop" None None (Some "b") None "alice" None) ∅ (fst (loop_run broken_leaf)) _ s);
    [vm_compute; reflexivity..|]. rewrite <- H. apply exec_runs.
Defined.

(** The THEN node of [sample_run], whose children stamp themselves in between. *)
Lemma node_stamps_bracket_witness :
  (exists s, snd sample_run = Done (Ok "1", s)) /\
  exists inner, Forall (stamps_below sample_graph "t") inner /\ match snd sample_run with
  | Done (r, _) => ops (fst sample_run) = stamp_op sample_ctx sample_graph "t" "running" None :: inner ++
      [stamp_op sample_ctx sample_graph "t" (fst (final_status r)) (Some (snd (final_status r)))]
  | Stopped _ => ops (fst sample_run) = stamp_op sample_ctx sample_graph "t" "running" None :: inner
  end.
Proof.
  split; [eexists; vm_compute; reflexivity|].
  apply (node_stamps_bracket sample_ctx sample_graph sample_exec_ctx 4 "t"
    (mkNode "t" "THEN" None None (Some "a") (Some "l") "alice" None) ∅);
    [vm_compute; reflexivity|left; reflexivity| |].
  - intros H. apply (rank_below _ sample_rank sample_graph_ranked) in H. lia.
  - exact (exec_runs _ _ (run_node sample_ctx sample_graph sample_exec_ctx "t" ∅)).
Defined.

(** The input carries the graph: the function completes. *)
Definition root_input : FunctionInput :=
  mkInput "0badcafe" None ∅ 0 (Some (to_json sample_graph)) None 0 0.
Definition root_run : list event * outcome (result string string) :=
  exec sample_env [] (execute sample_ctx (to_json root_input)).

Lemma instance_final_status_witness : snd root_run = Done (Ok "1") /\
  let running := instance_status_input "0badcafe" "running" in
  ((exists pre k, (pre = [] \/ pre = [running]) /\ k <= 20 /\ instance_writes (fst root_run) =
      pre ++ repeat (instance_status_input "0badcafe" (final_instance_status (Ok "1"))) (S k)) \/
   (exists e, Ok "1" = Err ("Failed to parse function graph: " +:+ e) /\
      instance_writes (fst root_run) = [])).
Proof.
  assert (H : snd root_run = Done (Ok "1")) by (vm_compute; reflexivity).
  split; [done|].
  apply (instance_final_status sample_ctx (to_json root_input) root_input (fst root_run) (Done (Ok "1"))).
  - apply from_to_json. repeat split; vm_compute; discriminate.
  - rewrite <- H. apply exec_runs.
Defined.
