(* ===== verification/Outcome.v ===== *)
(** What the tables say about an instance when its orchestration has ended: the run
    of the orchestration ([Orchestration]) with its status writes carried out over the
    table ([StatusWrite]), while others cancel the instance or, once it has ended, retire
    it. *)
From S2P Require Import Prelude RustString Json JsonText Durable Substitution SubstitutionSpec.
From S2P Require Import Graph Lineage.
From S2P Require Import HttpConfig Origin Orchestration OrchestrationFacts OrchestrationSpec.
From S2P Require Import StatusWrite.
From stdpp Require Import relations.

(** ** Status writes as the engine carries them out *)

Section Outcome.
Context {SJ : SerdeJson} {U : UuidCrate}.

Section Engine.
(** [writes] are those that the orchestration schedules. *)
Context (engine_id id : string) (writes : list string).

(** What else happens to the row of an instance: [df.cancel] of one that is open,
    retention of one that has ended, and a write that an activity makes late, when
    the engine has already heard of another run of it.  Other rows change freely. *)
Inductive outside (t t' : instance_table) : Prop :=
  | outside_other : t' !! id = t !! id -> outside t t'
  | outside_cancel row :
      t !! id = Some row -> instance_open row = true ->
      t' !! id = Some (mkInstanceRow (Some "cancelled") (inst_completed row)) -> outside t t'
  | outside_retire row :
      t !! id = Some row -> instance_open row = false -> t' !! id = None -> outside t t'
  | outside_late env input r :
      input ∈ writes -> update_instance_status env engine_id input t = (r, t') -> outside t t'.

(** An activity runs any number of times, since the engine starts it again when it
    did not hear of its end. *)
Inductive attempts (input : string) (t : instance_table)
    : option (result string string) -> instance_table -> Prop :=
  | attempts_none t' : rtc outside t t' -> attempts input t None t'
  | attempts_more last t1 env r t2 t' :
      attempts input t last t1 -> update_instance_status env engine_id input t1 = (r, t2) ->
      rtc outside t2 t' -> attempts input t (Some r) t'.

(** The events of an orchestration over the table: success is only reported of a run
    that had it, a failure may be the engine's own. *)
Inductive served : instance_table -> list event -> instance_table -> Prop :=
  | served_end t t' : rtc outside t t' -> served t [] t'
  | served_write t input last (r : result string string) t1 tr t' :
      attempts input t last t1 -> (is_ok r = true -> last = Some r) ->
      served t1 tr t' ->
      served t (Ev (ScheduleActivity UPDATE_INSTANCE input) r :: tr) t'
  | served_other t e t1 tr t' :
      instance_write e = None -> rtc outside t t1 -> served t1 tr t' -> served t (e :: tr) t'.
End Engine.

Definition acknowledged (e : event) : bool :=
  match ev_op e as o return resp o -> bool with
  | ScheduleActivity _ _ => fun r => is_ok r
  | _ => fun _ => false
  end (ev_resp e).

(** ** The row of the instance *)

Definition decided (final : string) (o : option InstanceRow) : Prop :=
  match o with
  | Some row => inst_status row = Some final \/ inst_status row = Some "cancelled"
  | None => True
  end.
Definition undecided (o : option InstanceRow) : Prop := exists row, o = Some row /\ instance_open row = true.

Lemma final_closed r b : instance_open (mkInstanceRow (Some (final_instance_status r)) b) = false.
Proof. by destruct r. Qed.

Lemma decided_closed r row : decided (final_instance_status r) (Some row) -> instance_open row = false.
Proof. destruct row as [st b]. cbn. intros [-> | ->]; [by destruct r|done]. Qed.

Context {SL : SerdeJsonLaws SJ}.

Lemma update_own engine_id env id s t r t' :
  instances_status_chk s = true ->
  update_instance_status env engine_id (instance_status_input id s) t = (r, t') ->
  (t' = t /\ (is_ok r = true -> undecided (t !! id) -> False)) \/
  (exists row, t !! id = Some row /\ instance_open row = true /\
   t' !! id = Some (mkInstanceRow (Some s) (String.eqb s "completed" || inst_completed row))).
Proof.
  intros Hs. unfold update_instance_status, keep, instance_status_input.
  rewrite value_from_to_string by done. cbn [map_err result_bind].
  change (as_str (index (Object _) "instance_id")) with (Some id).
  change (as_str (index (Object _) "status")) with (Some s). cbn [ok_or result_bind].
  destruct (from_engine_id engine_id); [cbn [result_bind]|by intros [= <- <-]; left].
  destruct (db_begin env); [cbn [map_err result_bind]|by intros [= <- <-]; left].
  unfold run_instance_update. destruct (db_update env); [cbn [map_err result_bind]|by intros [= <- <-]; left].
  destruct (t !! id) as [row|] eqn:Hrow; [destruct (instance_open row) eqn:Ho|]; rewrite ?Hs; cbn [map_err result_bind].
  - destruct (db_commit env); intros [= <- <-]; [|by left]. right. exists row. by rewrite lookup_insert_eq.
  - destruct (db_commit env); intros [= <- <-]; left; (split; [done|]); [|done].
    intros _ (row' & [= <-] & Ho'). congruence.
  - destruct (db_commit env); intros [= <- <-]; left; (split; [done|]); [|done]. by intros _ (row' & [=] & _).
Qed.

Section Row.
Context (engine_id id : string) (r : result string string).
Abbreviation final := (final_instance_status r).

(** The row is open, or it says what the function did, or that it was cancelled. *)
Definition sound (t : instance_table) : Prop := undecided (t !! id) \/ decided final (t !! id).

Definition own_write (input : string) : Prop :=
  input = instance_status_input id "running" \/ input = instance_status_input id final.

(** A write of the orchestration decides nothing that is decided, and is sound. *)
Lemma write_decided env input t v t' :
  own_write input -> update_instance_status env engine_id input t = (v, t') ->
  decided final (t !! id) -> decided final (t' !! id).
Proof.
  intros Hw Hup Hd. assert (Hdone : forall s, instances_status_chk s = true ->
    input = instance_status_input id s -> decided final (t' !! id)).
  { intros s Hs ->. apply update_own in Hup as [[-> _]|(row & E & Ho & _)]; [done| |done].
    rewrite E in Hd. apply decided_closed in Hd. congruence. }
  destruct Hw; [by apply (Hdone "running")|]. apply (Hdone final); [by destruct r|done].
Qed.

Lemma write_sound env input t v t' :
  own_write input -> update_instance_status env engine_id input t = (v, t') -> sound t -> sound t'.
Proof.
  intros [-> | ->] Hup Ht; (apply update_own in Hup as [[-> _]|(row & E & Ho & E')]; [done| |by destruct r]).
  - left. rewrite E'. eexists. by split.
  - right. rewrite E'. by left.
Qed.

Context (writes : list string) (Hwrites : Forall own_write writes).
Abbreviation others := (outside engine_id id writes).
Abbreviation runs_of := (attempts engine_id id writes).

Lemma outside_decided t t' : rtc others t t' -> decided final (t !! id) -> decided final (t' !! id).
Proof.
  induction 1 as [|t t1 t' H _ IH]; [done|]. intros Hd. apply IH.
  destruct H as [E|row E Ho _|row _ _ E|env input v Hin Hup].
  - by rewrite E.
  - rewrite E in Hd. apply decided_closed in Hd. congruence.
  - by rewrite E.
  - eapply write_decided; [|exact Hup|done]. by eapply Forall_forall in Hwrites.
Qed.

Lemma outside_sound t t' : rtc others t t' -> sound t -> sound t'.
Proof.
  induction 1 as [|t t1 t' H _ IH]; [done|]. intros Ht. apply IH.
  destruct H as [E|row _ _ E|row _ _ E|env input v Hin Hup].
  - unfold sound. by rewrite E.
  - right. rewrite E. by right.
  - right. by rewrite E.
  - eapply write_sound; [|exact Hup|done]. by eapply Forall_forall in Hwrites.
Qed.

Lemma attempts_decided input t last t' :
  own_write input -> runs_of input t last t' -> decided final (t !! id) -> decided final (t' !! id).
Proof.
  intros Hs H Hd. induction H as [t' H|last t1 env v t2 t' _ IH Hup Hout]; [by eapply outside_decided|].
  eapply outside_decided; [exact Hout|]. by eapply write_decided.
Qed.

Lemma attempts_sound input t last t' : own_write input -> runs_of input t last t' -> sound t -> sound t'.
Proof.
  intros Hs H Ht. induction H as [t' H|last t1 env v t2 t' _ IH Hup Hout]; [by eapply outside_sound|].
  eapply outside_sound; [exact Hout|]. by eapply write_sound.
Qed.

(** A final write that is acknowledged has decided the row. *)
Lemma acknowledged_decides t v t' :
  is_ok v = true -> runs_of (instance_status_input id final) t (Some v) t' ->
  sound t -> decided final (t' !! id).
Proof.
  intros Hr H Ht. inversion H as [|last t1 env r1 t2 t'' Hat Hup Hout]; subst.
  apply attempts_sound in Hat; [|by right|done].
  eapply outside_decided; [exact Hout|]. apply update_own in Hup as [[-> Hup]|(row & E & Ho & E')].
  - destruct Hat as [Hu|Hd]; [|done]. by destruct (Hup Hr).
  - rewrite E'. by left.
  - by destruct r.
Qed.

(** *** A run *)

Lemma served_decided t tr t' :
  served engine_id id writes t tr t' -> Forall own_write (instance_writes tr) ->
  decided final (t !! id) -> decided final (t' !! id).
Proof.
  induction 1 as [t t' H|t input last v t1 tr t' Hat _ _ IH|t e t1 tr t' He Hout _ IH]; intros Hw Hd.
  - by eapply outside_decided.
  - apply Forall_cons in Hw as [Hi Hw]. apply IH; [done|]. by eapply attempts_decided.
  - apply IH; [|by eapply outside_decided]. unfold instance_writes in *. cbn in Hw. by rewrite He in Hw.
Qed.

Lemma served_sound t tr t' :
  served engine_id id writes t tr t' -> Forall own_write (instance_writes tr) -> sound t ->
  sound t' /\
  ((exists e, e ∈ tr /\ instance_write e = Some (instance_status_input id final) /\ acknowledged e = true) ->
   decided final (t' !! id)).
Proof.
  induction 1 as [t t' H|t input last v t1 tr t' Hat Hr Hs IH|t e t1 tr t' He Hout Hs IH]; intros Hw Ht.
  - split; [by eapply outside_sound|]. by intros (e & ?%elem_of_nil & _).
  - apply Forall_cons in Hw as [Hi Hw].
    destruct (IH Hw (attempts_sound _ _ _ _ Hi Hat Ht)) as [Hsound Hdec]. split; [done|].
    intros (e & [-> |He]%elem_of_cons & Hwrite & Hack); [|apply Hdec; eauto].
    cbn in Hwrite. injection Hwrite as ->. change (is_ok v = true) in Hack.
    eapply served_decided; [exact Hs|done|]. rewrite (Hr Hack) in Hat. by eapply acknowledged_decides.
  - assert (Hw' : Forall own_write (instance_writes tr)) by (unfold instance_writes in *; cbn in Hw; by rewrite He in Hw).
    destruct (IH Hw' (outside_sound _ _ Hout Ht)) as [Hsound Hdec]. split; [done|].
    intros (e' & [-> |He']%elem_of_cons & Hwrite & Hack); [congruence|apply Hdec; eauto].
Qed.
End Row.

Context {PE : PgEscape} {HD : HttpDeps} {CC : CronCrate}.

Lemma execute_own_writes ctx json input tr r :
  from_json json = Ok input -> runs (Orchestration.execute ctx json) tr (Done r) ->
  Forall (own_write (input_instance_id input) r) (instance_writes tr).
Proof.
  intros Hin H. apply (execute_writes ctx json input tr (Done r) Hin) in H as [(pre & k & Hpre & _ & ->)|(e & _ & ->)];
    [|constructor].
  apply Forall_app. split; [destruct Hpre as [-> | ->]; repeat constructor; by left|].
  apply Forall_forall. intros x Hx%list_elem_of_In%repeat_spec. by right.
Qed.

(** C3: The table tells the outcome of an instance.  Let an orchestration run to its
    end, with its status writes carried out by the registered activity over the table:
    each any number of times and also late, as an engine does that delivers at least
    once, each with any failure of the database, and with others cancelling the instance
    or retiring it in between.  If the row was open before, it is then still open, or gone after it
    had ended, or says [cancelled], or says exactly what the function did.  And once
    the engine has reported one final write as done, it is no longer open. *)
Theorem instance_row_outcome ctx json input tr r t t' row :
  from_json json = Ok input -> runs (Orchestration.execute ctx json) tr (Done r) ->
  served (ctx_instance_id ctx) (input_instance_id input) (instance_writes tr) t tr t' ->
  t !! input_instance_id input = Some row -> instance_open row = true ->
  let final := final_instance_status r in
  (undecided (t' !! input_instance_id input) \/ decided final (t' !! input_instance_id input)) /\
  ((exists e, e ∈ tr /\ acknowledged e = true /\
    instance_write e = Some (instance_status_input (input_instance_id input) final)) ->
   decided final (t' !! input_instance_id input)).
Proof.
  intros Hin Hruns Hserved Hrow Ho final.
  pose proof (execute_own_writes _ _ _ _ _ Hin Hruns) as Hown.
  apply (served_sound _ _ r) in Hserved as [Hs Hd]; [|done|done|left; by exists row].
  split; [exact Hs|]. intros (e & He & Hack & Hw). apply Hd. eauto.
Qed.
End Outcome.

(** ** A run whose first final write is cut off *)

#[local] Existing Instance sample_cron.
#[local] Existing Instance text_json.
#[local] Existing Instance sample_escape.
#[local] Existing Instance sample_http.
#[local] Existing Instance Origin.sample_uuid.

Definition pending_table : instance_table := {["0badcafe" := mkInstanceRow (Some "pending") false]}.

(** The second status write is lost; everything else succeeds. *)
Definition losing_env : Durable.env := fun hist o =>
  match o as o return resp o with
  | ScheduleActivity name input =>
      if String.eqb name UPDATE_INSTANCE then
        if Nat.eqb (length (instance_writes hist)) 1 then Err "worker lost"
        else fst (update_instance_status sample_env "0badcafe-0001" input pending_table)
      else OrchestrationSpec.sample_env hist (ScheduleActivity name input)
  | o => OrchestrationSpec.sample_env hist o
  end.
Definition losing_run : list event * outcome (result string string) :=
  exec losing_env [] (Orchestration.execute sample_ctx (to_json root_input)).

Definition carried_out (t : instance_table) (status : string) : instance_table :=
  snd (update_instance_status sample_env "0badcafe-0001" (instance_status_input "0badcafe" status) t).
Definition completed_table : instance_table := carried_out (carried_out pending_table "running") "completed".

Lemma served_done t input r tr t' :
  fst (update_instance_status sample_env "0badcafe-0001" input t) = r ->
  served "0badcafe-0001" "0badcafe" (instance_writes (fst losing_run)) (snd (update_instance_status sample_env "0badcafe-0001" input t)) tr t' ->
  served "0badcafe-0001" "0badcafe" (instance_writes (fst losing_run)) t (Ev (ScheduleActivity UPDATE_INSTANCE input) r :: tr) t'.
Proof.
  intros Hr. eapply served_write; [|reflexivity].
  eapply attempts_more; [by apply attempts_none|rewrite <- Hr; apply surjective_pairing|done].
Qed.

Lemma losing_run_served : served "0badcafe-0001" "0badcafe" (instance_writes (fst losing_run)) pending_table (fst losing_run) completed_table.
Proof.
  unfold completed_table.
  let tr := eval vm_compute in (fst losing_run) in replace (fst losing_run) with tr by (vm_compute; reflexivity).
  repeat first
    [ eapply served_other; [reflexivity|reflexivity|]
    | eapply served_write; [apply attempts_none; reflexivity|discriminate|]
    | apply served_done; [vm_compute; reflexivity|]
    | apply served_end; reflexivity ].
Qed.

Lemma instance_row_outcome_witness :
  snd losing_run = Done (Ok "1") /\ decided "completed" (completed_table !! "0badcafe").
Proof.
  assert (H : snd losing_run = Done (Ok "1")) by (vm_compute; reflexivity). split; [exact H|].
  refine (proj2 (instance_row_outcome sample_ctx (to_json root_input) root_input (fst losing_run) (Ok "1") pending_table
    completed_table (mkInstanceRow (Some "pending") false) _ _ losing_run_served _ _) _).
  - apply from_to_json. repeat split; vm_compute; discriminate.
  - rewrite <- H. apply exec_runs.
  - reflexivity.
  - reflexivity.
  - exists (Ev (ScheduleActivity UPDATE_INSTANCE (instance_status_input "0badcafe" "completed"))
      (Ok "Status updated to completed")).
    split; [|by split]. apply (list_elem_of_lookup_2 _ 9). vm_compute. reflexivity.
Defined.

(** The write fence orders generations, not the writes of one: unlike the row of an
    instance, the row of a node takes a late [running] write of the generation that
    has completed it. *)
Example late_running_write_lands :
  let write status t := snd (update_node_status sample_env "ab12cd34" (sample_write status "ab12cd34::3") t) in
  row_status <$> write "completed" sample_table !! sample_key = Some (Some "completed") /\
  row_status <$> write "running" (write "completed" sample_table) !! sample_key = Some (Some "running").
Proof. split; vm_compute; reflexivity. Qed.
