(* ===== verification/SubtreeSpec.v ===== *)
(** Crossing the boundary between orchestrations: a parent and the child that
    runs a subtree, and a loop and its next generation, exchange only text.
    These theorems show that nothing is lost on the way. *)
From S2P Require Import Prelude RustString Json JsonText Durable Substitution SubstitutionSpec.
From S2P Require Import Graph Lineage HttpConfig Admission Orchestration OrchestrationFacts.

(** ** Codecs *)

#[export] Instance subtree_input_codec_ok : CodecOk SubtreeInput.
Proof.
  constructor; intros [i n g r vs lb it f] Hit; cbn in Hit.
  - set (a := mkSubtreeInput i n g r vs lb it f). change (de_subtree_input (en_subtree_input a) = Some a).
    unfold en_subtree_input, de_subtree_input, a.
    cbn [sub_instance_id sub_node_id sub_graph sub_results sub_vars sub_label sub_iteration
      sub_failure_isolated].
    destruct vs, lb, f; cbn [is_false]; decode; rewrite de_u64_en by done; reflexivity.
  - apply N.leb_le in Hit. destruct vs, lb, f; cbn; by rewrite Hit.
Qed.

#[export] Instance envelope_codec_ok : CodecOk SubtreeEnvelope.
Proof.
  constructor; intros [c r rs] _.
  - set (a := mkEnvelope c r rs). change (de_envelope (en_envelope a) = Some a).
    unfold en_envelope, de_envelope, a. cbn [control env_result env_results].
    destruct c as [[]|]; decode; cbn [de_control en_control de_unit_variant]; decode; done.
  - change (wf_value (en_envelope (mkEnvelope c r rs)) = true). unfold en_envelope.
    cbn [control env_result env_results].
    pose proof (wf_en_string_map rs) as Hv. remember (en_string_map rs) as v.
    destruct c as [[]|]; cbn; by rewrite Hv.
Qed.

Section Boundary.
Context {SJ : SerdeJson} `{!SerdeJsonLaws SJ}.

Lemma parse_envelope_of raw context e s :
  from_json (A := SubtreeEnvelope) raw = Ok e ->
  parse_subtree_envelope raw context s = Ret (envelope_result e, env_results e ∪ s).
Proof. intros H. unfold parse_subtree_envelope. rewrite H. reflexivity. Qed.

Lemma decode_encode_failure msg :
  decode_subtree_application_failure (encode_subtree_application_failure msg) = Some msg.
Proof.
  unfold decode_subtree_application_failure, encode_subtree_application_failure, from_str_as.
  by rewrite value_from_to_string by reflexivity.
Qed.

(** What the parent of a subtree makes of the child's outcome: the branch
    result with the results it merges, or the error. *)
Definition received (context : string) (r : result string string) (s : named_results)
    : NodeResult * named_results :=
  match r with
  | Ok raw => match parse_subtree_envelope raw context s with Ret rs => rs | _ => (Err (Failure ""), s) end
  | Err e => (Err (classify_subtree_failure e), s)
  end.

(** A subtree means to its parent what it would have meant inline.  A value
    or a break crosses the boundary unchanged and brings every named result of
    the child with it, the child's value winning; an application error and a
    failure come back as themselves, provided the failure's text is not itself
    the tagged encoding of an application error. *)
Theorem subtree_outcome_round_trip context (r : NodeResult) child parent :
  (forall e, r = Err (Failure e) -> decode_subtree_application_failure e = None) ->
  received context (subtree_outcome (r, child)) parent =
    (r, match r with Ok _ | Err (Break _) => child ∪ parent | _ => parent end).
Proof.
  intros Hf. unfold received, subtree_outcome. cbn [fst snd].
  destruct r as [v|[v|m|m]]; cbv beta iota zeta.
  1-2: by erewrite parse_envelope_of by (by apply from_to_json).
  - unfold classify_subtree_failure. by rewrite decode_encode_failure.
  - unfold classify_subtree_failure. by rewrite (Hf m eq_refl).
Qed.

(** An isolated loop iteration consumes application errors and nothing else.
    A value, a break and an application error of the body are three different
    outcomes of the iteration; a failure of the body fails the loop. *)
Theorem isolated_body_classified (r : NodeResult) child parent :
  (forall e, r = Err (Failure e) -> decode_subtree_application_failure e = None) ->
  classify_isolated_body_result (subtree_outcome (r, child)) parent =
    match r with
    | Ok v => Ret (Ok (Succeeded v), child ∪ parent)
    | Err (Break v) => Ret (Ok (BrokeOut v), child ∪ parent)
    | Err (Application _) => Ret (Ok ApplicationFailed, parent)
    | Err (Failure e) => Ret (Err (Failure e), parent)
    end.
Proof.
  intros Hf. unfold classify_isolated_body_result, subtree_outcome. cbn [fst snd].
  destruct r as [v|[v|m|m]].
  1-2: unfold bindM, attempt; by erewrite parse_envelope_of by (by apply from_to_json).
  - by rewrite decode_encode_failure.
  - by rewrite (Hf m eq_refl).
Qed.

(** An envelope written before the control field existed is still read.  The
    legacy text of a break, an object with the sentinel key set, means a break
    with the JSON text of its value; any other result means itself; and the
    current writer never depends on the sentinel, because it always writes the
    control field. *)
Theorem legacy_envelope_compatible context (v : value) res rs s :
  wf_value v = true -> parse_legacy_break_sentinel res = None ->
  let legacy r := to_json (mkEnvelope None r rs) in
  let sentinel := value_to_string (Object [(LEGACY_BREAK_SENTINEL, Bool true); ("value", v)]) in
  parse_subtree_envelope (legacy sentinel) context s =
    Ret (Err (Break (value_to_string v)), rs ∪ s) /\
  parse_subtree_envelope (legacy res) context s = Ret (Ok res, rs ∪ s) /\
  parse_subtree_envelope (to_json (mkEnvelope (Some ControlNormal) sentinel rs)) context s =
    Ret (Ok sentinel, rs ∪ s).
Proof.
  intros Hv Hres legacy sentinel.
  assert (Hs : parse_legacy_break_sentinel sentinel = Some (value_to_string v)).
  { unfold parse_legacy_break_sentinel, sentinel. rewrite value_from_to_string.
    - reflexivity.
    - cbn. by rewrite Hv. }
  split_and!; (erewrite parse_envelope_of by (by apply from_to_json));
    unfold envelope_result; cbn [control env_result env_results]; by rewrite ?Hs, ?Hres.
Qed.
End Boundary.

(** ** The generations of a loop *)

Section Generations.
Context {SJ : SerdeJson} `{!SerdeJsonLaws SJ} {PE : PgEscape} {HD : HttpDeps} {CC : CronCrate}.
Context (graph : FunctionGraph) (exec_ctx : ExecutionContext).

(** The clock and the timer of one rate limit, from the start of the iteration. *)
Definition rate_limited (started : option Z) (tr : list event) : Prop :=
  match started with
  | None => tr = []
  | Some t0 => exists r tr', tr = Ev UtcNow r :: tr' /\
      match r with
      | Err _ => tr' = []
      | Ok t1 => (tr' = [] /\ (LOOP_MIN_ITER_DURATION <= Z.to_N (t1 - t0))%N) \/
          (exists d, tr' = [Ev (ScheduleTimer d) tt] /\
           (Z.to_N (t1 - t0) + d = LOOP_MIN_ITER_DURATION)%N)
      end
  end.

Lemma rate_limit_runs started s tr o :
  runs (rate_limit started s) tr o -> rate_limited started tr /\ o = Done (Ok tt, s).
Proof.
  unfold rate_limit. destruct started as [t0|]; [|intros [-> ->]; done].
  intros (r & tr' & -> & H)%runs_op_bindM. cbn [rate_limited].
  destruct r as [t1|e]; [|destruct H as [-> ->]; split; [by eexists _, []|done]].
  cbv zeta in H. destruct (N.ltb_spec (Z.to_N (t1 - t0)) LOOP_MIN_ITER_DURATION).
  - destruct H as ([] & tr2 & -> & -> & ->). split; [|done]. eexists _, _. split; [done|]. right.
    eexists. split; [done|]. lia.
  - destruct H as [-> ->]. split; [|done]. eexists _, []. split; [done|]. by left.
Qed.

(** What running the serialized next generation amounts to. *)
Definition next_generation (node_id : string) (s : named_results) (json : string) : Prop :=
  forall ctx,
  match continuation exec_ctx with
  | Root => exists graph_json, execute ctx json =
        execute_graph ctx (mkInput (graph_instance_id graph) (label exec_ctx) (vars exec_ctx)
                           (loop_iteration exec_ctx + 1) (Some graph_json) None 0 0) graph
  | Subtree => execute_subtree ctx json =
        let! outcome := run_node ctx graph (mkExecCtx (vars exec_ctx) (label exec_ctx)
            (failure_isolated exec_ctx) (loop_iteration exec_ctx + 1) node_id Subtree) node_id s in
      Ret (subtree_outcome outcome)
  end.

Lemma next_input_generation node_id s :
  (loop_iteration exec_ctx + 1 <= u64_max)%N ->
  exists json, next_input graph exec_ctx node_id (loop_iteration exec_ctx + 1) s = Ok json /\
  next_generation node_id s json.
Proof.
  intros Hit. unfold next_input, next_generation, to_json_res. cbn [map_err result_bind].
  pose proof (from_to_json graph I) as Hg. destruct (continuation exec_ctx).
  - eexists. split; [done|]. intros ctx. exists (to_json graph).
    unfold execute, execute_graph_json, bind_result.
    rewrite from_to_json by (repeat split; cbn; unfold u32_max; lia).
    cbn [map_err bind input_graph]. by rewrite Hg.
  - eexists. split; [done|]. intros ctx. unfold execute_subtree. rewrite from_to_json by exact Hit.
    unfold bind_result. cbn [map_err bind]. unfold parse_subtree.
    cbn [sub_graph sub_results sub_vars sub_label sub_failure_isolated sub_iteration sub_node_id].
    rewrite Hg. unfold string_map_to_json, to_string_res.
    change (value_to_string (en_string_map ?m)) with (to_json m). by rewrite !from_to_json.
Qed.

(** C33: a loop that goes on restarts as the same loop.  Below the cap of 2^23
    iterations the execution ends by continuing as new with an input that, parsed
    by the next generation, makes it run the same graph with the same variables,
    label and isolation at the next iteration, a subtree also with the named
    results reached so far; before that it sleeps for whatever the iteration
    lacks to one second.  At the cap it fails without doing anything. *)
Theorem loop_restarts_itself {A} node_id started s tr (o : outcome (result A NodeError * named_results)) :
  (loop_iteration exec_ctx + 1 <= u64_max)%N ->
  runs (loop_again graph exec_ctx node_id started s) tr o ->
  if (MAX_LOOP_ITERATIONS <=? loop_iteration exec_ctx + 1)%N
  then tr = [] /\ exists msg, o = Done (Err (Failure msg), s)
  else rate_limited started tr /\
  exists json, o = Stopped (ContinuedAsNew json) /\ next_generation node_id s json.
Proof.
  intros Hit H. unfold loop_again in H.
  assert (Hw : u64_wrapping_add (loop_iteration exec_ctx) 1 = (loop_iteration exec_ctx + 1)%N).
  { unfold u64_wrapping_add. apply N.mod_small. unfold u64_max in Hit. lia. }
  rewrite Hw in H. cbv zeta in H. destruct (_ <=? _)%N; [destruct H as [-> ->]; eauto|].
  apply runs_bindM in H as [(tr1 & tr2 & ? & s1 & -> & [Hr [= -> ->]]%rate_limit_runs & H)
    |[(e & s1 & _ & [_ [=]]%rate_limit_runs)|(st & _ & [_ [=]]%rate_limit_runs)]].
  destruct (next_input_generation node_id s Hit) as (json & Hj & Hnext).
  unfold bindM at 1 in H. cbn [get_results bind fst snd] in H.
  unfold bindM in H. rewrite Hj in H. destruct H as [-> ->]. rewrite app_nil_r. eauto.
Qed.
End Generations.

(** ** Witnesses *)

#[local] Existing Instance sample_cron.
#[local] Existing Instance text_json.
#[local] Existing Instance text_json_laws.
#[local] Existing Instance sample_escape.
#[local] Existing Instance sample_http.

Lemma subtree_outcome_round_trip_witness :
  received "LOOP" (subtree_outcome (Err (Break "7"), {["a" := "1"]})) {["b" := "2"]} =
    (Err (Break "7"), {["a" := "1"]} ∪ {["b" := "2"]}) /\
  received "LOOP" (subtree_outcome (Err (Failure "disk full"), {["a" := "1"]})) {["b" := "2"]} =
    (Err (Failure "disk full"), {["b" := "2"]}).
Proof.
  split; apply subtree_outcome_round_trip; [done|]. intros e [= <-]. vm_compute. reflexivity.
Defined.

Lemma isolated_body_classified_witness :
  classify_isolated_body_result (subtree_outcome (Err (Application "bad row"), {["a" := "1"]})) ∅ =
    Ret (Ok ApplicationFailed, ∅) /\
  classify_isolated_body_result (subtree_outcome (Err (Failure "disk full"), {["a" := "1"]})) ∅ =
    Ret (Err (Failure "disk full"), ∅).
Proof.
  split; apply isolated_body_classified; [done|]. intros e [= <-]. vm_compute. reflexivity.
Defined.

Lemma legacy_envelope_compatible_witness :
  let legacy r := to_json (mkEnvelope None r ∅) in
  let sentinel := value_to_string (Object [(LEGACY_BREAK_SENTINEL, Bool true); ("value", JString "x")]) in
  parse_subtree_envelope (legacy sentinel) "LOOP" ∅ =
    Ret (Err (Break (value_to_string (JString "x"))), ∅ ∪ ∅) /\
  parse_subtree_envelope (legacy "5") "LOOP" ∅ = Ret (Ok "5", ∅ ∪ ∅) /\
  parse_subtree_envelope (to_json (mkEnvelope (Some ControlNormal) sentinel ∅)) "LOOP" ∅ =
    Ret (Ok sentinel, ∅ ∪ ∅).
Proof.
  apply (legacy_envelope_compatible "LOOP" (JString "x") "5" ∅ ∅);
    [reflexivity|vm_compute; reflexivity].
Defined.

Definition generation_graph : FunctionGraph := mkGraph "0badcafe" "l" ∅ V1.
Definition generation_ctx : ExecutionContext := mkExecCtx {["v" := "1"]} (Some "job") true 41 "l" Subtree.

(** A clock that stands still, and timers that fire. *)
Definition still : env := answering (Ok "") 7 "" (Ok "").
Definition generation_run : list event * outcome (result string NodeError * named_results) :=
  exec still [] (loop_again generation_graph generation_ctx "l" (Some 7%Z) {["r" := "2"]}).

Lemma loop_restarts_itself_witness :
  rate_limited (Some 7%Z) (fst generation_run) /\
  exists json, snd generation_run = Stopped (ContinuedAsNew json) /\
    next_generation generation_graph generation_ctx "l" {["r" := "2"]} json.
Proof.
  apply (loop_restarts_itself generation_graph generation_ctx (A := string) "l" (Some 7%Z) {["r" := "2"]});
    [vm_compute; discriminate|apply exec_runs].
Defined.
