(* ===== verification/NodeSpec.v ===== *)
(** What each kind of node does: the operations it performs, in order, and the
    result it ends with, on every branch of its handler. *)
From S2P Require Import Prelude RustString Json JsonText Durable Substitution SubstitutionSpec.
From S2P Require Import Graph Lineage HttpConfig Admission Orchestration OrchestrationFacts.

(** ** Computing handlers *)

(** The named results after a node has stored its own. *)
Definition stored (node : FunctionNode) (res : string) (s : named_results) : named_results :=
  match result_name node with Some name => <[name := res]> s | None => s end.

Lemma store_named_result_eq node res s : store_named_result node res s = Ret (Ok tt, stored node res s).
Proof. unfold store_named_result, stored. by destruct (result_name node). Qed.

(** A node's result, stored on success. *)
Definition store_outcome (node : FunctionNode) (o : outcome (NodeResult * named_results))
  : outcome (NodeResult * named_results) :=
  match o with
  | Done (Ok v, s) => Done (Ok v, stored node v s)
  | _ => o
  end.

Lemma runs_store node (m : M string) s tr o :
  runs ((letM res := m in letM _ := store_named_result node res in ret res) s) tr o <->
  exists o', runs (m s) tr o' /\ o = store_outcome node o'.
Proof.
  rewrite runs_bindM. split.
  - intros [(tr1 & tr2 & v & s1 & -> & H1 & H2)|[(e & s1 & -> & H)|(st & -> & H)]].
    + unfold bindM in H2. rewrite store_named_result_eq in H2. destruct H2 as [-> ->].
      rewrite app_nil_r. by exists (Done (Ok v, s1)).
    + by exists (Done (Err e, s1)).
    + by exists (Stopped st).
  - intros ([[[v|e] s1]|st] & H & ->).
    + left. exists tr, [], v, s1. rewrite app_nil_r. split_and!; [done..|].
      unfold bindM. by rewrite store_named_result_eq.
    + right; left. eauto.
    + right; right. eauto.
Qed.

Section Parse.
Context {SJ : SerdeJson}.

(** [parse_subtree_envelope] only computes. *)
Definition opened (raw context : string) (s : named_results) : NodeResult * named_results :=
  match from_json (A := SubtreeEnvelope) raw with
  | Ok e => (envelope_result e, env_results e ∪ s)
  | Err e => (Err (Failure (context +:+ " envelope parse error: " +:+ e)), s)
  end.

Lemma parse_subtree_envelope_eq raw context s :
  parse_subtree_envelope raw context s = Ret (opened raw context s).
Proof. unfold parse_subtree_envelope, opened. by destruct (from_json raw). Qed.
End Parse.

Section Nodes.
Context {SJ : SerdeJson} {PE : PgEscape} {HD : HttpDeps} {CC : CronCrate}.
Context (ctx : OrchestrationContext) (graph : FunctionGraph) (exec_ctx : ExecutionContext).

(** *** SQL *)

Definition sql_op (node : FunctionNode) (text : string) : dop :=
  ScheduleActivity EXECUTE_SQL (value_to_string (en_sql_input
      (mkSqlInput text (submitted_by node) (database node) (sql_quoting_version graph)))).

(** A SQL node runs one statement.  Its text is the query with every
    reference substituted under the quoting rules of the graph; when substitution
    fails nothing runs and the node fails; an error of the statement is an
    application error; a result is stored under the node's name. *)
Theorem sql_node_runs node node_id q s tr o :
  query node = Some q ->
  runs (execute_sql_node graph exec_ctx node node_id s) tr o ->
  match substitute_all_with_options q s (vars exec_ctx) (sys_vars graph exec_ctx)
        (Some (sql_quoting_version graph)) with
  | Err e => tr = [] /\ o = Done (Err (Failure e), s)
  | Ok text => exists r, tr = [Ev (sql_op node text) r] /\
      o = match r with
        | Ok v => Done (Ok v, stored node v s)
        | Err e => Done (Err (Application e), s)
        end
  end.
Proof.
  intros Hq H. unfold execute_sql_node in H. rewrite Hq in H.
  unfold bindM at 1 2 3 in H. cbn [of_string_result of_result ok_or map_err bind fst snd get_results] in H.
  destruct (substitute_all_with_options _ _ _ _ _) as [text|e]; cbn [map_err bind fst snd] in H;
    [|by destruct H as [-> ->]].
  apply runs_store in H as (o' & H & ->).
  apply runs_op_bindM in H as (r & tr' & -> & -> & ->). exists r. split; [done|].
  by destruct r.
Qed.

(** *** THEN and IF *)

Context (rec : string -> M string).

(** [first] runs and then, in the results it leaves, [next] of its value. *)
Definition sequenced {A} (first : M A) (next : A -> M string) (s : named_results)
    (tr : list event) (o : outcome (NodeResult * named_results)) : Prop :=
  (exists tr1 tr2 a s1, tr = tr1 ++ tr2 /\ runs (first s) tr1 (Done (Ok a, s1)) /\
   runs (next a s1) tr2 o) \/
  (exists e s1, o = Done (Err e, s1) /\ runs (first s) tr (Done (Err e, s1))) \/
  (exists st, o = Stopped st /\ runs (first s) tr (Stopped st)).

Lemma runs_sequenced {A} node (first : M A) next s tr o :
  runs ((letM a := first in letM res := next a in
    letM _ := store_named_result node res in ret res) s) tr o <->
    exists o', sequenced first next s tr o' /\ o = store_outcome node o'.
Proof.
  unfold sequenced. rewrite runs_bindM. split.
  - intros [(tr1 & tr2 & v & s1 & -> & H1 & (o' & H2 & ->)%runs_store)|[(e & s1 & -> & H)|(st & -> & H)]].
    + exists o'. split; [|done]. left. eauto 10.
    + exists (Done (Err e, s1)). split; [|done]. right; left. eauto.
    + exists (Stopped st). split; [|done]. right; right. eauto.
  - intros (o' & [(tr1 & tr2 & v & s1 & -> & H1 & H2)|[(e & s1 & -> & H)|(st & -> & H)]] & ->).
    + left. exists tr1, tr2, v, s1. split_and!; [done..|]. apply runs_store. eauto.
    + right; left. eauto.
    + right; right. eauto.
Qed.

(** A THEN node runs its left branch and then, only if that succeeded and in
    the named results it leaves, its right branch; its result is the right one's,
    stored under the node's name, and the first error or stop is its own. *)
Theorem then_node_sequences node node_id l r s tr o :
  left_node node = Some l -> right_node node = Some r ->
  (runs (execute_then_node rec node node_id s) tr o <->
   exists o', sequenced (rec l) (fun _ => rec r) s tr o' /\ o = store_outcome node o').
Proof.
  intros Hl Hr. unfold execute_then_node. rewrite Hl, Hr.
  apply (runs_sequenced node (rec l) (fun _ => rec r)).
Qed.

(** An IF node decides its condition first and then runs exactly one of its
    branches, the then branch on true and the else branch on false, in the named
    results the condition leaves; when the condition raises, neither runs. *)
Theorem if_node_selects node node_id q config l r s tr o :
  query node = Some q -> value_from_str q = Ok config ->
  left_node node = Some l -> right_node node = Some r ->
  (runs (execute_if_node rec node node_id s) tr o <->
   exists o', sequenced (if_condition rec config) (fun b : bool => rec (if b then l else r)) s tr o' /\
   o = store_outcome node o').
Proof.
  intros Hq Hc Hl Hr. unfold execute_if_node. rewrite Hq, Hl, Hr. cbn [ok_or].
  change (bindM (of_string_result (Ok q)) ?k s) with (k q s). cbv beta. rewrite Hc. cbn [map_err].
  apply (runs_sequenced node (if_condition rec config) (fun b : bool => rec (if b then l else r))).
Qed.

(** *** LOOP *)

(** What the result of the condition means for a loop whose body returned [v]. *)
Definition condition_verdict (node : FunctionNode) (v : string) (r : NodeResult) (s : named_results)
    : result (option string) NodeError * named_results :=
  match r with
  | Ok c => match evaluate_condition c with
      | Ok true => (Ok None, s)
      | Ok false | Err _ => (Ok (Some v), stored node v s)
      end
  | Err (Break w) => (Ok (Some w), stored node w s)
  | Err (Application e) | Err (Failure e) => (Err (Failure e), s)
  end.

Lemma evaluate_loop_condition_runs node c v s tr o :
  runs (evaluate_loop_condition rec node (Some c) v s) tr o ->
  (exists r s1, runs (rec c s) tr (Done (r, s1)) /\ o = Done (condition_verdict node v r s1)) \/
  (exists st, o = Stopped st /\ runs (rec c s) tr (Stopped st)).
Proof.
  unfold evaluate_loop_condition.
  intros [(tr1 & tr2 & r & s1 & -> & H1 & H2)|[(e & s1 & -> & H)|(st & -> & H)]]%runs_bindM.
  - apply runs_attempt in H1 as [(r' & s' & [= <- <-] & H1)|(st & [=] & _)]. left. exists r, s1.
    destruct r as [t|[w|e|e]]; cbn [condition_verdict].
    + destruct (evaluate_condition t) as [[]|e]; [|unfold bindM in H2; rewrite store_named_result_eq in H2..];
        destruct H2 as [-> ->]; by rewrite app_nil_r.
    + unfold bindM in H2. rewrite store_named_result_eq in H2. destruct H2 as [-> ->]. by rewrite app_nil_r.
    + destruct H2 as [-> ->]. by rewrite app_nil_r.
    + destruct H2 as [-> ->]. by rewrite app_nil_r.
  - by apply runs_attempt in H as [(r' & s' & [=] & _)|(st & [=] & _)].
  - apply runs_attempt in H as [(r' & s' & [=] & _)|(st' & [= <-] & H)]. eauto.
Qed.

(** One iteration of a loop is its body, then its condition.  A break of the
    body or of the condition ends the loop with the value it carries; without a
    condition, or when it is true, the loop goes on; when it is false or cannot be
    evaluated, the loop ends with the body's result; an error of the body is the
    loop's error, an error of the condition a failure.  The condition runs only
    after the body succeeded. *)
Theorem loop_iteration_runs node body condition s tr o :
  runs (run_loop_iteration rec node body condition s) tr o ->
  (exists st, o = Stopped st /\ runs (rec body s) tr (Stopped st)) \/
  exists tr1 r1 s1, runs (rec body s) tr1 (Done (r1, s1)) /\
  match r1, condition with
  | Ok v, Some c => exists tr2, tr = tr1 ++ tr2 /\
      ((exists r2 s2, runs (rec c s1) tr2 (Done (r2, s2)) /\ o = Done (condition_verdict node v r2 s2)) \/
       (exists st, o = Stopped st /\ runs (rec c s1) tr2 (Stopped st)))
  | Ok _, None => tr = tr1 /\ o = Done (Ok None, s1)
  | Err (Break v), _ => tr = tr1 /\ o = Done (Ok (Some v), stored node v s1)
  | Err e, _ => tr = tr1 /\ o = Done (Err e, s1)
  end.
Proof.
  unfold run_loop_iteration.
  intros [(tr1 & tr2 & r & s1 & -> & H1 & H2)|[(e & s1 & -> & H)|(st & -> & H)]]%runs_bindM.
  - right. apply runs_attempt in H1 as [(r' & s' & [= <- <-] & H1)|(st & [=] & _)]. exists tr1, r, s1.
    split; [done|]. destruct r as [v|[w|e|e]].
    + destruct condition as [c|].
      * exists tr2. split; [done|]. by apply evaluate_loop_condition_runs.
      * destruct H2 as [-> ->]. by rewrite app_nil_r.
    + unfold bindM in H2. rewrite store_named_result_eq in H2. destruct H2 as [-> ->]. by rewrite app_nil_r.
    + destruct H2 as [-> ->]. by rewrite app_nil_r.
    + destruct H2 as [-> ->]. by rewrite app_nil_r.
  - by apply runs_attempt in H as [(r' & s' & [=] & _)|(st & [=] & _)].
  - apply runs_attempt in H as [(r' & s' & [=] & _)|(st' & [= <-] & H)]. left. eauto.
Qed.

(** *** SIGNAL *)

(** A SIGNAL node waits for its signal, or for its signal and its timeout,
    whichever comes first.  The result names the signal and says whether the wait
    timed out: data that arrived is read as JSON if it is JSON and as a string if
    it is not, and a timeout carries [null]. *)
Theorem signal_node_runs node node_id q config name s tr o :
  query node = Some q -> value_from_str q = Ok config ->
  as_str (index config "signal_name") = Some name ->
  runs (execute_signal_node node node_id s) tr o ->
  exists timed_out data,
  o = Done (Ok (signal_result name timed_out data), stored node (signal_result name timed_out data) s) /\
  match as_i64 (index config "timeout_seconds") with
  | None => exists text, tr = [Ev (ScheduleWait name) text] /\ timed_out = false /\
      data = parse_signal_data text
  | Some secs => exists f1 f2 w,
      tr = [Ev (StartWait name) f1; Ev (StartTimer (from_secs (i64_as_u64 secs))) f2;
            Ev (Select2WaitTimer f1 f2) w] /\
      (timed_out, data) = match w with
        | First text => (false, parse_signal_data text)
        | Second _ => (true, Null)
        end
  end.
Proof.
  intros Hq Hc Hn H. unfold execute_signal_node in H. rewrite Hq in H. cbn [ok_or] in H.
  change (bindM (of_string_result (Ok q)) ?k s) with (k q s) in H. cbv beta in H. rewrite Hc in H.
  cbn [map_err] in H. change (bindM (of_string_result (Ok config)) ?k s) with (k config s) in H.
  cbv beta in H. rewrite Hn in H. cbn [ok_or] in H.
  change (bindM (of_string_result (Ok name)) ?k s) with (k name s) in H. cbv beta in H.
  apply runs_store in H as (o' & H & ->).
  destruct (as_i64 (index config "timeout_seconds")) as [secs|].
  - apply runs_op_bindM in H as (f1 & tr1 & -> & H). apply runs_op_bindM in H as (f2 & tr2 & -> & H).
    apply runs_op_bindM in H as (w & tr3 & -> & [-> ->]).
    destruct w as [text|[]].
    + exists false, (parse_signal_data text). split; [done|]. by exists f1, f2, (First text).
    + exists true, Null. split; [done|]. by exists f1, f2, (Second tt).
  - apply runs_op_bindM in H as (text & tr1 & -> & [-> ->]).
    exists false, (parse_signal_data text). split; [done|]. by exists text.
Qed.

(** *** RACE and JOIN *)

(** Starting the subtree rooted at [i] with the named results [s]. *)
Definition start_op (i : string) (s : named_results) : dop :=
  StartSubOrchestration SUBTREE_NAME (subtree_instance_id ctx i)
    (to_json (mkSubtreeInput (graph_instance_id graph) i (to_json graph) (to_json s)
              (Some (to_json (vars exec_ctx))) (label exec_ctx) 0 (failure_isolated exec_ctx))).

Lemma build_subtree_input_start i s (k : string -> M fut) :
  bindM (of_string_result (build_subtree_input graph exec_ctx (failure_isolated exec_ctx) i s)) k =
    k (to_json (mkSubtreeInput (graph_instance_id graph) i (to_json graph) (to_json s)
                (Some (to_json (vars exec_ctx))) (label exec_ctx) 0 (failure_isolated exec_ctx))).
Proof. done. Qed.

(** The stamp a parent writes for the loop child [i]. *)
Definition child_failed_op (i message : string) : dop :=
  ScheduleActivity UPDATE_NODE (value_to_string (Object
      [("node_id", JString i); ("instance_id", JString (graph_instance_id graph));
       ("status", JString "failed");
       ("execution_id", JString (subtree_instance_id ctx i +:+ "::1")); ("result", JString message)])).

Definition cancelled : string := "Loop branch cancelled after losing RACE".

Definition if_loop (i : string) (o : dop) : list dop := if node_is_loop graph i then [o] else [].

(** The rest of a RACE that [winner] finished first with [r]. *)
Definition race_end (side winner loser : string) (r : result string string) (node : FunctionNode)
    (s : named_results) : list dop * outcome (NodeResult * named_results) :=
  match r with
  | Ok raw => (if_loop loser (child_failed_op loser cancelled),
               store_outcome node (Done (opened raw "RACE branch" s)))
  | Err e =>
      let error := contextualize_subtree_failure ("RACE " +:+ side +:+ " branch failed") e in
      (if_loop loser (child_failed_op loser cancelled) ++
       if_loop winner (child_failed_op winner (message error)), Done (Err error, s))
  end.

Lemma fail_child_runs {A} i error s tr (o : outcome (result A NodeError * named_results)) :
  runs (fail_loop_child_future ctx graph i error s) tr o ->
  ops tr = [child_failed_op i (message error)] /\ o = Done (Err error, s).
Proof. intros (r & tr' & -> & -> & ->). done. Qed.

Lemma cancel_runs {A} loser (k : unit -> M A) s tr o :
  runs (bindM (cancel_losing_loop_branch ctx graph loser) k s) tr o ->
  exists tr', ops tr = if_loop loser (child_failed_op loser cancelled) ++ ops tr' /\
  runs (k tt s) tr' o.
Proof.
  unfold cancel_losing_loop_branch, if_loop. destruct (node_is_loop graph loser); [|by exists tr].
  intros (r & tr' & -> & H). by exists tr'.
Qed.

Lemma race_outcome_runs side winner loser r node s tr o :
  runs ((letM raw := race_outcome ctx graph side winner loser r in
    letM res := parse_subtree_envelope raw "RACE branch" in
    letM _ := store_named_result node res in ret res) s) tr o ->
  (ops tr, o) = race_end side winner loser r node s.
Proof.
  unfold race_outcome.
  intros [(tr1 & tr2 & raw & s2 & -> & H1 & H2)|[(e & s1 & -> & H)|(st & -> & H)]]%runs_bindM.
  - apply cancel_runs in H1 as (tr3 & Hops & Hk). destruct r as [raw'|e]; cbn [race_end].
    + destruct Hk as [-> [= -> ->]]. rewrite app_nil_r in Hops.
      rewrite ops_app, Hops.
      unfold bindM at 1 in H2. rewrite parse_subtree_envelope_eq in H2. cbn [bind] in H2.
      destruct (opened raw' "RACE branch" s) as [[v|e] s4]; cbn [fst snd] in H2.
      * unfold bindM in H2. rewrite store_named_result_eq in H2. destruct H2 as [-> ->].
        by rewrite app_nil_r.
      * destruct H2 as [-> ->]. by rewrite app_nil_r.
    + destruct (node_is_loop graph winner); [by apply fail_child_runs in Hk as [_ [=]]|].
      by destruct Hk as [_ [=]].
  - apply cancel_runs in H as (tr3 & Hops & Hk).
    destruct r as [raw'|e']; [by destruct Hk as [_ [=]]|]. cbn [race_end]. unfold if_loop at 2.
    destruct (node_is_loop graph winner).
    + apply fail_child_runs in Hk as [Hk [= -> ->]]. by rewrite Hops, Hk.
    + destruct Hk as [-> [= -> ->]]. by rewrite Hops.
  - apply cancel_runs in H as (tr3 & _ & Hk).
    destruct r as [raw'|e']; [by destruct Hk as [_ [=]]|].
    destruct (node_is_loop graph winner); [by apply fail_child_runs in Hk as [_ [=]]|].
    by destruct Hk as [_ [=]].
Qed.

(** A RACE is decided by the branch that finishes first.  Both branches start
    from the same named results; the winner's value, break or error is the node's,
    merged into those results; a loop that lost is stamped failed as cancelled, and
    a loop that won by failing is stamped failed with its error, each under the
    first stamp of its own child orchestration. *)
Theorem race_node_runs node node_id l r s tr o :
  left_node node = Some l -> right_node node = Some r ->
  runs (execute_race_node ctx graph exec_ctx node node_id s) tr o ->
  exists f1 f2 w tail, ops tr = start_op l s :: start_op r s :: Select2Subs f1 f2 :: tail /\
  (tail, o) = match w with
    | First x => race_end "left" l r x node s
    | Second x => race_end "right" r l x node s
    end.
Proof.
  intros Hl Hr H. unfold execute_race_node in H. rewrite Hl, Hr in H. cbn [ok_or] in H.
  change (bindM (of_string_result (Ok l)) ?k s) with (k l s) in H. cbv beta in H.
  change (bindM (of_string_result (Ok r)) ?k s) with (k r s) in H. cbv beta in H.
  apply runs_op_bindM in H as (f1 & tr1 & -> & H). apply runs_op_bindM in H as (f2 & tr2 & -> & H).
  apply runs_op_bindM in H as (w & tr3 & -> & H). exists f1, f2, w, (ops tr3).
  split; [done|]. destruct w; by apply race_outcome_runs.
Qed.

(** What a JOIN makes of the result of its branch [i], the node [id]: a value, or
    an error with the loop that has to be stamped for it. *)
Definition branch_outcome (i : nat) (id : string) (r : result string string)
    : result value (NodeError * option string) :=
  match r with
  | Ok raw =>
      match fst (opened raw (join_branch i) ∅) with
      | Ok v => match value_from_str v with
          | Ok x => Ok x
          | Err e => Err (Failure (join_branch i +:+ " result parse error: " +:+ e), None)
          end
      | Err e => Err (e, None)
      end
  | Err e => Err (contextualize_subtree_failure (join_branch i +:+ " failed") e,
                  if node_is_loop graph id then Some id else None)
  end.

Fixpoint branch_outcomes (i : nat) (ids : list string) (rs : list (result string string))
    : list (result value (NodeError * option string)) :=
  match ids, rs with
  | id :: ids', r :: rs' => branch_outcome i id r :: branch_outcomes (S i) ids' rs'
  | _, _ => []
  end.

Definition merge_branch (s : named_results) (r : result string string) : named_results :=
  match r with Ok raw => snd (opened raw "" s) | Err _ => s end.

Definition err {A E} (r : result A E) : option E := match r with Ok _ => None | Err e => Some e end.

Definition retain (selected : option (NodeError * option string)) (c : NodeError * option string)
    : option (NodeError * option string) := retain_higher_priority_join_error selected (fst c) (snd c).

(** The first of the candidates with the highest priority. *)
Definition first_highest (es : list (NodeError * option string)) (c : NodeError * option string) : Prop :=
  exists l1 l2, es = l1 ++ c :: l2 /\
  Forall (fun x => priority (fst x) < priority (fst c)) l1 /\
  Forall (fun x => priority (fst x) <= priority (fst c)) l2.

Lemma retain_fold es c0 : exists c, fold_left retain es (Some c0) = Some c /\
  first_highest (c0 :: es) c.
Proof.
  revert c0. induction es as [|x es IH]; intros c0; cbn [fold_left].
  - exists c0. split; [done|]. by exists [], [].
  - unfold retain at 2. destruct c0 as [e0 l0]. cbn [retain_higher_priority_join_error].
    destruct (Nat.ltb_spec (priority e0) (priority (fst x))) as [Hlt|Hge].
    + destruct (IH (fst x, snd x)) as (c & -> & l1 & l2 & Heq & H1 & H2). exists c. split; [done|].
      rewrite <- surjective_pairing in Heq. exists ((e0, l0) :: l1), l2. rewrite Heq.
      split_and!; [done| |done]. constructor; [|done]. cbn [fst].
      destruct l1 as [|y l1]; simplify_list_eq; [done|].
      apply Forall_inv in H1. lia.
    + destruct (IH (e0, l0)) as (c & -> & l1 & l2 & Heq & H1 & H2). exists c. split; [done|].
      destruct l1 as [|y l1]; simplify_list_eq.
      * exists [], (x :: l2). split_and!; [done..|]. by constructor.
      * exists ((e0, l0) :: x :: l1), l2. split_and!; [done| |done].
        apply Forall_cons in H1 as [H1 H1']. cbn [fst] in *. constructor; [done|].
        constructor; [lia|done].
Qed.

Lemma opened_result raw context s1 s2 : fst (opened raw context s1) = fst (opened raw context s2).
Proof. unfold opened. by destruct (from_json raw). Qed.
Lemma opened_merge raw context s : snd (opened raw context s) = merge_branch s (Ok raw).
Proof. unfold merge_branch, opened. by destruct (from_json raw). Qed.

(** One branch of [join_results], in both modes. *)
Lemma join_results_step ids i id r rs acc sel s :
  ids !! i = Some id ->
  join_results ctx graph exec_ctx ids i (r :: rs) acc sel s =
    match branch_outcome i id r with
    | Ok x => join_results ctx graph exec_ctx ids (S i) rs (acc ++ [x]) sel (merge_branch s r)
    | Err c =>
        if failure_isolated exec_ctx
        then join_results ctx graph exec_ctx ids (S i) rs acc (retain sel c) (merge_branch s r)
        else match snd c with
          | Some l => fail_loop_child_future ctx graph l (fst c) (merge_branch s r)
          | None => Ret (Err (fst c), merge_branch s r)
          end
    end.
Proof.
  intros Hid. cbn [join_results]. unfold branch_outcome. destruct r as [raw|e].
  - unfold bindM at 1, attempt at 1. rewrite parse_subtree_envelope_eq. cbn [bind fst snd].
    rewrite (opened_result raw (join_branch i) ∅ s), <- (opened_merge raw (join_branch i) s).
    destruct (opened raw (join_branch i) s) as [[v|e] s1]; cbn [fst snd].
    + destruct (value_from_str v); [done|]. by destruct (failure_isolated exec_ctx).
    + by destruct (failure_isolated exec_ctx).
  - rewrite Hid. cbn [merge_branch fst snd]. destruct (failure_isolated exec_ctx); [done|].
    by destruct (node_is_loop graph id).
Qed.

Lemma join_results_isolated ids i rs acc sel s :
  failure_isolated exec_ctx = true -> length ids = i + length rs ->
  join_results ctx graph exec_ctx ids i rs acc sel s =
    let outs := branch_outcomes i (drop i ids) rs in
  Ret (Ok (acc ++ omap ok outs, fold_left retain (omap err outs) sel), fold_left merge_branch rs s).
Proof.
  intros Hiso. revert i acc sel s. induction rs as [|r rs IH]; intros i acc sel s Hlen.
  - cbn. destruct (drop i ids); cbn; by rewrite app_nil_r.
  - destruct (lookup_lt_is_Some_2 ids i) as [id Hid]; [cbn in Hlen; lia|].
    rewrite (join_results_step _ _ id) by done. rewrite (drop_S _ id) by done. cbn [branch_outcomes].
    cbv zeta. cbn in Hlen. cbn [fold_left]. rewrite Hiso.
    destruct (branch_outcome i id r); rewrite IH by lia; cbn; by rewrite <- ?app_assoc.
Qed.

Lemma join_results_strict ids i rs acc s :
  failure_isolated exec_ctx = false -> length ids = i + length rs ->
  let outs := branch_outcomes i (drop i ids) rs in
  match omap err outs with
  | [] => join_results ctx graph exec_ctx ids i rs acc None s =
        Ret (Ok (acc ++ omap ok outs, None), fold_left merge_branch rs s)
  | c :: _ => exists s', join_results ctx graph exec_ctx ids i rs acc None s =
        match snd c with
        | Some l => fail_loop_child_future ctx graph l (fst c) s'
        | None => Ret (Err (fst c), s')
        end
  end.
Proof.
  intros Hiso. revert i acc s. induction rs as [|r rs IH]; intros i acc s Hlen.
  - cbn. destruct (drop i ids); cbn; by rewrite app_nil_r.
  - destruct (lookup_lt_is_Some_2 ids i) as [id Hid]; [cbn in Hlen; lia|].
    rewrite (join_results_step _ _ id) by done. rewrite (drop_S _ id) by done. cbn [branch_outcomes].
    cbv zeta. cbn in Hlen. cbn [fold_left]. rewrite Hiso.
    destruct (branch_outcome i id r) as [x|c]; cbn; [|by eexists].
    specialize (IH (S i) (acc ++ [x]) (merge_branch s r)). cbv zeta in IH.
    cbn in IH. rewrite <- app_assoc in IH. apply IH. lia.
Qed.

(** *** JOIN *)

Lemma start_subtrees_runs ids s tr o :
  runs (start_subtrees ctx graph exec_ctx ids s) tr o ->
  exists fs : list fut, length fs = length ids /\ o = Done (Ok fs, s) /\
  tr = zip_with (fun i (f : fut) => Ev (start_op i s) f) ids fs.
Proof.
  revert tr o. induction ids as [|i ids IH]; intros tr o H; cbn in H.
  - destruct H as [-> ->]. by exists [].
  - destruct H as (f & tr1 & -> & H). change (runs ((letM fs := start_subtrees ctx graph exec_ctx ids in
      ret ((f : fut) :: fs)) s) tr1 o) in H.
    apply runs_bindM in H as [(tr2 & tr3 & fs & s1 & -> & H1 & [-> ->])|[(e & s1 & -> & H)|(st & -> & H)]].
    + apply IH in H1 as (fs' & Hl & [= <- ->] & ->). exists (f :: fs). cbn.
      rewrite app_nil_r, Hl. done.
    + by apply IH in H as (? & _ & [=] & _).
    + by apply IH in H as (? & _ & [=] & _).
Qed.

Definition branch_ids (node : FunctionNode) (l r : string) : list string :=
  l :: r :: extra_branches node.

(** How a JOIN ends, from the outcomes of its branches. *)
Definition join_end (node : FunctionNode)
    (outs : list (result value (NodeError * option string))) (merged : named_results)
    (tail : list dop) (o : outcome (NodeResult * named_results)) : Prop :=
  match omap err outs with
  | [] => let res := value_to_string (Array (omap ok outs)) in
      tail = [] /\ o = Done (Ok res, stored node res merged)
  | es => exists c s', (if failure_isolated exec_ctx then first_highest es c else head es = Some c) /\
      o = Done (Err (fst c), s') /\
      tail = match snd c with Some l => [child_failed_op l (message (fst c))] | None => [] end
  end.

Lemma join_error_end node outs merged c s' tail (o : outcome (NodeResult * named_results)) es tr :
  omap err outs = es ->
  es <> [] -> (if failure_isolated exec_ctx then first_highest es c else head es = Some c) ->
  runs (match snd c with
        | Some l => fail_loop_child_future ctx graph l (fst c) s'
        | None => Ret (Err (fst c), s')
        end) tr o -> tail = ops tr -> join_end node outs merged tail o.
Proof.
  intros Hes Hne Hc Hr ->. unfold join_end. rewrite Hes.
  assert (Hend : o = Done (Err (fst c), s') /\ ops tr =
    match snd c with Some l => [child_failed_op l (message (fst c))] | None => [] end).
  { destruct (snd c) as [l|]; [by apply fail_child_runs in Hr as [-> ->]|by destruct Hr as [-> ->]]. }
  destruct Hend. destruct es; [done|]. by exists c, s'.
Qed.

(** C34: a JOIN starts every branch from the same named results, waits for all of
    them, and looks at them in branch order.  If none has an error its result is
    the array of their values, in order, stored in the named results of all
    branches.  Otherwise its error is the first one, or, inside an isolated loop
    body, the first one of the highest priority (a failure above a break above an
    application error); a loop branch whose error is reported is stamped failed. *)
Theorem join_node_runs node node_id l r s tr o :
  left_node node = Some l -> right_node node = Some r ->
  runs (execute_join_node ctx graph exec_ctx node node_id s) tr o ->
  exists (fs : list fut) rs tail,
  tr = zip_with (fun i (f : fut) => Ev (start_op i s) f) (branch_ids node l r) fs ++
  Ev (Join fs) rs :: tail /\
  length fs = length (branch_ids node l r) /\
  (length rs = length (branch_ids node l r) ->
   join_end node (branch_outcomes 0 (branch_ids node l r) rs) (fold_left merge_branch rs s)
   (ops tail) o).
Proof.
  intros Hl Hr H. unfold execute_join_node in H. rewrite Hl, Hr in H. cbn [ok_or] in H.
  change (bindM (of_string_result (Ok l)) ?k s) with (k l s) in H. cbv beta in H.
  change (bindM (of_string_result (Ok r)) ?k s) with (k r s) in H. cbv beta zeta in H.
  fold (branch_ids node l r) in H.
  apply runs_bindM in H as [(tr1 & tr2 & fs & s1 & -> & (fs' & Hfs & [= <- ->] & ->)%start_subtrees_runs & H)
    |[(e & s1 & -> & (? & _ & [=] & _)%start_subtrees_runs)|(st & -> & (? & _ & [=] & _)%start_subtrees_runs)]].
  apply runs_op_bindM in H as (rs & tr3 & -> & H). exists fs, rs, tr3. split_and!; [done|done|].
  intros Hlen. destruct (failure_isolated exec_ctx) eqn:Hiso.
  - unfold bindM at 1 in H. rewrite join_results_isolated in H by done.
    cbv zeta in H. cbn [bind fst snd app] in H. rewrite drop_0 in H.
    destruct (omap err (branch_outcomes 0 (branch_ids node l r) rs)) as [|c0 es] eqn:Hes;
      cbn [fold_left] in H.
    + unfold bindM in H. rewrite store_named_result_eq in H. destruct H as [-> ->].
      unfold join_end. by rewrite Hes.
    + unfold retain at 2 in H. cbn [retain_higher_priority_join_error] in H.
      rewrite <- surjective_pairing in H.
      destruct (retain_fold es c0) as (c & Hc & Hfirst). rewrite Hc in H.
      eapply join_error_end; [done|done|by rewrite Hiso| |done].
      destruct c as [e [lp|]]; exact H.
  - pose proof (join_results_strict (branch_ids node l r) 0 rs [] s Hiso) as Hj.
    cbv zeta in Hj. rewrite drop_0 in Hj. specialize (Hj (eq_sym Hlen)).
    destruct (omap err (branch_outcomes 0 (branch_ids node l r) rs)) as [|c es] eqn:Hes.
    + unfold bindM at 1 in H. rewrite Hj in H. cbn [bind fst snd app] in H.
      unfold bindM in H. rewrite store_named_result_eq in H. destruct H as [-> ->].
      unfold join_end. by rewrite Hes.
    + destruct Hj as [s' Hj]. unfold bindM at 1 in H. rewrite Hj in H.
      eapply (join_error_end _ _ _ c s'); [done|done|by rewrite Hiso| |done].
      destruct c as [e [lp|]]; cbn [fst snd] in H |- *; exact H.
Qed.
End Nodes.

(** ** Witnesses *)

#[local] Existing Instance sample_cron.
#[local] Existing Instance text_json.
#[local] Existing Instance sample_escape.
#[local] Existing Instance sample_http.

Definition branch_result (v : string) : result string string :=
  Ok (to_json (mkEnvelope (Some ControlNormal) v {["child" := v]})).
Definition branch_env : env := answering (Ok "5") 0 "ping" (branch_result "1").
Definition node_ctx : OrchestrationContext := mkContext "0badcafe" 1.
Definition node_exec (isolated : bool) : ExecutionContext := mkExecCtx ∅ None isolated 0 "t" Root.
Definition node_graph : FunctionGraph :=
  mkGraph "0badcafe" "t"
    (list_to_map [("a", mkNode "a" "SQL" None None None None "alice" None);
                  ("l", mkNode "l" "LOOP" None None (Some "a") None "alice" None)]) V1.
Definition two_branches : FunctionNode := mkNode "t" "" None (Some "out") (Some "a") (Some "l") "alice" None.
(** A recursive call that returns the id of the node it is given. *)
Definition echo (i : string) : M string := ret i.

Definition sql_run (q : string) : list event * outcome (NodeResult * named_results) :=
  exec branch_env [] (execute_sql_node node_graph (node_exec false)
    (mkNode "a" "SQL" (Some q) (Some "out") None None "alice" None) "a" ∅).

Lemma sql_node_runs_witness : exists r,
  fst (sql_run "SELECT 1") = [Ev (sql_op node_graph
    (mkNode "a" "SQL" (Some "SELECT 1") (Some "out") None None "alice" None) "SELECT 1") r] /\
  snd (sql_run "SELECT 1") = match r with
    | Ok v => Done (Ok v, stored (mkNode "a" "SQL" (Some "SELECT 1") (Some "out") None None "alice" None) v ∅)
    | Err e => Done (Err (Application e), ∅)
    end.
Proof.
  assert (Hs : substitute_all_with_options "SELECT 1" ∅ ∅ (sys_vars node_graph (node_exec false))
    (Some V1) = Ok "SELECT 1") by (vm_compute; reflexivity).
  pose proof (sql_node_runs node_graph (node_exec false)
    (mkNode "a" "SQL" (Some "SELECT 1") (Some "out") None None "alice" None) "a" "SELECT 1" ∅
    (fst (sql_run "SELECT 1")) (snd (sql_run "SELECT 1")) eq_refl) as H.
  cbn [vars node_exec sql_quoting_version node_graph] in H. rewrite Hs in H. apply H. apply exec_runs.
Defined.

Definition then_run : list event * outcome (NodeResult * named_results) :=
  exec branch_env [] (execute_then_node echo two_branches "t" ∅).

Lemma then_node_sequences_witness :
  exists o', sequenced (echo "a") (fun _ => echo "l") ∅ (fst then_run) o' /\
    snd then_run = store_outcome two_branches o'.
Proof. apply (then_node_sequences echo two_branches "t" "a" "l"); [done..|apply exec_runs]. Defined.

Definition if_rows : value :=
  Object [("condition_type", JString "result_has_rows"); ("result_name", JString "rows")].
Definition if_node : FunctionNode :=
  mkNode "t" "IF" (Some (value_to_string if_rows)) (Some "out") (Some "a") (Some "l") "alice" None.
Definition rows : named_results :=
  {["rows" := value_to_string (Object [("row_count", Number (PosInt 2))])]}.
Definition if_run : list event * outcome (NodeResult * named_results) :=
  exec branch_env [] (execute_if_node echo if_node "t" rows).

Lemma if_node_selects_witness :
  snd if_run = Done (Ok "a", <["out" := "a"]> rows) /\
  exists o', sequenced (if_condition echo if_rows) (fun b : bool => echo (if b then "a" else "l")) rows
      (fst if_run) o' /\ snd if_run = store_outcome if_node o'.
Proof.
  split; [vm_compute; reflexivity|].
  apply (if_node_selects echo if_node "t" (value_to_string if_rows) if_rows "a" "l");
    [done|vm_compute; reflexivity|done|done|apply exec_runs].
Defined.

Definition iteration_run : list event * outcome (result (option string) NodeError * named_results) :=
  exec branch_env [] (run_loop_iteration echo two_branches "a" (Some "false") ∅).

Lemma loop_iteration_runs_witness :
  snd iteration_run = Done (Ok (Some "a"), {["out" := "a"]}) /\
  ((exists st, snd iteration_run = Stopped st /\ runs (echo "a" ∅) (fst iteration_run) (Stopped st)) \/
   exists tr1 r1 s1, runs (echo "a" ∅) tr1 (Done (r1, s1)) /\
     match r1 with
     | Ok v => exists tr2, fst iteration_run = tr1 ++ tr2 /\
         ((exists r2 s2, runs (echo "false" s1) tr2 (Done (r2, s2)) /\
             snd iteration_run = Done (condition_verdict two_branches v r2 s2)) \/
          (exists st, snd iteration_run = Stopped st /\ runs (echo "false" s1) tr2 (Stopped st)))
     | Err (Break v) => fst iteration_run = tr1 /\ snd iteration_run = Done (Ok (Some v), stored two_branches v s1)
     | Err e => fst iteration_run = tr1 /\ snd iteration_run = Done (Err e, s1)
     end).
Proof.
  split; [vm_compute; reflexivity|].
  apply (loop_iteration_runs echo two_branches "a" (Some "false")). apply exec_runs.
Defined.

Definition signal_config : value :=
  Object [("signal_name", JString "go"); ("timeout_seconds", Number (PosInt 3))].
Definition signal_node : FunctionNode :=
  mkNode "s" "SIGNAL" (Some (value_to_string signal_config)) (Some "out") None None "alice" None.
Definition signal_run : list event * outcome (NodeResult * named_results) :=
  exec branch_env [] (execute_signal_node signal_node "s" ∅).

Lemma signal_node_runs_witness : exists timed_out data,
  snd signal_run = Done (Ok (signal_result "go" timed_out data),
    stored signal_node (signal_result "go" timed_out data) ∅) /\
  exists f1 f2 w, fst signal_run = [Ev (StartWait "go") f1; Ev (StartTimer (from_secs (i64_as_u64 3))) f2;
                                    Ev (Select2WaitTimer f1 f2) w] /\
    (timed_out, data) = match w with
      | First text => (false, parse_signal_data text)
      | Second _ => (true, Null)
      end.
Proof.
  apply (signal_node_runs signal_node "s" (value_to_string signal_config) signal_config "go");
    [done|vm_compute; reflexivity|reflexivity|apply exec_runs].
Defined.

Definition race_run : list event * outcome (NodeResult * named_results) :=
  exec branch_env [] (execute_race_node node_ctx node_graph (node_exec false) two_branches "t" ∅).

Lemma race_node_runs_witness :
  snd race_run = Done (Ok "1", <["out" := "1"]> {["child" := "1"]}) /\
  exists f1 f2 w tail,
    ops (fst race_run) = start_op node_ctx node_graph (node_exec false) "a" ∅ ::
      start_op node_ctx node_graph (node_exec false) "l" ∅ :: Select2Subs f1 f2 :: tail /\
    (tail, snd race_run) = match w with
      | First x => race_end node_ctx node_graph "left" "a" "l" x two_branches ∅
      | Second x => race_end node_ctx node_graph "right" "l" "a" x two_branches ∅
      end.
Proof.
  split; [vm_compute; reflexivity|].
  apply (race_node_runs node_ctx node_graph (node_exec false) two_branches "t" "a" "l");
    [done..|apply exec_runs].
Defined.

Definition join_run : list event * outcome (NodeResult * named_results) :=
  exec branch_env [] (execute_join_node node_ctx node_graph (node_exec true) two_branches "t" ∅).

Lemma join_node_runs_witness :
  snd join_run = Done (Ok "[1,1]", <["out" := "[1,1]"]> {["child" := "1"]}) /\
  exists (fs : list fut) rs tail,
    fst join_run = zip_with (fun i (f : fut) => Ev (start_op node_ctx node_graph (node_exec true) i ∅) f)
      (branch_ids two_branches "a" "l") fs ++ Ev (Join fs) rs :: tail /\
    length fs = length (branch_ids two_branches "a" "l") /\
    (length rs = length (branch_ids two_branches "a" "l") ->
     join_end node_ctx node_graph (node_exec true) two_branches
       (branch_outcomes node_graph 0 (branch_ids two_branches "a" "l") rs) (fold_left merge_branch rs ∅)
       (ops tail) (snd join_run)).
Proof.
  split; [vm_compute; reflexivity|].
  apply (join_node_runs node_ctx node_graph (node_exec true) two_branches "t" "a" "l");
    [done..|apply exec_runs].
Defined.
