(* ===== verification/UrlCrate.v ===== *)
(** The [url] crate, a dependency of the HTTP checks: what they read of a parsed
    URL and of a parsed host.  IP addresses are the standard library's. *)
From S2P Require Import Prelude RustString.

(** [std::net::IpAddr]: the address as a number of 32 or 128 bits. *)
Inductive IpAddr :=
| V4 (bits : N)
| V6 (bits : N).

Definition ip_ok (ip : IpAddr) : Prop :=
  match ip with V4 n => (n < 2 ^ 32)%N | V6 n => (n < 2 ^ 128)%N end.

(** [Ipv4Addr::octets]: the octet that starts [shift] bits from the right. *)
Definition octet (n shift : N) : N := N.land (N.shiftr n shift) 255.
(** [Ipv6Addr::segments] *)
Definition segment (n shift : N) : N := N.land (N.shiftr n shift) 65535.

(** [Ipv6Addr::to_ipv4_mapped]: the address of [::ffff:a.b.c.d]. *)
Definition to_ipv4_mapped (n : N) : option N :=
  if (N.shiftr n 32 =? 65535)%N then Some (N.land n 4294967295) else None.

(** [url::Host] *)
Inductive Host :=
| Domain (name : string)
| Ipv4 (bits : N)
| Ipv6 (bits : N).

#[export] Instance Host_eq_dec : EqDecision Host.
Proof. solve_decision. Defined.

Class UrlCrate : Type := {
  Url : Type;
  (** [Url::parse]; the error is its display text. *)
  url_parse : string -> result Url string;
  url_scheme : Url -> string;
  url_host : Url -> option Host;
  url_username : Url -> string;
  url_password : Url -> option string;
  url_query : Url -> option string;
  url_fragment : Url -> option string;
  (** [&url[..Position::BeforeUsername]] *)
  url_before_username : Url -> string;
  (** [&url[Position::BeforeHost..Position::AfterPath]] *)
  url_host_to_path : Url -> string;
  (** [url::Host::parse] *)
  host_parse : string -> option Host;
}.

(** A [url] crate for witnesses: it reads [scheme://host/path?query#fragment]. *)
Record sample_parts := mkParts {
  p_scheme : string; p_host : string; p_path : string;
  p_query : option string; p_fragment : option string;
}.

(** The text before and after the first [sep]. *)
Definition cut (sep s : string) : string * option string :=
  match split_once sep s with Some (l, r) => (l, Some r) | None => (s, None) end.

Definition sample_url : UrlCrate := {|
  Url := sample_parts;
  url_parse s :=
    match split_once "://" s with
    | None => Err "relative URL without a base"
    | Some (scheme, rest) =>
        let '(rest, fragment) := cut "#" rest in
        let '(rest, query) := cut "?" rest in
        let '(host, path) := cut "/" rest in
        Ok (mkParts scheme (to_ascii_lowercase host) (default "" path) query fragment)
    end;
  url_scheme := p_scheme;
  url_host u := Some (Domain (p_host u));
  url_username _ := "";
  url_password _ := None;
  url_query := p_query;
  url_fragment := p_fragment;
  url_before_username u := p_scheme u +:+ "://";
  url_host_to_path u := p_host u +:+ "/" +:+ p_path u;
  host_parse s := if str_is_empty s then None else Some (Domain (to_ascii_lowercase s));
|}.

(** What the endpoints read and change besides. *)
Class UrlOps (UC : UrlCrate) : Type := {
  (** [url.as_str()] *)
  url_as_str : Url -> string;
  url_path : Url -> string;
  (** [a.origin() == b.origin()] *)
  url_same_origin : Url -> Url -> bool;
  (** [url.query_pairs()], decoded *)
  url_query_pairs : Url -> list (string * string);
  url_set_query : option string -> Url -> Url;
}.

(** [set_query] changes the query alone. *)
Class UrlOpsLaws (UC : UrlCrate) (UO : UrlOps UC) : Prop := {
  set_query_scheme q u : url_scheme (url_set_query q u) = url_scheme u;
  set_query_host q u : url_host (url_set_query q u) = url_host u;
  set_query_path q u : url_path (url_set_query q u) = url_path u;
  set_query_origin q u v : url_same_origin (url_set_query q u) v = url_same_origin u v;
}.

(** Over the URLs of [sample_url], without percent-decoding. *)
Definition sample_pairs (query : option string) : list (string * string) :=
  match query with
  | None => []
  | Some q => map (fun p => let '(n, v) := cut "=" p in (n, default "" v)) (split_char "&" q)
  end.

#[global] Instance sample_url_ops : UrlOps sample_url := {|
  url_as_str (u : @Url sample_url) :=
    p_scheme u +:+ "://" +:+ p_host u +:+ "/" +:+ p_path u +:+
    match p_query u with Some q => "?" +:+ q | None => "" end;
  url_path (u : @Url sample_url) := "/" +:+ p_path u;
  url_same_origin (u v : @Url sample_url) :=
    String.eqb (p_scheme u) (p_scheme v) && String.eqb (p_host u) (p_host v);
  url_query_pairs (u : @Url sample_url) := sample_pairs (p_query u);
  url_set_query q (u : @Url sample_url) := mkParts (p_scheme u) (p_host u) (p_path u) q (p_fragment u);
|}.

Lemma sample_url_ops_laws : UrlOpsLaws sample_url sample_url_ops.
Proof. by split. Qed.
