(* ===== verification/Ssrf.v ===== *)
(** Outbound HTTP policy ([src/ssrf.rs]): the address blocklist and the resolver
    that applies it, the endpoint allow-list, the scheme check. *)
From S2P Require Import Prelude RustString UrlCrate.

Inductive HttpSecurity := Disabled | Restricted | Unrestricted.
#[export] Instance HttpSecurity_eq_dec : EqDecision HttpSecurity.
Proof. solve_decision. Defined.

Record DomainAllowlist := mkAllowlist {
  exact_domains : list string;
  domain_suffixes : list string;
}.

Record HttpPolicy := mkPolicy {
  security : HttpSecurity;
  allowed_domains : DomainAllowlist;
}.

(** A rejected entry: its position from 1, its text, the reason.  The source
    formats the three into one message. *)
Record InvalidEntry := mkInvalid { entry_index : nat; entry_text : string; entry_reason : string }.

(** ** The allow-list *)

Definition label_ok (label : string) : bool :=
  negb (str_is_empty label || Nat.ltb 63 (String.length label) || starts_with "-" label
        || ends_with "-" label
        || negb (str_forall (fun c => is_ascii_alphanumeric c || Ascii.eqb c "-") label)).

Definition hostname_ok (host : string) : bool :=
  negb (Nat.ltb 253 (String.length host)) && forallb label_ok (split_char "." host).

Section Policy.
Context {UC : UrlCrate}.

(** One entry of the list: the host and whether it stands for subdomains. *)
Definition parse_entry (i : nat) (entry : string) : result (bool * string) InvalidEntry :=
  let entry := trim entry in
  let subdomains := strip_prefix "*." entry in
  let domain := default entry subdomains in
  let invalid reason := Err (mkInvalid (S i) entry reason) in
  if contains_char "%" domain then invalid "percent-encoded hostnames are not permitted"
  else
    match host_parse domain with
    | None => invalid "expected a hostname or *.hostname"
    | Some (Ipv4 _) | Some (Ipv6 _) => invalid "IP addresses are not permitted"
    | Some (Domain host) =>
        if hostname_ok host then Ok (bool_decide (is_Some subdomains), host)
        else invalid "expected a DNS hostname without a trailing dot"
    end.

Definition add_entry (l : DomainAllowlist) (e : bool * string) : DomainAllowlist :=
  if fst e then mkAllowlist (exact_domains l) (domain_suffixes l ++ ["." +:+ snd e])
  else mkAllowlist (exact_domains l ++ [snd e]) (domain_suffixes l).

Fixpoint parse_entries (i : nat) (entries : list string) (l : DomainAllowlist)
    : result DomainAllowlist InvalidEntry :=
  match entries with
  | [] => Ok l
  | entry :: entries' =>
      let? e := parse_entry i entry in parse_entries (S i) entries' (add_entry l e)
  end.

Definition allowlist_parse (v : string) : result DomainAllowlist InvalidEntry :=
  if str_is_empty (trim v) then Ok (mkAllowlist [] [])
  else parse_entries 0 (split_char "," v) (mkAllowlist [] []).

Definition bare_ip : string :=
  "Blocked: requests to bare IP addresses are not permitted. Use an approved service hostname instead.".

Definition allowlist_validate (l : DomainAllowlist) (url : Url) : result unit string :=
  match url_host url with
  | Some (Ipv4 _) | Some (Ipv6 _) => Err bare_ip
  | None => Err "Blocked: unable to extract hostname from URL."
  | Some (Domain host) =>
      if existsb (String.eqb host) (exact_domains l)
          || existsb (fun suffix => Nat.ltb (String.length suffix) (String.length host)
                      && ends_with suffix host) (domain_suffixes l)
      then Ok tt
      else Err ("Blocked: '" +:+ host +:+ "' is not in the allowed endpoint list. " +:+
                "Configure pg_durable.http_allowed_domains to allow this hostname.")
  end.

(** ** Addresses *)

Definition between (lo hi x : N) : bool := (lo <=? x)%N && (x <=? hi)%N.

Definition check_blocked_ipv4 (ip : N) : option string :=
  let a := octet ip 24 in
  let b := octet ip 16 in
  if (a =? 0)%N then Some "reserved (0.0.0.0/8)"
  else if (a =? 10)%N then Some "private (10.0.0.0/8)"
  else if (a =? 100)%N && between 64 127 b then Some "shared/CGNAT (100.64.0.0/10)"
  else if (a =? 127)%N then Some "loopback (127.0.0.0/8)"
  else if (a =? 169)%N && (b =? 254)%N then Some "link-local (169.254.0.0/16)"
  else if (a =? 172)%N && between 16 31 b then Some "private (172.16.0.0/12)"
  else if (a =? 192)%N && (b =? 168)%N then Some "private (192.168.0.0/16)"
  else None.

Definition check_blocked_ipv6 (ip : N) : option string :=
  let s := segment ip 112 in
  if (ip =? 0)%N then Some "unspecified (::)"
  else if (ip =? 1)%N then Some "loopback (::1)"
  else if (N.land s 65472 =? 65152)%N then Some "link-local (fe80::/10)"
  else if (N.land s 65024 =? 64512)%N then Some "unique local (fc00::/7)"
  else None.

Definition check_blocked_ip (ip : IpAddr) : option string :=
  let ip := match ip with
    | V6 v6 => match to_ipv4_mapped v6 with Some v4 => V4 v4 | None => V6 v6 end
    | other => other
    end in
  match ip with V4 v4 => check_blocked_ipv4 v4 | V6 v6 => check_blocked_ipv6 v6 end.

(** [SsrfSafeResolver]: the answer of the inner resolver, filtered. *)
Definition safe_resolve (inner : string -> result (list IpAddr) string) (hostname : string)
    : result (list IpAddr) string :=
  let? addrs := inner hostname in
  let filtered := filter (fun addr => check_blocked_ip addr = None) addrs in
  if match filtered with [] => true | _ => false end then
    Err ("Blocked: the resolved IP address for '" +:+ hostname +:+ "' is in a restricted " +:+
         "range. df.http() cannot access private or internal network addresses.")
  else Ok filtered.

(** ** Scheme and mode *)

Definition validate_scheme_value (scheme : string) (s : HttpSecurity) : result unit string :=
  let allows_plaintext := negb (bool_decide (s = Restricted)) in
  if String.eqb scheme "https" then Ok tt
  else if String.eqb scheme "http" then
    if allows_plaintext then Ok tt
    else Err "Blocked: plaintext HTTP is not permitted in restricted mode. HTTPS is required."
  else Err ("Blocked: unsupported URL scheme. Only " +:+
            (if allows_plaintext then "http and https" else "https") +:+ " is allowed.").

Definition precheck_url_scheme (url : string) (s : HttpSecurity) : result unit string :=
  validate_scheme_value (to_ascii_lowercase (default "" (head (str_split "://" url)))) s.

Definition parse_request_url (url : string) : result Url string :=
  map_err (fun e => "Blocked: malformed URL (" +:+ e +:+ ").") (url_parse url).

Definition validate_scheme (url : Url) (s : HttpSecurity) : result unit string :=
  validate_scheme_value (url_scheme url) s.

Definition validate_allowlist (url : Url) (policy : HttpPolicy) : result unit string :=
  match security policy with
  | Disabled => Err ("Blocked: outbound HTTP requests are disabled. " +:+
                     "Configure pg_durable.http_security = 'restricted' and restart the server to enable them.")
  | Restricted => allowlist_validate (allowed_domains policy) url
  | Unrestricted => Ok tt
  end.

Definition is_ssrf_block_error (err_msg : string) : bool :=
  str_contains "Blocked:" err_msg && str_contains "restricted" err_msg.
End Policy.

(** ** The blocklist as a list of networks *)

(** A network: its base address and the length of its prefix. *)
Definition in_network (width n : N) (net : N * N) : Prop :=
  N.shiftr n (width - snd net) = N.shiftr (fst net) (width - snd net).

Definition v4 (a b : N) : N := (a * 2 ^ 24 + b * 2 ^ 16)%N.
Definition ipv4_networks : list (N * N) :=
  [(v4 0 0, 8); (v4 10 0, 8); (v4 100 64, 10); (v4 127 0, 8); (v4 169 254, 16);
   (v4 172 16, 12); (v4 192 168, 16)]%N.
Definition v6 (s : N) : N := (s * 2 ^ 112)%N.
Definition ipv6_networks : list (N * N) :=
  [(0, 128); (1, 128); (v6 65152, 10); (v6 64512, 7)]%N ++
  map (fun net => (65535 * 2 ^ 32 + fst net, 96 + snd net)%N) ipv4_networks.

Definition in_blocked_network (ip : IpAddr) : Prop :=
  match ip with
  | V4 n => Exists (in_network 32 n) ipv4_networks
  | V6 n => Exists (in_network 128 n) ipv6_networks
  end.

Lemma octet_div n k : octet n k = ((n / 2 ^ k) mod 256)%N.
Proof. unfold octet. rewrite N.shiftr_div_pow2. change 255%N with (N.ones 8). apply N.land_ones. Qed.
Lemma segment_div n k : segment n k = ((n / 2 ^ k) mod 65536)%N.
Proof. unfold segment. rewrite N.shiftr_div_pow2. change 65535%N with (N.ones 16). apply N.land_ones. Qed.

(** Masking off the low [k] bits of a 16-bit segment. *)
Lemma land_high s k c : (s < 2 ^ 16)%N -> (k <= 16)%N ->
  (N.land s (N.ldiff (N.ones 16) (N.ones k)) =? N.shiftl c k)%N = true <-> N.shiftr s k = c.
Proof.
  intros Hs Hk. assert (Hl : N.land s (N.ldiff (N.ones 16) (N.ones k)) = N.shiftl (N.shiftr s k) k).
  { rewrite <- N.ldiff_ones_r. apply N.bits_inj. intros i. rewrite N.land_spec, !N.ldiff_spec.
    destruct (N.ltb_spec i 16) as [Hi|Hi].
    - rewrite (N.ones_spec_low 16 i) by done. done.
    - rewrite (N.ones_spec_high 16 i) by done. 
      by rewrite <- (N.mod_small s (2 ^ 16)), N.mod_pow2_bits_high by done. }
  rewrite Hl, N.eqb_eq. split; [|by intros ->].
  intros H. apply (f_equal (fun x => N.shiftr x k)) in H. by rewrite !N.shiftr_shiftl_l, N.sub_diag, !N.shiftl_0_r in H by lia.
Qed.

Lemma in_network_div width n b p : (p <= width)%N ->
  in_network width n (b, p) <-> (n / 2 ^ (width - p) = b / 2 ^ (width - p))%N.
Proof. intros _. unfold in_network. cbn [fst snd]. by rewrite !N.shiftr_div_pow2. Qed.

Lemma or_iff (A B C D : Prop) : (A <-> B) -> (C <-> D) -> A \/ C <-> B \/ D.
Proof. tauto. Qed.

(** Comparisons as propositions. *)
Ltac bool_arith :=
  rewrite ?andb_true_iff, ?andb_false_iff, ?N.eqb_eq, ?N.eqb_neq, ?N.leb_le, ?N.leb_gt in *.

(** The two leading octets decide. *)
Lemma blocked_ipv4_octets a b n : octet n 24 = a -> octet n 16 = b ->
  check_blocked_ipv4 n <> None <->
  a = 0%N \/ a = 10%N \/ (a = 100 /\ 64 <= b <= 127)%N \/ a = 127%N \/ (a = 169 /\ b = 254)%N \/
  (a = 172 /\ 16 <= b <= 31)%N \/ (a = 192 /\ b = 168)%N.
Proof.
  intros Ha Hb. unfold check_blocked_ipv4, between. rewrite Ha, Hb. cbv zeta.
  split.
  - intros H. repeat case_match; bool_arith; try lia; done.
  - intros H. repeat case_match; try done. bool_arith. lia.
Qed.

Lemma blocked_ipv4 n : (n < 2 ^ 32)%N ->
  check_blocked_ipv4 n <> None <-> Exists (in_network 32 n) ipv4_networks.
Proof.
  intros Hn. rewrite (blocked_ipv4_octets _ _ n eq_refl eq_refl), !octet_div.
  unfold ipv4_networks. rewrite !Exists_cons, Exists_nil, !in_network_div by lia.
  assert (Hq : (n / 2 ^ 16 < 65536)%N) by (apply N.Div0.div_lt_upper_bound; exact Hn).
  assert (H24 : (n / 2 ^ 24 = n / 2 ^ 16 / 256)%N) by (by rewrite N.Div0.div_div).
  assert (H22 : (n / 2 ^ 22 = n / 2 ^ 16 / 64)%N) by (by rewrite N.Div0.div_div).
  assert (H20 : (n / 2 ^ 20 = n / 2 ^ 16 / 16)%N) by (by rewrite N.Div0.div_div).
  unfold v4. change (32 - 8)%N with 24%N. change (32 - 10)%N with 22%N. change (32 - 12)%N with 20%N.
  change (32 - 16)%N with 16%N. rewrite H24, H22, H20. clear H24 H22 H20 Hn.
  generalize dependent (n / 2 ^ 16)%N. intros q Hq.
  repeat match goal with |- context [(?x / 2 ^ ?k)%N] =>
    let v := eval vm_compute in (x / 2 ^ k)%N in change (x / 2 ^ k)%N with v end.
  repeat apply or_iff; try (rewrite or_false_r); zify; Z.to_euclidean_division_equations; lia.
Qed.

Lemma land_high_eq s k c : (s < 2 ^ 16)%N -> (k <= 16)%N ->
  (N.land s (N.ldiff (N.ones 16) (N.ones k)) =? N.shiftl c k)%N = false <-> N.shiftr s k <> c.
Proof. intros Hs Hk. rewrite <- (land_high s k c Hs Hk). by destruct (_ =? _)%N. Qed.

Lemma blocked_ipv6 n : (n < 2 ^ 128)%N ->
  check_blocked_ipv6 n <> None <->
  Exists (in_network 128 n) [(0, 128); (1, 128); (v6 65152, 10); (v6 64512, 7)]%N.
Proof.
  intros Hn. rewrite !Exists_cons, Exists_nil. unfold in_network. cbn [fst snd].
  assert (Hs : (N.shiftr n 112 < 2 ^ 16)%N).
  { rewrite N.shiftr_div_pow2. apply N.Div0.div_lt_upper_bound. exact Hn. }
  assert (Hseg : segment n 112 = N.shiftr n 112).
  { rewrite segment_div, <- N.shiftr_div_pow2. by apply N.mod_small. }
  unfold check_blocked_ipv6. rewrite Hseg. cbv zeta.
  pose proof (land_high (N.shiftr n 112) 6 1018 Hs) as Hfe.
  pose proof (land_high (N.shiftr n 112) 9 126 Hs) as Hfc.
  change (N.ldiff (N.ones 16) (N.ones 6)) with 65472%N in Hfe. change (N.shiftl 1018 6) with 65152%N in Hfe.
  change (N.ldiff (N.ones 16) (N.ones 9)) with 65024%N in Hfc. change (N.shiftl 126 9) with 64512%N in Hfc.
  rewrite !N.shiftr_shiftr in Hfe, Hfc.
  change (112 + 6)%N with (128 - 10)%N in Hfe. change (112 + 9)%N with (128 - 7)%N in Hfc.
  change (N.shiftr (v6 65152) (128 - 10)) with 1018%N. change (N.shiftr (v6 64512) (128 - 7)) with 126%N.
  change (128 - 128)%N with 0%N. rewrite !N.shiftr_0_r.
  rewrite <- Hfe, <- Hfc by lia. rewrite <- !N.eqb_eq.
  destruct (n =? 0)%N, (n =? 1)%N, (_ =? 65152)%N, (_ =? 64512)%N; intuition done.
Qed.

(** A network of mapped addresses is the network of the addresses. *)
Lemma mapped_network n b p : N.shiftr n 32 = 65535%N -> (p <= 32)%N ->
  in_network 128 n (65535 * 2 ^ 32 + b, 96 + p)%N <-> in_network 32 (N.land n 4294967295) (b, p).
Proof.
  intros Hn Hp. rewrite !in_network_div by lia.
  replace (128 - (96 + p))%N with (32 - p)%N by lia.
  rewrite N.shiftr_div_pow2 in Hn. change 4294967295%N with (N.ones 32). rewrite N.land_ones.
  assert (H : (n = 65535 * 2 ^ p * 2 ^ (32 - p) + n mod 2 ^ 32)%N).
  { rewrite <- N.mul_assoc, <- N.pow_add_r. replace (p + (32 - p))%N with 32%N by lia.
    rewrite <- Hn. rewrite N.mul_comm. apply N.Div0.div_mod. }
  rewrite H at 1. replace (65535 * 2 ^ 32 + b)%N with (65535 * 2 ^ p * 2 ^ (32 - p) + b)%N.
  - rewrite !N.div_add_l by (by apply N.pow_nonzero). lia.
  - rewrite <- N.mul_assoc, <- N.pow_add_r. by replace (p + (32 - p))%N with 32%N by lia.
Qed.

Lemma mapped_networks n nets : N.shiftr n 32 = 65535%N -> Forall (fun net => snd net <= 32)%N nets ->
  Exists (in_network 128 n) (map (fun net => (65535 * 2 ^ 32 + fst net, 96 + snd net)%N) nets) <->
  Exists (in_network 32 (N.land n 4294967295)) nets.
Proof.
  intros Hn. induction 1 as [|[b p] nets Hp _ IH]; cbn [map]; [by rewrite !Exists_nil|].
  rewrite !Exists_cons. cbn [fst snd] in *. by rewrite mapped_network, IH.
Qed.

Lemma mapped_not_blocked_ipv6 n : N.shiftr n 32 = 65535%N -> check_blocked_ipv6 n = None.
Proof.
  intros Hn. assert (Hs : segment n 112 = 0%N).
  { unfold segment. replace 112%N with (32 + 80)%N by done. by rewrite <- N.shiftr_shiftr, Hn. }
  unfold check_blocked_ipv6. rewrite Hs.
  destruct (N.eqb_spec n 0) as [->|]; [done|]. by destruct (N.eqb_spec n 1) as [->|].
Qed.

Lemma mapped_network_prefix n b p : (b < 2 ^ 32)%N -> (p <= 32)%N ->
  in_network 128 n (65535 * 2 ^ 32 + b, 96 + p)%N -> N.shiftr n 32 = 65535%N.
Proof.
  unfold in_network. cbn [fst snd]. intros Hb Hp H.
  replace (128 - (96 + p))%N with (32 - p)%N in H by lia.
  apply (f_equal (fun x => N.shiftr x p)) in H. rewrite !N.shiftr_shiftr in H.
  replace (32 - p + p)%N with 32%N in H by lia. rewrite H, N.shiftr_div_pow2.
  rewrite N.div_add_l by done. by rewrite N.div_small.
Qed.

Lemma blocked_iff_network ip :
  ip_ok ip -> check_blocked_ip ip <> None <-> in_blocked_network ip.
Proof.
  destruct ip as [n|n]; intros Hok; unfold check_blocked_ip, in_blocked_network; [by apply blocked_ipv4|].
  unfold ipv6_networks. rewrite Exists_app, <- blocked_ipv6 by exact Hok. unfold to_ipv4_mapped.
  destruct (N.eqb_spec (N.shiftr n 32) 65535) as [Hn|Hn].
  - rewrite mapped_networks by (done || (repeat constructor; cbn; lia)).
    rewrite <- blocked_ipv4 by (change 4294967295%N with (N.ones 32); rewrite N.land_ones; by apply N.mod_lt).
    rewrite mapped_not_blocked_ipv6 by done. intuition done.
  - split; [by left|]. intros [H|H]; [done|]. destruct Hn.
    apply Exists_exists in H as (net & Hin & H). apply list_elem_of_fmap in Hin as ([b p] & -> & Hin).
    assert (Hb : Forall (fun net => (fst net < 2 ^ 32)%N /\ (snd net <= 32)%N) ipv4_networks)
      by (repeat constructor; cbn; lia).
    eapply Forall_forall in Hb as [Hb Hp]; [|exact Hin]. by apply (mapped_network_prefix n b p).
Qed.

(** The blocklist is a list of networks.  An address is blocked exactly when
    it lies in one of the seven IPv4 networks, in one of the four IPv6 networks,
    or is the IPv4-mapped form of a blocked IPv4 address; every other address is
    allowed. *)
Theorem blocklist_networks ip :
  ip_ok ip -> check_blocked_ip ip <> None <-> in_blocked_network ip.
Proof. apply blocked_iff_network. Qed.

Lemma str_contains_app_r p a b : str_contains p b = true -> str_contains p (a +:+ b) = true.
Proof.
  intros H. induction a as [|c a IH]; [done|]. cbn [append str_contains].
  rewrite IH. by rewrite orb_true_r.
Qed.

Lemma str_contains_app a p b : str_contains p (a +:+ p +:+ b) = true.
Proof.
  apply str_contains_app_r. assert (H : starts_with p (p +:+ b) = true) by (apply starts_with_spec; eauto).
  destruct (p +:+ b) as [|c s]; cbn [str_contains]; by rewrite H.
Qed.

(** A connection only goes to an address that was checked.  The resolver
    returns exactly the addresses of the inner resolver's answer that lie outside
    every blocked network, in their order; when all of them are blocked it fails
    with the text that marks a blocked request, so a name that resolves to public
    and internal addresses can only be reached at the public ones. *)
Theorem resolver_filters inner hostname addrs :
  inner hostname = Ok addrs -> Forall ip_ok addrs ->
  match safe_resolve inner hostname with
  | Ok l => l <> [] /\ sublist l addrs /\
      forall ip, ip ∈ l <-> ip ∈ addrs /\ ~ in_blocked_network ip
  | Err e => is_ssrf_block_error e = true /\ forall ip, ip ∈ addrs -> in_blocked_network ip
  end.
Proof.
  intros Hin Hok. unfold safe_resolve. rewrite Hin. cbn [result_bind].
  assert (Hfilter : forall ip, ip ∈ filter (fun addr => check_blocked_ip addr = None) addrs <->
    ip ∈ addrs /\ ~ in_blocked_network ip).
  { intros ip. rewrite list_elem_of_filter. split.
    - intros [Hb Hip]. split; [done|]. eapply Forall_forall in Hok; [|done].
      rewrite <- blocked_iff_network by done. intros H. by apply H.
    - intros [Hip Hb]. split; [|done]. eapply Forall_forall in Hok; [|done].
      rewrite <- blocked_iff_network in Hb by done. destruct (check_blocked_ip ip); [|done].
      by destruct Hb. }
  destruct (filter _ addrs) as [|a l] eqn:Hl.
  - split.
    + unfold is_ssrf_block_error. apply andb_true_iff. split.
      * by apply (str_contains_app "" "Blocked:").
      * rewrite <- str_app_assoc. apply str_contains_app_r.
        apply (str_contains_app "' is in a " "restricted").
    + intros ip Hip. assert (Hok' : ip_ok ip) by (by eapply Forall_forall in Hok).
      rewrite <- blocked_iff_network by done. intros Hb.
      assert (Hf : ip ∈ filter (fun addr => check_blocked_ip addr = None) addrs)
        by (by apply list_elem_of_filter).
      rewrite Hl in Hf. by apply elem_of_nil in Hf.
  - split_and!; [done| |exact Hfilter]. rewrite <- Hl. apply sublist_filter.
Qed.

(** ** The allow-list *)

Section Allowlist.
Context {UC : UrlCrate}.

Lemma parse_entries_ok i entries l l' :
  parse_entries i entries l = Ok l' ->
  exists es, Forall2 (fun entry e => exists j, parse_entry j entry = Ok e) entries es /\
  l' = fold_left add_entry es l.
Proof.
  revert i l. induction entries as [|entry entries IH]; intros i l; simpl.
  - intros [= <-]. exists []. split; [constructor|done].
  - intros (e & He & (es & Hes & ->)%IH)%result_bind_ok. exists (e :: es).
    split; [constructor; eauto|done].
Qed.

Lemma add_entries_exact es l host :
  host ∈ exact_domains (fold_left add_entry es l) <->
    host ∈ exact_domains l \/ (false, host) ∈ es.
Proof.
  revert l. induction es as [|[[] h] es IH]; intros l; cbn [fold_left].
  - set_solver.
  - rewrite IH. cbn. set_solver.
  - rewrite IH. cbn. set_solver.
Qed.

Lemma add_entries_suffix es l suffix :
  suffix ∈ domain_suffixes (fold_left add_entry es l) <->
    suffix ∈ domain_suffixes l \/ exists h, suffix = "." +:+ h /\ (true, h) ∈ es.
Proof.
  revert l. induction es as [|[[] h] es IH]; intros l; cbn [fold_left].
  - set_solver.
  - rewrite IH. cbn [add_entry fst snd domain_suffixes]. rewrite elem_of_app, list_elem_of_singleton. split.
    + intros [[H|H]|(h' & -> & H)]; [by left|right; exists h; set_solver|right; exists h'; set_solver].
    + intros [H|(h' & -> & H)]; [by left; left|].
      apply elem_of_cons in H as [[= ->]|H]; [by left; right|]. right. eauto.
  - rewrite IH. cbn [add_entry fst snd domain_suffixes]. split.
    + intros [H|(h' & -> & H)]; [by left|right; exists h'; set_solver].
    + intros [H|(h' & -> & H)]; [by left|]. apply elem_of_cons in H as [[=]|H]. eauto.
Qed.

(** What one entry of the setting allows. *)
Definition entry_allows (entry host : string) : Prop :=
  match strip_prefix "*." (trim entry) with
  | Some domain => exists h l, host_parse domain = Some (Domain h) /\ hostname_ok h = true /\
      l <> "" /\ host = l +:+ "." +:+ h
  | None => host_parse (trim entry) = Some (Domain host) /\ hostname_ok host = true
  end.

Lemma parse_entry_ok i entry sub h :
  parse_entry i entry = Ok (sub, h) ->
  hostname_ok h = true /\
  match strip_prefix "*." (trim entry) with
  | Some domain => sub = true /\ host_parse domain = Some (Domain h)
  | None => sub = false /\ host_parse (trim entry) = Some (Domain h)
  end.
Proof.
  unfold parse_entry. cbv zeta. destruct (contains_char "%" _); [done|].
  destruct (strip_prefix "*." (trim entry)) as [domain|]; cbn [default];
    destruct (host_parse _) as [[host|n|n]|]; try done;
    destruct (hostname_ok host) eqn:Hh; try done; intros [= <- <-]; done.
Qed.

Lemma exact_allows l host : existsb (String.eqb host) l = true <-> host ∈ l.
Proof.
  rewrite existsb_exists. split.
  - intros (x & Hx & ->%String.eqb_eq). by apply list_elem_of_In.
  - intros H. exists host. split; [by apply list_elem_of_In|apply String.eqb_refl].
Qed.

Lemma suffix_allows es host :
  existsb (fun suffix => Nat.ltb (String.length suffix) (String.length host) && ends_with suffix host)
    (domain_suffixes (fold_left add_entry es (mkAllowlist [] []))) = true <->
    exists h pre, (true, h) ∈ es /\ pre <> "" /\ host = pre +:+ "." +:+ h.
Proof.
  rewrite existsb_exists. setoid_rewrite andb_true_iff. setoid_rewrite ends_with_spec.
  setoid_rewrite Nat.ltb_lt. split.
  - intros (suffix & Hin%list_elem_of_In & Hlen & pre & ->).
    apply add_entries_suffix in Hin as [H|(h & -> & Hin)]; [by apply elem_of_nil in H|].
    exists h, pre. split_and!; [done| |done]. intros ->. cbn in Hlen. lia.
  - intros (h & pre & Hin & Hpre & ->). exists ("." +:+ h). split_and!.
    + apply list_elem_of_In, add_entries_suffix. right. eauto.
    + destruct pre as [|c pre]; [done|]. cbn. rewrite str_length_app. cbn. lia.
    + eauto.
Qed.

Lemma Forall2_elem_r {A B} (P : A -> B -> Prop) l k b :
  Forall2 P l k -> b ∈ k -> exists a, a ∈ l /\ P a b.
Proof.
  intros H (i & Hi)%list_elem_of_lookup. destruct (Forall2_lookup_r _ _ _ _ _ H Hi) as (a & Ha & ?).
  exists a. split; [by eapply list_elem_of_lookup_2|done].
Qed.
Lemma Forall2_elem_l {A B} (P : A -> B -> Prop) l k a :
  Forall2 P l k -> a ∈ l -> exists b, b ∈ k /\ P a b.
Proof.
  intros H (i & Hi)%list_elem_of_lookup. destruct (Forall2_lookup_l _ _ _ _ _ H Hi) as (b & Hb & ?).
  exists b. split; [by eapply list_elem_of_lookup_2|done].
Qed.

(** In restricted mode a request leaves only for a host the setting names.
    When the setting parses, a URL passes exactly when its host is a domain name
    that some entry allows: the entry itself, or, for an entry [*.domain], a name
    with at least one more label in front of the domain.  An IP address never
    passes, and neither does the bare domain of a wildcard entry. *)
Theorem allowlist_exact v l url :
  allowlist_parse v = Ok l -> str_is_empty (trim v) = false ->
  is_ok (validate_allowlist url (mkPolicy Restricted l)) = true <->
    exists host entry, url_host url = Some (Domain host) /\ entry ∈ split_char "," v /\
  entry_allows entry host.
Proof.
  unfold allowlist_parse. intros Hp He. rewrite He in Hp.
  apply parse_entries_ok in Hp as (es & Hes & ->).
  unfold validate_allowlist, allowlist_validate. cbn [security allowed_domains].
  destruct (url_host url) as [[host|n|n]|]; [|split; [done|]; by intros (? & ? & ? & _)..].
  assert (Hv : forall b e, is_ok (if b : bool then Ok tt else Err e : result unit string) = b) by (by intros []).
  rewrite Hv, orb_true_iff, exact_allows, suffix_allows, add_entries_exact. clear Hv. cbn [exact_domains].
  split.
  - intros [[H|H]|(h & pre & H & Hpre & ->)].
    + by apply elem_of_nil in H.
    + destruct (Forall2_elem_r _ _ _ _ Hes H) as (entry & Hin & i & Hentry).
      apply parse_entry_ok in Hentry as [Hok Hentry]. exists host, entry. split_and!; [done..|].
      unfold entry_allows. destruct (strip_prefix "*." (trim entry)); [by destruct Hentry|].
      split; [by apply Hentry|done].
    + destruct (Forall2_elem_r _ _ _ _ Hes H) as (entry & Hin & i & Hentry).
      apply parse_entry_ok in Hentry as [Hok Hentry]. eexists _, entry. split_and!; [done..|].
      unfold entry_allows. destruct (strip_prefix "*." (trim entry)); [|by destruct Hentry].
      exists h, pre. split_and!; [by apply Hentry|done..].
  - intros (host' & entry & [= <-] & Hin & Hallow).
    destruct (Forall2_elem_l _ _ _ _ Hes Hin) as ([sub h] & Hin' & i & Hentry).
    apply parse_entry_ok in Hentry as [Hok Hentry]. unfold entry_allows in Hallow.
    destruct (strip_prefix "*." (trim entry)).
    + destruct Hallow as (h' & pre & Hh & _ & Hpre & ->). destruct Hentry as [-> Hh'].
      right. exists h, pre. split_and!; [done..|]. congruence.
    + destruct Hallow as [Hh _]. destruct Hentry as [-> Hh']. left; right. congruence.
Qed.
End Allowlist.

(** ** Witnesses *)

#[local] Existing Instance sample_url.

(** 172.16.5.4, and the same address mapped into IPv6. *)
Definition private_ipv4 : N := (v4 172 16 + 5 * 256 + 4)%N.
Definition private_mapped : N := (65535 * 2 ^ 32 + private_ipv4)%N.

Lemma blocklist_networks_witness :
  check_blocked_ip (V6 private_mapped) = Some "private (172.16.0.0/12)" /\
  in_blocked_network (V6 private_mapped).
Proof.
  split; [vm_compute; reflexivity|].
  apply (blocklist_networks (V6 private_mapped)); [vm_compute; reflexivity|vm_compute; discriminate].
Defined.

Definition rebinding (_ : string) : result (list IpAddr) string :=
  Ok [V4 (v4 127 0 + 1); V4 (v4 140 82)].

Lemma resolver_filters_witness :
  safe_resolve rebinding "api.github.com" = Ok [V4 (v4 140 82)] /\
  [V4 (v4 140 82)] <> [] /\ sublist [V4 (v4 140 82)] [V4 (v4 127 0 + 1); V4 (v4 140 82)] /\
  forall ip, ip ∈ [V4 (v4 140 82)] <->
    ip ∈ [V4 (v4 127 0 + 1); V4 (v4 140 82)] /\ ~ in_blocked_network ip.
Proof.
  split; [vm_compute; reflexivity|].
  apply (resolver_filters rebinding "api.github.com" [V4 (v4 127 0 + 1); V4 (v4 140 82)]);
    [reflexivity|repeat constructor; vm_compute; reflexivity].
Defined.

Definition sample_setting : string := "*.vault.azure.net, api.github.com".
Definition sample_allowlist : DomainAllowlist :=
  mkAllowlist ["api.github.com"] [".vault.azure.net"].
Definition vault_url : Url := mkParts "https" "kv.vault.azure.net" "" None None.

Lemma allowlist_exact_witness :
  is_ok (validate_allowlist vault_url (mkPolicy Restricted sample_allowlist)) = true /\
  exists host entry, url_host vault_url = Some (Domain host) /\
    entry ∈ split_char "," sample_setting /\ entry_allows entry host.
Proof.
  split; [vm_compute; reflexivity|].
  apply (allowlist_exact sample_setting sample_allowlist vault_url); vm_compute; reflexivity.
Defined.
