(* ===== verification/Redact.v ===== *)
(** Redaction of URLs before they reach a log or an error ([src/redact.rs]). *)
From S2P Require Import Prelude RustString UrlCrate.

Definition REDACTED : string := "<redacted>".

(** [s.trim_end_matches('=')] is not empty: some character is not a ['=']. *)
Definition not_only_padding (s : string) : bool := negb (str_forall (Ascii.eqb "=") s).

Definition redact_pair (pair : string) : string :=
  match split_once "=" pair with
  | Some (name, v) => if not_only_padding v then name +:+ "=" +:+ REDACTED else REDACTED
  | None => REDACTED
  end.

Definition redact_query (query : string) : string :=
  join "&" (map redact_pair (split_char "&" query)).

Section Redact.
Context {UC : UrlCrate}.

Definition has_credentials (u : Url) : bool :=
  negb (str_is_empty (url_username u)) || bool_decide (is_Some (url_password u)).

Definition redact_url (url : string) : string :=
  match url_parse url with
  | Err _ => REDACTED
  | Ok parsed =>
      url_before_username parsed +:+
      (if has_credentials parsed then REDACTED +:+ "@" else "") +:+
      url_host_to_path parsed +:+
      (match url_query parsed with
       | Some q => if str_is_empty q then "" else "?" +:+ redact_query q
       | None => ""
       end) +:+
      (match url_fragment parsed with Some _ => "#" +:+ REDACTED | None => "" end)
  end.
End Redact.

(** ** What is left of a query *)

(** What the redaction of one parameter may depend on: its name, when it has a
    value that is more than padding. *)
Definition pair_shape (pair : string) : option string :=
  match split_once "=" pair with
  | Some (name, v) => if not_only_padding v then Some name else None
  | None => None
  end.
Definition query_shape (query : string) : list (option string) :=
  map pair_shape (split_char "&" query).

Definition render_shape (shape : option string) : string :=
  match shape with Some name => name +:+ "=" +:+ REDACTED | None => REDACTED end.

Lemma redact_pair_shape pair : redact_pair pair = render_shape (pair_shape pair).
Proof.
  unfold redact_pair, pair_shape. destruct (split_once "=" pair) as [[name v]|]; [|done].
  by destruct (not_only_padding v).
Qed.

Lemma redact_query_shape query : redact_query query = join "&" (map render_shape (query_shape query)).
Proof.
  unfold redact_query, query_shape. rewrite map_map. f_equal. apply map_ext, redact_pair_shape.
Qed.

Lemma split_char_join c parts :
  Forall (fun t => char_free c t = true) parts -> parts <> [] ->
  split_char c (join (String c "") parts) = parts.
Proof.
  induction 1 as [|p parts Hp Hparts IH]; intros Hne; [done|].
  destruct parts as [|p' parts]; [by apply split_char_free|].
  rewrite join_cons. cbn [append]. rewrite split_char_app by done. by rewrite IH.
Qed.

Lemma split_once_Some c p l r :
  split_once (String c "") p = Some (l, r) -> p = l +:+ String c "" +:+ r /\ char_free c l = true.
Proof.
  revert l. induction p as [|a p IH]; intros l; cbn [split_once]; [done|].
  cbn [strip_prefix]. destruct (Ascii.eqb_spec c a) as [<-|Ha].
  - by intros [= <- <-].
  - destruct (split_once (String c "") p) as [[l' r']|]; [|done]. intros [= <- <-].
    destruct (IH l' eq_refl) as [-> Hl]. split; [done|]. by apply char_free_cons.
Qed.

(** A rendered parameter reads as the parameter it came from. *)
Lemma pair_shape_render pair : char_free "&" pair = true ->
  let t := render_shape (pair_shape pair) in char_free "&" t = true /\ pair_shape t = pair_shape pair.
Proof.
  intros Hp. unfold pair_shape at 1 3. destruct (split_once "=" pair) as [[name v]|] eqn:Hs; [|done].
  destruct (not_only_padding v); [|done]. apply split_once_Some in Hs as [-> Hname].
  apply char_free_app in Hp as [Hp _]. cbn [render_shape]. split.
  - apply char_free_app. by split.
  - unfold pair_shape. change "=" with (String "=" "") at 1.
    by rewrite (split_once_free "=" "" name REDACTED Hname).
Qed.

(** Redaction keeps the shape of a query and is stable.  A redacted query has
    the same parameters in the same order, the named ones under the same names;
    redacting it again changes nothing. *)
Theorem redact_query_stable query :
  query_shape (redact_query query) = query_shape query /\
  redact_query (redact_query query) = redact_query query.
Proof.
  assert (H : query_shape (redact_query query) = query_shape query).
  { destruct (split_char_parts "&" query) as [Hparts Hne].
    rewrite redact_query_shape. unfold query_shape at 1.
    rewrite split_char_join; unfold query_shape.
    - rewrite !map_map. apply map_ext_in. intros pair Hin%list_elem_of_In.
      eapply Forall_forall in Hparts; [|done]. by apply pair_shape_render.
    - rewrite map_map. apply Forall_fmap. eapply Forall_impl; [exact Hparts|].
      intros pair Hpair. by apply pair_shape_render.
    - by destruct (split_char "&" query). }
  split; [done|]. rewrite (redact_query_shape (redact_query query)), H. by rewrite <- redact_query_shape.
Qed.

Section RedactUrl.
Context {UC : UrlCrate}.

(** What a log may show of a URL: scheme, host, port and path, whether there
    were credentials and a fragment, and the names of the parameters. *)
Definition public_part (u : Url) : string * bool * string * option (list (option string)) * bool :=
  (url_before_username u, has_credentials u, url_host_to_path u,
   (q ← url_query u; if str_is_empty q then None else Some (query_shape q)),
   bool_decide (is_Some (url_fragment u))).

(** Redaction reveals nothing but the public part.  Two URLs that agree on
    scheme, host, port, path, on whether they carry credentials and a fragment,
    and on the names of their parameters redact to the same text, whatever the
    user, the password, the parameter values and the fragment are; and text that
    is not a URL is never echoed. *)
Theorem redact_url_noninterference url1 url2 u1 u2 text :
  url_parse url1 = Ok u1 -> url_parse url2 = Ok u2 -> public_part u1 = public_part u2 ->
  is_ok (url_parse text) = false ->
  redact_url url1 = redact_url url2 /\ redact_url text = REDACTED.
Proof.
  intros H1 H2 Hp Ht. unfold redact_url. rewrite H1, H2. split; [|by destruct (url_parse text)].
  unfold public_part in Hp. injection Hp as Hb Hc Hh Hq Hf. rewrite Hb, Hc, Hh.
  assert (Hquery : forall u, match url_query u with
    | Some q => if str_is_empty q then "" else "?" +:+ redact_query q
    | None => "" end = from_option (fun shape => "?" +:+ join "&" (map render_shape shape)) ""
    (q ← url_query u; if str_is_empty q then None else Some (query_shape q))).
  { intros u. destruct (url_query u) as [q|]; [|done]. cbn. destruct (str_is_empty q); [done|].
    by rewrite redact_query_shape. }
  rewrite !Hquery, Hq. clear Hquery Hq. do 4 f_equal.
  by destruct (url_fragment u1), (url_fragment u2).
Qed.
End RedactUrl.

#[local] Existing Instance sample_url.

Definition signed_url (signature : string) : string :=
  "https://acct.blob.core.windows.net/c/b?sv=1&sig=" +:+ signature +:+ "#x".
Definition signed_parts (signature : string) : Url :=
  mkParts "https" "acct.blob.core.windows.net" "c/b" (Some ("sv=1&sig=" +:+ signature)) (Some "x").

Lemma redact_url_noninterference_witness :
  redact_url (signed_url "Zm9v") =
    "https://acct.blob.core.windows.net/c/b?sv=<redacted>&sig=<redacted>#<redacted>" /\
  redact_url (signed_url "Zm9v") = redact_url (signed_url "YmFy") /\ redact_url "Zm9v" = REDACTED.
Proof.
  split; [vm_compute; reflexivity|].
  apply (redact_url_noninterference (signed_url "Zm9v") (signed_url "YmFy")
    (signed_parts "Zm9v") (signed_parts "YmFy") "Zm9v"); vm_compute; reflexivity.
Defined.
