(* ===== verification/Dsl.v ===== *)
(** The functions a workflow is written with ([src/dsl.rs], lines 217-864).

    Each returns the text of a durable future.  Arguments that are steps are
    either such texts or plain SQL, told apart by [ensure].  [Err] is
    [pgrx::error!]. *)
From S2P Require Import Prelude RustString Json Flatten Graph Substitution.
From S2P Require Import Orchestration UrlCrate Ssrf.

Definition json_opt (o : option value) : value := default Null o.

(** [Durofut { node_type, query: Some(query), ..Default::default() }] *)
Definition leaf_durofut (t query : string) : Durofut :=
  mkDurofut t None None None [] (Some query) None.

Section Dsl.
Context {SJ : SerdeJson} {CC : CronCrate}.
(** The session marker of a helper that is no step, and the current statement. *)
Context (marker : option string) (statement : Z).

#[local] Abbreviation ensure := (Flatten.ensure marker statement).

Definition sql (query : string) : string := durofut_to_json (leaf_durofut "SQL" query).

Definition then_fn (a b : string) : result string string :=
  let? a_fut := ensure a in
  let? b_fut := ensure b in
  Ok (durofut_to_json
      (mkDurofut "THEN" (Some (into_raw a_fut)) (Some (into_raw b_fut)) None [] None None)).

Definition with_result_name (d : Durofut) (name : string) : Durofut :=
  mkDurofut (d_node_type d) (d_left_node d) (d_right_node d) (d_condition_node d)
    (d_extra_nodes d) (d_query d) (Some name).

Definition as_named (fut name : string) : result string string :=
  let? _ := map_err (fun msg => "df.as: " +:+ msg) (validate_result_name name) in
  let? durofut := ensure fut in
  Ok (durofut_to_json (with_result_name durofut name)).

Definition sleep (seconds : Z) : result string string :=
  if (seconds <? 0)%Z then Err "Sleep duration must be non-negative"
  else Ok (durofut_to_json (leaf_durofut "SLEEP" (show_Z seconds))).

Definition wait_for_schedule (cron_expr : string) : result string string :=
  let? _ := map_err (fun e => "Invalid cron expression '" +:+ cron_expr +:+ "': " +:+ e)
      (cron_from_str ("0 " +:+ cron_expr)) in
  let config := Object [("cron_expr", JString cron_expr)] in
  Ok (durofut_to_json (leaf_durofut "WAIT_SCHEDULE" (value_to_string config))).

Definition build_loop (body : string) (condition : option string) (continue_on_failure : bool)
    : result string string :=
  let? body_fut := ensure body in
  let? condition_node :=
    match condition with
    | Some cond => let? c := ensure cond in Ok (Some (into_raw c))
    | None => Ok None
    end in
  let query :=
    if continue_on_failure then Some (to_json (mkLoopConfig true None)) else None in
  Ok (durofut_to_json
      (mkDurofut "LOOP" (Some (into_raw body_fut)) None condition_node [] query None)).

Definition loop_fn (body : string) (condition : option string) : result string string :=
  build_loop body condition false.
Definition loop_with_policy (body : string) (condition : option string) (continue_on_failure : bool)
    : result string string := build_loop body condition continue_on_failure.

Definition break_fn (v : option string) : string :=
  let config := Object [("break_value", json_opt (JString <$> v))] in
  durofut_to_json (leaf_durofut "BREAK" (value_to_string config)).

Definition if_fn (condition then_branch else_branch : string) : result string string :=
  let? condition_fut := ensure condition in
  let? then_fut := ensure then_branch in
  let? else_fut := ensure else_branch in
  Ok (durofut_to_json
      (mkDurofut "IF" (Some (into_raw then_fut)) (Some (into_raw else_fut))
       (Some (into_raw condition_fut)) [] None None)).

Definition if_rows_fn (result_name then_branch else_branch : string) : result string string :=
  let? then_fut := ensure then_branch in
  let? else_fut := ensure else_branch in
  let config := Object [("condition_type", JString "result_has_rows");
                        ("result_name", JString result_name)] in
  Ok (durofut_to_json
      (mkDurofut "IF" (Some (into_raw then_fut)) (Some (into_raw else_fut)) None []
       (Some (value_to_string config)) None)).

Definition join (a b : string) : result string string :=
  let? a_fut := ensure a in
  let? b_fut := ensure b in
  Ok (durofut_to_json
      (mkDurofut "JOIN" (Some (into_raw a_fut)) (Some (into_raw b_fut)) None [] None None)).

Definition join3 (a b c : string) : result string string :=
  let? a_fut := ensure a in
  let? b_fut := ensure b in
  let? c_fut := ensure c in
  Ok (durofut_to_json
      (mkDurofut "JOIN" (Some (into_raw a_fut)) (Some (into_raw b_fut)) None
       [into_raw c_fut] None None)).

Definition race (a b : string) : result string string :=
  let? a_fut := ensure a in
  let? b_fut := ensure b in
  Ok (durofut_to_json
      (mkDurofut "RACE" (Some (into_raw a_fut)) (Some (into_raw b_fut)) None [] None None)).

(** *** HTTP *)

(** The scheme of a literal URL; one with placeholders is not known yet. *)
Definition precheck_dsl_url (url : string) (endpoint : option string) (security : HttpSecurity)
    : result unit string :=
  match endpoint with
  | None => if negb (contains_char "{" url) then precheck_url_scheme url security else Ok tt
  | Some _ => Ok tt
  end.

(** The config of a request with its [middle] member, and the endpoint when
    there is one. *)
Definition request_config (url method : string) (middle : string * value) (headers : option value)
    (timeout_seconds : Z) (endpoint : option string) : value :=
  Object (
    [("url", JString url); ("method", JString method); middle;
     ("headers", json_opt headers); ("timeout_seconds", json_int timeout_seconds)]
    ++ match endpoint with Some server => [("endpoint", JString server)] | None => [] end).

Definition http_node (security : HttpSecurity) (url method : string) (body : option string)
    (headers : option value) (timeout_seconds : Z) (endpoint : option string)
    : result string string :=
  if bool_decide (security = Disabled) then
    Err ("df.http() is disabled. Configure pg_durable.http_security = 'restricted' " +:+
         "and restart the server to enable outbound HTTP requests.")
  else
    let? _ := precheck_dsl_url url endpoint security in
    let method_upper := to_uppercase method in
    if negb (bool_decide (method_upper ∈ ["GET"; "POST"; "PUT"; "DELETE"; "PATCH"])) then
      Err ("Invalid HTTP method: " +:+ method +:+ ". Must be GET, POST, PUT, DELETE, or PATCH")
    else if (timeout_seconds <=? 0)%Z then Err "Timeout must be positive"
    else
      Ok (durofut_to_json (leaf_durofut "HTTP" (value_to_string
          (request_config url method_upper ("body", json_opt (JString <$> body)) headers
           timeout_seconds endpoint)))).

Definition http security url method body headers timeout_seconds : result string string :=
  http_node security url method body headers timeout_seconds None.

Definition http_multipart_node (security : HttpSecurity) (url method : string)
    (parts headers : option value) (timeout_seconds : Z) (endpoint : option string)
    : result string string :=
  if bool_decide (security = Disabled) then
    Err ("df.http_multipart() is disabled. Configure pg_durable.http_security = 'restricted' " +:+
         "and restart the server to enable outbound HTTP requests.")
  else
    let? _ := precheck_dsl_url url endpoint security in
    let method_upper := to_uppercase method in
    if negb (bool_decide (method_upper ∈ ["POST"; "PUT"; "PATCH"])) then
      Err ("Invalid HTTP method for multipart: " +:+ method +:+ ". Must be POST, PUT, or PATCH")
    else if (timeout_seconds <=? 0)%Z then Err "Timeout must be positive"
    else
      match parts with
      | None => Err "parts is required and cannot be NULL"
      | Some parts_value =>
          match as_array parts_value with
          | None => Err "parts must be a JSON array of part objects"
          | Some [] => Err "parts must contain at least one part"
          | Some _ =>
              Ok (durofut_to_json (leaf_durofut "HTTP_MULTIPART" (value_to_string
                  (request_config url method_upper ("parts", parts_value) headers
                   timeout_seconds endpoint))))
          end
      end.

Definition http_multipart security url method parts headers timeout_seconds
    : result string string :=
  http_multipart_node security url method parts headers timeout_seconds None.

(** *** Signals *)

Definition wait_for_signal (name : string) (timeout_seconds : option Z) : result string string :=
  if str_is_empty name then Err "Signal name cannot be empty"
  else if match timeout_seconds with Some timeout => (timeout <=? 0)%Z | None => false end then
    Err "Timeout must be positive"
  else
    let config := Object [("signal_name", JString name);
                          ("timeout_seconds", json_opt (json_int <$> timeout_seconds))] in
    Ok (durofut_to_json (leaf_durofut "SIGNAL" (value_to_string config))).

(** The payload [df.signal] raises: JSON text as it is parsed, other text as a
    JSON string. *)
Definition signal_payload (signal_data : string) : string :=
  value_to_string (match value_from_str signal_data with Ok v => v | Err _ => JString signal_data end).

(** [exists] is the answer of the row-level-secured lookup of the instance,
    [raise] the engine's. *)
Definition signal (instance_exists : bool) (raise : string -> string -> string -> result unit string)
    (instance_id signal_name signal_data : string) : result string string :=
  if str_is_empty instance_id then Err "Instance ID cannot be empty"
  else if str_is_empty signal_name then Err "Signal name cannot be empty"
  else if negb instance_exists then
    Err ("Instance not found or access denied: " +:+ instance_id)
  else
    match raise instance_id signal_name (signal_payload signal_data) with
    | Ok _ => Ok "OK"
    | Err e => Err ("Failed to send signal: " +:+ e)
    end.
End Dsl.
