(* ===== verification/DslSpec.v ===== *)
(** Workflows written with the functions of [Dsl] are accepted.

    A workflow is an expression of the language those functions make up.  Its
    text denotes the durable future one reads off the expression, materializes
    into a graph with the expression's nodes in pre-order, and every row of that
    graph satisfies the CHECK constraints of [df.nodes]
    ([src/lib.rs], lines 547-570). *)
From S2P Require Import Prelude RustString Json JsonText Flatten FlattenSpec.
From S2P Require Import Graph Substitution Orchestration UrlCrate Ssrf Dsl.

(** ** Workflow expressions *)

Inductive step : Type :=
| Text (q : string)
| Sql (q : string)
| Seq (a b : step)
| As (a : step) (name : string)
| Sleep (seconds : Z)
| Schedule (cron_expr : string)
| LoopForever (body : step) (continue_on_failure : bool)
| LoopWhile (body condition : step) (continue_on_failure : bool)
| Break (v : option string)
| If (condition then_branch else_branch : step)
| IfRows (name : string) (then_branch else_branch : step)
| Join (a b : step)
| Join3 (a b c : step)
| Race (a b : step)
| Http (security : HttpSecurity) (url method : string) (body : option string)
    (headers : option value) (timeout_seconds : Z) (endpoint : option string)
| Multipart (security : HttpSecurity) (url method : string) (parts headers : option value)
    (timeout_seconds : Z) (endpoint : option string)
| Signal (name : string) (timeout_seconds : option Z).

(** ** The CHECK constraints of [df.nodes] *)

(** [nodes_structure_chk] *)
Definition structure_ok (t : string) (l r q : option string) : bool :=
  let present (o : option string) := bool_decide (is_Some o) in
  if bool_decide (t ∈ ["SQL"; "SLEEP"; "WAIT_SCHEDULE"; "BREAK"; "HTTP"; "HTTP_MULTIPART"; "SIGNAL"])
  then negb (present l) && negb (present r) && present q
  else if String.eqb t "THEN" then present l && present r && negb (present q)
  else if String.eqb t "IF" then present l && present r && present q
  else if String.eqb t "LOOP" then present l && negb (present r)
  else if String.eqb t "JOIN" then present l && present r
  else if String.eqb t "RACE" then present l && present r && negb (present q)
  else false.

(** [nodes_result_name_chk] *)
Definition result_name_ok (n : option string) : bool :=
  match n with None => true | Some n => is_identifier n end.

Definition row_ok (m : MaterializedNode) : bool :=
  valid_node_type (m_node_type m) &&
  structure_ok (m_node_type m) (m_left_node m) (m_right_node m) (m_query m) &&
  result_name_ok (m_result_name m).

Section Spec.
Context {SJ : SerdeJson} {SJL : SerdeJsonLaws SJ} {CC : CronCrate}.
Context (marker : option string) (statement : Z).

(** ** Rendering and meaning *)

Fixpoint render (e : step) : result string string :=
  match e with
  | Text q => Ok q
  | Sql q => Ok (sql q)
  | Seq a b => let? x := render a in let? y := render b in then_fn marker statement x y
  | As a name => let? x := render a in as_named marker statement x name
  | Sleep n => sleep n
  | Schedule c => wait_for_schedule c
  | LoopForever a f => let? x := render a in loop_with_policy marker statement x None f
  | LoopWhile a c f =>
      let? x := render a in let? y := render c in loop_with_policy marker statement x (Some y) f
  | Break v => Ok (break_fn v)
  | If c a b =>
      let? x := render c in let? y := render a in let? z := render b in
      if_fn marker statement x y z
  | IfRows n a b =>
      let? x := render a in let? y := render b in if_rows_fn marker statement n x y
  | Join a b => let? x := render a in let? y := render b in Dsl.join marker statement x y
  | Join3 a b c =>
      let? x := render a in let? y := render b in let? z := render c in
      join3 marker statement x y z
  | Race a b => let? x := render a in let? y := render b in race marker statement x y
  | Http s u m b h t e => http_node s u m b h t e
  | Multipart s u m p h t e => http_multipart_node s u m p h t e
  | Signal n t => wait_for_signal n t
  end.

Definition loop_query (continue_on_failure : bool) : option string :=
  if continue_on_failure then Some (to_json (mkLoopConfig true None)) else None.

Fixpoint denote (e : step) : Durofut :=
  let child a := Some (into_raw (denote a)) in
  match e with
  | Text q | Sql q => leaf_durofut "SQL" q
  | Seq a b => mkDurofut "THEN" (child a) (child b) None [] None None
  | As a name => with_result_name (denote a) name
  | Sleep n => leaf_durofut "SLEEP" (show_Z n)
  | Schedule c =>
      leaf_durofut "WAIT_SCHEDULE" (value_to_string (Object [("cron_expr", JString c)]))
  | LoopForever a f => mkDurofut "LOOP" (child a) None None [] (loop_query f) None
  | LoopWhile a c f => mkDurofut "LOOP" (child a) None (child c) [] (loop_query f) None
  | Break v =>
      leaf_durofut "BREAK" (value_to_string (Object [("break_value", json_opt (JString <$> v))]))
  | If c a b => mkDurofut "IF" (child a) (child b) (child c) [] None None
  | IfRows n a b =>
      mkDurofut "IF" (child a) (child b) None []
        (Some (value_to_string (Object [("condition_type", JString "result_has_rows");
                                        ("result_name", JString n)]))) None
  | Join a b => mkDurofut "JOIN" (child a) (child b) None [] None None
  | Join3 a b c =>
      mkDurofut "JOIN" (child a) (child b) None [into_raw (denote c)] None None
  | Race a b => mkDurofut "RACE" (child a) (child b) None [] None None
  | Http _ u m b h t e =>
      leaf_durofut "HTTP" (value_to_string
                           (request_config u (to_uppercase m) ("body", json_opt (JString <$> b)) h t e))
  | Multipart _ u m p h t e =>
      leaf_durofut "HTTP_MULTIPART" (value_to_string
                                     (request_config u (to_uppercase m) ("parts", default Null p) h t e))
  | Signal n t =>
      leaf_durofut "SIGNAL" (value_to_string
                             (Object [("signal_name", JString n); ("timeout_seconds", json_opt (json_int <$> t))]))
  end.

(** The node types in pre-order, and the number of levels. *)
Fixpoint types (e : step) : list string :=
  match e with
  | Text _ | Sql _ => ["SQL"]
  | Seq a b => "THEN" :: types a ++ types b
  | As a _ => types a
  | Sleep _ => ["SLEEP"]
  | Schedule _ => ["WAIT_SCHEDULE"]
  | LoopForever a _ => "LOOP" :: types a
  | LoopWhile a c _ => "LOOP" :: types a ++ types c
  | Break _ => ["BREAK"]
  | If c a b => "IF" :: types a ++ types b ++ types c
  | IfRows _ a b => "IF" :: types a ++ types b
  | Join a b => "JOIN" :: types a ++ types b
  | Join3 a b c => "JOIN" :: types a ++ types b ++ types c
  | Race a b => "RACE" :: types a ++ types b
  | Http _ _ _ _ _ _ _ => ["HTTP"]
  | Multipart _ _ _ _ _ _ _ => ["HTTP_MULTIPART"]
  | Signal _ _ => ["SIGNAL"]
  end.

Fixpoint levels (e : step) : nat :=
  match e with
  | Seq a b | IfRows _ a b | Join a b | Race a b | LoopWhile a b _ => S (max (levels a) (levels b))
  | As a _ => levels a
  | LoopForever a _ => S (levels a)
  | If a b c | Join3 a b c => S (max (levels a) (max (levels b) (levels c)))
  | _ => 1
  end.

(** Plain text: no durable future, no JSON object with a [node_type], not what
    a helper of this statement returned. *)
Definition plain (q : string) : Prop :=
  same_statement_non_future_helper_name marker statement q = None /\
  is_ok (durofut_from_str q) = false /\ envelope_node_type q = None.

Fixpoint texts_plain (e : step) : Prop :=
  match e with
  | Text q => plain q
  | Seq a b | IfRows _ a b | Join a b | Race a b | LoopWhile a b _ => texts_plain a /\ texts_plain b
  | As a _ | LoopForever a _ => texts_plain a
  | If a b c | Join3 a b c => texts_plain a /\ texts_plain b /\ texts_plain c
  | _ => True
  end.

(** The names given with [As] are identifiers. *)
Fixpoint names_ok (e : step) : Prop :=
  match e with
  | Seq a b | IfRows _ a b | Join a b | Race a b | LoopWhile a b _ => names_ok a /\ names_ok b
  | As a n => is_identifier n = true /\ names_ok a
  | LoopForever a _ => names_ok a
  | If a b c | Join3 a b c => names_ok a /\ names_ok b /\ names_ok c
  | _ => True
  end.

(** ** Texts denote what they were built from *)

Lemma no_children_raw t q n : raw_durofut (mkDurofut t None None None [] q n).
Proof. intros raw [H|[H|[H|H]]]; cbn in H; try discriminate H. by apply not_elem_of_nil in H. Qed.

Lemma denote_raw e : raw_durofut (denote e).
Proof.
  induction e; simpl; try apply no_children_raw; try done;
    intros raw Hraw; cbn [d_left_node d_right_node d_condition_node d_extra_nodes] in Hraw;
    rewrite ?list_elem_of_singleton, ?elem_of_nil in Hraw;
    naive_solver eauto using into_raw_ok.
Qed.

Lemma denote_type e : valid_node_type (d_node_type (denote e)) = true.
Proof. by induction e. Qed.

(** The text of a durable future is taken back as that future. *)
Lemma json_no_helper d :
  same_statement_non_future_helper_name marker statement (durofut_to_json d) = None.
Proof.
  unfold same_statement_non_future_helper_name. pose proof (into_raw_object d) as H.
  unfold into_raw in H. by rewrite H.
Qed.

Lemma ensure_json d : raw_durofut d -> valid_node_type (d_node_type d) = true ->
  ensure marker statement (durofut_to_json d) = Ok d /\
  ensure_strict marker statement (durofut_to_json d) = Ok d.
Proof.
  intros Hd Ht. unfold ensure, ensure_strict. by rewrite json_no_helper, durofut_reparses, Ht.
Qed.

Lemma ensure_plain q : plain q ->
  ensure marker statement q = Ok (sql_durofut q) /\ ensure_strict marker statement q = Ok (sql_durofut q).
Proof.
  intros (Hm & Hd & He). unfold ensure, ensure_strict, is_durofut_envelope. rewrite Hm, He.
  by destruct (durofut_from_str q).
Qed.

(** What a text stands for, in both ways of reading it. *)
Definition stands_for (s : string) (d : Durofut) : Prop :=
  ensure marker statement s = Ok d /\ ensure_strict marker statement s = Ok d.

Lemma stands_for_json e : stands_for (durofut_to_json (denote e)) (denote e).
Proof. apply ensure_json; [apply denote_raw|apply denote_type]. Qed.

(** Peels the arguments off a rendering and reads them with the induction
    hypotheses; then computes the call made with them. *)
Ltac arguments H :=
  repeat match goal with
    | H : _ /\ _ |- _ => destruct H
    | H : result_bind _ _ = Ok _ |- _ => apply result_bind_ok in H as (? & ? & H)
    | IH : forall s, render ?e = Ok s -> _ -> stands_for s _, H : render ?e = Ok _, Hp : texts_plain ?e |- _ =>
        specialize (IH _ H Hp); destruct IH as [? ?]
    end.
Ltac ensured H :=
  repeat match goal with E : ensure _ _ ?x = Ok _ |- _ => rewrite E in H; clear E; cbn [result_bind] in H end.

Lemma render_stands_for e s : render e = Ok s -> texts_plain e -> stands_for s (denote e).
Proof.
  assert (Hj : forall e s, (Ok (durofut_to_json (denote e)) : result string string) = Ok s ->
    stands_for s (denote e)) by (intros e' s' [= <-]; apply stands_for_json).
  revert s. induction e; intros s; cbn [render texts_plain]; intros H Hp.
  - injection H as <-. by apply ensure_plain.
  - by apply (Hj (Sql q)).
  - arguments H. unfold then_fn in H. ensured H. by apply (Hj (Seq e1 e2)).
  - apply result_bind_ok in H as (x & Hx & H). unfold as_named in H.
    apply result_bind_ok in H as (? & _ & H). destruct (IHe x Hx Hp) as [E _]. rewrite E in H.
    by apply (Hj (As e name)).
  - unfold sleep in H. destruct (seconds <? 0)%Z; [done|]. by apply (Hj (Sleep seconds)).
  - unfold wait_for_schedule in H. apply result_bind_ok in H as (? & _ & H).
    by apply (Hj (Schedule cron_expr)).
  - arguments H. unfold loop_with_policy, build_loop in H. ensured H.
    by apply (Hj (LoopForever e continue_on_failure)).
  - arguments H. unfold loop_with_policy, build_loop in H. ensured H.
    by apply (Hj (LoopWhile e1 e2 continue_on_failure)).
  - by apply (Hj (Break v)).
  - arguments H. unfold if_fn in H. ensured H. by apply (Hj (If e1 e2 e3)).
  - arguments H. unfold if_rows_fn in H. ensured H. by apply (Hj (IfRows name e1 e2)).
  - arguments H. unfold Dsl.join in H. ensured H. by apply (Hj (Join e1 e2)).
  - arguments H. unfold join3 in H. ensured H. by apply (Hj (Join3 e1 e2 e3)).
  - arguments H. unfold race in H. ensured H. by apply (Hj (Race e1 e2)).
  - unfold http_node in H. case_bool_decide; [done|]. apply result_bind_ok in H as (? & _ & H).
    case_bool_decide; [|done]. cbn [negb] in H. destruct (timeout_seconds <=? 0)%Z; [done|].
    by apply (Hj (Http security url method body headers timeout_seconds endpoint)).
  - unfold http_multipart_node in H. case_bool_decide; [done|]. apply result_bind_ok in H as (? & _ & H).
    case_bool_decide; [|done]. cbn [negb] in H. destruct (timeout_seconds <=? 0)%Z; [done|].
    destruct parts as [v|]; [|done]. destruct (as_array v) as [[|p ps]|]; [done| |done].
    by apply (Hj (Multipart security url method (Some v) headers timeout_seconds endpoint)).
  - unfold wait_for_signal in H. destruct (str_is_empty name); [done|].
    destruct (match timeout_seconds with Some t => _ | None => _ end); [done|].
    by apply (Hj (Signal name timeout_seconds)).
Qed.

(** ** The denoted tree *)

(** A rendering succeeds only with identifiers as result names. *)
Lemma render_names e s : render e = Ok s -> names_ok e.
Proof.
  revert s. induction e; intros s H; cbn [render names_ok] in *; try done;
    repeat match goal with H : result_bind _ _ = Ok _ |- _ => apply result_bind_ok in H as (? & ? & H) end;
    split_and?; eauto.
  unfold as_named in H. apply result_bind_ok in H as ([] & Hv%map_err_ok & _).
  by apply validate_result_name_ok.
Qed.

(** What the functions of [Dsl] put into a node. *)
Record shape (d : Durofut) : Prop := {
  shape_name : result_name_ok (d_result_name d) = true;
  shape_structure :
  structure_ok (d_node_type d) (d_left_node d) (d_right_node d)
  (match d_condition_node d with Some _ => Some "" | None => d_query d end) = true;
}.

Definition dsl_node (d : Durofut) : Prop :=
  shape d /\ valid_node_type (d_node_type d) = true /\
  (is_Some (d_condition_node d) -> has_condition d = true).

Lemma shape_row d i cids l r c ex q :
  dsl_node d -> slots d cids l r c ex -> materialized_query d c ex = Ok q ->
  row_ok (mkMaterialized i (d_node_type d) q (d_result_name d) l r) = true.
Proof.
  intros ([Hn Hs] & Ht & Hc) [_ Hl Hr Hcond Hex] Hq. unfold row_ok.
  cbn [m_node_type m_left_node m_right_node m_query m_result_name]. rewrite Ht, Hn, andb_true_r. simpl.
  assert (Hpres : forall o o' : option string, (is_Some o <-> is_Some o') ->
    bool_decide (is_Some o) = bool_decide (is_Some o')) by (intros o o' H; by apply bool_decide_ext).
  assert (Hjoin : d_node_type d = "JOIN" \/ bool_decide (is_Some q) =
    bool_decide (is_Some (match d_condition_node d with Some _ => Some "" | None => d_query d end))).
  { destruct (String.eqb_spec (d_node_type d) "JOIN") as [|Hj]; [by left|right].
    apply nil_length_inv in Hex as ->. unfold materialized_query in Hq.
    destruct c as [c|].
    - destruct (proj1 Hcond ltac:(done)) as [_ [x Hx]]. rewrite Hx. cbn in Hq.
      apply result_bind_ok in Hq as (config & _ & Hq). destruct (is_object config); [|done].
      cbn in Hq. destruct (index_set config _ _); [|done]. by injection Hq as <-.
    - cbn in Hq. injection Hq as <-. destruct (d_condition_node d) eqn:E; [|done].
      destruct (proj2 Hcond) as [? Hx]; [split; [apply Hc|]; by eexists|done]. }
  unfold structure_ok in *. cbv zeta in *. rewrite (Hpres _ _ Hl), (Hpres _ _ Hr).
  destruct Hjoin as [Hj | Hj]; [rewrite Hj in Hs |- *|rewrite Hj]; exact Hs.
Qed.

Lemma leaf_tree t q :
  valid_node_type t = true -> has_condition (leaf_durofut t q) = false -> t <> "JOIN" ->
  structure_ok t None None (Some q) = true ->
  tree dsl_node 1 (leaf_durofut t q) [t].
Proof.
  intros Ht Hc Hj Hs. unfold has_condition in Hc. cbn [leaf_durofut d_node_type] in Hc.
  apply (tree_node _ 0 (leaf_durofut t q) [] []); [|done| | | |constructor].
  - split_and!; [by constructor|done|by intros []].
  - unfold validate_config_children, reject_embedded_config_children. cbn. rewrite Hc. cbn.
    apply String.eqb_neq in Hj as ->. by destruct (value_from_str q).
  - intros c ex Hcc Hex. unfold materialized_query.
    destruct c as [c|]; [specialize (Hcc ltac:(done)); unfold has_condition in Hcc; cbn in Hcc; congruence|].
    destruct ex as [|x ex]; [by eexists|]. by destruct (Hj (Hex ltac:(done))).
  - unfold config_children, has_condition. cbn. rewrite Hc. apply String.eqb_neq in Hj as ->. constructor.
Qed.

(** The query is absent or the text of a config object without children. *)
Definition plain_query (o : option string) : Prop :=
  match o with
  | None => True
  | Some q => exists l, value_from_str q = Ok (Object l) /\
      obj_get "condition_node" l = None /\ obj_get "extra_nodes" l = None
  end.

Lemma plain_query_materializes d : plain_query (d_query d) -> query_materializes d.
Proof.
  intros Hq c ex _ _. unfold materialized_query.
  destruct (_ && _); [by eexists|]. unfold plain_query in Hq.
  assert (H : exists l, match d_query d with
    | Some q => map_err (fun e => "query in " +:+ d_node_type d +:+ " must be valid JSON config: " +:+ e)
    (value_from_str q)
    | None => Ok (Object []) end = Ok (Object l)).
  { destruct (d_query d) as [q|]; [|by eexists]. destruct Hq as (l & -> & _). by exists l. }
  destruct H as [l ->]. cbn [result_bind is_object negb]. unfold add_config_children.
  destruct c as [c|], ex as [|x ex]; cbn; by eexists.
Qed.

Lemma plain_query_validates d :
  plain_query (d_query d) -> (is_Some (d_condition_node d) -> has_condition d = true) ->
  (d_extra_nodes d <> [] -> d_node_type d = "JOIN") -> validate_config_children d = Ok tt.
Proof.
  intros Hq Hc Hx. unfold validate_config_children. fold (has_condition d).
  assert (E1 : bool_decide (is_Some (d_condition_node d)) && negb (has_condition d) = false).
  { case_bool_decide as H; [|done]. by rewrite Hc. }
  assert (E2 : negb (bool_decide (d_extra_nodes d = [])) && negb (String.eqb (d_node_type d) "JOIN") = false).
  { destruct (decide (d_extra_nodes d = [])) as [H|H]; [by rewrite H|]. by rewrite Hx, andb_false_r. }
  rewrite E1, E2. unfold reject_embedded_config_children. destruct (d_query d) as [q|]; [|done].
  destruct Hq as (l & -> & H1 & H2). unfold get. cbn [as_object mbind option_bind]. rewrite H1, H2.
  by rewrite !bool_decide_eq_false_2, !andb_false_r by (by intros []).
Qed.

Lemma child_reparses e : child_from_raw (into_raw (denote e)) = Ok (denote e).
Proof. unfold child_from_raw, into_raw. by rewrite durofut_reparses by apply denote_raw. Qed.

Lemma compound_tree d es h :
  dsl_node d -> plain_query (d_query d) -> (d_extra_nodes d <> [] -> d_node_type d = "JOIN") ->
  map snd (config_children d) = map (fun e => into_raw (denote e)) es ->
  Forall (fun e => tree dsl_node h (denote e) (types e)) es ->
  tree dsl_node (S h) d (d_node_type d :: concat (map types es)).
Proof.
  intros Hd Hq Hx Hc Hes. destruct Hd as (Hs & Ht & Hcond).
  apply (tree_node dsl_node h d (map denote es)); [done|done| | | |].
  - by apply plain_query_validates.
  - by apply plain_query_materializes.
  - revert Hc. generalize (config_children d). clear -SJL. intros cs. revert es.
    induction cs as [|[k raw] cs IH]; intros [|e es]; simpl; try done; intros H.
    injection H as -> H. constructor; [apply child_reparses|by apply IH].
  - rewrite Forall2_fmap_l, Forall2_fmap_r. by apply Forall_Forall2_diag.
Qed.

Lemma loop_query_plain f : plain_query (loop_query f).
Proof.
  destruct f; [|done]. exists [("continue_on_failure", Bool true)]. split; [|done].
  by apply (value_from_to_string (en_loop_config (mkLoopConfig true None))).
Qed.

Lemma if_rows_query_plain n :
  plain_query (Some (value_to_string (Object [("condition_type", JString "result_has_rows");
      ("result_name", JString n)]))).
Proof. eexists. split; [|split]; [by apply value_from_to_string|done|done]. Qed.

(** A node of [Dsl] over the steps [es]. *)
Lemma step_tree t l r c ex q es h :
  let d := mkDurofut t l r c ex q None in
  structure_ok t l r (match c with Some _ => Some "" | None => q end) = true ->
  valid_node_type t = true -> (is_Some c -> has_condition d = true) ->
  plain_query q -> (ex <> [] -> t = "JOIN") ->
  map snd (config_children d) = map (fun e => into_raw (denote e)) es ->
  Forall (fun e => tree dsl_node (levels e) (denote e) (types e)) es ->
  Forall (fun e => levels e <= h) es ->
  tree dsl_node (S h) d (t :: concat (map types es)).
Proof.
  intros d Hs Ht Hc Hq Hx Hcs Htrees Hlev. apply (compound_tree d); try done.
  apply Forall_forall. intros e He. rewrite Forall_forall in Htrees, Hlev.
  eapply tree_mono; [by apply Htrees|by apply Hlev].
Qed.

Lemma as_tree h d name tys :
  is_identifier name = true -> tree dsl_node h d tys -> tree dsl_node h (with_result_name d name) tys.
Proof.
  intros Hn H. inversion H as [h' ? cs tyss HP Ht Hv Hq Hcs Htrees]; subst.
  apply (tree_node dsl_node h' (with_result_name d name) cs tyss); try done.
  destruct HP as ([_ Hs] & ? & ?). by split_and!.
Qed.

(** Leaves, and nodes over [es]. *)
Ltac leaf := apply leaf_tree; done.
Ltac over es :=
  repeat match goal with H : _ /\ _ |- _ => destruct H end;
  match goal with
  | |- tree _ (S ?h) _ (_ :: ?tys) =>
      replace tys with (concat (map types es)) by (simpl; by rewrite ?app_nil_r);
      apply (step_tree _ _ _ _ _ _ es h);
      [done|done|done|try done|done|done
       |repeat (apply Forall_cons; split; [by auto|]); by apply Forall_nil
                |repeat (apply Forall_cons; split; [lia|]); by apply Forall_nil]
  end.

Lemma names_tree e : names_ok e -> tree dsl_node (levels e) (denote e) (types e).
Proof.
  induction e; cbn [names_ok levels denote types]; intros Hn.
  - leaf.
  - leaf.
  - over [e1; e2].
  - apply as_tree; [apply Hn|by apply IHe, Hn].
  - leaf.
  - leaf.
  - over [e]. apply loop_query_plain.
  - over [e1; e2]. apply loop_query_plain.
  - leaf.
  - over [e2; e3; e1].
  - over [e1; e2]. apply if_rows_query_plain.
  - over [e1; e2].
  - over [e1; e2; e3].
  - over [e1; e2].
  - leaf.
  - leaf.
  - leaf.
Qed.

(** ** Acceptance *)

(** C5: whatever is written with the functions of the language is accepted: the
    text of a workflow denotes the durable future one reads off the expression,
    and if it has at most 257 levels and [MAX_GRAPH_NODES] nodes it materializes
    into exactly the expression's nodes in pre-order, every one of which
    satisfies the structural CHECK constraints of [df.nodes]. *)
Theorem dsl_workflow_accepted ids e s :
  render e = Ok s -> texts_plain e -> (forall n, is_ok (ids n) = true) ->
  levels e <= S MAX_GRAPH_DEPTH -> (N.of_nat (length (types e)) <= MAX_GRAPH_NODES)%N ->
  ensure_strict marker statement s = Ok (denote e) /\
  exists root_id nodes,
  flatten_graph (denote e) ids = Some (Ok (root_id, nodes)) /\
  map m_node_type nodes = types e /\ Forall (fun m => row_ok m = true) nodes.
Proof.
  intros Hr Hp Hids Hl Hn. destruct (render_stands_for e s Hr Hp) as [_ Hs]. split; [done|].
  pose proof (tree_mono _ _ _ _ _ (names_tree e (render_names e s Hr)) Hl) as Ht.
  destruct (flatten_graph_complete _ ids Hids _ _ Ht Hn) as (root_id & nodes & Hf & Hty).
  exists root_id, nodes. split_and!; [done|done|].
  apply flatten_graph_materializes in Hf as [Hm _].
  eapply tree_materializes_forall; [|exact Ht|exact Hm]. intros. by eapply shape_row.
Qed.
End Spec.

(** ** A concrete workflow *)

#[local] Existing Instance text_json.
#[local] Existing Instance sample_cron.

(** [df.seq(df.as('SELECT 1', 'r'), df.loop('SELECT 2', 'SELECT false', true))] *)
Definition sample_step : step :=
  Seq (As (Text "SELECT 1") "r") (LoopWhile (Text "SELECT 2") (Text "SELECT false") true).
Definition sample_text : string :=
  match render None 0 sample_step with Ok s => s | Err _ => "" end.

Lemma dsl_workflow_accepted_witness :
  ensure_strict None 0 sample_text = Ok (denote sample_step) /\
  exists root_id nodes,
    flatten_graph (denote sample_step) sample_ids = Some (Ok (root_id, nodes)) /\
    map m_node_type nodes = ["THEN"; "SQL"; "LOOP"; "SQL"; "SQL"] /\
    Forall (fun m => row_ok m = true) nodes.
Proof.
  apply (dsl_workflow_accepted None 0 sample_ids sample_step sample_text).
  - vm_compute. reflexivity.
  - vm_compute. repeat split.
  - done.
  - apply (bool_decide_unpack _). vm_compute. done.
  - apply (bool_decide_unpack _). vm_compute. done.
Defined.
