(* ===== verification/Submission.v ===== *)
(** Starting a workflow: [df.start] ([src/dsl.rs], lines 74-131, 880-1015 and
    1040-1700; [short_id] of [src/types.rs]).

    A start validates the text, draws ids, reserves the instance, inserts its
    rows and enqueues the orchestration.  [Err] is [pgrx::error!]: the
    transaction aborts and the tables stay as they were.  What PostgreSQL, the
    durable engine and the generator of random ids answer is the record
    [start_env]. *)
From S2P Require Import Prelude RustString Json Substitution Flatten Graph HttpConfig Dsl.

(** ** The version of the installed schema *)

Fixpoint take_while (p : ascii -> bool) (s : string) : string :=
  match s with
  | String c s' => if p c then String c (take_while p s') else ""
  | "" => ""
  end.

Definition parse_semver (version : string) : option (N * N * N) :=
  match split_char "." version with
  | major :: minor :: patch_part :: _ =>
      major ← parse_u32 major;
      minor ← parse_u32 minor;
      patch ← parse_u32 (take_while is_ascii_digit patch_part);
      Some (major, minor, patch)
  | _ => None
  end.

(** The order of tuples. *)
Definition semver_ge (a b : N * N * N) : bool :=
  let '(a1, a2, a3) := a in let '(b1, b2, b3) := b in
  (b1 <? a1)%N || ((a1 =? b1)%N && ((b2 <? a2)%N || ((a2 =? b2)%N && (b3 <=? a3)%N))).

Definition owner_scoped_vars_enabled (installed_version : option string) : result bool string :=
  let? extversion := ok_or installed_version "pg_durable extension metadata not found" in
  let? ext_semver := ok_or (parse_semver extversion)
    ("Unsupported pg_durable extension version format: " +:+ extversion) in
  Ok (semver_ge ext_semver (0, 2, 0)%N).

Definition legacy_login_role_schema (installed_version : option string) : result bool string :=
  map_ok negb (owner_scoped_vars_enabled installed_version).

(** ** Ids *)

Definition MAX_ID_ATTEMPTS : nat := 10.
Definition NODE_INSERT_BATCH_SIZE : nat := 1000.

(** The last eight characters of a UUID's text. *)
Definition short_id (uuid : string) : string := str_rev (str_take 8 (str_rev uuid)).

(** [generate] and [try_claim] share a state. *)
Fixpoint pick_id_go {S : Type} (generate : S -> string * S)
    (try_claim : string -> S -> result bool string * S) (attempts : nat) (s : S)
  : option (result string string) * S :=
  match attempts with
  | O => (None, s)
  | Datatypes.S attempts' =>
      let '(candidate, s) := generate s in
      match try_claim candidate s with
      | (Err e, s) => (Some (Err e), s)
      | (Ok true, s) => (Some (Ok candidate), s)
      | (Ok false, s) => pick_id_go generate try_claim attempts' s
      end
  end.

Definition pick_id_with_retry {S : Type} (generate : S -> string * S)
    (try_claim : string -> S -> result bool string * S) (max_attempts : nat) (s : S)
  : result string string * S :=
  match pick_id_go generate try_claim max_attempts s with
  | (Some r, s) => (r, s)
  | (None, s) =>
      (Err ("exhausted " +:+ show_nat max_attempts +:+ " attempts to generate a collision-free ID"), s)
  end.

(** The source of node ids: the ids assigned so far and the draws made. *)
Record id_state := mkIdState { assigned_ids : gset string; draws : nat }.

Section Ids.
(** The text of the [n]-th random UUID. *)
Context (new_v4 : nat -> string).

Fixpoint draw_unique (attempts : nat) (s : id_state) : result string string * id_state :=
  match attempts with
  | O => (Err ("exhausted " +:+ show_nat MAX_ID_ATTEMPTS +:+
               " attempts to generate a graph-unique node ID"), s)
  | S attempts' =>
      let candidate := short_id (new_v4 (draws s)) in
      if bool_decide (candidate ∈ assigned_ids s)
      then draw_unique attempts' (mkIdState (assigned_ids s) (S (draws s)))
      else (Ok candidate, mkIdState ({[candidate]} ∪ assigned_ids s) (S (draws s)))
  end.

(** The state after [n] calls, and the answer of call [n]. *)
Fixpoint id_state_after (n : nat) : id_state :=
  match n with
  | O => mkIdState ∅ 0
  | S n' => snd (draw_unique MAX_ID_ATTEMPTS (id_state_after n'))
  end.
Definition node_id_source : IdSource :=
  fun n => fst (draw_unique MAX_ID_ATTEMPTS (id_state_after n)).
End Ids.

(** ** The tables *)

Record instance_record := mkInstanceRec {
  ir_label : option string; ir_root_node : string; ir_submitted_by : N; ir_database : option string;
}.
Record node_record := mkNodeRec {
  nr_id : string; nr_instance_id : string; nr_node_type : string; nr_query : option string;
  nr_result_name : option string; nr_left_node : option string; nr_right_node : option string;
  nr_submitted_by : N; nr_database : option string;
}.
Record tables := mkTables {
  t_instances : gmap string instance_record;
  t_nodes : list node_record;
}.

(** ** Inserting the nodes *)

(** An argument of a statement. *)
Inductive datum := DText (s : string) | DOid (n : N) | DNull.
Definition opt_datum (o : option string) : datum :=
  match o with Some s => DText s | None => DNull end.

Definition parameters_per_row (legacy_login_role : bool) : nat := if legacy_login_role then 10 else 9.

Definition columns (legacy_login_role : bool) : string :=
  if legacy_login_role
  then "id, instance_id, node_type, query, result_name, left_node, right_node, submitted_by, login_role, database"
  else "id, instance_id, node_type, query, result_name, left_node, right_node, submitted_by, database".

Definition param (n : nat) : string := "$" +:+ show_nat n.
Definition regrole_param (n : nat) : string :=
  param n +:+ "::pg_catalog.oid::pg_catalog.regrole".

Definition row_sql (legacy_login_role : bool) (first : nat) : string :=
  "(" +:+ RustString.join ", "
    ([param first; param (first + 1); param (first + 2); param (first + 3); param (first + 4);
      param (first + 5); param (first + 6); regrole_param (first + 7)]
     ++ (if legacy_login_role then [regrole_param (first + 8); param (first + 9)]
         else [param (first + 8)])) +:+ ")".

Definition node_insert_sql (row_count : nat) (legacy_login_role : bool) : string :=
  fold_left (fun sql row_index =>
      sql +:+ (if (0 <? row_index)%nat then ", " else "") +:+
      row_sql legacy_login_role (row_index * parameters_per_row legacy_login_role + 1))
    (seq 0 row_count)
    ("INSERT INTO df.nodes (" +:+ columns legacy_login_role +:+ ") VALUES ").

Section Insert.
Context (instance_id : string) (current_user_oid : N) (database : option string)
    (legacy_login_role : bool).

Definition row_args (node : MaterializedNode) : list datum :=
  [DText (m_id node); DText instance_id; DText (m_node_type node); opt_datum (m_query node);
   opt_datum (m_result_name node); opt_datum (m_left_node node); opt_datum (m_right_node node);
   DOid current_user_oid]
    ++ (if legacy_login_role then [DOid current_user_oid] else [])
    ++ [opt_datum database].

Definition node_args (batch : list MaterializedNode) : list datum := concat (map row_args batch).
End Insert.

(** *** What PostgreSQL does with a statement and its arguments *)

(** The parameters a statement refers to, in order. *)
Fixpoint placeholders_go (skip : nat) (s : string) : list nat :=
  match s with
  | "" => []
  | String c s' =>
      match skip with
      | S k => placeholders_go k s'
      | O =>
          if Ascii.eqb c "$" then
            let digits := take_while is_ascii_digit s' in
            match read_N digits with
            | Some n => N.to_nat n :: placeholders_go (String.length digits) s'
            | None => placeholders_go 0 s'
            end
          else placeholders_go 0 s'
      end
  end.
Definition placeholders (sql : string) : list nat := placeholders_go 0 sql.

(** Consecutive groups of [n]. *)
Fixpoint chunks_go {A} (fuel n : nat) (l : list A) : list (list A) :=
  match l, fuel with
  | [], _ | _, O => []
  | _, S fuel' => take n l :: chunks_go fuel' n (drop n l)
  end.
Definition chunks {A} (n : nat) (l : list A) : list (list A) := chunks_go (length l) n l.

Definition text_of (d : datum) : option string := match d with DText s => Some s | _ => None end.
Definition oid_of (d : datum) : option N := match d with DOid n => Some n | _ => None end.

(** A row from the values of its columns; [login_role] is not kept. *)
Definition row_of_values (legacy_login_role : bool) (l : list datum) : option node_record :=
  match l with
  | i :: inst :: t :: q :: r :: ln :: rn :: by_ :: rest =>
      i ← text_of i; inst ← text_of inst; t ← text_of t; by_ ← oid_of by_;
      db ← match legacy_login_role, rest with
           | true, [_; db] | false, [db] => Some db
           | _, _ => None
           end;
      Some (mkNodeRec i inst t (text_of q) (text_of r) (text_of ln) (text_of rn) by_ (text_of db))
  | _ => None
  end.

(** The rows an INSERT of [legacy_login_role]'s columns adds: each parameter of
    the statement is bound to its argument. *)
Definition inserted_rows (legacy_login_role : bool) (sql : string) (args : list datum)
  : option (list node_record) :=
  values ← mapM (fun n => match n with S k => args !! k | O => None end) (placeholders sql);
  mapM (row_of_values legacy_login_role) (chunks (parameters_per_row legacy_login_role) values).

(** ** The environment of a start *)

Record start_env := mkStartEnv {
  helper_marker : option string;
  statement_start : Z;
  (** the lookup of the target database: NULL counts as absent *)
  database_exists : result (option bool) string;
  user_oid : N;
  user_name : string;
  role_can_login : result (option bool) string;
  role_is_superuser : result bool string;
  enable_superuser_instances : bool;
  max_concurrent_per_user : Z;
  max_instances_per_user : Z;
  quota_lock : bool;
  submission_counts : result (Z * Z) string;
  installed_version : option string;
  node_uuid : nat -> string;
  (** [HTTP_SINK_TABLE_NAME_SQL] *)
  sink_table_name : string -> result (option string) string;
  lock_metadata : result unit string;
  instance_uuid : nat -> string;
  (** per attempt: the ledger's answer, the error of the INSERT, the rollback *)
  reserve_submission_id : nat -> result bool string;
  instance_insert_error : nat -> option string;
  reservation_rollback : nat -> result unit string;
  (** per batch *)
  node_insert_error : nat -> option string;
  captured_vars : gmap string string;
  current_xact_id : result (option string) string;
  enqueue : string -> string -> result unit string;
}.

Record started := mkStarted {
  st_instance_id : string;
  st_tables : tables;
  st_orchestration : string;
  st_input : string;
}.

Section Start.
Context {SJ : SerdeJson} {HD : HttpDeps} (env : start_env).

(** ** Guards *)

Definition require_login_privilege (caller : string) : result unit string :=
  match role_can_login env with
  | Ok (Some true) => Ok tt
  | Ok (Some false) =>
      Err ("current_user " +:+ in_quotes (user_name env) +:+
           (" does not have LOGIN privilege. " +:+
            "The background worker must connect as this role to execute SQL. " +:+
            "Grant LOGIN to this role or call " +:+ caller +:+ " as a role with LOGIN."))
  | Ok None =>
      Err ("failed to check LOGIN privilege for current_user oid " +:+ show_N (user_oid env) +:+
           ": query returned NULL")
  | Err e =>
      Err ("failed to check LOGIN privilege for current_user oid " +:+ show_N (user_oid env) +:+
           ": " +:+ e)
  end.

Definition quota_error (count : Z) (kind : string) (limit : Z) : string :=
  "df.start rejected: user " +:+ in_quotes (user_name env) +:+ " has " +:+
  show_Z count +:+ " " +:+ kind +:+ " instances (limit " +:+ show_Z limit +:+ ")".

Definition enforce_instance_limits : result unit string :=
  let concurrent_limit := max_concurrent_per_user env in
  let instance_limit := max_instances_per_user env in
  if (concurrent_limit =? 0)%Z && (instance_limit =? 0)%Z then Ok tt
  else if negb (quota_lock env) then Err "failed to acquire df.start() admission lock"
  else
    let? (total, active) :=
      map_err (fun e => "df.start() quota check failed: " +:+ e) (submission_counts env) in
    if (0 <? instance_limit)%Z && (instance_limit <=? total)%Z then
      Err (quota_error total "retained" instance_limit)
    else if (0 <? concurrent_limit)%Z && (concurrent_limit <=? active)%Z then
      Err (quota_error active "active" concurrent_limit)
    else Ok tt.

Definition check_database (database : option string) : result unit string :=
  match database with
  | None => Ok tt
  | Some db =>
      let? found := map_err (fun e => "failed to check database existence: " +:+ e)
          (database_exists env) in
      if default false found then Ok tt
      else Err ("database " +:+ in_quotes db +:+ " does not exist")
  end.

Definition check_superuser : result unit string :=
  let? is_super := map_err (fun e => "pg_durable: superuser check failed: " +:+ e)
      (role_is_superuser env) in
  if is_super then
    if enable_superuser_instances env then Ok tt
    else Err ("pg_durable: superuser instances are disabled. current_user " +:+
              in_quotes (user_name env) +:+ (" is a superuser, but " +:+
                                             "pg_durable.enable_superuser_instances is off. " +:+
                                             "Set pg_durable.enable_superuser_instances = on to allow this."))
  else enforce_instance_limits.

(** ** HTTP nodes *)

Definition validate_http_node (node : MaterializedNode) : result unit string :=
  if bool_decide (m_node_type node ∈ ["HTTP"; "HTTP_MULTIPART"]) then
    match m_query node ≫= fun query => ok (value_from_str query) with
    | None => Ok tt
    | Some config =>
        let? _ := map_err (fun e => "Invalid HTTP request: " +:+ e) (validate_http_sink_name (sink_table_name env) config) in
        map_err (fun e => "Invalid HTTP request: " +:+ e) (check_http_request_size config true)
    end
  else Ok tt.

Definition validate_http_nodes (nodes : list MaterializedNode) : result unit string :=
  let? _ := collect_results validate_http_node nodes in Ok tt.

(** ** The instance row *)

(** The attempt counter and the tables. *)
Abbreviation claim_state := (nat * tables)%type.

Definition generate_instance_id (s : claim_state) : string * claim_state :=
  (short_id (instance_uuid env (fst s)), (S (fst s), snd s)).

(** One attempt, number [fst s - 1].  The INSERT does nothing on a conflict,
    which is arbitrated below row-level security. *)
Definition claim_instance_id (row : instance_record) (candidate : string) (s : claim_state)
    : result bool string * claim_state :=
  let '(next, t) := s in
  let attempt := Nat.pred next in
  match reserve_submission_id env attempt with
  | Err e => (Err e, s)
  | Ok false => (Ok false, s)
  | Ok true =>
      match instance_insert_error env attempt with
      | Some e => (Err e, s)
      | None =>
          if bool_decide (is_Some (t_instances t !! candidate)) then
            (map_ok (fun _ => false) (reservation_rollback env attempt), s)
          else (Ok true, (next, mkTables (<[candidate := row]> (t_instances t)) (t_nodes t)))
      end
  end.

(** ** The node rows *)

Definition insert_batch (legacy_login_role : bool) (instance_id : string) (database : option string)
    (k : nat) (batch : list MaterializedNode) : result (list node_record) string :=
  let failed e :=
    Err ("Failed to insert node batch '" +:+ default "" (m_id <$> head batch) +:+ ".." +:+
         default "" (m_id <$> last batch) +:+ "': " +:+ e) in
  match node_insert_error env k with
  | Some e => failed e
  | None =>
      match inserted_rows legacy_login_role (node_insert_sql (length batch) legacy_login_role)
            (node_args instance_id (user_oid env) database legacy_login_role batch) with
      | Some rows => Ok rows
      | None => failed "bind parameter mismatch"
      end
  end.

Fixpoint insert_batches (legacy_login_role : bool) (instance_id : string) (database : option string)
    (k : nat) (batches : list (list MaterializedNode)) : result (list node_record) string :=
  match batches with
  | [] => Ok []
  | batch :: batches' =>
      let? rows := insert_batch legacy_login_role instance_id database k batch in
      let? rest := insert_batches legacy_login_role instance_id database (S k) batches' in
      Ok (rows ++ rest)
  end.

Definition insert_nodes (legacy_login_role : bool) (instance_id : string) (database : option string)
    (nodes : list MaterializedNode) : result (list node_record) string :=
  insert_batches legacy_login_role instance_id database 0 (chunks NODE_INSERT_BATCH_SIZE nodes).

(** ** [df.start] *)

Definition ORCHESTRATION_NAME : string := "pg_durable::orchestration::execute-function-graph".

Definition start_in_caller_transaction (t : tables) (fut : string) (label database : option string)
    : result started string :=
  let? durofut := map_err (fun e => "Invalid durable function: " +:+ e)
      (ensure_strict (helper_marker env) (statement_start env) fut) in
  let? _ := check_database database in
  let? _ := require_login_privilege "df.start()" in
  let? _ := check_superuser in
  let? legacy_login_role := legacy_login_role_schema (installed_version env) in
  match flatten_graph durofut (node_id_source (node_uuid env)) with
  | None => Err "unreachable: the traversal ends within its node budget"
  | Some (Err e) => Err ("Invalid durable function graph: " +:+ graph_error_to_string e)
  | Some (Ok (root_id, nodes)) =>
      let? _ := validate_http_nodes nodes in
      let? _ := map_err (fun e => "Failed to lock instance metadata: " +:+ e) (lock_metadata env) in
      let row := mkInstanceRec label root_id (user_oid env) database in
      let '(claimed, (_, t)) :=
        pick_id_with_retry generate_instance_id (claim_instance_id row) MAX_ID_ATTEMPTS (O, t) in
      let? instance_id := map_err (fun e => "Failed to create instance: " +:+ e) claimed in
      let? rows := insert_nodes legacy_login_role instance_id database nodes in
      let t := mkTables (t_instances t) (t_nodes t ++ rows) in
      let? xid := map_err (fun e => "failed to capture df.start() transaction id: " +:+ e)
          (current_xact_id env) in
      let? origin_xid := ok_or xid "df.start() transaction id is unavailable" in
      let input := mkInput instance_id label (captured_vars env) 0 None (Some origin_xid) 0 0 in
      let input_json := to_json input in
      let? _ := map_err (fun e => "failed to start durable function: " +:+ e)
          (enqueue env ORCHESTRATION_NAME input_json) in
      Ok (mkStarted instance_id t ORCHESTRATION_NAME input_json)
  end.

Definition TXN_MODE_CALLER : string := "caller".
Definition TXN_MODE_NEW : string := "new".

(** [start_in_new_transaction] opens a session of its own and is a parameter. *)
Definition start_v2 (start_in_new_transaction : result started string) (t : tables)
    (fut : string) (label database : option string) (transaction_mode : string)
    : result started string :=
  if eq_ignore_ascii_case transaction_mode TXN_MODE_CALLER then
    start_in_caller_transaction t fut label database
  else if eq_ignore_ascii_case transaction_mode TXN_MODE_NEW then start_in_new_transaction
  else Err ("invalid transaction_mode " +:+ in_quotes transaction_mode +:+
            (" for df.start(): expected '" +:+ TXN_MODE_CALLER +:+ "' or '" +:+ TXN_MODE_NEW +:+ "'")).
End Start.
