(* ===== verification/SubmissionSpec.v ===== *)
(** What a start guarantees of the tables: the INSERT statements bind every
    value to its column, node ids are unique in their graph, an instance id is
    used only once it was claimed, and the deferred constraints hold. *)
From S2P Require Import Prelude RustString Json JsonText Substitution Flatten FlattenSpec.
From S2P Require Import Graph HttpConfig Dsl Submission.

(** ** Chunks *)

Section Chunks.
Context {A : Type}.
Implicit Types l : list A.

Lemma chunks_go_concat fuel n l : 0 < n -> length l <= fuel -> concat (chunks_go fuel n l) = l.
Proof.
  intros Hn. revert l. induction fuel as [|fuel IH]; intros [|a l] Hf; simpl in *; try done; try lia.
  rewrite IH; [apply take_drop|]. rewrite length_drop. simpl. lia.
Qed.
Lemma chunks_concat n l : 0 < n -> concat (chunks n l) = l.
Proof. intros Hn. by apply chunks_go_concat. Qed.

Lemma chunks_bounded n l : Forall (fun c => length c <= n) (chunks n l).
Proof.
  unfold chunks. generalize (length l). intros fuel. revert l.
  induction fuel as [|fuel IH]; intros [|a l]; simpl; try constructor; [|apply IH].
  rewrite length_take. lia.
Qed.

Lemma chunks_go_groups fuel n (ls : list (list A)) :
  0 < n -> Forall (fun c => length c = n) ls -> length (concat ls) <= fuel ->
  chunks_go fuel n (concat ls) = ls.
Proof.
  intros Hn Hls. revert fuel. induction Hls as [|c ls Hc _ IH]; intros fuel Hf.
  - by destruct fuel.
  - simpl in *. rewrite length_app in Hf. destruct c as [|a c]; [simpl in Hc; lia|].
    destruct fuel as [|fuel]; [simpl in Hf; lia|]. simpl. f_equal.
    + change (a :: c ++ concat ls) with ((a :: c) ++ concat ls). rewrite <- Hc. by rewrite take_app_length.
    + change (a :: c ++ concat ls) with ((a :: c) ++ concat ls). rewrite <- Hc, drop_app_length, Hc.
      apply IH. simpl in Hf. lia.
Qed.
Lemma chunks_groups n (ls : list (list A)) :
  0 < n -> Forall (fun c => length c = n) ls -> chunks n (concat ls) = ls.
Proof. intros Hn Hls. by apply chunks_go_groups. Qed.
End Chunks.

(** ** The parameters of the INSERT statement *)

Definition digit_head (s : string) : bool :=
  match s with String c _ => is_ascii_digit c | "" => false end.

Lemma take_while_app p a b :
  match b with String c _ => p c = false | "" => True end ->
  take_while p (a +:+ b) = take_while p a.
Proof.
  intros Hb. induction a as [|c a IH]; simpl.
  - destruct b as [|c b]; [done|]. simpl. by rewrite Hb.
  - by rewrite IH.
Qed.

Lemma take_while_length p s : String.length (take_while p s) <= String.length s.
Proof. induction s as [|c s IH]; simpl; [done|]. destruct (p c); simpl; lia. Qed.

Lemma take_while_all p s : str_forall p s = true -> take_while p s = s.
Proof. induction s as [|c s IH]; simpl; [done|]. intros [-> Hs]%andb_true_iff. by rewrite IH. Qed.

Lemma placeholders_go_app skip a b :
  digit_head b = false -> skip <= String.length a ->
  placeholders_go skip (a +:+ b) = placeholders_go skip a ++ placeholders b.
Proof.
  intros Hb. revert skip. induction a as [|c a IH]; intros skip Hs; simpl in *.
  - by replace skip with 0 by lia.
  - destruct skip as [|skip]; [|apply IH; lia].
    destruct (Ascii.eqb c "$"); [|apply IH; lia].
    rewrite take_while_app by (by destruct b). pose proof (take_while_length is_ascii_digit a).
    destruct (read_N _); [|apply IH; lia]. simpl. f_equal. apply IH. lia.
Qed.

Lemma placeholders_app a b :
  digit_head b = false -> placeholders (a +:+ b) = placeholders a ++ placeholders b.
Proof. intros Hb. apply placeholders_go_app; [done|lia]. Qed.

Lemma placeholders_go_skip_all s : placeholders_go (String.length s) s = [].
Proof. by induction s. Qed.

Lemma placeholders_param n : placeholders (param n) = [n].
Proof.
  unfold param, show_nat, placeholders. cbn [String.append placeholders_go Ascii.eqb Bool.eqb].
  rewrite take_while_all by apply show_N_digits. rewrite read_show_N, Nat2N.id.
  by rewrite placeholders_go_skip_all.
Qed.

Lemma placeholders_regrole n : placeholders (regrole_param n) = [n].
Proof. unfold regrole_param. by rewrite placeholders_app, placeholders_param by done. Qed.

Lemma digit_head_param n s : digit_head (param n +:+ s) = false.
Proof. done. Qed.
Lemma digit_head_regrole n s : digit_head (regrole_param n +:+ s) = false.
Proof. done. Qed.

(** The parameters of a list of texts, none of which starts with a digit. *)
Lemma placeholders_join l :
  Forall (fun s => digit_head s = false) l ->
  placeholders (RustString.join ", " l) = concat (map placeholders l).
Proof.
  unfold RustString.join. induction 1 as [|s l Hs Hl IH]; [done|]. destruct l as [|s' l].
  - simpl. by rewrite app_nil_r.
  - change (String.concat ", " (s :: s' :: l)) with (s +:+ ", " +:+ String.concat ", " (s' :: l)).
    rewrite placeholders_app by done. rewrite (placeholders_app ", "); [by rewrite IH|].
    inversion Hl as [|? ? Hs' _]; subst. by destruct s', l.
Qed.

Lemma placeholders_row legacy first :
  placeholders (row_sql legacy first) = seq first (parameters_per_row legacy).
Proof.
  unfold row_sql. rewrite (placeholders_app "("), placeholders_app by (done || by destruct legacy).
  rewrite placeholders_join by (destruct legacy; repeat constructor).
  destruct legacy; cbn [app map concat]; rewrite !placeholders_param, !placeholders_regrole;
    simpl; by rewrite !Nat.add_succ_r, !Nat.add_0_r.
Qed.

Lemma placeholders_insert n legacy :
  placeholders (node_insert_sql n legacy) = seq 1 (n * parameters_per_row legacy).
Proof.
  unfold node_insert_sql.
  induction n as [|n IH]; [by destruct legacy|].
  rewrite seq_S, fold_left_app. cbn [fold_left Nat.add].
  rewrite placeholders_app by (destruct (0 <? n)%nat; done).
  rewrite IH. rewrite placeholders_app by (by destruct legacy).
  assert (E : placeholders (if (0 <? n)%nat then ", " else "") = []) by (by destruct (0 <? n)%nat).
  rewrite E, placeholders_row. simpl.
  replace (parameters_per_row legacy + n * parameters_per_row legacy)
    with (n * parameters_per_row legacy + parameters_per_row legacy) by lia.
  rewrite seq_app. do 2 f_equal. lia.
Qed.

(** ** The rows an INSERT adds *)

Lemma mapM_args {A} (args : list A) :
  mapM (fun n => match n with S k => args !! k | O => None end) (seq 1 (length args)) = Some args.
Proof.
  apply mapM_Some. apply Forall2_same_length_lookup. rewrite length_seq. split; [done|].
  intros i n a Hn Ha. apply lookup_seq in Hn as [-> _]. done.
Qed.

Definition row_record (instance_id : string) (oid : N) (database : option string)
    (m : MaterializedNode) : node_record :=
  mkNodeRec (m_id m) instance_id (m_node_type m) (m_query m) (m_result_name m) (m_left_node m)
    (m_right_node m) oid database.

Lemma text_of_opt o : text_of (opt_datum o) = o.
Proof. by destruct o. Qed.

Section Rows.
Context (instance_id : string) (oid : N) (database : option string) (legacy : bool).

Lemma row_args_length m : length (row_args instance_id oid database legacy m) = parameters_per_row legacy.
Proof. by destruct legacy. Qed.

Lemma node_args_length batch :
  length (node_args instance_id oid database legacy batch) = length batch * parameters_per_row legacy.
Proof.
  unfold node_args. induction batch as [|m batch IH]; [done|].
  cbn [map]. rewrite concat_cons, length_app, row_args_length, IH. simpl. lia.
Qed.

Lemma row_of_row_args m :
  row_of_values legacy (row_args instance_id oid database legacy m) =
    Some (row_record instance_id oid database m).
Proof. destruct legacy; cbn; by rewrite !text_of_opt. Qed.

Lemma inserted_rows_exact batch :
  inserted_rows legacy (node_insert_sql (length batch) legacy)
    (node_args instance_id oid database legacy batch) =
    Some (map (row_record instance_id oid database) batch).
Proof.
  unfold inserted_rows. rewrite placeholders_insert, <- node_args_length, mapM_args.
  cbn [mbind option_bind]. unfold node_args. rewrite chunks_groups.
  - induction batch as [|m batch IH]; [done|]. cbn [map mapM]. rewrite row_of_row_args.
    cbn [mbind option_bind]. by rewrite IH.
  - destruct legacy; simpl; lia.
  - apply Forall_forall. intros c (m & -> & _)%list_elem_of_fmap. apply row_args_length.
Qed.
End Rows.

(** ** Node ids *)

Section NodeIds.
Context (uuid : nat -> string).
#[local] Abbreviation state_after := (id_state_after uuid).
#[local] Abbreviation source := (node_id_source uuid).

Lemma draw_unique_spec attempts s r s' :
  draw_unique uuid attempts s = (r, s') ->
  assigned_ids s ⊆ assigned_ids s' /\
  (forall c, r = Ok c -> (c ∉ assigned_ids s) /\ c ∈ assigned_ids s').
Proof.
  revert s. induction attempts as [|attempts IH]; intros s; simpl.
  - intros [= <- <-]. by split.
  - case_bool_decide as Hc; [by intros H%IH|]. intros [= <- <-]. simpl. split; [set_solver|].
    intros c [= <-]. set_solver.
Qed.

Lemma assigned_mono n m : n <= m -> assigned_ids (state_after n) ⊆ assigned_ids (state_after m).
Proof.
  induction 1 as [|m _ IH]; [done|]. etransitivity; [exact IH|]. cbn [id_state_after].
  destruct (draw_unique uuid _ (state_after m)) as [r s'] eqn:E. by apply draw_unique_spec in E as [E _].
Qed.

Lemma source_fresh n c :
  source n = Ok c -> (c ∉ assigned_ids (state_after n)) /\ c ∈ assigned_ids (state_after (S n)).
Proof.
  unfold node_id_source. cbn [id_state_after].
  destruct (draw_unique uuid _ (state_after n)) as [r s'] eqn:E.
  apply draw_unique_spec in E as [_ E]. simpl. eauto.
Qed.

Lemma source_distinct n m c : n < m -> source n = Ok c -> source m = Ok c -> False.
Proof.
  intros Hlt [_ Hn]%source_fresh [Hm _]%source_fresh. by apply (assigned_mono (S n) m) in Hn.
Qed.

Lemma source_ids_unique (ids : list string) :
  map Ok ids ≡ₚ map source (seq 0 (length ids)) -> NoDup ids.
Proof.
  intros H. apply (NoDup_fmap_1 (Ok (E := string))). change (NoDup (map (Ok (E := string)) ids)).
  assert (Hok : forall r, r ∈ map source (seq 0 (length ids)) -> exists c, r = Ok c).
  { intros r Hr. rewrite <- H in Hr. apply list_elem_of_fmap in Hr as (c & -> & _). eauto. }
  rewrite H. apply NoDup_alt. intros i j r Hi Hj.
  destruct (Hok r) as [c ->]; [by eapply list_elem_of_lookup_2|].
  apply list_lookup_fmap_Some in Hi as (n & Hn & Hi), Hj as (m & Hm & Hj).
  apply lookup_seq in Hi as [-> _], Hj as [-> _]. simpl in *.
  destruct (lt_eq_lt_dec i j) as [[Hlt|]|Hlt]; [|done|]; by destruct (source_distinct _ _ c Hlt).
Qed.

Lemma flatten_ids_unique {SJ : SerdeJson} root root_id nodes :
  flatten_graph root source = Some (Ok (root_id, nodes)) -> NoDup (map m_id nodes).
Proof.
  intros [_ H]%flatten_graph_ids. apply source_ids_unique. by rewrite length_map.
Qed.
End NodeIds.

(** ** Retrying a claim *)

(** A claimed candidate: the last attempt claimed it, in a state that the failed
    attempts, which preserve [P], led to. *)
Lemma pick_id_go_ok {S : Type} (P : S -> Prop) generate try_claim attempts (s : S) c s' :
  P s ->
  (forall s c s1 s2, P s -> generate s = (c, s1) -> try_claim c s1 = (Ok false, s2) -> P s2) ->
  pick_id_go generate try_claim attempts s = (Some (Ok c), s') ->
  exists s0 s1, P s0 /\ generate s0 = (c, s1) /\ try_claim c s1 = (Ok true, s').
Proof.
  intros Hs Hstep. revert s Hs. induction attempts as [|attempts IH]; intros s Hs; simpl; [done|].
  destruct (generate s) as [c0 s1] eqn:Eg. destruct (try_claim c0 s1) as [[[|]|e] s2] eqn:Et.
  - intros [= -> ->]. eauto.
  - apply IH. by eapply Hstep.
  - done.
Qed.

Lemma pick_id_ok {S : Type} (P : S -> Prop) generate try_claim attempts (s : S) c s' :
  P s ->
  (forall s c s1 s2, P s -> generate s = (c, s1) -> try_claim c s1 = (Ok false, s2) -> P s2) ->
  pick_id_with_retry generate try_claim attempts s = (Ok c, s') ->
  exists s0 s1, P s0 /\ generate s0 = (c, s1) /\ try_claim c s1 = (Ok true, s').
Proof.
  intros Hs Hstep. unfold pick_id_with_retry.
  destruct (pick_id_go _ _ _ _) as [[r|] s2] eqn:E; [|done]. intros [= -> ->].
  by eapply pick_id_go_ok.
Qed.

Lemma claim_ok env row t c n' t' :
  pick_id_with_retry (generate_instance_id env) (claim_instance_id env row) MAX_ID_ATTEMPTS (O, t)
    = (Ok c, (n', t')) ->
  exists attempt, c = short_id (instance_uuid env attempt) /\
    reserve_submission_id env attempt = Ok true /\ t_instances t !! c = None /\
    t' = mkTables (<[c := row]> (t_instances t)) (t_nodes t).
Proof.
  intros H. apply (pick_id_ok (fun s => snd s = t)) in H as (s0 & s1 & Hs & Hg & Hc).
  - destruct s0 as [n t0]. simpl in Hs. subst t0. unfold generate_instance_id in Hg. injection Hg as <- <-.
    cbn [fst snd] in *. unfold claim_instance_id in Hc. cbn [Nat.pred] in Hc.
    exists n. destruct (reserve_submission_id env n) as [[|]|]; [|done|done].
    destruct (instance_insert_error env n); [done|]. case_bool_decide as Hi.
    + destruct (reservation_rollback env n); done.
    + injection Hc as _ <-. split_and!; [done|done| |done]. by apply eq_None_not_Some.
  - done.
  - intros [n t0] c0 s1 s2. simpl. intros -> Hg Hc. unfold generate_instance_id in Hg.
    injection Hg as <- <-. cbn [fst snd] in Hc. unfold claim_instance_id in Hc.
    destruct (reserve_submission_id env _) as [[|]|]; [|by injection Hc as <-|done].
    destruct (instance_insert_error env _); [done|]. case_bool_decide; [|done].
    destruct (reservation_rollback env _); [|done]. by injection Hc as <-.
Qed.

(** ** A start that succeeds *)

(** The constraints of [df.nodes] and [df.instances] that hold at commit
    ([src/lib.rs], lines 569-598): the primary key, the identity of a node's
    instance, the references between nodes and to the root. *)
Record tables_ok (t : tables) : Prop := {
  pkey : NoDup (map (fun r => (nr_instance_id r, nr_id r)) (t_nodes t));
  instance_identity : forall r, r ∈ t_nodes t ->
    exists i, t_instances t !! nr_instance_id r = Some i /\ ir_submitted_by i = nr_submitted_by r;
  same_instance : forall r c, r ∈ t_nodes t -> nr_left_node r = Some c \/ nr_right_node r = Some c ->
    exists r', r' ∈ t_nodes t /\ nr_instance_id r' = nr_instance_id r /\ nr_id r' = c;
  root_node : forall k i, t_instances t !! k = Some i ->
    exists r, r ∈ t_nodes t /\ nr_instance_id r = k /\ nr_id r = ir_root_node i;
}.

Section Started.
Context {SJ : SerdeJson} {HD : HttpDeps} (env : start_env).

Lemma insert_batches_ok legacy instance_id database k batches rows :
  insert_batches env legacy instance_id database k batches = Ok rows ->
  rows = map (row_record instance_id (user_oid env) database) (concat batches).
Proof.
  revert k rows. induction batches as [|batch batches IH]; intros k rows; simpl.
  - by intros [= <-].
  - unfold insert_batch. destruct (node_insert_error env k); [done|]. rewrite inserted_rows_exact.
    cbn [result_bind]. intros (rest & ->%IH & H)%result_bind_ok. injection H as <-. by rewrite map_app.
Qed.

Lemma insert_nodes_ok legacy instance_id database nodes rows :
  insert_nodes env legacy instance_id database nodes = Ok rows ->
  rows = map (row_record instance_id (user_oid env) database) nodes.
Proof.
  intros ->%insert_batches_ok. rewrite chunks_concat; [done|]. unfold NODE_INSERT_BATCH_SIZE. lia.
Qed.

(** Everything a successful start went through. *)
Record started_by (t : tables) (fut : string) (label database : option string) (st : started)
    (d : Durofut) (root_id : string) (nodes : list MaterializedNode) : Prop := {
      sb_text : ensure_strict (helper_marker env) (statement_start env) fut = Ok d;
      sb_database : check_database env database = Ok tt;
      sb_login : require_login_privilege env "df.start()" = Ok tt;
      sb_superuser : check_superuser env = Ok tt;
      sb_graph : flatten_graph d (node_id_source (node_uuid env)) = Some (Ok (root_id, nodes));
      sb_http : validate_http_nodes env nodes = Ok tt;
      sb_fresh : t_instances t !! st_instance_id st = None;
      sb_claimed : exists attempt, st_instance_id st = short_id (instance_uuid env attempt) /\
      reserve_submission_id env attempt = Ok true;
      sb_tables : st_tables st =
      mkTables (<[st_instance_id st := mkInstanceRec label root_id (user_oid env) database]> (t_instances t))
      (t_nodes t ++ map (row_record (st_instance_id st) (user_oid env) database) nodes);
      sb_input : exists xid, current_xact_id env = Ok (Some xid) /\
      st_input st = to_json (mkInput (st_instance_id st) label (captured_vars env) 0 None (Some xid) 0 0);
      sb_enqueued : st_orchestration st = ORCHESTRATION_NAME /\
      is_ok (enqueue env ORCHESTRATION_NAME (st_input st)) = true;
    }.

Lemma start_ok t fut label database st :
  start_in_caller_transaction env t fut label database = Ok st ->
  exists d root_id nodes, started_by t fut label database st d root_id nodes.
Proof.
  unfold start_in_caller_transaction. intros (d & Hd%map_err_ok & H)%result_bind_ok.
  apply result_bind_ok in H as ([] & Hdb & H). apply result_bind_ok in H as ([] & Hl & H).
  apply result_bind_ok in H as ([] & Hs & H). apply result_bind_ok in H as (legacy & _ & H).
  destruct (flatten_graph d _) as [[[root_id nodes]|e]|] eqn:Hf; [|done|done].
  apply result_bind_ok in H as ([] & Hh & H). apply result_bind_ok in H as ([] & _ & H).
  destruct (pick_id_with_retry _ _ _ _) as [claimed [n t']] eqn:Hp.
  apply result_bind_ok in H as (i & Hi%map_err_ok & H). subst claimed.
  apply claim_ok in Hp as (attempt & Hi & Hres & Hfresh & ->).
  apply result_bind_ok in H as (rows & Hrows%insert_nodes_ok & H).
  apply result_bind_ok in H as (xid' & Hx%map_err_ok & H).
  apply result_bind_ok in H as (xid & ->%ok_or_ok & H).
  apply result_bind_ok in H as ([] & He%map_err_ok & H). injection H as <-.
  exists d, root_id, nodes. constructor; cbn [st_instance_id st_tables st_input st_orchestration t_instances t_nodes];
    eauto; subst; by rewrite ?He.
Qed.

(** C29: no start gets past its guards.  When a workflow is started, its role may
    log in, the target database exists, a superuser starts only while the setting
    allows it, and any other role is below both of its quotas. *)
Theorem start_guarded t fut label database st :
  start_in_caller_transaction env t fut label database = Ok st ->
  role_can_login env = Ok (Some true) /\
  (database <> None -> database_exists env = Ok (Some true)) /\
  (role_is_superuser env = Ok true /\ enable_superuser_instances env = true \/
   role_is_superuser env = Ok false /\
   (max_instances_per_user env <> 0 \/ max_concurrent_per_user env <> 0 ->
    exists total active, submission_counts env = Ok (total, active) /\
    (0 < max_instances_per_user env -> total < max_instances_per_user env) /\
    (0 < max_concurrent_per_user env -> active < max_concurrent_per_user env)))%Z.
Proof.
  intros (d & root_id & nodes & [_ Hdb Hl Hs _ _ _ _ _ _ _])%start_ok. split_and!.
  - unfold require_login_privilege in Hl. by destruct (role_can_login env) as [[[|]|]|].
  - intros Hne. unfold check_database in Hdb. destruct database as [db|]; [|done].
    apply result_bind_ok in Hdb as (found & Hf%map_err_ok & Hdb). by destruct found as [[|]|].
  - unfold check_superuser in Hs. apply result_bind_ok in Hs as (super & Hr%map_err_ok & Hs).
    destruct super; [left; by destruct (enable_superuser_instances env)|right].
    split; [done|]. intros Hne. unfold enforce_instance_limits in Hs.
    destruct (_ && _) eqn:E; [lia|]. destruct (quota_lock env); [|done]. cbn [negb] in Hs.
    apply result_bind_ok in Hs as ([total active] & Hc%map_err_ok & Hs).
    exists total, active. split; [done|]. destruct ((_ <? _)%Z && _) eqn:E1; [done|].
    destruct ((_ <? max_concurrent_per_user env)%Z && _) eqn:E2; [done|]. lia.
Qed.

(** The constraints of the tables survive a start.  If primary key and
    foreign keys hold before it, they hold of the tables it leaves: the deferred
    references between nodes, to their instance and to the root are met by the
    rows the start itself inserted. *)
Theorem start_preserves_integrity t fut label database st :
  tables_ok t -> start_in_caller_transaction env t fut label database = Ok st ->
  tables_ok (st_tables st).
Proof.
  intros Ht (d & root_id & nodes & Hsb)%start_ok. destruct Ht as [Hp Hi Hr Hroot].
  pose proof (sb_graph _ _ _ _ _ _ _ _ Hsb) as Hg.
  pose proof (flatten_ids_unique _ _ _ _ Hg) as Hids.
  pose proof (flatten_graph_refs _ node_refs _ _ _ node_refs_children Hg) as Hrefs.
  apply flatten_graph_materializes in Hg as [_ Hhead].
  set (k := st_instance_id st) in *. set (rec := row_record k (user_oid env) database).
  pose proof (sb_fresh _ _ _ _ _ _ _ _ Hsb) as Hfresh. fold k in Hfresh.
  assert (Hold : forall r, r ∈ t_nodes t -> nr_instance_id r <> k).
  { intros r (i & Hk & _)%Hi Hkr. rewrite Hkr, Hfresh in Hk. done. }
  assert (Hnew : forall r, r ∈ map rec nodes -> exists m, m ∈ nodes /\ r = rec m).
  { intros r (m & -> & Hm)%list_elem_of_fmap. eauto. }
  rewrite (sb_tables _ _ _ _ _ _ _ _ Hsb). fold k. fold rec. constructor; cbn [t_nodes t_instances].
  - rewrite map_app. apply NoDup_app. split_and!; [done| |].
    + intros x (r & -> & Hrt)%list_elem_of_fmap (r' & E & (m & _ & ->)%Hnew)%list_elem_of_fmap.
      injection E as E _. by apply (Hold r).
    + rewrite map_map. apply (NoDup_fmap_1 snd). change (NoDup (map snd (map (fun m => (k, m_id m)) nodes))).
      by rewrite map_map.
  - intros r [Hrt|(m & _ & ->)%Hnew]%elem_of_app.
    + destruct (Hi r Hrt) as (i & Hk & E). exists i. split; [|done].
      rewrite lookup_insert_ne; [done|]. intros E'. by apply (Hold r).
    + eexists. cbn [rec row_record nr_instance_id]. by rewrite lookup_insert_eq.
  - intros r c [Hrt|(m & Hm & ->)%Hnew]%elem_of_app Hc.
    + destruct (Hr r c Hrt Hc) as (r' & Hr' & E & E'). exists r'. split_and!; [set_solver|done|done].
    + apply list_elem_of_lookup in Hm as [i Hm].
      assert (Hin : c ∈ node_refs m).
      { unfold node_refs. cbn in Hc. destruct Hc as [-> | ->]; set_solver. }
      destruct (Hrefs i m c Hm Hin) as (j & m' & _ & Hm' & E). exists (rec m'). split_and!; [|done|done].
      apply elem_of_app. right. apply list_elem_of_fmap. exists m'. split; [done|].
      by eapply list_elem_of_lookup_2.
  - intros k' i. rewrite lookup_insert_Some. intros [[<- <-]|[Hk Hk']].
    + destruct nodes as [|m nodes]; [done|]. injection Hhead as Hhead. exists (rec m).
      split_and!; [set_solver|done|done].
    + destruct (Hroot k' i Hk') as (r & Hrt & E & E'). exists r. split_and!; [set_solver|done|done].
Qed.
End Started.

(** Every batch of rows is inserted as it was computed.  The statement for a
    batch refers to the parameters 1, 2, ... once each, as many as there are
    arguments and no more than PostgreSQL allows, and binding them puts every
    value into its column, in both schemas. *)
Theorem insert_binds_columns instance_id oid database legacy batch :
  length batch <= NODE_INSERT_BATCH_SIZE ->
  let sql := node_insert_sql (length batch) legacy in
  let args := node_args instance_id oid database legacy batch in
  placeholders sql = seq 1 (length args) /\ (N.of_nat (length args) <= 65535)%N /\
  inserted_rows legacy sql args = Some (map (row_record instance_id oid database) batch).
Proof.
  intros Hb sql args. unfold sql, args. rewrite node_args_length, placeholders_insert.
  split_and!; [done| |apply inserted_rows_exact].
  assert (length batch * parameters_per_row legacy <= 1000 * 10); [|lia].
  apply Nat.mul_le_mono; [done|]. destruct legacy; simpl; lia.
Qed.

(** ** A concrete start *)

#[local] Existing Instance text_json.
#[local] Existing Instance sample_http.

Definition sample_uuid (n : nat) : string := "5e0b8a3c-1d2f-4a6b-9c8d-7e6f" +:+ hex8 (N.of_nat n).

Definition sample_start_env : start_env := {|
  helper_marker := None; statement_start := 0; database_exists := Ok (Some true);
  user_oid := 16384; user_name := "alice"; role_can_login := Ok (Some true);
  role_is_superuser := Ok false; enable_superuser_instances := false;
  max_concurrent_per_user := 10; max_instances_per_user := 100; quota_lock := true;
  submission_counts := Ok (7, 2)%Z; installed_version := Some "0.2.4";
  node_uuid := sample_uuid; sink_table_name := fun _ => Ok None; lock_metadata := Ok tt;
  instance_uuid := fun n => sample_uuid (n + 4096);
  reserve_submission_id := fun n => Ok (0 <? n)%nat; instance_insert_error := fun _ => None;
  reservation_rollback := fun _ => Ok tt; node_insert_error := fun _ => None;
  captured_vars := <["env" := "prod"]> ∅; current_xact_id := Ok (Some "7001");
  enqueue := fun _ _ => Ok tt |}.

Definition empty_tables : tables := mkTables ∅ [].

Lemma empty_tables_ok : tables_ok empty_tables.
Proof. constructor; cbn; [constructor|set_solver..|done]. Qed.

(** [df.loop('SELECT 1', 'SELECT false')] *)
Definition sample_loop : Durofut :=
  mkDurofut "LOOP" (Some (into_raw (sql_durofut "SELECT 1"))) None
    (Some (into_raw (sql_durofut "SELECT false"))) [] None None.
Definition sample_fut : string := durofut_to_json sample_loop.

Definition sample_start : result started string :=
  start_in_caller_transaction sample_start_env empty_tables sample_fut (Some "nightly") None.
Definition sample_started : started :=
  match sample_start with Ok st => st | Err _ => mkStarted "" empty_tables "" "" end.

(** The first candidate is taken in the ledger, the second is claimed. *)
Example sample_start_ids :
  st_instance_id sample_started = "00001001" /\
  map nr_id (t_nodes (st_tables sample_started)) = ["00000000"; "00000001"; "00000002"].
Proof. vm_compute. done. Qed.

Lemma sample_start_ok : sample_start = Ok sample_started.
Proof. vm_compute. reflexivity. Qed.

Lemma start_guarded_witness :
  role_can_login sample_start_env = Ok (Some true) /\
  ((None : option string) <> None -> database_exists sample_start_env = Ok (Some true)) /\
  (role_is_superuser sample_start_env = Ok true /\ enable_superuser_instances sample_start_env = true \/
   role_is_superuser sample_start_env = Ok false /\
   (max_instances_per_user sample_start_env <> 0 \/ max_concurrent_per_user sample_start_env <> 0 ->
    exists total active, submission_counts sample_start_env = Ok (total, active) /\
      (0 < max_instances_per_user sample_start_env -> total < max_instances_per_user sample_start_env) /\
      (0 < max_concurrent_per_user sample_start_env -> active < max_concurrent_per_user sample_start_env)))%Z.
Proof. exact (start_guarded sample_start_env empty_tables sample_fut _ None _ sample_start_ok). Defined.

Lemma start_preserves_integrity_witness : tables_ok (st_tables sample_started).
Proof.
  exact (start_preserves_integrity sample_start_env empty_tables sample_fut _ _ _ empty_tables_ok
    sample_start_ok).
Defined.

Lemma insert_binds_columns_witness :
  let batch := [mkMaterialized "00000001" "SQL" (Some "SELECT 1") None None None] in
  placeholders (node_insert_sql 1 false) = [1; 2; 3; 4; 5; 6; 7; 8; 9] /\
  inserted_rows false (node_insert_sql 1 false) (node_args "deadbeef" 10 None false batch) =
    Some [mkNodeRec "00000001" "deadbeef" "SQL" (Some "SELECT 1") None None None 10 None].
Proof.
  intros batch. destruct (insert_binds_columns "deadbeef" 10 None false batch) as (H1 & _ & H2).
  - cbn. unfold NODE_INSERT_BATCH_SIZE. lia.
  - split; [exact H1|exact H2].
Defined.
