(* ===== verification/ConfigChildren.v ===== *)
(** What the config of a materialized node says of its children: the ids that
    [flatten_graph] wrote into it ([src/types.rs], [materialized_query]) are the
    ones a reader of the config finds. *)
From S2P Require Import Prelude RustString Json JsonText Flatten FlattenSpec Graph.

Section Config.
Context {SJ : SerdeJson} {SJL : SerdeJsonLaws SJ} {SJR : ReprintLaws SJ}.

(** A member written into the config of a node is found in its text. *)
Lemma config_member_present d k x text :
  wf_value x = true ->
  (exists config, match d_query d with
    | Some q => map_err (fun e => "query in " +:+ d_node_type d +:+
                         " must be valid JSON config: " +:+ e) (value_from_str q)
    | None => Ok (Object [])
    end = Ok config /\ exists l, config = Object l /\ text = value_to_string (Object (obj_insert k x l))) ->
  exists v, value_from_str text = Ok v /\ get k v = Some x.
Proof.
  intros Hx (config & Hconfig & l & -> & ->). destruct (d_query d) as [q|].
  - apply map_err_ok in Hconfig. by eapply member_reprints.
  - injection Hconfig as <-. eexists. split; [apply value_from_to_string; by apply (wf_obj_insert k x [])|].
    unfold get. cbn. by rewrite String.eqb_refl.
Qed.

Lemma config_condition_present d c q :
  materialized_query d (Some c) [] = Ok q ->
  exists text v, q = Some text /\ value_from_str text = Ok v /\ get "condition_node" v = Some (JString c).
Proof.
  unfold materialized_query. cbn. intros Hq. apply result_bind_ok in Hq as (config & Hconfig & Hq).
  destruct config as [| | | | |l]; try done. cbn in Hq. injection Hq as <-.
  destruct (config_member_present d "condition_node" (JString c)
    (value_to_string (Object (obj_insert "condition_node" (JString c) l)))) as (v & Hv & Hg); [done|by exists (Object l); eauto|].
  eexists _, v. by split_and!.
Qed.

Lemma wf_strings ex : wf_value (Array (map JString ex)) = true.
Proof. simpl. apply forallb_forall. by intros x (s & <- & _)%in_map_iff. Qed.

Lemma config_extras_present d ex q :
  materialized_query d None ex = Ok q -> ex <> [] ->
  exists text v, q = Some text /\ value_from_str text = Ok v /\
  get "extra_nodes" v = Some (Array (map JString ex)).
Proof.
  unfold materialized_query. intros Hq Hex. rewrite (bool_decide_eq_false_2 (ex = [])) in Hq by done.
  cbn in Hq. apply result_bind_ok in Hq as (config & Hconfig & Hq).
  destruct config as [| | | | |l]; try done. destruct ex as [|e ex]; [done|]. cbn in Hq. injection Hq as <-.
  destruct (config_member_present d "extra_nodes" (Array (map JString (e :: ex)))
    (value_to_string (Object (obj_insert "extra_nodes" (Array (map JString (e :: ex))) l)))) as (v & Hv & Hg);
    [apply wf_strings|by exists (Object l); eauto|].
  eexists _, v. by split_and!.
Qed.

(** No config names a child that [flatten_graph] did not write. *)
Lemma config_without_children d q text v k :
  validate_config_children d = Ok tt -> d_query d = q -> q = Some text -> value_from_str text = Ok v ->
  (k = "condition_node" /\ has_condition d = true) \/ (k = "extra_nodes" /\ d_node_type d = "JOIN") ->
  get k v = None.
Proof.
  intros Hv Hq -> Ht Hk. unfold validate_config_children in Hv.
  destruct (_ && negb _); [done|]. destruct (_ && _); [done|].
  unfold reject_embedded_config_children in Hv. rewrite Hq, Ht in Hv. apply eq_None_not_Some. intros Hs.
  destruct Hk as [[-> Hc]|[-> Hc]].
  - unfold has_condition in Hc. rewrite Hc, bool_decide_eq_true_2 in Hv by done. done.
  - rewrite Hc in Hv. cbn in Hv. by rewrite bool_decide_eq_true_2 in Hv by done.
Qed.

(** The config of an IF or LOOP node names its condition's id, and no other. *)
Lemma materialized_condition d c q text v :
  has_condition d = true -> validate_config_children d = Ok tt ->
  materialized_query d c [] = Ok q -> q = Some text -> value_from_str text = Ok v ->
  get "condition_node" v = JString <$> c.
Proof.
  intros Hc Hv Hq -> Ht. destruct c as [c|].
  - apply config_condition_present in Hq as (text' & v' & [= <-] & Hv' & Hg). by rewrite Ht in Hv'; simplify_eq.
  - injection Hq as Hq. by eapply config_without_children; eauto.
Qed.

(** The config of a JOIN names its further branches, and no other. *)
Lemma materialized_extras d ex q text v :
  d_node_type d = "JOIN" -> validate_config_children d = Ok tt ->
  materialized_query d None ex = Ok q -> q = Some text -> value_from_str text = Ok v ->
  get "extra_nodes" v = match ex with [] => None | _ => Some (Array (map JString ex)) end.
Proof.
  intros Hj Hv Hq -> Ht. destruct ex as [|e ex].
  - injection Hq as Hq. by eapply config_without_children; eauto.
  - apply config_extras_present in Hq as (text' & v' & [= <-] & Hv' & Hg); [|done].
    by rewrite Ht in Hv'; simplify_eq.
Qed.

(** The types are upper case, so the handlers' comparison in lower case finds
    exactly IF and LOOP. *)
Lemma valid_type_condition t :
  valid_node_type t = true -> to_lowercase t = "if" \/ to_lowercase t = "loop" ->
  String.eqb t "IF" || String.eqb t "LOOP" = true.
Proof.
  intros (x & Hx & ->%String.eqb_eq)%existsb_exists. simpl in Hx.
  repeat (destruct Hx as [<-|Hx]; [intros [H|H]; by vm_compute in H|]). done.
Qed.

Lemma valid_type_join t : valid_node_type t = true -> to_lowercase t = "join" -> t = "JOIN".
Proof.
  intros (x & Hx & ->%String.eqb_eq)%existsb_exists. simpl in Hx.
  repeat (destruct Hx as [<-|Hx]; [intros H; by vm_compute in H|]). done.
Qed.

Lemma loop_config_condition text config v :
  from_json (A := LoopConfig) text = Ok config -> value_from_str text = Ok v ->
  JString <$> loop_condition_node config = (match get "condition_node" v with
      | Some Null | None => None | o => o end).
Proof.
  unfold from_json, from_str_as. intros H Hv. rewrite Hv in H. apply ok_or_ok in H.
  change (de_loop_config v = Some config) in H. unfold de_loop_config in H.
  destruct v as [| | | | |l]; try done. cbn [as_object mbind option_bind] in H.
  destruct (dflt _ _ _ _) as [f|]; [|done]. cbn in H. unfold get. cbn [as_object mbind option_bind].
  unfold opt in H. destruct (obj_get "condition_node" l) as [[| | |s| |]|]; cbn in H; try done;
    injection H as <-; done.
Qed.

(** ** The children of a materialized node *)

(** The ids a config names, read back from its text. *)
Definition config_child_ids (node_type : string) (query : option string) : list string :=
  match query ≫= fun text => ok (value_from_str text) with
  | Some config =>
      (if String.eqb node_type "IF" || String.eqb node_type "LOOP"
        then option_list (get "condition_node" config ≫= as_str) else [])
        ++ (if String.eqb node_type "JOIN"
          then omap as_str (default [] (get "extra_nodes" config ≫= as_array)) else [])
  | None => []
  end.
Definition child_ids (m : MaterializedNode) : list string :=
  node_refs m ++ config_child_ids (m_node_type m) (m_query m).

Lemma omap_strings ex : omap as_str (map JString ex) = ex.
Proof. induction ex as [|e ex IH]; [done|]. cbn. by f_equal. Qed.

(** Reading a node back finds exactly the children it was written for, in the
    order they were discovered. *)
Lemma child_ids_exact d i cids l r c ex q :
  slots d cids l r c ex -> validate_config_children d = Ok tt -> materialized_query d c ex = Ok q ->
  child_ids (mkMaterialized i (d_node_type d) q (d_result_name d) l r) = cids.
Proof.
  intros [-> _ _ Hc Hex] Hv Hq. unfold child_ids, node_refs. cbn [m_left_node m_right_node m_node_type m_query].
  rewrite <- app_assoc. do 2 f_equal. unfold config_child_ids.
  destruct (has_condition d) eqn:Hcond.
  - assert (Hj : String.eqb (d_node_type d) "JOIN" = false).
    { unfold has_condition in Hcond. destruct (String.eqb_spec (d_node_type d) "JOIN") as [E|]; [|done].
      by rewrite E in Hcond. }
    rewrite Hj in Hex |- *. apply nil_length_inv in Hex as ->. fold (has_condition d).
    rewrite Hcond, app_nil_r. destruct c as [c|].
    + destruct (config_condition_present d c q Hq) as (text & v & -> & Ht & Hg). cbn. rewrite Ht. cbn.
      by rewrite Hg.
    + destruct (q ≫= _) as [v|] eqn:Eq; [|done]. apply bind_Some in Eq as (text & -> & Ht).
      destruct (value_from_str text) as [v'|] eqn:E; [|done]. injection Ht as ->.
      by rewrite (materialized_condition d None _ text v Hcond Hv Hq eq_refl E).
  - destruct c as [c|]; [by destruct (proj1 Hc) as [? _]|]. cbn [option_list app].
    fold (has_condition d). rewrite Hcond. cbn [app].
    destruct (String.eqb_spec (d_node_type d) "JOIN") as [Hj|].
    + destruct ex as [|e ex].
      * destruct (q ≫= _) as [v|] eqn:Eq; [|done]. apply bind_Some in Eq as (text & -> & Ht).
        destruct (value_from_str text) as [v'|] eqn:E; [|done]. injection Ht as ->.
        by rewrite (materialized_extras d [] _ text v Hj Hv Hq eq_refl E).
      * destruct (config_extras_present d (e :: ex) q Hq) as (text & v & -> & Ht & Hg); [done|].
        cbn [mbind option_bind]. rewrite Ht. cbn [ok mbind option_bind]. rewrite Hg.
        cbn [mbind option_bind as_array default]. apply (omap_strings (e :: ex)).
    + apply nil_length_inv in Hex as ->. by case_match.
Qed.

Lemma child_ids_children d i cids l r c ex q k :
  slots d cids l r c ex -> valid_node_type (d_node_type d) = true ->
  validate_config_children d = Ok tt -> materialized_query d c ex = Ok q ->
  k ∈ child_ids (mkMaterialized i (d_node_type d) q (d_result_name d) l r) -> k ∈ cids.
Proof. intros Hs _ Hv Hq. by rewrite (child_ids_exact _ _ _ _ _ _ _ _ Hs Hv Hq). Qed.

(** ** A materialized graph is a tree *)

(** The first node of a subtree is its root, and every other node is a child
    of exactly one of its nodes. *)
Definition tree_of (i : string) (ns : list MaterializedNode) : Prop :=
  (m_id <$> head ns) = Some i /\ map m_id (tail ns) ≡ₚ concat (map child_ids ns).

Lemma trees_of (cs : list (Durofut * string)) subtrees :
  Forall2 (fun c ns => tree_of (snd c) ns) cs subtrees ->
  map m_id (concat subtrees) ≡ₚ map snd cs ++ concat (map child_ids (concat subtrees)).
Proof.
  induction 1 as [|[d i] ns cs subtrees [Hh Ht] _ IH]; [done|]. cbn [concat map snd].
  destruct ns as [|n ns]; [done|]. injection Hh as <-. cbn [tail] in Ht.
  rewrite !map_app, IH, concat_app, <- Ht. simpl. f_equiv. solve_Permutation.
Qed.

Lemma materializes_tree d depth i ns : materializes d depth i ns -> tree_of i ns.
Proof.
  revert d depth i ns. fix materializes_tree 5. intros d0 depth0 i0 ns0 H.
  destruct H as [d depth i cs subtrees q l r c ex _ _ Hv _ Hs Hq Hsub]. split; [done|].
  cbn [tail map concat]. rewrite (child_ids_exact _ _ _ _ _ _ _ _ Hs Hv Hq). apply trees_of.
  clear -Hsub materializes_tree. induction Hsub as [|c' ns' cs subtrees Hc _ IH]; constructor; [by eapply materializes_tree|exact IH].
Qed.

(** C39: a graph has at most [MAX_GRAPH_NODES] nodes, its node ids are the ids
    drawn from the source, each exactly once (so they are unique when the
    source repeats none), every reference of a node, left, right, the
    [condition_node] in the config of an IF or a LOOP and the [extra_nodes] in
    the config of a JOIN, resolves to a later node, and every node but the root,
    which comes first, is referenced exactly once. *)
Theorem flatten_graph_well_formed ids root root_id nodes :
  flatten_graph root ids = Some (Ok (root_id, nodes)) ->
  (N.of_nat (length nodes) <= MAX_GRAPH_NODES)%N /\
  map Ok (map m_id nodes) ≡ₚ map ids (seq 0 (length nodes)) /\
  (forall i n c, nodes !! i = Some n -> c ∈ child_ids n ->
   exists j m, (i < j)%nat /\ nodes !! j = Some m /\ m_id m = c) /\
  (m_id <$> head nodes) = Some root_id /\
  map m_id (tail nodes) ≡ₚ concat (map child_ids nodes).
Proof.
  intros H. destruct (flatten_graph_ids _ _ _ _ H) as [Hb Hi]. split; [done|]. split; [done|].
  split; [exact (flatten_graph_refs ids child_ids root root_id nodes child_ids_children H)|].
  by apply flatten_graph_materializes in H as [H%materializes_tree _].
Qed.
End Config.

(** ** A concrete instance *)

#[local] Existing Instance text_json.

Lemma flatten_graph_well_formed_witness :
  concat (map child_ids sample_nodes) =
    ["00000002"; "00000003"; "00000004"; "00000005"; "00000006"] /\
  (N.of_nat (length sample_nodes) <= MAX_GRAPH_NODES)%N /\
  map Ok (map m_id sample_nodes) ≡ₚ map sample_ids (seq 0 (length sample_nodes)) /\
  (forall i n c, sample_nodes !! i = Some n -> c ∈ child_ids n ->
     exists j m, (i < j)%nat /\ sample_nodes !! j = Some m /\ m_id m = c) /\
  (m_id <$> head sample_nodes) = Some "00000001" /\
  map m_id (tail sample_nodes) ≡ₚ concat (map child_ids sample_nodes).
Proof.
  split; [vm_compute; reflexivity|].
  exact (flatten_graph_well_formed sample_ids sample_root "00000001" sample_nodes sample_flatten).
Defined.
