(* ===== verification/StartedGraph.v ===== *)
(** From the text of a workflow to its execution: the graph a start stores is
    the graph its orchestration loads, and running it ends.

    This composes [Flatten] (materialization), [Submission] (the rows),
    [Admission] (loading them) and [Orchestration] (the recursion over nodes). *)
From S2P Require Import Prelude RustString Json JsonText Substitution Durable Flatten FlattenSpec.
From S2P Require Import ConfigChildren.
From S2P Require Import Graph Lineage HttpConfig Admission Orchestration OrchestrationFacts.
From S2P Require Import SubstitutionSpec Dsl Submission SubmissionSpec.

(** ** The conditions of IF and LOOP nodes *)

Section Conditions.
Context {SJ : SerdeJson} {SJL : SerdeJsonLaws SJ} {SJR : ReprintLaws SJ}.

(** A materialized node as the orchestration sees it. *)
Definition node_of (role : string) (database : option string) (m : MaterializedNode) : FunctionNode :=
  mkNode (m_id m) (m_node_type m) (m_query m) (m_result_name m) (m_left_node m) (m_right_node m)
    role database.

(** Every child link a handler follows is one the materialization wrote. *)
Lemma child_links_written role database m k :
  valid_node_type (m_node_type m) = true ->
  k ∈ child_links (node_of role database m) -> k ∈ child_ids m.
Proof.
  intros Ht Hk. unfold child_links, inline_children, OrchestrationFacts.config_children,
    if_children, loop_children, join_children, parse_loop_config, extra_branches in Hk.
  cbn [node_of left_node right_node node_type query] in Hk.
  unfold child_ids, node_refs, config_child_ids.
  rewrite !elem_of_app in Hk. rewrite !elem_of_app. destruct Hk as [[Hk|[Hk|[Hk|Hk]]]|Hk]; [by auto..| | |].
  - destruct (String.eqb_spec (to_lowercase (m_node_type m)) "if") as [E|]; [|set_solver].
    rewrite (valid_type_condition _ Ht) by auto. right. destruct (m_query m ≫= _) as [v|]; [|set_solver].
    cbn [mbind option_bind] in Hk |- *. apply elem_of_app. left. unfold index in Hk.
    by destruct (get "condition_node" v).
  - destruct (String.eqb_spec (to_lowercase (m_node_type m)) "loop") as [E|]; [|set_solver].
    rewrite (valid_type_condition _ Ht) by auto. right. destruct (m_query m) as [text|]; [|cbn in Hk; set_solver].
    destruct (from_json text) as [config|] eqn:Hp; [|cbn in Hk; set_solver].
    destruct (value_from_str text) as [v|] eqn:Hv; [|by unfold from_json, from_str_as in Hp; rewrite Hv in Hp].
    cbn [map_err ok mbind option_bind] in Hk |- *. rewrite Hv. cbn [ok]. apply elem_of_app. left.
    pose proof (loop_config_condition text config v Hp Hv) as Hc.
    destruct (loop_condition_node config) as [c|]; [|cbn in Hk; set_solver].
    destruct (get "condition_node" v) as [[]|]; simplify_eq/=; done.
  - destruct (String.eqb_spec (to_lowercase (m_node_type m)) "join") as [E|]; [|set_solver].
    rewrite (valid_type_join _ Ht E), String.eqb_refl. right.
    destruct (m_query m ≫= _) as [v|]; [|set_solver]. apply elem_of_app. right.
    unfold index in Hk. by destruct (get "extra_nodes" v).
Qed.
End Conditions.

(** ** The graph of a stored workflow *)

Section Graph.
Context (nodes : list MaterializedNode) (Hids : NoDup (map m_id nodes)).

(** The position of the node with an id. *)
Definition position (i : string) : nat :=
  from_option fst 0 (list_find (fun m => m_id m = i) nodes).

Lemma position_lookup j m : nodes !! j = Some m -> position (m_id m) = j.
Proof.
  intros Hj. unfold position. destruct (list_find _ nodes) as [[k m']|] eqn:E; simpl.
  - apply list_find_Some in E as (Hk & He & _).
    apply (NoDup_lookup (map m_id nodes) k j (m_id m)); [done| |].
    + apply list_lookup_fmap_Some. by exists m'.
    + apply list_lookup_fmap_Some. by exists m.
  - apply list_find_None in E. rewrite Forall_forall in E.
    by destruct (E m (list_elem_of_lookup_2 _ _ _ Hj)).
Qed.
End Graph.

(** A row of the nodes table as the loading query returns it: the role's name is
    looked up. *)
Definition loaded_row (rolname : N -> option string) (r : node_record) : node_row :=
  mkNodeRow (nr_id r) (nr_node_type r) (nr_query r) (nr_result_name r) (nr_left_node r)
    (nr_right_node r) (rolname (nr_submitted_by r)) (nr_database r).

(** [le] answers from the tables [t]. *)
Definition reads_tables (rolname : N -> option string) (t : tables) (instance_id : string)
    (le : load_env) : Prop :=
  exists rows, fetch_node_rows le = Ok rows /\
    rows ≡ₚ map (loaded_row rolname) (filter (fun r => nr_instance_id r = instance_id) (t_nodes t)).

Section Started.
Context {SJ : SerdeJson} {SJL : SerdeJsonLaws SJ} {SJR : ReprintLaws SJ} {HD : HttpDeps}.

Lemma load_nodes_spec instance_id oid database rolname nodes ns :
  collect_results (load_node instance_id)
    (map (loaded_row rolname) (map (row_record instance_id oid database) nodes)) = Ok ns ->
  nodes = [] \/ exists role, rolname oid = Some role /\ ns = map (node_of role database) nodes.
Proof.
  destruct (rolname oid) as [role|] eqn:Hr.
  - intros H. right. exists role. split; [done|]. revert ns H.
    induction nodes as [|m nodes IH]; intros ns; simpl; [by intros [= <-]|].
    unfold load_node at 1. cbn [n_submitted_by loaded_row row_record nr_submitted_by].
    rewrite Hr. cbn [ok_or result_bind].
    intros (rest & ->%IH & H)%result_bind_ok. by injection H as <-.
  - destruct nodes as [|m nodes]; [by left|]. simpl. unfold load_node at 1.
    cbn [n_submitted_by loaded_row row_record nr_submitted_by]. by rewrite Hr.
Qed.

Lemma collect_results_perm {A B E} (f : A -> result B E) l l' bs :
  l ≡ₚ l' -> collect_results f l = Ok bs -> exists bs', bs ≡ₚ bs' /\ collect_results f l' = Ok bs'.
Proof.
  intros Hl H%collect_results_Forall2.
  destruct (Forall2_perm_l _ _ _ _ Hl H) as (bs' & H' & Hp). exists bs'.
  split; [done|]. by apply collect_results_Forall2.
Qed.

(** The loaded graph, by its nodes. *)
Lemma started_graph_nodes env rolname t fut label database st d root_id nodes le row graph :
  tables_ok t -> started_by env t fut label database st d root_id nodes ->
  reads_tables rolname (st_tables st) (st_instance_id st) le ->
  build_graph le (st_instance_id st) row = Ok graph ->
  exists role, forall i n, Graph.nodes graph !! i = Some n <->
    exists m, m ∈ nodes /\ m_id m = i /\ n = node_of role database m.
Proof.
  intros Ht Hsb (rows & Hrows & Hp) (_ & rows' & ns & _ & _ & Hrows' & Hns & ->)%build_graph_ok.
  rewrite Hrows in Hrows'. injection Hrows' as <-. pose proof (flatten_ids_unique _ _ _ _ (sb_graph _ _ _ _ _ _ _ _ _ Hsb)) as Hids.
  rewrite (sb_tables _ _ _ _ _ _ _ _ _ Hsb) in Hp. cbn [t_nodes] in Hp. rewrite filter_app in Hp.
  pose proof (sb_fresh _ _ _ _ _ _ _ _ _ Hsb) as Hfresh.
  set (k := st_instance_id st) in *.
  assert (Hold : filter (fun r => nr_instance_id r = k) (t_nodes t) = []).
  { apply filter_none. intros r Hr Hk. destruct (instance_identity _ Ht r Hr) as (i & Hi & _).
    by rewrite Hk, Hfresh in Hi. }
  assert (Hnew : filter (fun r => nr_instance_id r = k) (map (row_record k (user_oid env) database) nodes)
    = map (row_record k (user_oid env) database) nodes).
  { apply filter_all. by intros r (m & -> & _)%list_elem_of_fmap. }
  rewrite Hold, Hnew in Hp. destruct (collect_results_perm _ _ _ _ Hp Hns) as (ns' & Hperm & Hns').
  pose proof (flatten_graph_materializes _ _ _ _ (sb_graph _ _ _ _ _ _ _ _ _ Hsb)) as [_ Hhead].
  apply load_nodes_spec in Hns' as [->|(role & _ & ->)]; [done|]. exists role. cbn [Graph.nodes].
  assert (Hin : forall n, n ∈ ns <-> exists m, m ∈ nodes /\ n = node_of role database m).
  { intros n. rewrite Hperm, list_elem_of_fmap. naive_solver. }
  intros i n. split.
  - intros [Hn Hi]%nodes_of_lookup. apply Hin in Hn as (m & Hm & ->). by exists m.
  - intros (m & Hm & <- & ->). set (n := node_of role database m).
    assert (Hn : n ∈ ns) by (apply Hin; by exists m).
    destruct (nodes_of_present ns n Hn) as [n' Hn']. change (id n) with (m_id m) in Hn'.
    rewrite Hn'. apply nodes_of_lookup in Hn' as [Hn' Hid]. apply Hin in Hn' as (m' & Hm' & ->).
    apply list_elem_of_lookup in Hm as [a Ha], Hm' as [b Hb].
    assert (a = b) as ->; [|by assert (m' = m) as -> by congruence]. change (m_id m' = m_id m) in Hid.
    rewrite <- (position_lookup nodes Hids a m Ha), <- (position_lookup nodes Hids b m' Hb). congruence.
Qed.

(** ** End to end *)

Context {PE : PgEscape} {CC : CronCrate}.

Section Graph.
Context (env : start_env) (rolname : N -> option string) (t : tables) (fut : string)
    (label database : option string) (st : started) (le : load_env) (row : instance_row)
    (graph : FunctionGraph).
Context (Ht : tables_ok t) (Hst : start_in_caller_transaction env t fut label database = Ok st)
    (Hle : reads_tables rolname (st_tables st) (st_instance_id st) le)
    (Hg : build_graph le (st_instance_id st) row = Ok graph).

(** A child of a loaded node comes later in the stored order. *)
Lemma started_graph_forward :
  exists d root_id nodes role, started_by env t fut label database st d root_id nodes /\
  (forall i n, Graph.nodes graph !! i = Some n <->
   exists m, m ∈ nodes /\ m_id m = i /\ n = node_of role database m) /\
  forall a m c, nodes !! a = Some m -> c ∈ child_links (node_of role database m) ->
  exists b m', a < b /\ nodes !! b = Some m' /\ m_id m' = c.
Proof.
  destruct (start_ok _ _ _ _ _ _ Hst) as (d & root_id & nodes & Hsb).
  destruct (started_graph_nodes _ _ _ _ _ _ _ _ _ _ _ _ _ Ht Hsb Hle Hg) as (role & Hnodes).
  exists d, root_id, nodes, role. split_and!; [done|done|].
  pose proof (sb_graph _ _ _ _ _ _ _ _ _ Hsb) as Hf.
  refine (flatten_graph_refs _ (fun m => child_links (node_of role database m)) d root_id nodes _ Hf).
  intros d' i cids l r c ex q k Hs Htype Hv Hq Hk. rewrite <- (child_ids_exact d' i _ _ _ _ _ _ Hs Hv Hq).
  by apply (child_links_written role database).
Qed.

(** How many stored nodes come after a node. *)
Lemma started_graph_rank : exists rank : string -> nat,
  forall i j, linked graph i j -> is_Some (Graph.nodes graph !! j) /\ rank j < rank i.
Proof.
  destruct started_graph_forward as (d & root_id & nodes & role & Hsb & Hnodes & Hfwd).
  pose proof (flatten_ids_unique _ _ _ _ (sb_graph _ _ _ _ _ _ _ _ _ Hsb)) as Hids.
  exists (fun i => length nodes - position nodes i). intros i j (n & (m & Hm & <- & ->)%Hnodes & Hj).
  apply list_elem_of_lookup in Hm as [a Ha]. destruct (Hfwd a m j Ha Hj) as (b & m' & Hlt & Hb & <-).
  split.
  - eexists. apply Hnodes. exists m'. split_and!; [by eapply list_elem_of_lookup_2|done|done].
  - rewrite (position_lookup nodes Hids a m Ha), (position_lookup nodes Hids b m' Hb).
    apply lookup_lt_Some in Hb. lia.
Qed.
End Graph.

(** The subtree an operation starts or calls: its serialized input. *)
Definition subtree_started (o : dop) : option string :=
  match o with
  | CallSubOrchestration _ _ input | StartSubOrchestration _ _ input => Some input
  | _ => None
  end.
Definition starts_below (rank : string -> nat) (i : string) (o : dop) : Prop :=
  forall input, subtree_started o = Some input ->
  exists x : SubtreeInput, input = to_json x /\ rank (sub_node_id x) < rank i.

Lemma allowed_starts_below ctx graph rank i o :
  (forall i j, linked graph i j -> rank j < rank i) ->
  allowed ctx graph (tc (linked graph) i) o -> starts_below rank i o.
Proof.
  intros Hr H input Hi. destruct H; try discriminate Hi; injection Hi as <-;
    eexists; (split; [done|]); apply (rank_below graph rank Hr); by subst.
Qed.

(** The run of a subtree's root runs its handler here, so what it starts is
    below it. *)
Lemma root_starts_below ctx graph exec_ctx rank s tr o :
  (forall i j, linked graph i j -> rank j < rank i) ->
  runs (run_node ctx graph exec_ctx (subtree_root exec_ctx) s) tr o ->
  Forall (fun e => starts_below rank (subtree_root exec_ctx) (ev_op e)) tr.
Proof.
  intros Hr H. set (i := subtree_root exec_ctx) in *. unfold run_node, node_fuel in H. cbn in H.
  assert (Hw : within (fun e => starts_below rank i (ev_op e)) (fun _ => True) (fun _ => True)
    (execute_node_body ctx graph exec_ctx
    (execute_function_node_with_vars ctx graph exec_ctx (size (Graph.nodes graph))) i)).
  { assert (Hs : forall status res, within (fun e => starts_below rank i (ev_op e)) (fun _ => True)
      (fun _ => True) (stamp_node ctx graph i status res)).
    { intros status res s' tr' o' (r & tr1 & -> & [-> ->]). split; [|done].
      constructor; [by intros input|constructor]. }
    unfold execute_node_body. apply within_string_result_bind; [done|]. intros node Hn. simp_ok.
    unfold i at 2. rewrite String.eqb_refl, andb_false_r.
    apply within_bind; [apply Hs|intros _]. apply within_bind.
    - eapply within_attempt, within_mono; [by apply within_inner_below| |done..].
      intros e. by apply allowed_starts_below.
    - intros r. destruct (final_status r) as [status v].
      apply within_bind; [apply Hs|intros _]. by apply within_of_result. }
  by apply Hw in H as [H _].
Qed.

(** C4: a workflow that was started runs to an end.  Whatever text [df.start]
    accepts, the graph its orchestration later loads from the tables has its
    root and the target of every child link, whether followed inline or run as a
    subtree (the branches of a JOIN or a RACE, the further branches of a JOIN,
    the body of a loop, conditions), and a rank falls along every link, so no
    node reaches itself.  The recursion from any node, in any orchestration of
    the graph, is never cut off, however the engine answers, and the
    orchestration rooted at a node starts only subtrees of smaller rank, so
    apart from the generations of a loop the tree of orchestrations is finite
    too. *)
Theorem started_graph_runs env rolname t fut label database st le irow graph :
  tables_ok t ->
  start_in_caller_transaction env t fut label database = Ok st ->
  reads_tables rolname (st_tables st) (st_instance_id st) le ->
  t_instances (st_tables st) !! st_instance_id st = Some irow ->
  build_graph le (st_instance_id st) (mkInstance (ir_root_node irow) (rolname (ir_submitted_by irow)))
    = Ok graph ->
  is_Some (Graph.nodes graph !! root_node_id graph) /\
  exists rank : string -> nat,
  (forall i n j, Graph.nodes graph !! i = Some n -> j ∈ child_links n ->
   is_Some (Graph.nodes graph !! j) /\ rank j < rank i) /\
  (forall ctx exec_ctx i s tr o, runs (run_node ctx graph exec_ctx i s) tr o ->
   o <> Stopped OutOfFuel /\
   (i = subtree_root exec_ctx -> Forall (fun e => starts_below rank i (ev_op e)) tr)).
Proof.
  intros Ht Hst Hle Hrow Hg.
  destruct (started_graph_forward _ _ _ _ _ _ _ _ _ _ Ht Hst Hle Hg)
    as (d & root_id & nodes & role & Hsb & Hnodes & _).
  split.
  - rewrite (sb_tables _ _ _ _ _ _ _ _ _ Hsb) in Hrow. cbn [t_instances] in Hrow.
    rewrite lookup_insert_eq in Hrow. injection Hrow as <-.
    apply build_graph_ok in Hg as (_ & _ & ns & _ & _ & _ & _ & ->). cbn [root_node_id ir_root_node i_root_node] in *.
    pose proof (flatten_graph_materializes _ _ _ _ (sb_graph _ _ _ _ _ _ _ _ _ Hsb)) as [_ Hhead].
    destruct nodes as [|m nodes]; [done|]. injection Hhead as <-. eexists. apply Hnodes. exists m. by split_and!; [left| |].
  - destruct (started_graph_rank _ _ _ _ _ _ _ _ _ _ Ht Hst Hle Hg) as [rank Hr]. exists rank.
    assert (Hrank : forall i j, linked graph i j -> rank j < rank i) by (intros; by apply Hr).
    split; [intros i n j Hn Hj; apply Hr; by exists n|]. intros ctx exec_ctx i s tr o H. split.
    + assert (Ha : acyclic graph).
      { exists rank. intros j n k Hn Hk. apply Hrank. exists n. split; [done|by apply inline_link]. }
      apply (within_run_node ctx graph exec_ctx (fun st => st <> OutOfFuel)) with (scope := fun _ => True)
        in H as [_ H]; [|done..].
      intros ->. by apply H.
    + intros ->. by eapply root_starts_below.
Qed.
End Started.

(** ** A concrete workflow *)

#[local] Existing Instance text_json.
#[local] Existing Instance sample_http.
#[local] Existing Instance sample_escape.
#[local] Existing Instance sample_cron.

Definition sample_rolname (oid : N) : option string :=
  if (oid =? 16384)%N then Some "alice" else None.
Definition sample_load : load_env :=
  mkLoadEnv false (fun _ => Ok false)
    (Ok (map (loaded_row sample_rolname) (t_nodes (st_tables sample_started)))).
Definition sample_row : instance_record := mkInstanceRec (Some "nightly") "00000000" 16384 None.
Definition sample_loaded : FunctionGraph :=
  match build_graph sample_load "00001001" (mkInstance "00000000" (Some "alice")) with
  | Ok graph => graph
  | Err _ => mkGraph "" "" ∅ V1
  end.

Lemma started_graph_runs_witness :
  is_Some (Graph.nodes sample_loaded !! root_node_id sample_loaded) /\
  exists rank : string -> nat,
    (forall i n j, Graph.nodes sample_loaded !! i = Some n -> j ∈ child_links n ->
     is_Some (Graph.nodes sample_loaded !! j) /\ rank j < rank i) /\
    (forall ctx exec_ctx i s tr o, runs (run_node ctx sample_loaded exec_ctx i s) tr o ->
     o <> Stopped OutOfFuel /\
     (i = subtree_root exec_ctx -> Forall (fun e => starts_below rank i (ev_op e)) tr)).
Proof.
  apply (started_graph_runs sample_start_env sample_rolname empty_tables sample_fut (Some "nightly") None
    sample_started sample_load sample_row).
  - exact empty_tables_ok.
  - exact sample_start_ok.
  - eexists. split; [reflexivity|]. f_equiv. vm_compute. reflexivity.
  - vm_compute. reflexivity.
  - vm_compute. reflexivity.
Defined.
