(* ===== verification/Session.v ===== *)
(** What a session calls around a workflow ([src/dsl.rs], lines 24-33, 89-215 and
    1703-1879; [mark_non_future_helper_call] of [src/types.rs]): the variables a
    start captures, cancellation, and the queries on an instance.

    The tables are shared by all sessions; the marker of the last helper and the
    cached version belong to one.  [Err] is [pgrx::error!], which aborts the
    statement: the tables stay as they were.  Row-level security is part of
    every statement: it sees the rows of the calling role, or all of them where
    the role bypasses it. *)
From S2P Require Import Prelude RustString Json StatusWrite Submission.

(** ** One call *)

Record call_env := mkCall {
  c_user : N;
  c_bypass_rls : bool;
  (** [current_setting('df.in_workflow', true)]; a failed query counts as NULL *)
  c_in_workflow : option string;
  (** [GetCurrentStatementStartTimestamp()] *)
  c_statement : Z;
  (** the monotonic clock, in milliseconds *)
  c_now : N;
  (** [extversion] in the catalog *)
  c_extversion : option string;
  (** the error of the call's own statement, if it fails *)
  c_spi_error : option string;
}.

Record session := mkSession {
  (** [df.non_future_helper] *)
  s_marker : option string;
  (** [CACHE]: the version and when it was read *)
  s_version : option (string * N);
}.

Definition is_in_workflow_context (c : call_env) : bool :=
  match c_in_workflow c with Some s => String.eqb s "true" | None => false end.

Definition TTL_SECS : N := 5.

(** The cached version while it is fresh, or the catalog's. *)
Definition installed_extension_version (c : call_env) (s : session) : option string * session :=
  match s_version s with
  | Some (version, ts) =>
      if ((c_now c - ts) / 1000 <? TTL_SECS)%N then (Some version, s)
      else (c_extversion c,
            match c_extversion c with
            | Some v => mkSession (s_marker s) (Some (v, c_now c))
            | None => s
            end)
  | None =>
      (c_extversion c,
       match c_extversion c with
       | Some v => mkSession (s_marker s) (Some (v, c_now c))
       | None => s
       end)
  end.

Definition mark_non_future_helper_call (c : call_env) (function_name : string) (s : session)
  : session :=
  mkSession (Some (function_name +:+ String "010" (show_Z (c_statement c)))) (s_version s).

(** ** Variables *)

(** [df.vars] by its primary key: with owners, and as before version 0.2.0. *)
Inductive vars_table :=
| OwnerVars (rows : gmap (N * string) (option string))
| GlobalVars (rows : gmap string (option string)).

(** What PostgreSQL does with a statement written for the other schema, which a
    cached version allows for the seconds after an upgrade. *)
Record mismatch := mkMismatch {
  mm_update : vars_table -> result vars_table string;
  mm_select : vars_table -> option string;
  mm_capture : vars_table -> gmap string string;
}.

Section Variables.
Context (mm : mismatch).

(** [INSERT ... ON CONFLICT (owner, name) DO UPDATE SET value = EXCLUDED.value] *)
Definition upsert_var (owner_scoped : bool) (user : N) (name value : string) (t : vars_table)
    : result vars_table string :=
  match owner_scoped, t with
  | true, OwnerVars rows => Ok (OwnerVars (<[(user, name) := Some value]> rows))
  | false, GlobalVars rows => Ok (GlobalVars (<[name := Some value]> rows))
  | _, _ => mm_update mm t
  end.

Definition delete_var (owner_scoped : bool) (user : N) (name : string) (t : vars_table)
    : result vars_table string :=
  match owner_scoped, t with
  | true, OwnerVars rows => Ok (OwnerVars (delete (user, name) rows))
  | false, GlobalVars rows => Ok (GlobalVars (delete name rows))
  | _, _ => mm_update mm t
  end.

Definition delete_vars (owner_scoped : bool) (user : N) (t : vars_table)
    : result vars_table string :=
  match owner_scoped, t with
  | true, OwnerVars rows => Ok (OwnerVars (filter (fun kv => fst (fst kv) <> user) rows))
  | false, GlobalVars _ => Ok (GlobalVars ∅)
  | _, _ => mm_update mm t
  end.

Definition select_var (owner_scoped : bool) (user : N) (name : string) (t : vars_table)
    : option string :=
  match owner_scoped, t with
  | true, OwnerVars rows => mjoin (rows !! (user, name))
  | false, GlobalVars rows => mjoin (rows !! name)
  | _, _ => mm_select mm t
  end.

(** The shape of the three functions that change variables. *)
Definition change_vars (c : call_env) (function_name verb failure : string)
    (statement : bool -> vars_table -> result vars_table string)
    (t : vars_table) (s : session) : result string string * vars_table * session :=
  if is_in_workflow_context c then
    (Err (function_name +:+ "() cannot be called inside a workflow - " +:+ verb), t, s)
  else
    let '(version, s) := installed_extension_version c s in
    match owner_scoped_vars_enabled version with
    | Err e => (Err e, t, s)
    | Ok owner_scoped =>
        match (match c_spi_error c with Some e => Err e | None => statement owner_scoped t end) with
        | Err e => (Err (failure +:+ e), t, s)
        | Ok t' => (Ok "OK", t', mark_non_future_helper_call c function_name s)
        end
    end.

Definition setvar (c : call_env) (name value : string)
    : vars_table -> session -> result string string * vars_table * session :=
  change_vars c "df.setvar" "set variables before starting the workflow" "Failed to set variable: "
    (fun owner_scoped => upsert_var owner_scoped (c_user c) name value).

Definition unsetvar (c : call_env) (name : string)
    : vars_table -> session -> result string string * vars_table * session :=
  change_vars c "df.unsetvar" "manage variables before starting the workflow"
    "Failed to unset variable: " (fun owner_scoped => delete_var owner_scoped (c_user c) name).

Definition clearvars (c : call_env)
    : vars_table -> session -> result string string * vars_table * session :=
  change_vars c "df.clearvars" "manage variables before starting the workflow"
    "Failed to clear variables: " (fun owner_scoped => delete_vars owner_scoped (c_user c)).

Definition getvar (c : call_env) (name : string) (t : vars_table) (s : session)
    : result (option string) string * session :=
  let '(version, s) := installed_extension_version c s in
  (let? owner_scoped := owner_scoped_vars_enabled version in
    Ok (match c_spi_error c with
        | Some _ => None
        | None => select_var owner_scoped (c_user c) name t
        end), s).

(** The private variables of a role. *)
Definition own_vars (user : N) (t : vars_table) : gmap string (option string) :=
  match t with
  | OwnerVars rows => default ∅ (map_curry (M1 := gmap N) (M2 := gmap string) rows !! user)
  | GlobalVars rows => rows
  end.

(** The snapshot [df.start] takes: the rows whose value is not null, or none where
    the query fails. *)
Definition capture_vars (c : call_env) (t : vars_table) (s : session)
    : result (gmap string string) string * session :=
  let '(version, s) := installed_extension_version c s in
  (let? owner_scoped := owner_scoped_vars_enabled version in
    Ok (match c_spi_error c with
        | Some _ => ∅
        | None =>
            match owner_scoped, t with
            | true, OwnerVars _ | false, GlobalVars _ => omap id (own_vars (c_user c) t)
            | _, _ => mm_capture mm t
            end
        end), s).
End Variables.

(** ** Instances *)

(** [df.instances]: the columns of a start, which no caller may update, and the
    status columns. *)
Record instances_table := mkInstances {
  it_rows : gmap string instance_record;
  it_status : instance_table;
}.

(** The policies [instances_user_isolation] and [nodes_user_isolation]. *)
Definition row_visible (c : call_env) (submitted_by : N) : bool :=
  c_bypass_rls c || (submitted_by =? c_user c)%N.

Definition visible_instance (c : call_env) (t : instances_table) (instance_id : string)
  : option InstanceRow :=
  r ← it_rows t !! instance_id;
  if row_visible c (ir_submitted_by r) then it_status t !! instance_id else None.

(** [SELECT EXISTS(SELECT 1 FROM df.instances WHERE id = $1)]: an error counts as
    absence. *)
Definition instance_exists (c : call_env) (t : instances_table) (instance_id : string) : bool :=
  match c_spi_error c with
  | Some _ => false
  | None => bool_decide (is_Some (visible_instance c t instance_id))
  end.

(** [UPDATE df.instances SET status = 'cancelled' WHERE ... status <> ALL (...)] *)
Definition mark_cancelled (c : call_env) (t : instances_table) (instance_id : string)
  : instances_table :=
  match visible_instance c t instance_id with
  | Some row =>
      if instance_open row then
        mkInstances (it_rows t)
          (<[instance_id := mkInstanceRow (Some "cancelled") (inst_completed row)]> (it_status t))
      else t
  | None => t
  end.

(** [engine] is the durable engine's answer, [update] that of the UPDATE, whose
    failure is a warning. *)
Definition cancel (c : call_env) (engine update : result unit string) (instance_id reason : string)
    (t : instances_table) : result string string * instances_table :=
  if negb (instance_exists c t instance_id) then
    (Err ("Instance not found or access denied: " +:+ instance_id), t)
  else
    match engine with
    | Err e => (Ok ("Failed to cancel: " +:+ e), t)
    | Ok _ =>
        (Ok ("Instance " +:+ instance_id +:+ " cancelled: " +:+ reason),
         match update with Ok _ => mark_cancelled c t instance_id | Err _ => t end)
    end.

Definition select_status (c : call_env) (t : instances_table) (instance_id : string)
  : result (option string) string :=
  match c_spi_error c with
  | Some e => Err e
  | None => Ok (visible_instance c t instance_id ≫= inst_status)
  end.

Definition status (c : call_env) (t : instances_table) (instance_id : string) : option string :=
  mjoin (ok (select_status c t instance_id)).

Definition run (instance_id : option string) : string :=
  match instance_id with
  | Some id => "Triggered run for instance: " +:+ id
  | None => "Triggered run for all pending instances"
  end.

Section Result.
Context {SJ : SerdeJson}.

(** The result of the root node once it is completed; [result::text] is the
    text of its JSON. *)
Definition result_of (c : call_env) (t : instances_table) (owner_of : string * string -> option N)
    (nodes : node_table) (instance_id : string) : option string :=
  match c_spi_error c with
  | Some _ => None
  | None =>
      r ← it_rows t !! instance_id;
      if row_visible c (ir_submitted_by r) then
        o ← owner_of (instance_id, ir_root_node r);
        n ← nodes !! (instance_id, ir_root_node r);
        if row_visible c o && bool_decide (row_status n = Some "completed")
        then value_to_string <$> row_result n else None
      else None
  end.
End Result.

(** ** Waiting for an instance *)

Record awaited := mkAwaited {
  aw_result : result string string;
  (** queries made, and sleeps of 100 ms between them *)
  aw_polls : nat;
}.

Definition terminal_lower (s : string) : bool :=
  String.eqb s "completed" || String.eqb s "failed" || String.eqb s "cancelled".

(** [timeout_seconds * 10], at [i32]: a release build wraps. *)
Definition max_attempts (timeout_seconds : Z) : Z := i32_wrap (timeout_seconds * 10).

Section Await.
(** The answer to query [k]. *)
Context (poll : nat -> result (option string) string).

(** [attempts] queries made; [None] is a run cut off by the fuel. *)
Fixpoint await_loop (fuel attempts : nat) (instance_id : string) (timeout_seconds : Z)
    : option awaited :=
  match fuel with
  | O => None
  | S fuel' =>
      match poll attempts with
      | Err e => Some (mkAwaited (Err ("Failed to query status: " +:+ e)) (S attempts))
      | Ok None => Some (mkAwaited (Err ("Instance not found: " +:+ instance_id)) (S attempts))
      | Ok (Some s) =>
          if terminal_lower (to_lowercase s) then
            Some (mkAwaited (Ok (to_lowercase s)) (S attempts))
          else if (max_attempts timeout_seconds <=? Z.of_nat (S attempts))%Z then
            Some (mkAwaited
                  (Err ("Timeout after " +:+ show_Z timeout_seconds +:+ "s waiting for instance " +:+
                        instance_id +:+ " (status: " +:+ s +:+
                        "). Check if background worker is running.")) (S attempts))
          else await_loop fuel' (S attempts) instance_id timeout_seconds
      end
  end.

Definition await_fuel (timeout_seconds : Z) : nat :=
  S (Z.to_nat (max_attempts timeout_seconds)).

Definition await_instance (c : call_env) (instance_id : string) (timeout_seconds : Z) (s : session)
    : option (awaited * session) :=
  if is_in_workflow_context c then
    Some (mkAwaited (Err ("df.await_instance() cannot be called inside a workflow - it would " +:+
                          ("block a worker thread (and self-deadlock if waiting on the current instance). " +:+
                           "Use df.signal() and df.wait_for_signal() for cross-workflow coordination."))) 0, s)
  else if (timeout_seconds <=? 0)%Z then
    Some (mkAwaited (Err "Timeout must be positive") 0, s)
  else
    r ← await_loop (await_fuel timeout_seconds) 0 instance_id timeout_seconds;
    Some (r, if is_ok (aw_result r) then mark_non_future_helper_call c "df.await_instance" s else s).

(** The deprecated name. *)
Definition wait_for_completion (c : call_env) (instance_id : string) (timeout_seconds : Z)
    (s : session) : option (awaited * session) :=
  await_instance c instance_id timeout_seconds s.
End Await.
