(* ===== verification/SessionSpec.v ===== *)
(** What the calls around a workflow guarantee: variables are private maps,
    helper results are no steps, a cancelled instance stays terminal, and waiting
    ends ([Session]). *)
From S2P Require Import Prelude RustString Json JsonText Flatten StatusWrite Submission Session.

(** ** The version *)

(** The version the cache may hold. *)
Definition cache_from (P : string -> Prop) (s : session) : Prop :=
  forall v ts, s_version s = Some (v, ts) -> P v.

Lemma installed_version_from P c s v s' :
  cache_from P s -> (forall w, c_extversion c = Some w -> P w) ->
  installed_extension_version c s = (v, s') ->
  cache_from P s' /\ s_marker s' = s_marker s /\
  match v with Some w => P w | None => c_extversion c = None end.
Proof.
  unfold installed_extension_version, cache_from. intros Hs Hc.
  destruct (s_version s) as [[w ts]|] eqn:Hv.
  - destruct (_ <? _)%N.
    + intros [= <- <-]. rewrite Hv. naive_solver.
    + destruct (c_extversion c) eqn:E; intros [= <- <-]; simpl; naive_solver.
  - destruct (c_extversion c) eqn:E; intros [= <- <-]; simpl; naive_solver.
Qed.

(** A version whose variables have owners. *)
Definition owner_version (v : string) : Prop := owner_scoped_vars_enabled (Some v) = Ok true.

(** ** Private variables *)

Inductive var_op := SetVar (name value : string) | UnsetVar (name : string) | ClearVars.

Definition run_var_op (mm : mismatch) (c : call_env) (op : var_op)
  : vars_table -> session -> result string string * vars_table * session :=
  match op with
  | SetVar name value => setvar mm c name value
  | UnsetVar name => unsetvar mm c name
  | ClearVars => clearvars mm c
  end.

(** What the operation does to a map of names. *)
Definition var_effect (op : var_op) (m : gmap string (option string)) : gmap string (option string) :=
  match op with
  | SetVar name value => <[name := Some value]> m
  | UnsetVar name => delete name m
  | ClearVars => ∅
  end.

(** Calls of several sessions, in the order they take effect. *)
Record world := mkWorld { w_vars : vars_table; w_sessions : nat -> session }.

Definition set_session (k : nat) (s : session) (f : nat -> session) : nat -> session :=
  fun j => if Nat.eqb j k then s else f j.

Fixpoint run_var_ops (mm : mismatch) (calls : list (nat * call_env * var_op)) (w : world) : world :=
  match calls with
  | [] => w
  | (k, c, op) :: calls' =>
      let '(_, t, s) := run_var_op mm c op (w_vars w) (w_sessions w k) in
      run_var_ops mm calls' (mkWorld t (set_session k s (w_sessions w)))
  end.

(** The calls of a role that take effect: outside workflows, without an error of
    the database. *)
Definition effective (user : N) (call : nat * call_env * var_op) : bool :=
  let '(_, c, _) := call in
  (c_user c =? user)%N && negb (is_in_workflow_context c) && negb (bool_decide (is_Some (c_spi_error c))).

Lemma own_vars_lookup user rows name :
  own_vars user (OwnerVars rows) !! name = rows !! (user, name).
Proof.
  unfold own_vars. rewrite <- (lookup_map_curry (M1 := gmap N) (M2 := gmap string) rows user name).
  destruct (map_curry (M1 := gmap N) (M2 := gmap string) rows !! user); simpl; [done|]. apply lookup_empty.
Qed.

(** One statement on the owned rows. *)
Definition op_rows (user : N) (op : var_op) (rows : gmap (N * string) (option string))
  : gmap (N * string) (option string) :=
  match op with
  | SetVar name value => <[(user, name) := Some value]> rows
  | UnsetVar name => delete (user, name) rows
  | ClearVars => filter (fun kv => fst (fst kv) <> user) rows
  end.

Lemma run_var_op_owned mm c op rows s :
  cache_from owner_version s -> (exists v, c_extversion c = Some v /\ owner_version v) ->
  exists r s', cache_from owner_version s' /\
  if negb (is_in_workflow_context c) && negb (bool_decide (is_Some (c_spi_error c)))
  then r = Ok "OK" /\ run_var_op mm c op (OwnerVars rows) s = (r, OwnerVars (op_rows (c_user c) op rows), s')
  else is_ok r = false /\ run_var_op mm c op (OwnerVars rows) s = (r, OwnerVars rows, s').
Proof.
  intros Hs (v & Hv & Hp).
  assert (Hgen : forall f verb failure st,
    (forall rows, st true (OwnerVars rows) = Ok (OwnerVars (op_rows (c_user c) op rows))) ->
    exists r s', cache_from owner_version s' /\
    if negb (is_in_workflow_context c) && negb (bool_decide (is_Some (c_spi_error c)))
    then r = Ok "OK" /\ change_vars c f verb failure st (OwnerVars rows) s =
      (r, OwnerVars (op_rows (c_user c) op rows), s')
    else is_ok r = false /\ change_vars c f verb failure st (OwnerVars rows) s = (r, OwnerVars rows, s')).
  { intros f verb failure st Hst. unfold change_vars.
    destruct (is_in_workflow_context c); cbn [negb andb]; [by eexists _, s; split_and!; [|..|reflexivity]|].
    destruct (installed_extension_version c s) as [w s1] eqn:Hi.
    eapply installed_version_from in Hi as (Hs1 & _ & Hw); [|exact Hs|naive_solver].
    destruct w as [w|]; [|congruence]. rewrite Hw.
    destruct (c_spi_error c) as [e|].
    - rewrite bool_decide_true by eauto. cbn [negb]. by eexists _, s1; split_and!; [|..|reflexivity].
    - rewrite bool_decide_false by (by intros []). cbn [negb]. rewrite Hst.
      by eexists _, _; split_and!; [|..|reflexivity]. }
  destruct op; apply Hgen; done.
Qed.

Lemma own_vars_op user c op rows :
  own_vars user (OwnerVars (op_rows (c_user c) op rows)) =
  if (c_user c =? user)%N then var_effect op (own_vars user (OwnerVars rows))
  else own_vars user (OwnerVars rows).
Proof.
  apply map_eq. intros name. rewrite own_vars_lookup.
  destruct (N.eqb_spec (c_user c) user) as [->|Hne].
  - destruct op as [n v|n|]; cbn [op_rows var_effect].
    + destruct (decide (n = name)) as [->|]; [by rewrite !lookup_insert_eq|].
      rewrite !lookup_insert_ne by congruence. by rewrite own_vars_lookup.
    + destruct (decide (n = name)) as [->|]; [by rewrite !lookup_delete_eq|].
      rewrite !lookup_delete_ne by congruence. by rewrite own_vars_lookup.
    + rewrite lookup_empty. apply map_lookup_filter_None. right. naive_solver.
  - rewrite own_vars_lookup. destruct op as [n v|n|]; cbn [op_rows].
    + apply lookup_insert_ne. congruence.
    + apply lookup_delete_ne. congruence.
    + apply option_eq. intros x. rewrite map_lookup_filter_Some. simpl. naive_solver.
Qed.

Section Private.
Context (mm : mismatch).

(** Variables are private.  Whatever sessions of whatever roles set, unset
    and clear variables in one table, what a role reads and what a start captures
    is the outcome of its own effective calls on a map of its own. *)
Theorem vars_private calls w rows user :
  w_vars w = OwnerVars rows -> (forall k, cache_from owner_version (w_sessions w k)) ->
  Forall (fun '(_, c, _) => exists v, c_extversion c = Some v /\ owner_version v) calls ->
  let mine := fold_left (fun m '(_, _, op) => var_effect op m) (filter (effective user) calls)
      (own_vars user (w_vars w)) in
  let w' := run_var_ops mm calls w in
  forall k c, c_user c = user -> c_spi_error c = None ->
  (exists v, c_extversion c = Some v /\ owner_version v) ->
  (forall name, fst (getvar mm c name (w_vars w') (w_sessions w' k)) = Ok (mjoin (mine !! name))) /\
  fst (capture_vars mm c (w_vars w') (w_sessions w' k)) = Ok (omap id mine).
Proof.
  intros Hrows Hcache Hcalls mine w' k c Hu He (v & Hv & Hp).
  assert (Hw' : exists rows', w_vars w' = OwnerVars rows' /\
    (forall k, cache_from owner_version (w_sessions w' k)) /\ own_vars user (OwnerVars rows') = mine).
  { subst w' mine. rewrite Hrows. clear He Hu Hv Hp c k v. revert w rows Hrows Hcache.
    induction Hcalls as [|[[k c] op] calls Hc _ IH]; intros w rows Hrows Hcache.
    { exists rows. by split_and!. }
    destruct (run_var_op_owned mm c op rows (w_sessions w k) (Hcache k) Hc) as (r & s & Hs & Hrun).
    cbn [run_var_ops]. rewrite Hrows.
    assert (Hc' : forall t j, cache_from owner_version (w_sessions (mkWorld t (set_session k s (w_sessions w))) j)).
    { intros t j. cbn. unfold set_session. by destruct (Nat.eqb j k). }
    assert (Heff : effective user (k, c, op) = (c_user c =? user)%N &&
      (negb (is_in_workflow_context c) && negb (bool_decide (is_Some (c_spi_error c))))).
    { unfold effective. by rewrite andb_assoc. }
    destruct (negb (is_in_workflow_context c) && _).
    - destruct Hrun as [_ ->].
      specialize (IH (mkWorld (OwnerVars (op_rows (c_user c) op rows)) (set_session k s (w_sessions w)))
        _ eq_refl (Hc' _)) as (rows' & Hr & Hca & Hown).
      exists rows'. split_and!; [done|done|]. rewrite Hown, own_vars_op, filter_cons.
      rewrite andb_true_r in Heff. rewrite <- Heff.
      by destruct (effective user (k, c, op)).
    - destruct Hrun as [_ ->].
      specialize (IH (mkWorld (OwnerVars rows) (set_session k s (w_sessions w)))
        _ eq_refl (Hc' _)) as (rows' & Hr & Hca & Hown).
      exists rows'. split_and!; [done|done|]. rewrite Hown, filter_cons.
      rewrite andb_false_r in Heff. by rewrite Heff. }
  destruct Hw' as (rows' & Hr & Hca & Hown). rewrite Hr, <- Hown.
  unfold getvar, capture_vars. subst user.
  destruct (installed_extension_version c (w_sessions w' k)) as [ver s1] eqn:Hi.
  eapply installed_version_from in Hi as (_ & _ & Hver); [|apply Hca|naive_solver].
  destruct ver as [ver|]; [|congruence]. rewrite Hver, He. cbn [result_bind fst]. split; [|done].
  intros name. cbn [select_var]. by rewrite own_vars_lookup.
Qed.
End Private.

(** ** Helpers are no steps *)

Section Helpers.
Context {SJ : SerdeJson}.

Lemma marker_name f ts (statement : Z) s :
  char_free "010" f = true -> (0 <= ts <= i64_max)%Z -> starts_with "{" (trim_start s) = false ->
  same_statement_non_future_helper_name (Some (f +:+ String "010" (show_Z ts))) statement s =
    if (ts =? statement)%Z then Some f else None.
Proof.
  intros Hf Hts Hs. unfold same_statement_non_future_helper_name. rewrite Hs. cbn [mbind option_bind].
  rewrite split_once_char_free by done. cbn [mbind option_bind].
  unfold show_Z. destruct (Z.ltb_spec ts 0); [lia|].
  rewrite parse_i64_show by lia. cbn [mbind option_bind]. by rewrite Z2N.id by lia.
Qed.

(** The calls whose text is not a future. *)
Definition helper_names : list string :=
  ["df.setvar"; "df.unsetvar"; "df.clearvars"; "df.await_instance"].

(** The text a helper returns is not taken for a step.  In the statement
    in which a helper was called, a text that is not JSON is refused with the
    helper's name, by composition and by [df.start] alike; in every other
    statement the marker has no effect. *)
Theorem helper_result_refused c f s statement text :
  f ∈ helper_names -> (0 <= c_statement c <= i64_max)%Z ->
  starts_with "{" (trim_start text) = false ->
  let marker := s_marker (mark_non_future_helper_call c f s) in
  if (c_statement c =? statement)%Z
  then ensure marker statement text = Err (non_future_helper_error f) /\
    ensure_strict marker statement text = Err (non_future_helper_error f)
  else ensure marker statement text = ensure None statement text /\
  ensure_strict marker statement text = ensure_strict None statement text.
Proof.
  intros Hf Hts Htext marker.
  assert (Hfree : char_free "010" f = true).
  { unfold helper_names in Hf. set_unfold in Hf. by destruct_or! Hf; subst. }
  assert (Hm : same_statement_non_future_helper_name marker statement text =
    if (c_statement c =? statement)%Z then Some f else None) by (by apply marker_name).
  unfold ensure, ensure_strict. rewrite Hm. destruct (c_statement c =? statement)%Z; [done|].
  unfold same_statement_non_future_helper_name. by rewrite Htext.
Qed.
End Helpers.

(** ** Waiting *)

(** A query that does not end the wait. *)
Definition undecided (r : result (option string) string) : Prop :=
  exists s, r = Ok (Some s) /\ terminal_lower (to_lowercase s) = false.

Section Await.
Context (poll : nat -> result (option string) string) (instance_id : string).

Lemma await_loop_skip fuel attempts n timeout :
  (forall i, (i < n)%nat -> undecided (poll (attempts + i))) ->
  (n = 0%nat \/ (Z.of_nat (attempts + n) < max_attempts timeout)%Z) ->
  await_loop poll (n + fuel) attempts instance_id timeout =
    await_loop poll fuel (attempts + n) instance_id timeout.
Proof.
  revert attempts. induction n as [|n IH]; intros attempts Hp Hn.
  { by rewrite Nat.add_0_r. }
  cbn [Nat.add await_loop]. destruct (Hp 0%nat ltac:(lia)) as (s & Hs & Ht).
  rewrite Nat.add_0_r in Hs. rewrite Hs, Ht.
  destruct (Z.leb_spec (max_attempts timeout) (Z.of_nat (S attempts))); [lia|].
  rewrite IH; [f_equal; lia| |lia].
  intros i Hi. replace (S attempts + i) with (attempts + S i) by lia. apply Hp. lia.
Qed.

Lemma max_attempts_small timeout :
  (0 < timeout <= 214748364)%Z -> max_attempts timeout = (timeout * 10)%Z.
Proof. intros H. unfold max_attempts, i32_wrap. rewrite Z.mod_small by lia. lia. Qed.

(** Waiting ends, and sees what happens in time.  Outside a workflow and for a
    timeout of up to 214748364 seconds, if the first status that is terminal shows
    up in query [n] of the [10 * timeout] queries, exactly that status is returned
    after [n + 1] queries and the call is marked as a helper's; if none does, the
    wait times out after exactly [10 * timeout] queries. *)
Theorem await_instance_decides c timeout s :
  is_in_workflow_context c = false -> (0 < timeout <= 214748364)%Z ->
  (forall n st, (Z.of_nat n < timeout * 10)%Z -> (forall i, i < n -> undecided (poll i)) ->
   poll n = Ok (Some st) -> terminal_lower (to_lowercase st) = true ->
   await_instance poll c instance_id timeout s =
   Some (mkAwaited (Ok (to_lowercase st)) (S n), mark_non_future_helper_call c "df.await_instance" s)) /\
  ((forall i, (Z.of_nat i < timeout * 10)%Z -> undecided (poll i)) ->
   exists e, await_instance poll c instance_id timeout s =
   Some (mkAwaited (Err e) (Z.to_nat (timeout * 10)), s)).
Proof.
  intros Hc Ht. unfold await_instance. rewrite Hc. destruct (Z.leb_spec timeout 0); [lia|].
  pose proof (max_attempts_small _ Ht) as Hmax. unfold await_fuel. rewrite Hmax. split.
  - intros n st Hn Hun Hp Hterm.
    replace (S (Z.to_nat (timeout * 10))) with (n + S (Z.to_nat (timeout * 10) - n)) by lia.
    rewrite await_loop_skip; [|auto|lia].
    cbn [await_loop Nat.add]. by rewrite Hp, Hterm.
  - intros Hun. set (n := Nat.pred (Z.to_nat (timeout * 10))).
    replace (S (Z.to_nat (timeout * 10))) with (n + 2) by lia.
    rewrite await_loop_skip; [|intros i Hi; apply Hun; lia|lia].
    cbn [await_loop Nat.add]. destruct (Hun n ltac:(lia)) as (st & Hp & Hterm). rewrite Hp, Hterm, Hmax.
    destruct (Z.leb_spec (timeout * 10) (Z.of_nat (S n))); [|lia].
    replace (Z.to_nat (timeout * 10)) with (S n) by lia. by eexists.
Qed.

(** A timeout whose tenfold exceeds an [i32] wraps around: in a release build
    a wait of 214748365 to 429496729 seconds times out at the first query that
    finds the instance unfinished. *)
Theorem await_instance_overflow c timeout s :
  is_in_workflow_context c = false -> (214748365 <= timeout <= 429496729)%Z -> undecided (poll 0) ->
  exists e, await_instance poll c instance_id timeout s = Some (mkAwaited (Err e) 1, s).
Proof.
  intros Hc Ht (st & Hp & Hterm). unfold await_instance. rewrite Hc.
  destruct (Z.leb_spec timeout 0); [lia|].
  assert (max_attempts timeout <= 1)%Z.
  { unfold max_attempts, i32_wrap.
    replace (timeout * 10 + 2 ^ 31)%Z with ((timeout * 10 + 2 ^ 31 - 2 ^ 32) + 1 * 2 ^ 32)%Z by lia.
    rewrite Z.mod_add by lia. rewrite Z.mod_small by lia. lia. }
  unfold await_fuel. cbn [await_loop]. rewrite Hp, Hterm.
  destruct (Z.leb_spec (max_attempts timeout) (Z.of_nat 1)); [|lia]. by eexists.
Qed.
End Await.

(** ** Cancellation *)

(** What changes the status of an instance: a session that cancels, with the
    answers of the engine and of the UPDATE, and the worker's status write. *)
Inductive status_event :=
| Cancels (c : call_env) (engine update : result unit string) (instance_id reason : string)
| Writes (env : db_env) (engine_id input_json : string).

Section Cancel.
Context {SJ : SerdeJson} {U : Origin.UuidCrate}.

Definition status_step (e : status_event) (t : instances_table) : instances_table :=
  match e with
  | Cancels c engine update instance_id reason => snd (cancel c engine update instance_id reason t)
  | Writes env engine_id input =>
      mkInstances (it_rows t) (snd (update_instance_status env engine_id input (it_status t)))
  end.

Fixpoint run_events (events : list status_event) (t : instances_table) : instances_table :=
  match events with
  | [] => t
  | e :: events' => run_events events' (status_step e t)
  end.

Lemma cancel_tables c engine update instance_id reason t :
  snd (cancel c engine update instance_id reason t) = t \/
  exists r row, it_rows t !! instance_id = Some r /\ row_visible c (ir_submitted_by r) = true /\
  it_status t !! instance_id = Some row /\ instance_open row = true /\
  snd (cancel c engine update instance_id reason t) =
    mkInstances (it_rows t)
    (<[instance_id := mkInstanceRow (Some "cancelled") (inst_completed row)]> (it_status t)).
Proof.
  unfold cancel. destruct (negb _); [by left|]. destruct engine; [|by left].
  destruct update; [|by left]. cbn [snd]. unfold mark_cancelled, visible_instance.
  destruct (it_rows t !! instance_id) as [r|] eqn:Hr; cbn [mbind option_bind]; [|by left].
  destruct (row_visible c (ir_submitted_by r)) eqn:Hv; [|by left].
  destruct (it_status t !! instance_id) as [row|] eqn:Hrow; [|by left].
  destruct (instance_open row) eqn:Ho; [|by left]. right. by exists r, row.
Qed.

Lemma status_step_rows e t : it_rows (status_step e t) = it_rows t.
Proof.
  destruct e as [c engine update id reason|env engine_id input]; [|done]. cbn [status_step].
  by destruct (cancel_tables c engine update id reason t) as [->|(? & ? & _ & _ & _ & _ & ->)].
Qed.

Lemma run_events_rows events t : it_rows (run_events events t) = it_rows t.
Proof. revert t. induction events as [|e l IH]; intros t; [done|]. cbn. by rewrite IH, status_step_rows. Qed.

Lemma run_events_terminal events t id row :
  it_status t !! id = Some row -> instance_open row = false ->
  it_status (run_events events t) !! id = Some row.
Proof.
  intros Hrow Hclosed. revert t Hrow. induction events as [|e l IH]; intros t Hrow; [done|]. cbn.
  apply IH. destruct e as [c engine update i reason|env engine_id input]; cbn [status_step].
  - destruct (cancel_tables c engine update i reason t) as [->|(r & row' & _ & _ & Hi & Ho & ->)]; [done|].
    cbn. rewrite lookup_insert_ne; [done|]. intros ->. congruence.
  - cbn. by eapply instance_terminal_absorbing; [apply surjective_pairing|..].
Qed.

Lemma visible_status c t id r row :
  it_rows t !! id = Some r -> row_visible c (ir_submitted_by r) = true ->
  it_status t !! id = Some row -> visible_instance c t id = Some row.
Proof. intros Hr Hv Hs. unfold visible_instance. rewrite Hr. cbn [mbind option_bind]. by rewrite Hv. Qed.

Lemma closed_status st b :
  instances_status_chk st = true -> instance_open (mkInstanceRow (Some st) b) = false ->
  to_lowercase st = st /\ terminal_lower st = true.
Proof.
  unfold instance_open. cbn [inst_status]. intros _ [s [Hs Ht]]%negb_false_iff%existsb_exists.
  apply String.eqb_eq in Ht as ->. by destruct Hs as [<- | [<- | [<- | []]]].
Qed.

(** C30: a cancellation is final.  When a role that sees an instance cancels it and
    the engine and the table take the request, the instance has a terminal status
    from then on, the one it already had or [cancelled]: whatever cancellations
    and status writes follow, in whatever order, everyone who sees the instance
    reads that status, and waiting for it ends at the first query. *)
Theorem cancel_is_final c t id reason r row st m t1 :
  c_spi_error c = None ->
  it_rows t !! id = Some r -> row_visible c (ir_submitted_by r) = true ->
  it_status t !! id = Some row -> inst_status row = Some st -> instances_status_chk st = true ->
  cancel c (Ok tt) (Ok tt) id reason t = (m, t1) ->
  let final := if instance_open row then "cancelled" else st in
  m = Ok ("Instance " +:+ id +:+ " cancelled: " +:+ reason) /\
  forall events c', c_spi_error c' = None -> row_visible c' (ir_submitted_by r) = true ->
  let t2 := run_events events t1 in
  status c' t2 id = Some final /\
  forall timeout s, is_in_workflow_context c' = false -> (0 < timeout)%Z ->
  await_instance (fun _ => select_status c' t2 id) c' id timeout s =
    Some (mkAwaited (Ok final) 1, mark_non_future_helper_call c' "df.await_instance" s).
Proof.
  intros He Hr Hv Hrow Hst Hchk Hc final.
  pose proof (visible_status _ _ _ _ _ Hr Hv Hrow) as Hvis.
  unfold cancel, instance_exists in Hc. rewrite He, Hvis, bool_decide_true in Hc by eauto.
  cbn [negb] in Hc. injection Hc as <- <-. split; [done|].
  intros events c' He' Hv' t2.
  assert (Hfinal : exists b, it_status (mark_cancelled c t id) !! id = Some (mkInstanceRow (Some final) b) /\
    instance_open (mkInstanceRow (Some final) b) = false /\ to_lowercase final = final /\
    terminal_lower final = true).
  { unfold mark_cancelled. rewrite Hvis. subst final. destruct (instance_open row) eqn:Ho.
    - exists (inst_completed row). split_and!; [apply lookup_insert_eq|done|done|done].
    - exists (inst_completed row). assert (row = mkInstanceRow (Some st) (inst_completed row)) as Erow
        by (destruct row; simpl in *; congruence).
      rewrite Erow in Hrow, Ho. split_and!; [done|done|..]; by eapply closed_status. }
  destruct Hfinal as (b & Hb & Hclosed & Hlow & Hterm).
  assert (Hrows : it_rows t2 !! id = Some r).
  { subst t2. rewrite run_events_rows. unfold mark_cancelled. rewrite Hvis. by destruct (instance_open row). }
  assert (Hsel : select_status c' t2 id = Ok (Some final)).
  { unfold select_status. rewrite He'.
    by rewrite (visible_status c' t2 id r _ Hrows Hv' (run_events_terminal _ _ _ _ Hb Hclosed)). }
  split; [by unfold status; rewrite Hsel|].
  intros timeout s Hw Ht. unfold await_instance. rewrite Hw. destruct (Z.leb_spec timeout 0); [lia|].
  unfold await_fuel. cbn [await_loop]. by rewrite Hsel, Hlow, Hterm.
Qed.

(** Only those who see an instance reach it.  A cancellation changes no other
    instance and none that is already terminal; a role that is neither the owner
    nor exempt from row-level security gets an error, changes nothing, reads
    neither status nor result, and does not wait. *)
Theorem cancel_scoped c engine update id reason t :
  let t' := snd (cancel c engine update id reason t) in
  it_rows t' = it_rows t /\
  (forall id', it_status t' !! id' <> it_status t !! id' ->
   id' = id /\ exists r row, it_rows t !! id = Some r /\ row_visible c (ir_submitted_by r) = true /\
   it_status t !! id = Some row /\ instance_open row = true) /\
  ((forall r, it_rows t !! id = Some r -> row_visible c (ir_submitted_by r) = false) ->
   t' = t /\ is_ok (fst (cancel c engine update id reason t)) = false /\
   status c t id = None /\ (forall owner_of nodes, result_of c t owner_of nodes id = None) /\
   forall timeout s, exists e n,
   await_instance (fun _ => select_status c t id) c id timeout s = Some (mkAwaited (Err e) n, s) /\
   (n <= 1)%nat).
Proof.
  cbn zeta. split_and!.
  - by destruct (cancel_tables c engine update id reason t) as [->|(? & ? & _ & _ & _ & _ & ->)].
  - intros id'. destruct (cancel_tables c engine update id reason t) as [->|(r & row & Hr & Hv & Hs & Ho & ->)];
      [done|]. cbn. intros Hne. destruct (decide (id' = id)) as [->|]; [eauto 8|].
    by rewrite lookup_insert_ne in Hne.
  - intros Hinv.
    assert (Hvis : visible_instance c t id = None).
    { unfold visible_instance. destruct (it_rows t !! id) as [r|]; [|done].
      cbn [mbind option_bind]. by rewrite (Hinv r eq_refl). }
    unfold cancel, instance_exists, status, select_status, result_of. rewrite Hvis.
    replace (match c_spi_error c with Some _ => false | None => bool_decide (is_Some None) end) with false
      by (destruct (c_spi_error c); [done|]; by rewrite bool_decide_false by (by intros [])).
    cbn [negb fst snd]. split_and!; [done|done|by destruct (c_spi_error c)|..].
    + intros owner_of nodes. destruct (c_spi_error c); [done|].
      destruct (it_rows t !! id) as [r|]; [|done]. cbn [mbind option_bind]. by rewrite (Hinv r eq_refl).
    + intros timeout s. unfold await_instance. destruct (is_in_workflow_context c); [eexists _, 0; (split; [done|lia])|].
      destruct (timeout <=? 0)%Z; [eexists _, 0; (split; [done|lia])|]. unfold await_fuel. cbn [await_loop].
      destruct (c_spi_error c); eexists _, 1; (split; [done|lia]).
Qed.
End Cancel.

(** ** Concrete instances *)

#[local] Existing Instance text_json.
#[local] Existing Instance Origin.sample_uuid.

(** A call of role [user] at version 0.2.4. *)
Definition sample_call (user : N) : call_env :=
  {| c_user := user; c_bypass_rls := false; c_in_workflow := None; c_statement := 797360000;
     c_now := 1000; c_extversion := Some "0.2.4"; c_spi_error := None |}.
Definition fresh_session : session := mkSession None None.
Definition sample_mismatch : mismatch :=
  {| mm_update := fun _ => Err "column does not exist"; mm_select := fun _ => None; mm_capture := fun _ => ∅ |}.

(** Two roles that use the same name. *)
Definition sample_var_calls : list (nat * call_env * var_op) :=
  [(0, sample_call 10, SetVar "region" "eu"); (1, sample_call 20, SetVar "region" "us");
   (1, sample_call 20, ClearVars); (0, sample_call 10, UnsetVar "size")].

Lemma vars_private_witness :
  fst (getvar sample_mismatch (sample_call 10) "region"
    (w_vars (run_var_ops sample_mismatch sample_var_calls (mkWorld (OwnerVars ∅) (fun _ => fresh_session))))
    (w_sessions (run_var_ops sample_mismatch sample_var_calls (mkWorld (OwnerVars ∅) (fun _ => fresh_session))) 0))
  = Ok (Some "eu").
Proof.
  refine (proj1 (vars_private sample_mismatch sample_var_calls
    (mkWorld (OwnerVars ∅) (fun _ => fresh_session)) ∅ 10 _ _ _ 0 (sample_call 10) _ _ _) "region").
  - reflexivity.
  - intros k v ts [=].
  - repeat constructor; eexists; (split; [reflexivity|vm_compute; reflexivity]).
  - reflexivity.
  - reflexivity.
  - eexists; split; [reflexivity|vm_compute; reflexivity].
Defined.

Lemma helper_result_refused_witness :
  ensure_strict (s_marker (mark_non_future_helper_call (sample_call 10) "df.setvar" fresh_session))
    797360000 "OK" = Err (non_future_helper_error "df.setvar").
Proof.
  refine (proj2 (helper_result_refused (sample_call 10) "df.setvar" fresh_session 797360000 "OK" _ _ _)).
  - unfold helper_names. set_solver.
  - vm_compute. split; discriminate.
  - reflexivity.
Defined.

Definition sample_poll (k : nat) : result (option string) string :=
  Ok (Some (if Nat.ltb k 3 then "running" else "completed")).

Lemma sample_poll_undecided k : (k < 3)%nat -> undecided (sample_poll k).
Proof.
  intros H. unfold sample_poll, undecided. apply Nat.ltb_lt in H as ->. eexists. split; [done|].
  vm_compute. reflexivity.
Qed.

Lemma await_instance_decides_witness :
  await_instance sample_poll (sample_call 10) "ab12cd34" 30 fresh_session =
    Some (mkAwaited (Ok "completed") 4,
          mark_non_future_helper_call (sample_call 10) "df.await_instance" fresh_session).
Proof.
  refine (proj1 (await_instance_decides sample_poll "ab12cd34" (sample_call 10) 30 fresh_session _ _)
            3 "completed" _ _ _ _).
  - reflexivity.
  - lia.
  - lia.
  - apply sample_poll_undecided.
  - reflexivity.
  - vm_compute. reflexivity.
Defined.

Lemma await_instance_overflow_witness :
  exists e, await_instance (fun _ => sample_poll 0) (sample_call 10) "ab12cd34" 300000000 fresh_session
    = Some (mkAwaited (Err e) 1, fresh_session).
Proof.
  refine (await_instance_overflow (fun _ => sample_poll 0) "ab12cd34" (sample_call 10) 300000000
            fresh_session _ _ _).
  - reflexivity.
  - lia.
  - apply sample_poll_undecided. lia.
Defined.

Definition sample_instances : instances_table :=
  mkInstances {["ab12cd34" := mkInstanceRec (Some "nightly") "0000000a" 10 None]}
    {["ab12cd34" := mkInstanceRow (Some "running") false]}.

(** The worker reports the run as completed after it was cancelled. *)
Lemma cancel_is_final_witness :
  status (sample_call 10)
    (run_events
      [Writes sample_env "ab12cd34"
         (print_value (Object [("instance_id", JString "ab12cd34"); ("status", JString "completed")]))]
      (snd (cancel (sample_call 10) (Ok tt) (Ok tt) "ab12cd34" "too slow" sample_instances)))
    "ab12cd34" = Some "cancelled".
Proof.
  refine (proj1 (proj2 (cancel_is_final (sample_call 10) sample_instances "ab12cd34" "too slow"
    (mkInstanceRec (Some "nightly") "0000000a" 10 None) (mkInstanceRow (Some "running") false)
    "running" _ _ _ _ _ _ _ _ (surjective_pairing _)) _ (sample_call 10) _ _)); reflexivity.
Defined.
