(* ===== verification/Maintenance.v ===== *)
(** The background worker's maintenance ([src/worker.rs]): retention of terminal
    instances in the control database and in every registered origin, reclaiming
    of orphaned engine records, of registrations and of submission accounting.

    A pass is a program of [Effects]: each transaction, engine call and connection
    is one operation, whose error stands for a failure of any of its statements.
    A read answers with the snapshot its statement sees, and what the SQL text
    computes of it is written out here. *)
From S2P Require Import Prelude RustString Sql Effects Origin Lineage.

(** ** Snapshots *)

(** The columns of [df.instances] that retention reads; times in microseconds. *)
Record retention_row := mkRetention {
  rr_id : string;
  rr_status : option string;
  rr_created_at : option Z;
  rr_completed_at : option Z;
}.
Record instances_snapshot := mkInstances {
  rows : list retention_row;
  (** [now() - make_interval(days => $1)] *)
  days_ago : Z -> Z;
}.

(** An instance of the engine, joined with its current execution. *)
Record engine_record := mkEngine {
  er_instance_id : string;
  er_status : string;
  er_parent : option string;
}.
Record provider_snapshot := mkProvider {
  engine_records : list engine_record;
  registered : list (Z * N);
  submissions : list string;
  (** the instance ids of the six tables of work *)
  work_ids : list string;
}.

(** What the absence probe reads in the origin's database. *)
Record probe_view := mkProbeView {
  pv_database_oid : Z;
  pv_owned : bool;
  (** attestation and locking *)
  pv_attested : result unit string;
  pv_installation_matches : bool;
}.

Inductive client_error := InstanceNotFound | InstanceStillRunning | OtherClientError (e : string).

(** ** Operations *)

Inductive wop : Type :=
| ReadInstances (origin : option Origin)
| DeleteRows (origin : option Origin) (ids : list string)
| ReadProvider
| DeleteInstance (engine_id : string)
| DeleteInstanceBulk (engine_ids : list string) (completed_before limit : N)
| CancelInstance (engine_id reason : string)
| SystemTime
| Connect (origin : Origin)
| DatabaseName (database_oid : N)
| OpenProbe (database : string)
| ReadProbe (origin : Origin)
| CloseProbe
| DeleteRegistration (database_oid : Z) (installation_id : N) (prefix : string)
| DeleteSubmissions (ids : list string)
| Elapsed.

Definition answer (o : wop) : Type :=
  match o with
  | ReadInstances _ => result instances_snapshot string
  | DeleteRows _ _ => result (list string * Z) string
  | ReadProvider => result provider_snapshot string
  | DeleteInstance _ => result unit client_error
  | DeleteInstanceBulk _ _ _ => result N string
  | CancelInstance _ _ => result unit string
  | SystemTime => option N
  | Connect _ => result unit string
  | DatabaseName _ => result (option string) string
  | OpenProbe _ => result unit string
  | ReadProbe _ => result probe_view string
  | CloseProbe => result unit string
  | DeleteRegistration _ _ _ => result unit string
  | DeleteSubmissions _ => result unit string
  | Elapsed => bool
  end.

(** ** The worker's cursors *)

Definition origin_key : Type := Z * N.

Record OriginRetentionCursor := mkCursor {
  oc_origin : origin_key;
  oc_after_id : option string;
  oc_pending : gmap origin_key string;
  oc_visited : gset origin_key;
  oc_finished : gset origin_key;
}.
Definition default_cursor : OriginRetentionCursor := mkCursor (0%Z, 0%N) None ∅ ∅ ∅.

Record MaintenanceProgress := mkProgress {
  p_control : bool;
  p_legacy : bool;
  p_origins : bool;
  p_engine : bool;
  p_registrations : bool;
  p_submissions : bool;
}.
Definition progress_new : MaintenanceProgress := mkProgress true true true true true true.
Definition has_work (p : MaintenanceProgress) : bool :=
  p_control p || p_legacy p || p_origins p || p_engine p || p_registrations p || p_submissions p.

Record worker_state := mkWorker {
  control_cursor : option string;
  origin_cursor : OriginRetentionCursor;
  engine_cursor : string;
  legacy_cursor : string;
  registration_cursor : origin_key;
  submission_cursor : string;
  pending : MaintenanceProgress;
}.
Definition worker_start : worker_state :=
  mkWorker None default_cursor "" "" (0%Z, 0%N) "" progress_new.

Definition set_control_cursor (c : option string) (w : worker_state) : worker_state :=
  mkWorker c (origin_cursor w) (engine_cursor w) (legacy_cursor w) (registration_cursor w)
    (submission_cursor w) (pending w).
Definition set_origin_cursor (c : OriginRetentionCursor) (w : worker_state) : worker_state :=
  mkWorker (control_cursor w) c (engine_cursor w) (legacy_cursor w) (registration_cursor w)
    (submission_cursor w) (pending w).
Definition set_engine_cursor (c : string) (w : worker_state) : worker_state :=
  mkWorker (control_cursor w) (origin_cursor w) c (legacy_cursor w) (registration_cursor w)
    (submission_cursor w) (pending w).
Definition set_legacy_cursor (c : string) (w : worker_state) : worker_state :=
  mkWorker (control_cursor w) (origin_cursor w) (engine_cursor w) c (registration_cursor w)
    (submission_cursor w) (pending w).
Definition set_registration_cursor (c : origin_key) (w : worker_state) : worker_state :=
  mkWorker (control_cursor w) (origin_cursor w) (engine_cursor w) (legacy_cursor w) c
    (submission_cursor w) (pending w).
Definition set_submission_cursor (c : string) (w : worker_state) : worker_state :=
  mkWorker (control_cursor w) (origin_cursor w) (engine_cursor w) (legacy_cursor w)
    (registration_cursor w) c (pending w).
Definition set_pending (f : MaintenanceProgress -> MaintenanceProgress) (w : worker_state) : worker_state :=
  mkWorker (control_cursor w) (origin_cursor w) (engine_cursor w) (legacy_cursor w)
    (registration_cursor w) (submission_cursor w) (f (pending w)).

Definition pending_control (b : bool) (p : MaintenanceProgress) : MaintenanceProgress :=
  mkProgress b (p_legacy p) (p_origins p) (p_engine p) (p_registrations p) (p_submissions p).
Definition pending_legacy (b : bool) (p : MaintenanceProgress) : MaintenanceProgress :=
  mkProgress (p_control p) b (p_origins p) (p_engine p) (p_registrations p) (p_submissions p).
Definition pending_origins (b : bool) (p : MaintenanceProgress) : MaintenanceProgress :=
  mkProgress (p_control p) (p_legacy p) b (p_engine p) (p_registrations p) (p_submissions p).
Definition pending_engine (b : bool) (p : MaintenanceProgress) : MaintenanceProgress :=
  mkProgress (p_control p) (p_legacy p) (p_origins p) b (p_registrations p) (p_submissions p).
Definition pending_registrations (b : bool) (p : MaintenanceProgress) : MaintenanceProgress :=
  mkProgress (p_control p) (p_legacy p) (p_origins p) (p_engine p) b (p_submissions p).
Definition pending_submissions (b : bool) (p : MaintenanceProgress) : MaintenanceProgress :=
  mkProgress (p_control p) (p_legacy p) (p_origins p) (p_engine p) (p_registrations p) b.

(** *** [OriginRetentionCursor] *)

Definition set_after_id (after : option string) (c : OriginRetentionCursor) : OriginRetentionCursor :=
  mkCursor (oc_origin c) after (oc_pending c) (oc_visited c) (oc_finished c).

Definition enter (c : OriginRetentionCursor) (origin : origin_key) : bool * OriginRetentionCursor :=
  let visited := {[origin]} ∪ oc_visited c in
  if bool_decide (origin ∈ oc_finished c) then
    (false, mkCursor origin None (oc_pending c) visited (oc_finished c))
  else
    (true, mkCursor origin (oc_pending c !! origin) (delete origin (oc_pending c)) visited
             (oc_finished c)).

Definition resume_after_pass (c : OriginRetentionCursor) (previous_id : option string)
    : bool * OriginRetentionCursor :=
  match oc_after_id c with
  | Some id =>
      if bool_decide (oc_after_id c <> previous_id) then
        (true, mkCursor (oc_origin c) None (<[oc_origin c := id]> (oc_pending c)) (oc_visited c)
                 (oc_finished c))
      else
        (false, mkCursor (oc_origin c) None (oc_pending c) (oc_visited c)
                  ({[oc_origin c]} ∪ oc_finished c))
  | None =>
      (false, mkCursor (oc_origin c) None (oc_pending c) (oc_visited c)
                ({[oc_origin c]} ∪ oc_finished c))
  end.

Definition finish_round (c : OriginRetentionCursor) : bool * OriginRetentionCursor :=
  let kept := filter (fun kv => kv.1 ∈ oc_visited c) (oc_pending c) in
  (bool_decide (kept <> ∅), mkCursor (0%Z, 0%N) None kept ∅ (oc_finished c)).

Definition finish_slice (w : worker_state) : bool * worker_state :=
  let more := has_work (pending w) in
  (more, if more then w
         else set_origin_cursor default_cursor (set_pending (fun _ => progress_new) w)).

(** ** Constants *)

Definition TERMINAL_INSTANCE_MAX_KEEP : N := 10000.
Definition RECLAIM_BATCH : N := 1000.
Definition ORIGIN_BATCH : N := 1.
Definition ORIGIN_ENGINE_BATCH : N := 100.

(** ** The queries *)

Section Queries.
Context {U : UuidCrate} {CO : Collation}.

Definition terminal (r : retention_row) : bool :=
  match rr_status r with
  | Some s => existsb (String.eqb s) ["completed"; "failed"; "cancelled"]
  | None => false
  end.
(** [COALESCE(completed_at, created_at)] *)
Definition terminal_at (r : retention_row) : option Z :=
  match rr_completed_at r with Some t => Some t | None => rr_created_at r end.

(** [ORDER BY terminal_at DESC NULLS LAST, id DESC] *)
Definition newer (a b : retention_row) : Prop :=
  match terminal_at a, terminal_at b with
  | Some x, Some y => (y < x)%Z \/ x = y /\ id_le (rr_id b) (rr_id a) = true
  | Some _, None => True
  | None, Some _ => False
  | None, None => id_le (rr_id b) (rr_id a) = true
  end.
#[global] Instance newer_dec : RelDecision newer.
Proof. intros a b. unfold newer. destruct (terminal_at a), (terminal_at b); apply _. Defined.

Definition terminal_instances (snap : instances_snapshot) : list retention_row :=
  merge_sort newer (filter (fun r => terminal r = true) (rows snap)).

(** [terminal_at < now() - make_interval(days => ..)] *)
Definition older (snap : instances_snapshot) (retention_days : Z) (r : retention_row) : bool :=
  match terminal_at r with Some t => (t <? days_ago snap retention_days)%Z | None => false end.

(** [terminal_rank > max_keep OR older] over [row_number()], from 1. *)
Definition expired_ids (snap : instances_snapshot) (retention_days : Z) (max_keep : N) : list string :=
  omap (fun '(i, r) => if (max_keep <? N.of_nat (S i))%N || older snap retention_days r
    then Some (rr_id r) else None)
    (imap pair (terminal_instances snap)).

Definition select_expired_instance_ids_tx (snap : instances_snapshot) (retention_days : Z)
    (max_keep : N) (after_id : option string) (limit : N) : list string :=
  page limit after_id (expired_ids snap retention_days max_keep).

Record OriginRetentionCandidate := mkCandidate {
  c_id : string;
  c_terminal_rank : N;
  c_expired_by_age : bool;
}.
Definition is_expired (max_keep : N) (c : OriginRetentionCandidate) : bool :=
  (max_keep <? c_terminal_rank c)%N || c_expired_by_age c.

(** [WITH retained AS (.. LIMIT max_keep) .. older OR NOT EXISTS (.. retained ..)] *)
Definition origin_retention_candidates (snap : instances_snapshot) (retention_days : Z)
    (after_id : option string) (max_keep limit : N) : list OriginRetentionCandidate :=
  let retained := map rr_id (take (N.to_nat max_keep) (terminal_instances snap)) in
  map (fun id => mkCandidate id (max_keep + 1) false)
    (page limit after_id
     (map rr_id (filter (fun r => terminal r && (older snap retention_days r ||
         bool_decide (rr_id r ∉ retained)) = true) (rows snap)))).

(** [SELECT id FROM df.instances WHERE id = ANY($1)] *)
Definition present_ids (snap : instances_snapshot) (ids : list string) : list string :=
  filter (fun id => id ∈ ids) (map rr_id (rows snap)).

(** [(database_oid, installation_id) > ..] *)
Definition origin_lt (a b : origin_key) : bool :=
  (a.1 <? b.1)%Z || ((a.1 =? b.1)%Z && (a.2 <? b.2)%N).
Definition origin_le (a b : origin_key) : Prop := origin_lt b a = false.
#[global] Instance origin_le_dec : RelDecision origin_le.
Proof. intros a b. unfold origin_le. apply _. Defined.

Definition origins_after (p : provider_snapshot) (after : origin_key) (limit : N) : list origin_key :=
  take (N.to_nat limit) (merge_sort origin_le (filter (fun k => origin_lt after k = true) (registered p))).

Definition namespace (k : origin_key) : string :=
  "pgdf-" +:+ show_Z k.1 +:+ "-" +:+ uuid_simple k.2 +:+ "-".

(** [ORDER BY i.instance_id] *)
Definition record_le (a b : engine_record) : Prop := text_le (er_instance_id a) (er_instance_id b).
#[global] Instance record_le_dec : RelDecision record_le.
Proof. intros a b. unfold record_le. apply _. Defined.

(** The roots of the engine that belong to a registered origin, with their
    status. *)
Definition registered_roots (p : provider_snapshot) (after : string) (limit : N)
    : list (string * string) :=
  let roots := filter (fun r => text_gt (er_instance_id r) after && bool_decide (er_parent r = None)
                       && negb (str_contains "::" (er_instance_id r))
                       && existsb (fun k => starts_with (namespace k) (er_instance_id r)) (registered p) = true)
      (engine_records p) in
  map (fun r => (er_instance_id r, er_status r))
    (take (N.to_nat limit) (merge_sort record_le roots)).

(** The failed roots of the control database. *)
Definition legacy_failed_roots (p : provider_snapshot) (after : string) (limit : N) : list string :=
  page limit (Some after) (map er_instance_id (filter (fun r =>
    String.eqb (er_status r) "Failed" && negb (starts_with "pgdf-" (er_instance_id r))
    && negb (str_contains "::" (er_instance_id r)) && bool_decide (er_parent r = None) = true)
    (engine_records p))).

(** [NOT EXISTS (SELECT 1 FROM {table} ..)] of each of the six tables. *)
Definition no_work (p : provider_snapshot) (id : string) : bool := bool_decide (id ∉ work_ids p).

Definition submissions_after (p : provider_snapshot) (after : string) (limit : N) : list string :=
  page limit (Some after) (submissions p).
Definition retired_submissions (p : provider_snapshot) (ids : list string) : list string :=
  filter (fun id => id ∈ ids /\ no_work p id = true) (submissions p).

(** What the deleting statements leave. *)
Definition delete_registration (p : provider_snapshot) (k : origin_key) (prefix : string)
    : provider_snapshot :=
  if existsb (starts_with prefix) (work_ids p) then p
  else mkProvider (engine_records p) (filter (fun k' => k' <> k) (registered p)) (submissions p)
    (work_ids p).
Definition delete_submissions (p : provider_snapshot) (ids : list string) : provider_snapshot :=
  mkProvider (engine_records p) (registered p)
    (filter (fun id => ~ (id ∈ ids /\ no_work p id = true)) (submissions p)) (work_ids p).

(** ** Pure parts *)

Definition is_sub_orchestration (id : string) : bool :=
  starts_with "sub::" id || str_contains "::sub::" id ||
  match lineage_parse id with Some l => is_composed l | None => false end.

Definition origin_local_id (origin : Origin) (engine : string) : option string :=
  if str_contains "::" engine || negb (bool_decide (from_engine_id engine = Ok (Some origin)))
  then None else strip_prefix (engine_id origin "") engine.

Definition select_origin_orphans (origin : Origin) (failed_ids present_local_ids : list string)
    : list string :=
  filter (fun engine => match origin_local_id origin engine with
    | Some local => bool_decide (local ∉ present_local_ids)
    | None => false end = true) failed_ids.

Definition select_orphans (failed_ids present : list string) : list string :=
  filter (fun id => bool_decide (from_engine_id id = Ok None)
          && (negb (is_sub_orchestration id) && bool_decide (id ∉ present)) = true) failed_ids.

(** [u32::try_from(database_oid)] *)
Definition oid_of (database_oid : Z) : option N :=
  if (0 <=? database_oid)%Z && (database_oid <=? Z.of_N u32_max)%Z then Some (Z.to_N database_oid)
  else None.

Definition group_key : Type := option (N * N).
(** [BTreeMap<Option<(u32, Uuid)>, _>]: [None] first. *)
Definition group_lt (a b : group_key) : bool :=
  match a, b with
  | None, Some _ => true
  | Some (x, u), Some (y, v) => (x <? y)%N || ((x =? y)%N && (u <? v)%N)
  | _, None => false
  end.
(** [by_origin.entry(key).or_default().push(x)] on entries sorted by key. *)
Fixpoint push_entry {A} (k : group_key) (x : A) (l : list (group_key * list A))
    : list (group_key * list A) :=
  match l with
  | [] => [(k, [x])]
  | (k', xs) :: l' =>
      if bool_decide (k = k') then (k', xs ++ [x]) :: l'
      else if group_lt k k' then (k, [x]) :: l
      else (k', xs) :: push_entry k x l'
  end.
Definition origin_group (o : option Origin) : group_key :=
  match o with Some o => Some (database_oid o, installation_id o) | None => None end.
Definition group_origin (k : group_key) : option Origin :=
  match k with Some (d, u) => Some (mkOrigin d u) | None => None end.
End Queries.

(** ** The pass *)

Definition job (A : Type) : Type := @act worker_state wop answer A.
Definition request (o : wop) : job (answer o) := call o.
Definition set (f : worker_state -> worker_state) : job unit := update f.
(** [log!(..)] *)
Definition log_line : job unit := Pure tt.
Definition timeout {A} (p : job A) : job (option A) := interrupt Elapsed (fun b => b) p.
Definition lift {A E} (r : result A E) : job (result A E) := Pure r.

Section Pass.
Context {U : UuidCrate} {CO : Collation}.

(** *** Expired instances *)

Definition select_expired_instance_ids (retention_days : Z) : job (result (list string) string) :=
  let* after := gets control_cursor in
  let*? snap := request (ReadInstances None) in
  let ids := select_expired_instance_ids_tx snap retention_days TERMINAL_INSTANCE_MAX_KEEP after RECLAIM_BATCH in
  let* _ := set (set_control_cursor
                 (if Nat.eqb (length ids) (N.to_nat RECLAIM_BATCH) then last ids else None)) in
  Pure (Ok ids).

Definition delete_expired_instances (ids : list string) (origin : option Origin)
    : job (result (list string * Z) string) :=
  if bool_decide (ids = []) then Pure (Ok ([], 0%Z)) else request (DeleteRows origin ids).

(** Roots whose engine record is deleted or was absent. *)
Fixpoint retire_engine_records (ids : list string) : job (list string) :=
  match ids with
  | [] => Pure []
  | id :: ids' =>
      if is_sub_orchestration id then retire_engine_records ids'
      else
        let* r := request (DeleteInstance id) in
        let* retired := retire_engine_records ids' in
        match r with
        | Ok _ | Err InstanceNotFound => Pure (id :: retired)
        | Err _ => Pure retired
        end
  end.

Definition sweep_control (retention_days : Z) : job unit :=
  let* r := select_expired_instance_ids retention_days in
  match r with
  | Ok [] => set (set_pending (pending_control false))
  | Ok candidates =>
      let* more := gets (fun w => bool_decide (is_Some (control_cursor w))) in
      let* _ := set (set_pending (pending_control more)) in
      let* retired := retire_engine_records candidates in
      if bool_decide (retired = []) then Pure tt
      else let* _ := delete_expired_instances retired None in log_line
  | Err _ => set (fun w => set_control_cursor None (set_pending (pending_control false) w))
  end.

(** *** Orphans of the control database *)

(** [retention_cutoff_ms]: durations in nanoseconds, before 1970 as 1970. *)
Definition retention_cutoff_ms (retention : N) : job N :=
  let* now := request SystemTime in
  Pure (((default 0 now - retention) / NANOS_PER_MILLI) mod 2 ^ 64)%N.

Definition delete_old (orphans : list string) (retention : N) : job (result N string) :=
  let* cutoff := retention_cutoff_ms retention in
  request (DeleteInstanceBulk orphans cutoff RECLAIM_BATCH).

Definition legacy_orphan_candidates : job (result (list string) string) :=
  let* after := gets legacy_cursor in
  let*? p := request ReadProvider in
  let candidates := legacy_failed_roots p after RECLAIM_BATCH in
  let* _ := set (set_legacy_cursor (default "" (last candidates))) in
  Pure (Ok candidates).

Definition reclaim_orphaned_instances (retention : N) : job (result N string) :=
  let*? candidates := legacy_orphan_candidates in
  if bool_decide (candidates = []) then Pure (Ok 0%N)
  else
    let*? snap := request (ReadInstances None) in
    let orphans := select_orphans candidates (present_ids snap candidates) in
    if bool_decide (orphans = []) then Pure (Ok 0%N)
    else delete_old (take (N.to_nat RECLAIM_BATCH) orphans) retention.

Definition sweep_legacy (retention : N) : job unit :=
  let* r := reclaim_orphaned_instances retention in
  let* _ := match r with Ok _ => log_line | Err _ => set (set_legacy_cursor "") end in
  set (fun w => set_pending (pending_legacy (negb (str_is_empty (legacy_cursor w)))) w).

(** *** Retention in the registered origins *)

Definition set_after (after : option string) : job unit :=
  set (fun w => set_origin_cursor (set_after_id after (origin_cursor w)) w).

Definition retire_origin_candidates (candidates : list OriginRetentionCandidate) (max_keep : N)
    (retire : string -> job (result unit string)) : job (result unit string) :=
  let* _ := if bool_decide (map c_id candidates = []) then set_after None else Pure tt in
  try_each (fun candidate =>
    let* _ := set_after (Some (c_id candidate)) in
    if is_expired max_keep candidate then retire (c_id candidate) else Pure (Ok tt)) candidates.

Definition retire_origin (origin : Origin) (local_id : string) : job (result unit string) :=
  let engine := engine_id origin local_id in
  match origin_local_id origin engine with
  | None => Pure (Ok tt)
  | Some _ =>
      let* r := request (DeleteInstance engine) in
      match r with
      | Ok _ | Err InstanceNotFound =>
          let*? _ := delete_expired_instances [local_id] (Some origin) in Pure (Ok tt)
      | Err InstanceStillRunning => Pure (Ok tt)
      | Err (OtherClientError e) => Pure (Err ("retire origin engine record: " +:+ e))
      end
  end.

Definition retire_origin_instances (origin : Origin) (retention_days : Z) : job (result unit string) :=
  let* after := gets (fun w => oc_after_id (origin_cursor w)) in
  let*? snap := request (ReadInstances (Some origin)) in
  let candidates := origin_retention_candidates snap retention_days after
      TERMINAL_INSTANCE_MAX_KEEP RECLAIM_BATCH in
  let full_page := Nat.eqb (length candidates) (N.to_nat RECLAIM_BATCH) in
  let*? _ := retire_origin_candidates candidates TERMINAL_INSTANCE_MAX_KEEP (retire_origin origin) in
  let* _ := if full_page then Pure tt else set_after None in
  Pure (Ok tt).

(** The registered origins of one batch. *)
Definition sweep_origin (retention_days : Z) (k : origin_key) : job (result unit string) :=
  let* entered := gets (fun w => (enter (origin_cursor w) k).1) in
  let* _ := set (fun w => set_origin_cursor (enter (origin_cursor w) k).2 w) in
  if negb entered then Pure (Ok tt)
  else
    let*? oid := lift (ok_or (oid_of k.1) "Invalid registered database OID") in
    let origin := mkOrigin oid k.2 in
    let* previous_id := gets (fun w => oc_after_id (origin_cursor w)) in
    let* _ := timeout (let*? _ := request (Connect origin) in retire_origin_instances origin retention_days) in
    let* _ := set (fun w => set_origin_cursor (resume_after_pass (origin_cursor w) previous_id).2 w) in
    Pure (Ok tt).

Definition sweep_registered_origins (retention_days : Z) : job (result bool string) :=
  let* after := gets (fun w => oc_origin (origin_cursor w)) in
  let*? p := request ReadProvider in
  match origins_after p after ORIGIN_BATCH with
  | [] =>
      let* more := gets (fun w => (finish_round (origin_cursor w)).1) in
      let* _ := set (fun w => set_origin_cursor (finish_round (origin_cursor w)).2 w) in
      Pure (Ok more)
  | origins => let*? _ := try_each (sweep_origin retention_days) origins in Pure (Ok true)
  end.

Definition sweep_origins (retention_days : Z) : job unit :=
  let* r := sweep_registered_origins retention_days in
  match r with
  | Ok more => set (set_pending (pending_origins more))
  | Err _ => set (fun w => set_origin_cursor default_cursor (set_pending (pending_origins false) w))
  end.

(** *** Orphans of the origins *)

(** [probe_origin_installation]: its statements in order. *)
Definition probe_result (origin : Origin) (v : probe_view) : result bool string :=
  if negb (pv_database_oid v =? Z.of_N (database_oid origin))%Z then
    Err "Origin database changed during absence probe"
  else if negb (pv_owned v) then Ok true
  else let? _ := pv_attested v in Ok (negb (pv_installation_matches v)).

Definition origin_is_removed (origin : Origin) : job (result bool string) :=
  let*? database := request (DatabaseName (database_oid origin)) in
  match database with
  | None => Pure (Ok true)
  | Some database =>
      let*? _ := request (OpenProbe database) in
      let* v := request (ReadProbe origin) in
      let r := let? v := v in probe_result origin v in
      let*? _ := request CloseProbe in
      lift r
  end.

Definition reclaim_existing_origin (origin : Origin) (records : list (string * string)) (retention : N)
    : job (result N string) :=
  let failed := map fst (filter (fun r => r.2 = "Failed") records) in
  let local_ids := omap (origin_local_id origin) failed in
  if bool_decide (local_ids = []) then Pure (Ok 0%N)
  else
    let*? snap := request (ReadInstances (Some origin)) in
    let orphans := select_origin_orphans origin failed (present_ids snap local_ids) in
    if bool_decide (orphans = []) then Pure (Ok 0%N) else delete_old orphans retention.

Fixpoint cancel_removed (origin : Origin) (records : list (string * string))
    : job (result (list string) string) :=
  match records with
  | [] => Pure (Ok [])
  | (engine, status) :: records' =>
      match origin_local_id origin engine with
      | None => cancel_removed origin records'
      | Some _ =>
          let*? _ := if String.eqb status "Running"
            then request (CancelInstance engine "pg_durable origin installation removed")
            else Pure (Ok tt) in
          let*? roots := cancel_removed origin records' in
          Pure (Ok (engine :: roots))
      end
  end.

Definition reclaim_removed_origin (origin : Origin) (records : list (string * string)) (retention : N)
    : job (result N string) :=
  let*? roots := cancel_removed origin records in
  if bool_decide (roots = []) then Pure (Ok 0%N) else delete_old roots retention.

Definition reclaim_origin (origin : Origin) (records : list (string * string)) (retention : N)
    : job (result N string) :=
  let* route := request (Connect origin) in
  match route with
  | Ok _ => reclaim_existing_origin origin records retention
  | Err route_error =>
      let*? removed := origin_is_removed origin in
      if removed then reclaim_removed_origin origin records retention else Pure (Err route_error)
  end.

(** The records that carry an origin, by origin. *)
Definition by_origin (candidates : list (string * string)) : list (group_key * list (string * string)) :=
  fold_left (fun groups '(engine, status) =>
    match from_engine_id engine with
    | Ok (Some o) => push_entry (origin_group (Some o)) (engine, status) groups
    | _ => groups
    end) candidates [].

Definition reclaim_group (retention : N) (group : group_key * list (string * string)) : job unit :=
  match group_origin group.1 with
  | Some origin => let* _ := timeout (reclaim_origin origin group.2 retention) in log_line
  | None => Pure tt
  end.

Definition reclaim_origin_instances (retention : N) : job (result unit string) :=
  let* after := gets engine_cursor in
  let*? p := request ReadProvider in
  let candidates := registered_roots p after ORIGIN_ENGINE_BATCH in
  let* _ := set (set_engine_cursor (match last candidates with Some (id, _) => id | None => "" end)) in
  let* _ := each (reclaim_group retention) (by_origin candidates) in
  Pure (Ok tt).

Definition sweep_engine (retention : N) : job unit :=
  let* r := reclaim_origin_instances retention in
  let* _ := match r with Ok _ => Pure tt | Err _ => set (set_engine_cursor "") end in
  set (fun w => set_pending (pending_engine (negb (str_is_empty (engine_cursor w)))) w).

(** *** Registrations *)

Definition cleanup_origin_registrations : job (result bool string) :=
  let* after := gets registration_cursor in
  let*? p := request ReadProvider in
  match origins_after p after 1 with
  | [] => let* _ := set (set_registration_cursor (0%Z, 0%N)) in Pure (Ok false)
  | k :: _ =>
      let* _ := set (set_registration_cursor k) in
      let*? oid := lift (ok_or (oid_of k.1) "Invalid registered database OID") in
      let origin := mkOrigin oid k.2 in
      let* removed := timeout (origin_is_removed origin) in
      let*? removed := lift (match removed with
                             | Some r => r | None => Err "Registration absence probe timed out" end) in
      if negb removed then Pure (Ok true)
      else
        let*? _ := request (DeleteRegistration k.1 k.2 (engine_id origin "")) in
        Pure (Ok true)
  end.

Definition sweep_registrations : job unit :=
  let* r := cleanup_origin_registrations in
  match r with
  | Ok more => set (set_pending (pending_registrations more))
  | Err _ => set (fun w => set_pending
                  (pending_registrations (negb ((registration_cursor w).1 =? 0)%Z)) w)
  end.

(** *** Submission accounting *)

Definition submissions_without_metadata (origin : option Origin) (ids : list string)
    : job (result (list string) string) :=
  let*? local_ids := lift (collect_results (fun id =>
    match origin with
    | Some origin => ok_or (origin_local_id origin id) ("Invalid submission instance ID: " +:+ id)
    | None => Ok id
    end) ids) in
  let*? snap := request (ReadInstances origin) in
  let present := present_ids snap local_ids in
  Pure (Ok (map fst (filter (fun p => p.2 ∉ present) (zip ids local_ids)))).

Definition submission_group (candidates : list string) (origin : option Origin)
    : job (result (list string) string) :=
  match origin with
  | Some o =>
      let* r := timeout (
        let* route := request (Connect o) in
        match route with
        | Ok _ => submissions_without_metadata (Some o) candidates
        | Err error =>
            let*? removed := origin_is_removed o in
            if removed then Pure (Ok candidates) else Pure (Err error)
        end) in
      lift (default (Err "Submission metadata lookup timed out") r)
  | None => submissions_without_metadata None candidates
  end.

Fixpoint removable_submissions (groups : list (group_key * list string)) : job (list string) :=
  match groups with
  | [] => Pure []
  | (k, candidates) :: groups' =>
      let* r := submission_group candidates (group_origin k) in
      let* rest := removable_submissions groups' in
      Pure (match r with Ok ids => ids ++ rest | Err _ => rest end)
  end.

(** [Origin::from_engine_id(&id)?] of each. *)
Definition group_submissions (ids : list string) : result (list (group_key * list string)) string :=
  fold_left (fun groups id =>
    let? groups := groups in
    let? origin := from_engine_id id in
    Ok (push_entry (origin_group origin) id groups)) ids (Ok []).

Definition cleanup_submissions : job (result bool string) :=
  let* after := gets submission_cursor in
  let*? p := request ReadProvider in
  let ids := submissions_after p after RECLAIM_BATCH in
  (* each statement of the transaction has a snapshot of its own *)
  let*? p := request ReadProvider in
  let*? groups := lift (group_submissions (retired_submissions p ids)) in
  let* removable := removable_submissions groups in
  let*? _ := if bool_decide (removable = []) then Pure (Ok tt) else request (DeleteSubmissions removable) in
  let more := Nat.eqb (length ids) (N.to_nat RECLAIM_BATCH) in
  let* _ := set (set_submission_cursor (if more then default "" (last ids) else "")) in
  Pure (Ok more).

Definition sweep_submissions : job unit :=
  let* r := cleanup_submissions in
  match r with
  | Ok more => set (set_pending (pending_submissions more))
  | Err _ => set (fun w => set_submission_cursor "" (set_pending (pending_submissions false) w))
  end.

(** *** One slice *)

Definition if_pending (f : MaintenanceProgress -> bool) (p : job unit) : job unit :=
  let* b := gets (fun w => f (pending w)) in if b then p else Pure tt.

Definition maintenance (retention_days : Z) : job bool :=
  let retention := from_secs (Z.to_N retention_days * 86400) in
  let* _ := if_pending p_control (sweep_control retention_days) in
  let* _ := if_pending p_legacy (sweep_legacy retention) in
  let* _ := if_pending p_origins (sweep_origins retention_days) in
  let* _ := if_pending p_engine (sweep_engine retention) in
  let* _ := if_pending p_registrations sweep_registrations in
  let* _ := if_pending p_submissions sweep_submissions in
  let* more := gets (fun w => (finish_slice w).1) in
  let* _ := set (fun w => (finish_slice w).2) in
  Pure more.
End Pass.
