(* ===== verification/RetentionSpec.v ===== *)
(** Retention ([Maintenance]): the queries select the same instances in every
    database, and the cursor of the control database reaches every outdated
    instance. *)
From S2P Require Import Prelude RustString Sql Effects Origin Lineage Maintenance.

(** ** The retention queries *)

Section Queries.
Context {U : UuidCrate} {CO : Collation} {COL : CollationLaws CO}.

#[local] Instance newer_trans : Transitive newer.
Proof.
  intros a b c. unfold newer. destruct (terminal_at a), (terminal_at b), (terminal_at c); try done.
  - intros [H1|[H1 H1']] [H2|[H2 H2']]; [left; lia..|]. right. split; [congruence|]. by eapply id_le_trans.
  - intros H1 H2. by eapply id_le_trans.
Qed.
#[local] Instance newer_total : Total newer.
Proof.
  intros a b. unfold newer. destruct (terminal_at a) as [x|], (terminal_at b) as [y|]; try tauto.
  - destruct (Z.lt_trichotomy x y) as [H|[->|H]]; [by right; left| |by left; left].
    destruct (id_le_total (rr_id a) (rr_id b)); [right|left]; by right.
  - destruct (id_le_total (rr_id a) (rr_id b)); tauto.
Qed.

(** The [i]-th newest of the terminal rows is beyond the cap, or a terminal row is
    too old. *)
Definition outdated (snap : instances_snapshot) (retention_days : Z) (max_keep : N) (id : string) : Prop :=
  exists i r, terminal_instances snap !! i = Some r /\ rr_id r = id /\
  ((max_keep <= N.of_nat i)%N \/ older snap retention_days r = true).

Lemma terminal_elem snap r : r ∈ terminal_instances snap <-> r ∈ rows snap /\ terminal r = true.
Proof. unfold terminal_instances. rewrite elem_of_merge_sort, list_elem_of_filter. tauto. Qed.

Lemma expired_outdated snap days keep id :
  id ∈ expired_ids snap days keep <-> outdated snap days keep id.
Proof.
  unfold expired_ids, outdated. rewrite list_elem_of_omap. split.
  - intros ([i r] & Hin & H). apply list_elem_of_lookup in Hin as [j Hj].
    rewrite list_lookup_imap in Hj. destruct (terminal_instances snap !! j) as [r'|] eqn:Hr; [|done].
    injection Hj as <- <-. exists j, r'. split; [done|].
    destruct (N.ltb_spec keep (N.of_nat (S j))), (older snap days r'); simplify_eq/=;
      (split; [done|]); (by left; lia) || by right.
  - intros (i & r & Hr & <- & H). exists (i, r). split.
    + apply list_elem_of_lookup. exists i. by rewrite list_lookup_imap, Hr.
    + destruct H as [H| ->]; [|by rewrite orb_true_r].
      by destruct (N.ltb_spec keep (N.of_nat (S i))); [|lia].
Qed.

(** What the satellite query selects, before its page. *)
Definition unretained (snap : instances_snapshot) (days : Z) (keep : N) : list retention_row :=
  filter (fun r => terminal r && (older snap days r ||
                                  bool_decide (rr_id r ∉ map rr_id (take (N.to_nat keep) (terminal_instances snap)))) = true) (rows snap).

Lemma unretained_outdated snap days keep r :
  r ∈ unretained snap days keep -> outdated snap days keep (rr_id r).
Proof.
  unfold unretained. rewrite list_elem_of_filter, andb_true_iff, orb_true_iff, bool_decide_eq_true.
  intros [[Ht H] Hr]. assert (Hin : r ∈ terminal_instances snap) by by apply terminal_elem.
  apply list_elem_of_lookup in Hin as [i Hi]. exists i, r. split_and!; [done|done|].
  destruct H as [H|H]; [by right|left]. destruct (decide (i < N.to_nat keep)); [|lia]. destruct H.
  apply list_elem_of_fmap. exists r. split; [done|]. apply list_elem_of_lookup. exists i.
  by rewrite lookup_take_lt.
Qed.

Context (snap : instances_snapshot) (Hids : NoDup (map rr_id (rows snap))).

Lemma terminal_ids_unique : NoDup (map rr_id (terminal_instances snap)).
Proof.
  change (NoDup (rr_id <$> terminal_instances snap)). unfold terminal_instances. rewrite merge_sort_Permutation.
  eapply sublist_NoDup; [exact Hids|]. apply fmap_sublist, sublist_filter.
Qed.

Lemma outdated_unretained days keep id :
  outdated snap days keep id -> id ∈ map rr_id (unretained snap days keep).
Proof.
  intros (i & r & Hi & <- & H). apply list_elem_of_fmap. exists r. split; [done|].
  pose proof (list_elem_of_lookup_2 _ _ _ Hi) as [Hr Ht]%terminal_elem.
  unfold unretained. rewrite list_elem_of_filter, andb_true_iff, orb_true_iff, bool_decide_eq_true.
  split_and!; [done| |done]. destruct H as [H|H]; [right|by left].
  intros (r' & E & [j [Hj Hlt]%lookup_take_Some]%list_elem_of_lookup)%list_elem_of_fmap.
  assert (i = j); [|lia]. apply (NoDup_lookup _ i j (rr_id r) terminal_ids_unique).
  - by rewrite list_lookup_fmap, Hi.
  - rewrite list_lookup_fmap, Hj. cbn. by rewrite E.
Qed.

Lemma page_perm limit after l1 l2 : l1 ≡ₚ l2 -> page limit after l1 = page limit after l2.
Proof.
  intros H. unfold page. f_equal. apply (StronglySorted_unique text_le); [apply (merge_sort_sorted text_le)..|].
  by rewrite !merge_sort_Permutation, H.
Qed.

(** A selection by position and row keeps the order. *)
Lemma selected_sublist (p : nat -> retention_row -> bool) l :
  omap (fun '(i, r) => if p i r then Some (rr_id r) else None) (imap pair l) `sublist_of` map rr_id l.
Proof.
  revert p. induction l as [|r l IH]; intros p; [done|]. cbn. specialize (IH (fun i => p (S i))).
  assert (E : omap (fun '(i, r) => if p i r then Some (rr_id r) else None) (imap (pair ∘ S) l) =
    omap (fun '(i, r) => if p (S i) r then Some (rr_id r) else None) (imap pair l)).
  { assert (imap (pair ∘ S) l = prod_map S (fun r : retention_row => r) <$> imap pair l) as ->
      by by rewrite fmap_imap.
    clear IH. induction (imap pair l) as [|[i x] ps IHps]; [reflexivity|]. cbn. by rewrite IHps. }
  rewrite E. destruct (p 0 r); [by apply sublist_skip|by apply sublist_cons].
Qed.

Lemma expired_ids_unique days keep : NoDup (expired_ids snap days keep).
Proof.
  unfold expired_ids. eapply sublist_NoDup; [exact terminal_ids_unique|]. apply selected_sublist.
Qed.

Lemma unretained_perm days keep :
  expired_ids snap days keep ≡ₚ map rr_id (unretained snap days keep).
Proof.
  apply NoDup_Permutation; [apply expired_ids_unique| |].
  - change (NoDup (rr_id <$> unretained snap days keep)). eapply sublist_NoDup; [exact Hids|].
    apply fmap_sublist, sublist_filter.
  - intros id. rewrite expired_outdated. split; [apply outdated_unretained|].
    intros (r & -> & Hr)%list_elem_of_fmap. by apply unretained_outdated.
Qed.

(** C18: retention keeps the same instances in every database.  The query of the
    control database, which ranks all terminal rows, and the query of an origin,
    which excludes the newest, select the same page of ids whatever the cursor;
    an id is selected exactly if its instance is terminal and beyond the cap or too
    old; every candidate of an origin counts as expired; and at most as many terminal
    instances as the cap allows are left, none of them too old. *)
Theorem retention_queries_agree days keep after limit :
  select_expired_instance_ids_tx snap days keep after limit =
    map c_id (origin_retention_candidates snap days after keep limit) /\
  Forall (fun c => is_expired keep c = true) (origin_retention_candidates snap days after keep limit) /\
  (forall id, id ∈ expired_ids snap days keep <-> outdated snap days keep id) /\
  (length (filter (fun r => rr_id r ∉ expired_ids snap days keep) (terminal_instances snap)) <= N.to_nat keep) /\
  (forall r, r ∈ terminal_instances snap -> rr_id r ∉ expired_ids snap days keep -> older snap days r = false).
Proof.
  split_and!.
  - unfold select_expired_instance_ids_tx, origin_retention_candidates. cbv zeta. rewrite map_map.
    change (fun x : string => c_id (mkCandidate x (keep + 1) false)) with (fun x : string => x).
    rewrite map_id. apply page_perm, unretained_perm.
  - apply Forall_forall. intros c (id & -> & _)%list_elem_of_fmap. unfold is_expired. cbn.
    by destruct (N.ltb_spec keep (keep + 1)); [|lia].
  - apply expired_outdated.
  - rewrite <- (take_drop (N.to_nat keep) (terminal_instances snap)) at 1. rewrite filter_app.
    rewrite (filter_none _ (drop _ _)).
    + rewrite app_nil_r. etransitivity; [apply length_filter|]. rewrite length_take. lia.
    + intros r [i Hi]%list_elem_of_lookup Hn. rewrite lookup_drop in Hi. apply Hn, expired_outdated.
      exists (N.to_nat keep + i), r. split_and!; [done|done|left; lia].
  - intros r [i Hi]%list_elem_of_lookup Hn. apply not_true_iff_false. intros Ho. apply Hn, expired_outdated.
    exists i, r. eauto.
Qed.
End Queries.

(** ** The cursor reaches everything *)

Section Progress.
Context {U : UuidCrate} {CO : Collation} {COL : CollationLaws CO} (retention_days : Z).

Lemma page_sorted limit after l : StronglySorted text_le (page limit after l).
Proof.
  unfold page. eapply StronglySorted_app_1_l with (l2 := drop _ _). rewrite take_drop.
  apply (merge_sort_sorted text_le).
Qed.

Lemma page_elem limit after l id : id ∈ page limit after l ->
  id ∈ l /\ forall a, after = Some a -> text_gt id a = true.
Proof.
  unfold page. intros H. eapply elem_of_sublist in H; [|apply sublist_take].
  rewrite elem_of_merge_sort, list_elem_of_filter in H. destruct H as [H Hl]. split; [done|].
  by intros a ->.
Qed.

(** An id beyond the cursor is on the page, or beyond the cursor that a full page
    leaves. *)
Lemma page_covers limit after l id :
  (0 < limit)%N -> id ∈ l -> (forall a, after = Some a -> text_gt id a = true) ->
  id ∈ page limit after l \/
  length (page limit after l) = N.to_nat limit /\
  exists x, last (page limit after l) = Some x /\ text_gt id x = true.
Proof.
  intros Hlim Hid Hafter. unfold page. set (s := merge_sort text_le _).
  assert (Hs : id ∈ s).
  { apply elem_of_merge_sort, list_elem_of_filter. split; [|done]. destruct after; [by apply Hafter|done]. }
  destruct (decide (id ∈ take (N.to_nat limit) s)) as [|Hn]; [by left|right].
  assert (Hd : id ∈ drop (N.to_nat limit) s).
  { rewrite <- (take_drop (N.to_nat limit) s), elem_of_app in Hs. tauto. }
  assert (Hlen : length (take (N.to_nat limit) s) = N.to_nat limit).
  { rewrite length_take. apply list_elem_of_lookup in Hd as [j Hj%lookup_lt_Some].
    rewrite length_drop in Hj. lia. }
  split; [done|]. destruct (last (take (N.to_nat limit) s)) as [x|] eqn:Hx.
  - exists x. split; [done|]. apply last_Some_elem_of in Hx. unfold text_gt. apply negb_true_iff, not_true_iff_false.
    intros Hle. apply Hn. assert (id = x) as ->; [|done]. apply id_le_antisymm; [done|].
    assert (Hsort : StronglySorted text_le s) by apply (merge_sort_sorted text_le).
    rewrite <- (take_drop (N.to_nat limit) s) in Hsort. apply StronglySorted_app in Hsort as (H & _ & _).
    by apply H.
  - apply last_None in Hx. rewrite Hx in Hlen. cbn in Hlen. lia.
Qed.

(** *** One sweep *)

Definition event : Type := @Effects.event wop answer.
Definition any (h : list event) (o : wop) : Prop := True.

Lemma retire_asks ids h w :
  wp any h (retire_engine_records ids) w (fun h' _ w' => w' = w /\
      forall id, id ∈ ids -> is_sub_orchestration id = false -> exists a, Ev (DeleteInstance id) a ∈ h').
Proof.
  revert h w. induction ids as [|id ids IH]; intros h w; cbn [retire_engine_records].
  { split; [done|]. by intros id ?%elem_of_nil. }
  destruct (is_sub_orchestration id) eqn:Hsub.
  - eapply wp_mono; [apply IH|]. cbn. intros tr _ w' [-> H]. split; [done|].
    intros x [->|Hx]%elem_of_cons Hs; [congruence|by apply H].
  - apply wp_bind. split; [done|]. intros r. apply wp_bind. eapply wp_mono; [apply IH|]. cbn.
    intros tr retired w' [-> H].
    assert (Hall : forall x, x ∈ id :: ids -> is_sub_orchestration x = false ->
      exists a, Ev (DeleteInstance x) a ∈ (h ++ [Ev (DeleteInstance id) r]) ++ tr).
    { intros x [->|Hx]%elem_of_cons Hs; [exists r; set_solver|by apply H]. }
    by destruct r as [|[]].
Qed.

(** What the first call of a sweep read. *)
Definition read_of (tr : list event) : option (result instances_snapshot string) :=
  match tr with Ev (ReadInstances None) a :: _ => Some a | _ => None end.

(** The page of a sweep that read [snap] with the cursor [after]. *)
Definition control_page (snap : instances_snapshot) (after : option string) : list string :=
  select_expired_instance_ids_tx snap retention_days TERMINAL_INSTANCE_MAX_KEEP after RECLAIM_BATCH.

Definition asked (tr : list event) (id : string) : Prop := exists a, Ev (DeleteInstance id) a ∈ tr.

Lemma sweep_control_does w tr w' :
  does (sweep_control retention_days) w tr tt w' ->
  exists r, read_of tr = Some r /\
  match r with
  | Err _ => control_cursor w' = None
  | Ok snap =>
      let ids := control_page snap (control_cursor w) in
      control_cursor w' = (if Nat.eqb (length ids) (N.to_nat RECLAIM_BATCH) then last ids else None) /\
      forall id, id ∈ ids -> is_sub_orchestration id = false -> asked tr id
  end.
Proof.
  intros (r & tr' & -> & H). exists r. split; [done|].
  revert H. destruct r as [snap|e]; cbn [try_act bind_act does]; [|by intros (-> & _ & ->)].
  fold (control_page snap (control_cursor w)). set (ids := control_page snap (control_cursor w)).
  set (c := if Nat.eqb _ _ then _ else _). destruct ids as [|id ids'] eqn:Hids.
  { intros (-> & _ & ->). split; [done|]. by intros id ?%elem_of_nil. }
  intros H.
  assert (Hwp : wp any [Ev (ReadInstances None) (Ok snap)]
    (let* retired := retire_engine_records ids in
    if bool_decide (retired = []) then Pure tt
    else let* _ := delete_expired_instances retired None in log_line)
    (set_pending (pending_control (bool_decide (is_Some c))) (set_control_cursor c w))
    (fun h' _ w' => control_cursor w' = c /\
    forall id, id ∈ ids -> is_sub_orchestration id = false -> asked h' id)).
  { apply wp_bind. eapply wp_mono; [apply retire_asks|]. cbn. intros tr retired w1 [-> Hall].
    case_bool_decide; [done|]. unfold delete_expired_instances. case_bool_decide; [done|]. split; [done|].
    intros a. split; [done|]. intros x Hx Hs. destruct (Hall x Hx Hs) as [b Hb]. exists b. set_solver. }
  rewrite Hids in Hwp. destruct (wp_sound _ _ _ _ _ _ _ _ Hwp H) as [HQ _]. exact HQ.
Qed.

(** *** A round of sweeps *)

(** Sweeps from the start of the table until a page is not full. *)
Inductive control_round : worker_state -> list (list event) -> Prop :=
  | round_ends w tr w' :
      does (sweep_control retention_days) w tr tt w' -> control_cursor w' = None -> control_round w [tr]
  | round_goes_on w tr w' trs :
      does (sweep_control retention_days) w tr tt w' -> control_cursor w' <> None ->
      control_round w' trs -> control_round w (tr :: trs).

(** The sweep read an instance as outdated. *)
Definition reads_outdated (id : string) (tr : list event) : Prop :=
  exists snap, read_of tr = Some (Ok snap) /\ outdated snap retention_days TERMINAL_INSTANCE_MAX_KEEP id.

Lemma control_page_elem snap after id : id ∈ control_page snap after ->
  outdated snap retention_days TERMINAL_INSTANCE_MAX_KEEP id /\ forall a, after = Some a -> text_gt id a = true.
Proof. intros [H1 H2]%page_elem. split; [by apply expired_outdated|done]. Qed.

Lemma round_asks w trs id :
  control_round w trs -> (forall a, control_cursor w = Some a -> text_gt id a = true) ->
  is_sub_orchestration id = false -> Forall (reads_outdated id) trs ->
  exists tr, tr ∈ trs /\ asked tr id.
Proof.
  intros Hr. induction Hr as [w tr w' Hd Hend|w tr w' trs Hd Hgo Hr IH]; intros Hafter Hsub Hout;
    apply Forall_cons in Hout as [(snap & Hread & Ho) Hout];
    destruct (sweep_control_does _ _ _ Hd) as (r & Hr' & H); rewrite Hread in Hr'; injection Hr' as <-;
    cbv zeta in H; destruct H as [Hc Hask];
    destruct (page_covers RECLAIM_BATCH (control_cursor w)
    (expired_ids snap retention_days TERMINAL_INSTANCE_MAX_KEEP) id) as [Hp|(Hfull & x & Hx & Hgt)];
    try done; try (by apply expired_outdated); try (by exists tr; split; [by left|by apply Hask]);
    unfold control_page, select_expired_instance_ids_tx in Hc; rewrite Hfull, Nat.eqb_refl, Hx in Hc.
  - congruence.
  - destruct IH as (tr' & Hin & Hasked); [|done|done|exists tr'; split; [by right|done]].
    intros a Ha. rewrite Hc in Ha. by injection Ha as <-.
Qed.

(** The ids of [l] beyond a cursor. *)
Definition beyond (l : list string) (after : option string) : list string :=
  filter (fun id => match after with Some a => text_gt id a | None => true end = true) l.

Definition unique_within (universe : list string) (tr : list event) : Prop :=
  forall snap, read_of tr = Some (Ok snap) -> NoDup (map rr_id (rows snap)) /\
  forall id, outdated snap retention_days TERMINAL_INSTANCE_MAX_KEEP id -> id ∈ universe.

(** A full page takes its ids off what is left. *)
Lemma full_page_progress universe snap after x :
  NoDup universe -> NoDup (map rr_id (rows snap)) ->
  (forall id, outdated snap retention_days TERMINAL_INSTANCE_MAX_KEEP id -> id ∈ universe) ->
  last (control_page snap after) = Some x ->
  length (control_page snap after) + length (beyond universe (Some x)) <= length (beyond universe after).
Proof.
  intros Hu Hids Hin Hlast.
  assert (Hnd : NoDup (control_page snap after)).
  { unfold control_page, select_expired_instance_ids_tx, page. eapply sublist_NoDup; [|apply sublist_take].
    rewrite merge_sort_Permutation. by apply NoDup_filter, expired_ids_unique. }
  assert (Hle : forall id, id ∈ control_page snap after -> id_le id x = true).
  { intros id Hid. pose proof (page_sorted RECLAIM_BATCH after
      (expired_ids snap retention_days TERMINAL_INSTANCE_MAX_KEEP)) as Hs.
    change (page _ _ _) with (control_page snap after) in Hs.
    apply last_Some in Hlast as [l El]. rewrite El in Hs, Hid. apply StronglySorted_app in Hs as (H & _ & _).
    apply elem_of_app in Hid as [Hid| ->%list_elem_of_singleton]; [by apply H; [|left]|].
    by destruct (id_le_total x x). }
  assert (Hx : forall a, after = Some a -> text_gt x a = true).
  { intros a Ha. apply last_Some_elem_of in Hlast. by apply (control_page_elem snap after x). }
  rewrite <- length_app. apply submseteq_length, NoDup_submseteq.
  - apply NoDup_app. split_and!; [done| |by apply NoDup_filter].
    intros id Hid [Hgt _]%list_elem_of_filter. unfold text_gt in Hgt. by rewrite (Hle id Hid) in Hgt.
  - intros id [Hid|[Hgt Hid]%list_elem_of_filter]%elem_of_app; apply list_elem_of_filter.
    + destruct (control_page_elem _ _ _ Hid) as [Ho Ha]. split; [destruct after; [by apply Ha|done]|by apply Hin].
    + split; [|done]. destruct after as [a|]; [|done]. specialize (Hx a eq_refl). unfold text_gt in *.
      apply negb_true_iff, not_true_iff_false. intros Hia. apply negb_true_iff, not_true_iff_false in Hgt, Hx.
      apply Hx. eapply id_le_trans; [|exact Hia]. by destruct (id_le_total x id).
Qed.

Lemma round_bound w trs universe :
  control_round w trs -> NoDup universe -> Forall (unique_within universe) trs ->
  N.to_nat RECLAIM_BATCH * (length trs - 1) <= length (beyond universe (control_cursor w)).
Proof.
  intros Hr Hu. induction Hr as [w tr w' Hd Hend|w tr w' trs Hd Hgo Hr IH]; intros Hall; [cbn; lia|].
  apply Forall_cons in Hall as [H Hall]. specialize (IH Hall).
  destruct (sweep_control_does _ _ _ Hd) as ([snap|e] & Hread & Hc); [|done]. cbv zeta in Hc. destruct Hc as [Hc _].
  destruct (H snap Hread) as [Hids Hin].
  destruct (Nat.eqb_spec (length (control_page snap (control_cursor w))) (N.to_nat RECLAIM_BATCH)) as [Hfull|]; [|done].
  destruct (last (control_page snap (control_cursor w))) as [x|] eqn:Hx; [|done].
  pose proof (full_page_progress universe snap (control_cursor w) x Hu Hids Hin Hx) as Hp.
  rewrite Hfull in Hp. rewrite Hc in IH.
  assert (1 <= length trs) by (destruct Hr; cbn; lia). cbn [length].
  replace (S (length trs) - 1) with (S (length trs - 1)) by lia. lia.
Qed.

(** C17: retention gets past instances it cannot retire.  In a round of sweeps over
    the control database, from the start of the table until a page is not full, the
    engine is asked to delete every instance that all sweeps of the round read as
    outdated, whatever it answers for the others and however the table changes in
    between; and a round over [n] outdated ids takes at most [n / 1000 + 1] sweeps. *)
Theorem control_retention_progress w trs universe :
  control_cursor w = None -> control_round w trs -> NoDup universe -> Forall (unique_within universe) trs ->
  (forall id, is_sub_orchestration id = false -> Forall (reads_outdated id) trs ->
   exists tr, tr ∈ trs /\ asked tr id) /\
  N.to_nat RECLAIM_BATCH * (length trs - 1) <= length universe.
Proof.
  intros Hw Hr Hu Hall. split.
  - intros id Hsub Hout. apply (round_asks w); [done| |done|done]. by rewrite Hw.
  - etransitivity; [by apply round_bound|]. apply length_filter.
Qed.
End Progress.

(** ** A concrete instance *)

#[local] Existing Instance sample_uuid.
#[local] Existing Instance sample_collation.
#[local] Existing Instance sample_collation_laws.

(** Two old instances, one of which the engine does not let go. *)
Definition sample_snapshot : instances_snapshot := {|
  rows := [mkRetention "0000000a" (Some "cancelled") (Some 5%Z) None;
           mkRetention "0000000b" (Some "completed") (Some 1%Z) (Some 7%Z);
           mkRetention "0000000c" (Some "running") (Some 2%Z) None];
  days_ago := fun _ => 1000%Z;
|}.
Definition sample_world : list event -> forall o, answer o := fun _ o =>
  match o with
  | ReadInstances _ => Ok sample_snapshot
  | DeleteRows _ ids => Ok (ids, 0%Z)
  | ReadProvider => Ok (mkProvider [] [] [] [])
  | DeleteInstance id => if String.eqb id "0000000a" then Err InstanceStillRunning else Ok tt
  | DeleteInstanceBulk _ _ _ => Ok 0%N
  | CancelInstance _ _ => Ok tt
  | SystemTime => Some 0%N
  | Connect _ => Err "unavailable"
  | DatabaseName _ => Ok None
  | OpenProbe _ => Ok tt
  | ReadProbe _ => Err "unavailable"
  | CloseProbe => Ok tt
  | DeleteRegistration _ _ _ => Ok tt
  | DeleteSubmissions _ => Ok tt
  | Elapsed => false
  end.

Lemma sample_ids_unique : NoDup (map rr_id (rows sample_snapshot)).
Proof. apply NoDup_ListNoDup. repeat constructor; simpl; intuition discriminate. Qed.

Lemma retention_queries_agree_witness :
  select_expired_instance_ids_tx sample_snapshot 30 1 (Some "00000000") 10 = ["0000000a"; "0000000b"] /\
  select_expired_instance_ids_tx sample_snapshot 30 1 (Some "00000000") 10 =
    map c_id (origin_retention_candidates sample_snapshot 30 (Some "00000000") 1 10).
Proof.
  split; [vm_compute; reflexivity|].
  apply (retention_queries_agree sample_snapshot sample_ids_unique 30 1 (Some "00000000") 10).
Defined.

Definition sample_sweep : list event := snd (eval sample_world [] (sweep_control 30) worker_start).

Lemma control_retention_progress_witness :
  control_round 30 worker_start [sample_sweep] /\
  exists tr, tr ∈ [sample_sweep] /\ asked tr "0000000b".
Proof.
  assert (Hr : control_round 30 worker_start [sample_sweep]).
  { destruct (eval_does sample_world [] (sweep_control 30) worker_start) as (tr & E & H).
    apply (round_ends 30 _ _ (snd (fst (eval sample_world [] (sweep_control 30) worker_start))));
      [|vm_compute; reflexivity].
    replace sample_sweep with tr; [exact H|]. unfold sample_sweep. rewrite E. reflexivity. }
  split; [exact Hr|].
  assert (Hread : read_of sample_sweep = Some (Ok sample_snapshot)) by (vm_compute; reflexivity).
  assert (Hout : forall id, outdated sample_snapshot 30 TERMINAL_INSTANCE_MAX_KEEP id <-> id ∈ ["0000000a"; "0000000b"]).
  { intros id. rewrite <- expired_outdated.
    replace (expired_ids sample_snapshot 30 TERMINAL_INSTANCE_MAX_KEEP) with ["0000000b"; "0000000a"]
      by (vm_compute; reflexivity). set_solver. }
  destruct (control_retention_progress 30 worker_start [sample_sweep] ["0000000a"; "0000000b"]) as [H _].
  - reflexivity.
  - exact Hr.
  - apply NoDup_ListNoDup. repeat constructor; simpl; intuition discriminate.
  - apply Forall_singleton. intros snap Hs. rewrite Hread in Hs. injection Hs as <-.
    split; [exact sample_ids_unique|]. intros id. apply Hout.
  - apply H; [vm_compute; reflexivity|]. apply Forall_singleton. exists sample_snapshot.
    split; [exact Hread|]. apply Hout. set_solver.
Defined.
