(* ===== verification/OriginRetentionSpec.v ===== *)
(** The retention cycle over the registered origins leaves none out
    ([Maintenance.sweep_registered_origins]). *)
From S2P Require Import Prelude RustString Sql Effects Origin Lineage Maintenance RetentionSpec.

Section Cycle.
Context {U : UuidCrate} {CO : Collation} (retention_days : Z).

(** ** One sweep *)

(** A pass over an origin moves only the cursor within the origin. *)
Definition only_after (c : OriginRetentionCursor) (w : worker_state) : Prop :=
  exists after, origin_cursor w = set_after_id after c.

Lemma keeps_set_after c after : keeps (only_after c) (set_after after).
Proof. intros w [a Ha]. split; [|done]. exists after. cbn. by rewrite Ha. Qed.

Lemma keeps_retire_origin c origin local : keeps (only_after c) (retire_origin origin local).
Proof.
  unfold retire_origin. destruct (origin_local_id _ _); [|done]. apply keeps_bind_act; [done|].
  intros [[]|[]]; try done; apply keeps_try; try done; unfold delete_expired_instances; by case_bool_decide.
Qed.

Lemma keeps_pass c origin :
  keeps (only_after c) (timeout (let*? _ := request (Connect origin) in
    retire_origin_instances origin retention_days)).
Proof.
  apply keeps_interrupt, keeps_try; [done|]. intros _. unfold retire_origin_instances.
  apply keeps_bind_act; [done|]. intros after. apply keeps_try; [done|]. intros snap. apply keeps_try.
  - unfold retire_origin_candidates. apply keeps_bind_act; [case_bool_decide; [apply keeps_set_after|done]|].
    intros _. apply keeps_try_each. intros x. apply keeps_bind_act; [apply keeps_set_after|]. intros _.
    destruct (is_expired _ _); [apply keeps_retire_origin|done].
  - intros _. apply keeps_bind_act; [|done]. destruct (Nat.eqb _ _); [done|apply keeps_set_after].
Qed.

(** The registered origins a sweep read. *)
Definition registered_of (tr : list event) : option (result (list origin_key) string) :=
  match tr with Ev ReadProvider a :: _ => Some (map_ok registered a) | _ => None end.

Definition connected (tr : list event) (k : origin_key) : Prop :=
  exists oid a, oid_of k.1 = Some oid /\ Ev (Connect (mkOrigin oid k.2)) a ∈ tr.

(** What a sweep that does not fail does to the cursor. *)
Definition swept (c : OriginRetentionCursor) (next : option origin_key) (tr : list event) (more : bool)
    (c' : OriginRetentionCursor) : Prop :=
  match next with
  | None => more = (finish_round c).1 /\ c' = (finish_round c).2
  | Some k =>
      let entered := (enter c k).2 in
      more = true /\
      if (enter c k).1
      then connected tr k /\
        exists after, c' = (resume_after_pass (set_after_id after entered) (oc_after_id entered)).2
      else c' = entered
  end.

Lemma sweep_origins_does w tr more w' :
  does (sweep_registered_origins retention_days) w tr (Ok more) w' ->
  exists p, registered_of tr = Some (Ok (registered p)) /\
  swept (origin_cursor w) (head (origins_after p (oc_origin (origin_cursor w)) ORIGIN_BATCH)) tr more
    (origin_cursor w').
Proof.
  intros ([p|e] & tr' & -> & H); [|by destruct H as (_ & [=] & _)].
  exists p. split; [done|]. revert H. cbn [try_act bind_act].
  destruct (origins_after p _ _) as [|k l] eqn:Ho.
  { intros (-> & [= ->] & ->). done. }
  assert (l = []) as ->.
  { assert (Hlen : length (k :: l) <= 1) by (rewrite <- Ho; unfold origins_after; rewrite length_take; change (N.to_nat ORIGIN_BATCH) with 1; lia).
    destruct l; [done|cbn in Hlen; lia]. }
  cbn [head swept try_each]. unfold try_act at 1. rewrite does_bind.
  intros (tr1 & tr2 & r & w1 & -> & H1 & H2). destruct r as [[]|e]; [|by destruct H2 as (_ & [=] & _)].
  destruct H2 as (-> & [= ->] & ->). split; [done|]. unfold try_act at 1 in H1. rewrite does_bind in H1.
  destruct H1 as (tr3 & tr4 & r & w2 & -> & H1 & H2). destruct r as [[]|e]; [|by destruct H2 as (_ & [=] & _)].
  destruct H2 as (-> & _ & ->). revert H1. unfold sweep_origin. cbn [does gets set update bind_act].
  destruct (enter (origin_cursor w) k) as [[] entered] eqn:He; cbn [fst snd negb].
  2: { intros (-> & _ & ->). done. }
  unfold try_act at 1, lift. cbn [bind_act]. destruct (oid_of k.1) as [oid|] eqn:Hoid; cbn [ok_or];
    [|by intros (_ & [=] & _)].
  cbn [does gets set update bind_act]. rewrite does_bind.
  intros (tr5 & tr6 & r & w3 & -> & H1 & H2). split.
  - destruct H1 as (a & tr7 & -> & _). exists oid, a. split; [done|]. rewrite !app_nil_r. set_solver.
  - assert (Hkeep : only_after entered w3).
    { eapply keeps_does; [apply keeps_pass| |exact H1]. exists (oc_after_id entered). cbn. by destruct entered. }
    destruct Hkeep as [after Hw3]. exists after. destruct H2 as (_ & _ & ->). cbn. by rewrite Hw3.
Qed.

(** ** A whole cycle *)

(** Sweeps until one says that there is no more. *)
Inductive origin_cycle : worker_state -> list (list event) -> worker_state -> Prop :=
  | cycle_ends w tr w' :
      does (sweep_registered_origins retention_days) w tr (Ok false) w' -> origin_cycle w [tr] w'
  | cycle_goes_on w tr w' trs w'' :
      does (sweep_registered_origins retention_days) w tr (Ok true) w' -> origin_cycle w' trs w'' ->
      origin_cycle w (tr :: trs) w''.

(** An origin that has been passed in this round is finished or pending. *)
Definition followed (k : origin_key) (C : Prop) (c : OriginRetentionCursor) : Prop :=
  (k ∈ oc_finished c \/ is_Some (oc_pending c !! k) -> C) /\
  (origin_lt (oc_origin c) k = false -> k ∈ oc_visited c /\ (k ∈ oc_finished c \/ is_Some (oc_pending c !! k))).

Lemma origin_lt_spec a b : origin_lt a b = true <-> (a.1 < b.1)%Z \/ a.1 = b.1 /\ (a.2 < b.2)%N.
Proof. unfold origin_lt. rewrite orb_true_iff, andb_true_iff, Z.ltb_lt, Z.eqb_eq, N.ltb_lt. done. Qed.
Lemma origin_lt_total a b : origin_lt a b = true \/ a = b \/ origin_lt b a = true.
Proof.
  rewrite !origin_lt_spec. destruct a as [x u], b as [y v]; cbn.
  destruct (Z.lt_trichotomy x y) as [H|[->|H]]; [by left; left| |by right; right; left].
  destruct (N.lt_trichotomy u v) as [H|[->|H]]; [by left; right|by right; left|by right; right; right].
Qed.
#[local] Instance origin_le_trans : Transitive origin_le.
Proof.
  intros a b c. unfold origin_le. rewrite <- !not_true_iff_false, !origin_lt_spec.
  destruct a, b, c; cbn. lia.
Qed.
#[local] Instance origin_le_total : Total origin_le.
Proof.
  intros a b. unfold origin_le. rewrite <- !not_true_iff_false, !origin_lt_spec. destruct a, b; cbn. lia.
Qed.

(** The next origin is the least one after the cursor. *)
Lemma next_origin p after k :
  k ∈ registered p -> origin_lt after k = true ->
  exists n, head (origins_after p after ORIGIN_BATCH) = Some n /\ (n = k \/ origin_lt n k = true).
Proof.
  intros Hk Hlt. unfold origins_after. change (N.to_nat ORIGIN_BATCH) with 1.
  set (s := merge_sort origin_le _).
  assert (Hin : k ∈ s) by (by apply elem_of_merge_sort, list_elem_of_filter).
  assert (Hs : StronglySorted origin_le s) by apply (merge_sort_sorted origin_le).
  destruct s as [|n s]; [by apply elem_of_nil in Hin|]. exists n. split; [done|].
  apply elem_of_cons in Hin as [->|Hin]; [by left|]. apply StronglySorted_cons in Hs as [Hn _].
  rewrite Forall_forall in Hn. specialize (Hn k Hin). unfold origin_le in Hn.
  destruct (origin_lt_total n k) as [H|[H|H]]; [by right|by left|congruence].
Qed.

Lemma next_after p after n : head (origins_after p after ORIGIN_BATCH) = Some n -> origin_lt after n = true.
Proof.
  unfold origins_after. intros H. assert (Hin : n ∈ merge_sort origin_le (filter (fun k => origin_lt after k = true) (registered p))).
  { destruct (merge_sort _ _) as [|x l]; [done|]. injection H as ->. by left. }
  rewrite elem_of_merge_sort in Hin. by apply list_elem_of_filter in Hin as [? _].
Qed.

Lemma swept_followed c p tr more c' k C :
  k ∈ registered p -> origin_lt (0%Z, 0%N) k = true -> followed k C c ->
  swept c (head (origins_after p (oc_origin c) ORIGIN_BATCH)) tr more c' ->
  followed k (C \/ connected tr k) c' /\ (more = false -> k ∈ oc_finished c' /\ C).
Proof.
  intros Hk H0 [HC Hf] Hs. destruct (head _) as [n|] eqn:Hn; cbn [swept] in Hs.
  - destruct Hs as [-> Hs]. split; [|done].
    assert (Horder : n = k \/ origin_lt n k = true \/ origin_lt (oc_origin c) k = false).
    { destruct (origin_lt (oc_origin c) k) eqn:E; [|by right; right].
      destruct (next_origin p _ k Hk E) as (n' & Hn' & H). rewrite Hn' in Hn. injection Hn as ->. tauto. }
    unfold enter in Hs. case_bool_decide as Hfin; cbn [fst snd] in Hs.
    + subst c'. split; cbn; [tauto|]. intros Hlt. split; [|].
      * destruct Horder as [->|[E|E]]; [set_solver|congruence|]. destruct (Hf E). set_solver.
      * destruct Horder as [->|[E|E]]; [by left|congruence|]. by apply Hf.
    + destruct Hs as [Hconn [after ->]]. cbn [oc_after_id].
      assert (Hgen : forall fin pend, (forall x, x <> n -> (x ∈ fin <-> x ∈ oc_finished c) /\
        (pend !! x = oc_pending c !! x)) -> (n ∈ fin \/ is_Some (pend !! n)) ->
        followed k (C \/ connected tr k) (mkCursor n None pend ({[n]} ∪ oc_visited c) fin)).
      { intros fin pend Hother Hself. split; cbn.
        - destruct (decide (k = n)) as [->|Hne]; [by right|]. destruct (Hother k Hne) as [-> ->]. tauto.
        - intros Hlt. destruct (decide (k = n)) as [->|Hne]; [split; [set_solver|done]|].
          destruct (Hother k Hne) as [-> ->].
          destruct Horder as [->|[E|E]]; [done|congruence|]. destruct (Hf E). split; [set_solver|done]. }
      unfold resume_after_pass. cbn [oc_after_id set_after_id oc_origin oc_pending oc_visited oc_finished].
      assert (Hfinish : followed k (C \/ connected tr k) (mkCursor n None (delete n (oc_pending c))
        ({[n]} ∪ oc_visited c) ({[n]} ∪ oc_finished c))).
      { apply Hgen; [|left; by apply elem_of_union_l, elem_of_singleton]. intros x Hx. split.
        - rewrite elem_of_union, elem_of_singleton. tauto.
        - by rewrite lookup_delete_ne. }
      destruct after as [a|]; [case_bool_decide|]; cbn [snd]; [|exact Hfinish..].
      apply Hgen; [|right; by rewrite lookup_insert_eq]. intros x Hx. split; [done|].
      by rewrite lookup_insert_ne, lookup_delete_ne.
  - destruct Hs as [-> ->]. unfold finish_round. cbn [fst snd].
    assert (Hpast : origin_lt (oc_origin c) k = false).
    { apply not_true_iff_false. intros E. destruct (next_origin p _ k Hk E) as (n & Hn' & _). congruence. }
    destruct (Hf Hpast) as [Hvis Hfin]. specialize (HC Hfin). split.
    + split; cbn; [tauto|]. intros E. congruence.
    + intros Hmore%bool_decide_eq_false. apply dec_stable in Hmore. cbn. split; [|done].
      destruct Hfin as [|[a Ha]]; [done|].
      assert (Hl : filter (fun kv => kv.1 ∈ oc_visited c) (oc_pending c) !! k = Some a)
        by (by apply map_lookup_filter_Some).
      by rewrite Hmore, lookup_empty in Hl.
Qed.

(** C16: no origin is starved.  In a cycle of retention sweeps over the registered
    origins, from a fresh cursor until a sweep says that there is no more, every
    origin that all sweeps read as registered is connected to, and is finished at the
    end, whatever other origins come and go, fail, time out or need several passes. *)
Theorem origin_cycle_complete w trs w' k :
  origin_cursor w = default_cursor -> origin_cycle w trs w' -> origin_lt (0%Z, 0%N) k = true ->
  (forall tr keys, tr ∈ trs -> registered_of tr = Some (Ok keys) -> k ∈ keys) ->
  k ∈ oc_finished (origin_cursor w') /\ exists tr, tr ∈ trs /\ connected tr k.
Proof.
  intros Hw Hc H0 Hreg.
  assert (H : forall C, followed k C (origin_cursor w) ->
    k ∈ oc_finished (origin_cursor w') /\ (C \/ exists tr, tr ∈ trs /\ connected tr k)).
  { clear Hw. induction Hc as [w tr w' Hd|w tr w1 trs w' Hd Hc IH]; intros C Hf;
      destruct (sweep_origins_does _ _ _ _ Hd) as (p & Hp & Hs);
      pose proof (Hreg tr _ ltac:(by left) Hp) as Hk;
      destruct (swept_followed _ _ _ _ _ k C Hk H0 Hf Hs) as [Hf' Hend].
    - destruct (Hend eq_refl). split; [done|by left].
    - destruct (IH (fun tr' keys Hin => Hreg tr' keys (list_elem_of_further _ _ _ Hin)) _ Hf') as [H1 H2].
      split; [done|]. destruct H2 as [[H2|H2]|(tr' & H2 & H3)]; [by left|right|right].
      + exists tr. split; [by left|done].
      + exists tr'. split; [by right|done]. }
  destruct (H False) as [H1 [[]|H2]]; [|done].
  rewrite Hw. split; cbn; [|by rewrite H0].
  intros [Hin|[a Ha]]; [set_solver|by rewrite lookup_empty in Ha].
Qed.
End Cycle.

(** ** A concrete instance *)

#[local] Existing Instance sample_uuid.
#[local] Existing Instance sample_collation.

Definition sample_key : origin_key := (16384%Z, 5%N).

(** One registered origin, whose database does not answer. *)
Definition satellite_world : list event -> forall o, answer o := fun h o =>
  match o return answer o with
  | ReadProvider => Ok (mkProvider [] [sample_key] [] [])
  | o => sample_world h o
  end.

Definition sweep_from (w : worker_state) : result bool string * worker_state * list event :=
  eval satellite_world [] (sweep_registered_origins 30) w.

Lemma sweep_from_does w : does (sweep_registered_origins 30) w (snd (sweep_from w)) (fst (fst (sweep_from w)))
  (snd (fst (sweep_from w))).
Proof.
  destruct (eval_does satellite_world [] (sweep_registered_origins 30) w) as (tr & E & H).
  unfold sweep_from. replace (snd (eval _ _ _ _)) with tr; [exact H|]. by rewrite E.
Qed.

Definition second_start : worker_state := snd (fst (sweep_from worker_start)).

Lemma origin_cycle_complete_witness :
  sample_key ∈ oc_finished (origin_cursor (snd (fst (sweep_from second_start)))) /\
  exists tr, tr ∈ [snd (sweep_from worker_start); snd (sweep_from second_start)] /\ connected tr sample_key.
Proof.
  apply (origin_cycle_complete 30 worker_start).
  - reflexivity.
  - apply (cycle_goes_on 30 _ _ second_start).
    + replace (Ok true) with (fst (fst (sweep_from worker_start))) by (vm_compute; reflexivity).
      apply sweep_from_does.
    + apply cycle_ends.
      replace (Ok false) with (fst (fst (sweep_from second_start))) by (vm_compute; reflexivity).
      apply sweep_from_does.
  - reflexivity.
  - intros tr keys Hin Hr. apply elem_of_cons in Hin as [->|Hin].
    + vm_compute in Hr. injection Hr as <-. by left.
    + apply list_elem_of_singleton in Hin as ->. vm_compute in Hr. injection Hr as <-. by left.
Defined.
