(* ===== verification/MaintenanceSpec.v ===== *)
(** Maintenance deletes only what nobody needs ([Maintenance]): every deletion of a
    pass is backed by what the pass has read and done before. *)
From S2P Require Import Prelude RustString Sql Effects Origin Lineage Maintenance RetentionSpec.

(** ** What a pass knows *)

Section Evidence.
Context {U : UuidCrate} {CO : Collation} (retention_days : Z).

Definition history : Type := list event.
Definition seen (h : history) (o : wop) (a : answer o) : Prop := Ev o a ∈ h.

Definition outdated_in (h : history) (origin : option Origin) (id : string) : Prop :=
  exists snap, seen h (ReadInstances origin) (Ok snap) /\
  outdated snap retention_days TERMINAL_INSTANCE_MAX_KEEP id.

(** The engine has no record of it any more. *)
Definition retired_in (h : history) (engine : string) : Prop :=
  seen h (DeleteInstance engine) (Ok tt) \/ seen h (DeleteInstance engine) (Err InstanceNotFound).

(** A root of the engine in this status. *)
Definition root_in (h : history) (engine status : string) : Prop :=
  exists p r, seen h ReadProvider (Ok p) /\ r ∈ engine_records p /\ er_instance_id r = engine /\
  er_status r = status /\ er_parent r = None /\ str_contains "::" engine = false.

Definition absent_in (h : history) (origin : option Origin) (local : string) : Prop :=
  exists snap, seen h (ReadInstances origin) (Ok snap) /\ local ∉ map rr_id (rows snap).

(** The origin's database is gone, or no longer has its installation. *)
Definition removed_in (h : history) (origin : Origin) : Prop :=
  seen h (DatabaseName (database_oid origin)) (Ok None) \/
  exists v, seen h (ReadProbe origin) (Ok v) /\ probe_result origin v = Ok true.

(** An engine record that no instance stands for: a failed root of the control
    database or of an origin without a row there, or a root of an origin that was
    removed. *)
Definition garbage (h : history) (engine : string) : Prop :=
  (from_engine_id engine = Ok None /\ is_sub_orchestration engine = false /\
   root_in h engine "Failed" /\ absent_in h None engine) \/
  (exists origin local, origin_local_id origin engine = Some local /\
   ((root_in h engine "Failed" /\ absent_in h (Some origin) local) \/
    ((exists status, root_in h engine status) /\ removed_in h origin))).

(** The ledger entry of a submission that has neither work nor a row. *)
Definition settled (h : history) (id : string) : Prop :=
  (exists p, seen h ReadProvider (Ok p) /\ id ∈ submissions p /\ id ∉ work_ids p) /\
  ((from_engine_id id = Ok None /\ absent_in h None id) \/
   exists origin, from_engine_id id = Ok (Some origin) /\
   ((exists local, origin_local_id origin id = Some local /\ absent_in h (Some origin) local) \/
    removed_in h origin)).

(** When a pass may do what. *)
Definition backed (h : history) (o : wop) : Prop :=
  match o with
  | DeleteInstance engine =>
      exists origin id, engine = engine_id_for_origin origin id /\ outdated_in h origin id
  | DeleteRows origin ids =>
      forall id, id ∈ ids -> outdated_in h origin id /\ retired_in h (engine_id_for_origin origin id)
  | DeleteInstanceBulk ids cutoff _ =>
      (forall id, id ∈ ids -> garbage h id) /\
      exists now, seen h SystemTime now /\
      cutoff = (((default 0 now - from_secs (Z.to_N retention_days * 86400)) / NANOS_PER_MILLI) mod 2 ^ 64)%N
  | CancelInstance engine _ => garbage h engine /\ root_in h engine "Running"
  | DeleteRegistration oid installation _ =>
      exists origin, Z.of_N (database_oid origin) = oid /\ installation_id origin = installation /\
      removed_in h origin
  | DeleteSubmissions ids => forall id, id ∈ ids -> settled h id
  | _ => True
  end.

(** What was seen stays seen. *)
Lemma seen_mono h h' o a : h ⊆ h' -> seen h o a -> seen h' o a.
Proof. intros H. apply H. Qed.
Lemma outdated_mono h h' origin id : h ⊆ h' -> outdated_in h origin id -> outdated_in h' origin id.
Proof. intros H (snap & Hs & Ho). exists snap. split; [by apply H|done]. Qed.
Lemma retired_mono h h' engine : h ⊆ h' -> retired_in h engine -> retired_in h' engine.
Proof. intros H [Hs|Hs]; [left|right]; by apply H. Qed.
Lemma root_mono h h' engine status : h ⊆ h' -> root_in h engine status -> root_in h' engine status.
Proof. intros H (p & r & Hp & Hr). exists p, r. split; [by apply H|done]. Qed.
Lemma absent_mono h h' origin local : h ⊆ h' -> absent_in h origin local -> absent_in h' origin local.
Proof. intros H (snap & Hs & Ho). exists snap. split; [by apply H|done]. Qed.
Lemma removed_mono h h' origin : h ⊆ h' -> removed_in h origin -> removed_in h' origin.
Proof. intros H [Hs|(v & Hv & Hr)]; [left; by apply H|right]. exists v. split; [by apply H|done]. Qed.
Lemma garbage_mono h h' engine : h ⊆ h' -> garbage h engine -> garbage h' engine.
Proof.
  intros H [(H1 & H2 & H3 & H4)|(origin & local & H1 & [[H2 H3]|[[s H2] H3]])].
  - left. split_and!; [done|done|by eapply root_mono|by eapply absent_mono].
  - right. exists origin, local. split; [done|left]. split; [by eapply root_mono|by eapply absent_mono].
  - right. exists origin, local. split; [done|right]. split; [exists s; by eapply root_mono|by eapply removed_mono].
Qed.
Lemma settled_mono h h' id : h ⊆ h' -> settled h id -> settled h' id.
Proof.
  intros H [(p & Hp & Hid) Hs]. split; [exists p; split; [by apply H|done]|].
  destruct Hs as [[H1 H2]|(origin & H1 & [(local & H2 & H3)|H2])].
  - left. split; [done|by eapply absent_mono].
  - right. exists origin. split; [done|left]. exists local. split; [done|by eapply absent_mono].
  - right. exists origin. split; [done|right]. by eapply removed_mono.
Qed.
Lemma backed_mono : monotone backed.
Proof.
  intros h h' o H. destruct o; cbn [backed]; try done.
  - intros Hd id Hid. destruct (Hd id Hid). split; [by eapply outdated_mono|by eapply retired_mono].
  - intros (origin & id & -> & Ho). exists origin, id. split; [done|by eapply outdated_mono].
  - intros [Hg (now & Hn & ->)]. split; [intros; by eapply garbage_mono; [|apply Hg]|].
    exists now. split; [by apply H|done].
  - intros [Hg Hr]. split; [by eapply garbage_mono|by eapply root_mono].
  - intros (origin & H1 & H2 & H3). exists origin. split_and!; [done|done|by eapply removed_mono].
  - intros Hs id Hid. by eapply settled_mono; [|apply Hs].
Qed.
End Evidence.

Create HintDb evidence.
#[export] Hint Resolve outdated_mono retired_mono root_mono absent_mono removed_mono garbage_mono
  settled_mono : evidence.
#[export] Hint Extern 1 (_ ⊆ _) => set_solver : evidence.
#[export] Hint Extern 1 (seen _ _ _) => unfold seen; set_solver : evidence.

(** ** Every deletion is backed *)

Section Safety.
Context {U : UuidCrate} {CO : Collation} (retention_days : Z).

Definition known {A} (p : job A) (h : history) (w : worker_state) (Q : history -> A -> Prop) : Prop :=
  wp (backed retention_days) h p w (fun h' a _ => h ⊆ h' /\ Q h' a).

(** *** Rules *)

Lemma known_pure {A} (a : A) h w (Q : history -> A -> Prop) : Q h a -> known (Pure a) h w Q.
Proof. split; [set_solver|done]. Qed.

Lemma known_bind {A B} (p : job A) (k : A -> job B) h w P Q :
  known p h w P ->
  (forall h' a w', h ⊆ h' -> P h' a -> known (k a) h' w' Q) ->
  known (bind_act p k) h w Q.
Proof.
  intros Hp Hk. apply wp_bind. eapply wp_mono; [exact Hp|]. cbn. intros tr a w' [Hs Ha].
  eapply wp_mono; [by apply Hk|]. cbn. intros tr' b w'' [Hs' Hb]. split; [|done].
  by etransitivity.
Qed.

Lemma known_try {A B E} (p : job (result A E)) (k : A -> job (result B E)) h w P Q :
  known p h w P ->
  (forall h' a w', h ⊆ h' -> P h' (Ok a) -> known (k a) h' w' Q) ->
  (forall h' e, h ⊆ h' -> P h' (Err e) -> Q h' (Err e)) ->
  known (try_act p k) h w Q.
Proof.
  intros Hp Hk He. eapply known_bind; [exact Hp|]. intros h' [a|e] w' Hs Ha; [by apply Hk|].
  apply known_pure. by apply He.
Qed.

Lemma known_request o h w (Q : history -> answer o -> Prop) :
  backed retention_days h o -> (forall a, Q (h ++ [Ev o a]) a) -> known (request o) h w Q.
Proof. intros Hb HQ. split; [done|]. intros a. split; [set_solver|apply HQ]. Qed.

Lemma known_gets {A} (f : worker_state -> A) h w : known (gets f) h w (fun h' _ => h' = h).
Proof. split; [set_solver|done]. Qed.

Lemma known_set f h w : known (set f) h w (fun h' _ => h' = h).
Proof. split; [set_solver|done]. Qed.

Lemma known_mono {A} (p : job A) h w (P Q : history -> A -> Prop) :
  known p h w P -> (forall h' a, h ⊆ h' -> P h' a -> Q h' a) -> known p h w Q.
Proof.
  intros Hp HQ. eapply wp_mono; [exact Hp|]. cbn. intros tr a w' [Hs Ha]. split; [done|by apply HQ].
Qed.

Lemma known_timeout {A} (p : job A) h w (Q : history -> A -> Prop) :
  (forall h h' a, h ⊆ h' -> Q h a -> Q h' a) -> known p h w Q ->
  known (timeout p) h w (fun h' o => match o with Some a => Q h' a | None => True end).
Proof.
  intros HQ Hp. unfold known, timeout. eapply wp_mono.
  - eapply (wp_interrupt (backed retention_days)); [apply backed_mono|done| |reflexivity|exact Hp].
    intros h1 h2 a s Hs [H1 H2]. split; [by etransitivity|by eapply HQ].
  - intros tr [a|] s'; cbn; [done|]. intros _. split; [set_solver|done].
Qed.

Lemma known_each {X} (f : X -> job unit) l h w :
  (forall x h' w, x ∈ l -> h ⊆ h' -> known (f x) h' w (fun _ _ => True)) ->
  known (each f l) h w (fun _ _ => True).
Proof.
  revert h w. induction l as [|x l IH]; intros h w Hf; cbn [each]; [by apply known_pure|].
  eapply known_bind; [apply Hf; [by left|done]|]. intros h' _ w' Hs _.
  apply IH. intros y h'' w'' Hy Hs'. apply Hf; [by right|by etransitivity].
Qed.

Lemma known_try_each {X E} (f : X -> job (result unit E)) l h w :
  (forall x h' w, x ∈ l -> h ⊆ h' -> known (f x) h' w (fun _ _ => True)) ->
  known (try_each f l) h w (fun _ _ => True).
Proof.
  revert h w. induction l as [|x l IH]; intros h w Hf; cbn [try_each]; [by apply known_pure|].
  eapply known_try; [apply Hf; [by left|done]| |done]. intros h' _ w' Hs _.
  apply IH. intros y h'' w'' Hy Hs'. apply Hf; [by right|by etransitivity].
Qed.

(** A step of a program whose result is not used as evidence. *)
Definition quiet {A} (p : job A) (h : history) (w : worker_state) : Prop := known p h w (fun _ _ => True).

Ltac step := cbv zeta;
  lazymatch goal with
  | |- quiet _ _ _ => unfold quiet; step
  | |- known (Pure _) _ _ _ => apply known_pure
  | |- known (lift _) _ _ _ => apply known_pure
  | |- known log_line _ _ _ => by apply known_pure
  | |- known (bind_act (gets _) _) _ _ _ =>
  eapply known_bind; [apply known_gets|]; intros ?hs ?a ?ws _ ->
                      | |- known (bind_act (set _) _) _ _ _ =>
                      eapply known_bind; [apply known_set|]; intros ?hs _ ?ws _ ->
                                          | |- known (bind_act (request ?o) _) ?h _ _ =>
                                          eapply known_bind;
                                          [apply (known_request o h _ (fun h' a => seen h' o a)); [|intros; unfold seen; set_solver]|]
                                          | |- known (try_act (request ?o) _) ?h _ _ =>
                                          eapply known_try;
                                          [apply (known_request o h _ (fun h' a => seen h' o a)); [|intros; unfold seen; set_solver]| |]
                                          | |- known (try_act (lift ?r) _) _ _ _ =>
                                          eapply known_try; [apply (known_pure r _ _ (fun _ a => a = r)); reflexivity| |]
                                                             | |- known (set _) _ _ _ => eapply known_mono; [apply known_set|done]
                                                             | |- known (request _) _ _ _ => apply known_request; [|done]
end.

(** *** Expired instances *)

Lemma known_select_expired h w :
  known (select_expired_instance_ids retention_days) h w (fun h1 r =>
    forall ids, r = Ok ids -> forall id, id ∈ ids -> outdated_in retention_days h1 None id).
Proof.
  unfold select_expired_instance_ids. step. step; [done| |done].
  intros h1 snap w1 _ Hs. cbv zeta. step. step. intros ids [= <-] id [Hid _]%page_elem.
  exists snap. split; [done|]. by apply expired_outdated.
Qed.

Lemma known_retire ids h w :
  (forall id, id ∈ ids -> outdated_in retention_days h None id) ->
  known (retire_engine_records ids) h w (fun h1 retired =>
    forall id, id ∈ retired -> outdated_in retention_days h1 None id /\ retired_in h1 id).
Proof.
  revert h w. induction ids as [|id ids IH]; intros h w Hids; cbn [retire_engine_records].
  { step. by intros id ?%elem_of_nil. }
  destruct (is_sub_orchestration id); [apply IH; set_solver|]. step.
  { exists None, id. split; [done|]. apply Hids. by left. }
  intros h1 r w1 Hs Hr. cbn beta in Hr. eapply known_bind.
  { apply IH. intros x Hx. eapply outdated_mono; [exact Hs|]. apply Hids. by right. }
  intros h2 retired w2 Hs' Hret.
  assert (Hhead : r = Ok tt \/ r = Err InstanceNotFound ->
    outdated_in retention_days h2 None id /\ retired_in h2 id).
  { intros Hcase. split.
    - eapply (outdated_mono _ h); [by etransitivity|]. apply Hids. by left.
    - destruct Hcase as [-> | ->]; [left|right]; by apply Hs'. }
  destruct r as [[]|[]]; step; try done;
    (intros x [->|Hx]%elem_of_cons; [apply Hhead; tauto|by apply Hret]).
Qed.

Lemma quiet_control h w : quiet (sweep_control retention_days) h w.
Proof.
  unfold sweep_control. eapply known_bind; [apply known_select_expired|].
  intros h1 [[|id ids]|e] w1 _ Hids; [step| |step].
  step. step. eapply known_bind; [apply known_retire; by apply Hids|].
  intros h2 retired w2 _ Hret. case_bool_decide; [by step|].
  apply known_bind with (P := fun _ _ => True); [|intros; by step]. unfold delete_expired_instances.
  case_bool_decide; [by step|]. step. exact Hret.
Qed.

(** *** Orphans *)

Definition retention : N := from_secs (Z.to_N retention_days * 86400).

Lemma quiet_delete_old ids h w :
  (forall id, id ∈ ids -> garbage h id) -> quiet (delete_old ids retention) h w.
Proof.
  intros Hids. unfold delete_old. apply known_bind with (P := fun h' cutoff => exists now, seen h' SystemTime now /\
    cutoff = (((default 0 now - retention) / NANOS_PER_MILLI) mod 2 ^ 64)%N).
  { unfold retention_cutoff_ms. step; [done|]. intros h1 now w1 Hs Hnow. step. by exists now. }
  intros h2 cutoff w2 Hs2 Hc. step. split; [|exact Hc].
  intros id Hid. eapply garbage_mono; [exact Hs2|by apply Hids].
Qed.

Lemma legacy_root p after limit id h :
  seen h ReadProvider (Ok p) -> id ∈ legacy_failed_roots p after limit -> root_in h id "Failed".
Proof.
  intros Hp [Hid _]%page_elem. apply list_elem_of_fmap in Hid as (r & -> & [H Hr]%list_elem_of_filter).
  rewrite !andb_true_iff, negb_true_iff, bool_decide_eq_true, String.eqb_eq in H.
  destruct H as [[[H1 _] H3] H4]. apply negb_true_iff in H3. exists p, r. done.
Qed.

Lemma absent_present h origin snap ids local :
  seen h (ReadInstances origin) (Ok snap) -> local ∈ ids -> local ∉ present_ids snap ids ->
  absent_in h origin local.
Proof.
  intros Hs Hin Hn. exists snap. split; [done|]. intros H. apply Hn. unfold present_ids.
  by apply list_elem_of_filter.
Qed.

Lemma quiet_legacy h w : quiet (sweep_legacy retention) h w.
Proof.
  unfold sweep_legacy. apply known_bind with (P := fun _ _ => True).
  2: { intros h1 r w1 _ _. destruct r; (apply known_bind with (P := fun _ _ => True); [by step|]); intros; by step. }
  unfold reclaim_orphaned_instances, legacy_orphan_candidates.
  apply known_try with (P := fun h' r => forall ids, r = Ok ids -> forall id, id ∈ ids -> root_in h' id "Failed").
  - step. step; [done| |done]. intros h1 p w1 _ Hp. step. step. intros ids [= <-] id. by eapply legacy_root.
  - intros h1 ids w1 _ Hids. case_bool_decide; [by step|]. step; [done| |done].
    intros h2 snap w2 Hs2 Hsnap. cbv zeta. case_bool_decide; [by step|]. apply quiet_delete_old.
    intros id Hid. eapply elem_of_sublist in Hid; [|apply sublist_take].
    apply list_elem_of_filter in Hid as [Hc Hid]. rewrite !andb_true_iff, !bool_decide_eq_true, negb_true_iff in Hc.
    destruct Hc as (H1 & H2 & H3). left. split_and!; [done|done| |eapply absent_present; [exact Hsnap|exact Hid|exact H3]].
    eapply root_mono; [exact Hs2|by eapply Hids].
  - done.
Qed.

(** *** Retention in the origins *)

Lemma quiet_retire_origin origin local h w :
  outdated_in retention_days h (Some origin) local -> quiet (retire_origin origin local) h w.
Proof.
  intros Ho. unfold retire_origin. cbv zeta. destruct (origin_local_id _ _); [|by step].
  step; [by exists (Some origin), local|]. intros h1 r w1 Hs Hr. cbn beta in Hr.
  assert (Hdel : r = Ok tt \/ r = Err InstanceNotFound ->
    quiet (let*? _ := delete_expired_instances [local] (Some origin) in Pure (Ok tt)) h1 w1).
  { intros Hcase. apply known_try with (P := fun _ _ => True); [|intros; by step|done].
    unfold delete_expired_instances. case_bool_decide; [by step|]. step. intros id ->%list_elem_of_singleton.
    split; [by eapply outdated_mono|]. destruct Hcase as [-> | ->]; [by left|by right]. }
  destruct r as [[]|[]]; [apply Hdel; tauto|apply Hdel; tauto|by step|by step].
Qed.

Lemma quiet_set_after after h w : quiet (set_after after) h w.
Proof. unfold set_after. by step. Qed.

Lemma quiet_retire_instances origin h w : quiet (retire_origin_instances origin retention_days) h w.
Proof.
  unfold retire_origin_instances. step. step; [done| |done]. intros h1 snap w1 _ Hsnap. cbv zeta.
  apply known_try with (P := fun _ _ => True); [|intros|done].
  - unfold retire_origin_candidates. apply known_bind with (P := fun _ _ => True).
    { case_bool_decide; [apply quiet_set_after|by step]. }
    intros h2 _ w2 Hs2 _. apply known_try_each. intros c h3 w3 Hc Hs3.
    apply known_bind with (P := fun _ _ => True); [apply quiet_set_after|]. intros h4 _ w4 Hs4 _.
    destruct (is_expired _ c); [|by step]. apply quiet_retire_origin.
    exists snap. split; [unfold seen in *; by apply Hs4, Hs3, Hs2|].
    apply list_elem_of_fmap in Hc as (id & -> & [Hid _]%page_elem). cbn.
    apply list_elem_of_fmap in Hid as (r & -> & Hr). by apply unretained_outdated.
  - apply known_bind with (P := fun _ _ => True); [|intros; by step].
    destruct (Nat.eqb _ _); [by step|apply quiet_set_after].
Qed.

Lemma quiet_timeout {A} (p : job A) h w : quiet p h w -> quiet (timeout p) h w.
Proof.
  intros Hp. eapply known_mono; [apply (known_timeout p h w (fun _ _ => True)); [done|exact Hp]|done].
Qed.

Lemma quiet_sweep_origin k h w : quiet (sweep_origin retention_days k) h w.
Proof.
  unfold sweep_origin. step. step. destruct (negb _); [by step|]. step; [|done].
  intros h1 oid w1 _ _. cbv zeta. step. apply known_bind with (P := fun _ _ => True).
  - apply quiet_timeout. step; [done| |done]. intros. apply quiet_retire_instances.
  - intros. step. by step.
Qed.

Lemma quiet_origins h w : quiet (sweep_origins retention_days) h w.
Proof.
  unfold sweep_origins. apply known_bind with (P := fun _ _ => True); [|intros h1 [r|e] w1 _ _; by step].
  unfold sweep_registered_origins. step. step; [done| |done]. intros h1 p w1 _ _.
  destruct (origins_after _ _ _) as [|k l]; [step; step; by step|].
  apply known_try with (P := fun _ _ => True); [|intros; by step|done].
  apply known_try_each. intros. apply quiet_sweep_origin.
Qed.

(** *** Orphans of the origins *)

Lemma known_origin_removed origin h w :
  known (origin_is_removed origin) h w (fun h' r => r = Ok true -> removed_in h' origin).
Proof.
  unfold origin_is_removed. step; [done| |done]. intros h1 database w1 Hs1 Hd. cbn beta in Hd.
  destruct database as [database|]; [|step; intros _; by left].
  step; [done| |done]. intros h2 _ w2 Hs2 _. step; [done|]. intros h3 v w3 Hs3 Hv. cbn beta in Hv. cbv zeta.
  step; [done| |done]. intros h4 _ w4 Hs4 _. step. destruct v as [v|]; [|done]. cbn. intros Hp.
  right. exists v. split; [by apply Hs4|done].
Qed.

Definition roots_in (h : history) (records : list (string * string)) : Prop :=
  forall x, x ∈ records -> root_in h x.1 x.2.

Lemma roots_mono h h' records : h ⊆ h' -> roots_in h records -> roots_in h' records.
Proof. intros Hs Hr x Hx. eapply root_mono; [exact Hs|by apply Hr]. Qed.

Lemma quiet_reclaim_existing origin records h w :
  roots_in h records -> quiet (reclaim_existing_origin origin records retention) h w.
Proof.
  intros Hroots. unfold reclaim_existing_origin. cbv zeta. case_bool_decide; [by step|].
  step; [done| |done]. intros h1 snap w1 Hs1 Hsnap. cbn beta in Hsnap. case_bool_decide; [by step|].
  apply quiet_delete_old. intros id [Hc Hid]%list_elem_of_filter.
  destruct (origin_local_id origin id) as [local|] eqn:Hl; [|done]. apply bool_decide_eq_true in Hc.
  right. exists origin, local. split; [done|left]. split.
  - apply list_elem_of_fmap in Hid as ([e s] & -> & [Hf Hin]%list_elem_of_filter). cbn in Hf. subst s.
    eapply root_mono; [exact Hs1|by apply (Hroots _ Hin)].
  - eapply absent_present; [exact Hsnap| |exact Hc]. apply list_elem_of_omap. by exists id.
Qed.

Lemma known_cancel_removed origin records h w :
  roots_in h records -> removed_in h origin ->
  known (cancel_removed origin records) h w (fun h' r =>
    forall roots, r = Ok roots -> forall id, id ∈ roots -> garbage h' id).
Proof.
  revert h w. induction records as [|[engine status] records IH]; intros h w Hroots Hrem; cbn [cancel_removed].
  { step. by intros roots [= <-] id ?%elem_of_nil. }
  assert (Htail : roots_in h records) by (intros x Hx; apply Hroots; by right).
  destruct (origin_local_id origin engine) as [local|] eqn:Hl; [|by apply IH].
  pose proof (Hroots (engine, status) ltac:(by left)) as Hroot. cbn in Hroot.
  assert (Hg : garbage h engine).
  { right. exists origin, local. split; [done|right]. split; [by exists status|done]. }
  apply known_try with (P := fun _ _ => True); [|intros h1 _ w1 Hs1 _|done].
  { destruct (String.eqb_spec status "Running") as [->|]; [by step|by step]. }
  eapply known_try; [apply IH; [by eapply roots_mono|by eapply removed_mono]|intros h2 roots w2 Hs2 Hr|done].
  step. intros l [= <-] id [->|Hid]%elem_of_cons; [|by eapply Hr].
  eapply (garbage_mono h); [by etransitivity|done].
Qed.

Lemma quiet_reclaim_origin origin records h w :
  roots_in h records -> quiet (reclaim_origin origin records retention) h w.
Proof.
  intros Hroots. unfold reclaim_origin. step; [done|]. intros h1 [[]|e] w1 Hs1 _.
  { apply quiet_reclaim_existing. by eapply roots_mono. }
  eapply known_try; [apply known_origin_removed|intros h2 [] w2 Hs2 Hr|done]; [|by step].
  specialize (Hr eq_refl). unfold reclaim_removed_origin.
  eapply known_try; [apply known_cancel_removed; [|exact Hr]|intros h3 roots w3 Hs3 Hg|done].
  { eapply roots_mono; [|exact Hroots]. by etransitivity. }
  case_bool_decide; [by step|]. apply quiet_delete_old. by apply Hg.
Qed.

Lemma push_entry_elem {A} k (x : A) groups g y :
  g ∈ push_entry k x groups -> y ∈ g.2 -> (g.1 = k /\ y = x) \/ exists xs, (g.1, xs) ∈ groups /\ y ∈ xs.
Proof.
  induction groups as [|[k' xs] groups IH]; cbn [push_entry].
  - intros ->%list_elem_of_singleton ->%list_elem_of_singleton. by left.
  - case_bool_decide as E; [|destruct (group_lt k k')].
    + intros [->|Hg]%elem_of_cons Hy; cbn in *.
      * apply elem_of_app in Hy as [Hy| ->%list_elem_of_singleton]; [right|by left].
        exists xs. split; [by left|done].
      * right. exists g.2. split; [right; by destruct g|done].
    + intros [->|Hg]%elem_of_cons Hy; [left; by apply list_elem_of_singleton in Hy|right].
      exists g.2. split; [by destruct g|done].
    + intros [->|Hg]%elem_of_cons Hy.
      * right. exists xs. split; [by left|done].
      * destruct (IH Hg Hy) as [?|(ys & H1 & H2)]; [by left|right]. exists ys. split; [by right|done].
Qed.

Lemma by_origin_elem candidates g y : g ∈ by_origin candidates -> y ∈ g.2 -> y ∈ candidates.
Proof.
  unfold by_origin.
  assert (H : forall l groups, (forall g y, g ∈ groups -> y ∈ g.2 -> y ∈ candidates) -> l ⊆ candidates ->
    forall g y, g ∈ fold_left (fun groups '(engine, status) =>
    match from_engine_id engine with
    | Ok (Some o) => push_entry (origin_group (Some o)) (engine, status) groups
    | _ => groups
    end) l groups -> y ∈ g.2 -> y ∈ candidates).
  { induction l as [|[e s] l IH]; intros groups Hgs Hl; [done|]. cbn [fold_left].
    apply IH; [|set_solver]. destruct (from_engine_id e) as [[o|]|]; try done.
    intros g' y' Hg Hy. destruct (push_entry_elem _ _ _ _ _ Hg Hy) as [[_ ->]|(xs & Hxs & Hy')]; [set_solver|].
    by apply (Hgs _ _ Hxs). }
  apply H; [|done]. by intros g' y' ?%elem_of_nil.
Qed.

Lemma registered_roots_in p after limit h :
  seen h ReadProvider (Ok p) -> roots_in h (registered_roots p after limit).
Proof.
  intros Hp x (r & -> & Hr)%list_elem_of_fmap. eapply elem_of_sublist in Hr; [|apply sublist_take].
  rewrite elem_of_merge_sort, list_elem_of_filter, !andb_true_iff, bool_decide_eq_true, negb_true_iff in Hr.
  destruct Hr as [[[[_ H2] H3] _] Hin]. by exists p, r.
Qed.

Lemma quiet_engine h w : quiet (sweep_engine retention) h w.
Proof.
  unfold sweep_engine. apply known_bind with (P := fun _ _ => True).
  2: { intros h1 r w1 _ _. apply known_bind with (P := fun _ _ => True); [|intros; by step].
  destruct r; by step. }
  unfold reclaim_origin_instances. step. step; [done| |done]. intros h1 p w1 _ Hp. cbn beta in Hp. cbv zeta. step.
  apply known_bind with (P := fun _ _ => True); [|intros; by step]. apply known_each.
  intros g h2 w2 Hg Hs2. unfold reclaim_group. destruct (group_origin g.1); [|by step].
  apply known_bind with (P := fun _ _ => True); [|intros; by step]. apply quiet_timeout, quiet_reclaim_origin.
  intros x Hx. eapply root_mono; [exact Hs2|]. eapply registered_roots_in; [exact Hp|]. by eapply by_origin_elem.
Qed.

(** *** Registrations *)

Lemma oid_of_ok z oid : oid_of z = Some oid -> Z.of_N oid = z.
Proof. unfold oid_of. destruct (_ && _) eqn:E; [|done]. intros [= <-]. lia. Qed.

Lemma quiet_registrations h w : quiet sweep_registrations h w.
Proof.
  unfold sweep_registrations. apply known_bind with (P := fun _ _ => True); [|intros h1 [r|e] w1 _ _; by step].
  unfold cleanup_origin_registrations. step. step; [done| |done]. intros h1 p w1 _ _.
  destruct (origins_after _ _ _) as [|k l]; [step; by step|]. step. step; [|done].
  intros h2 oid w2 _ Hoid. destruct (oid_of k.1) as [oid'|] eqn:Eo; [|done]. injection Hoid as ->. cbv zeta.
  eapply known_bind; [apply known_timeout; [|apply known_origin_removed]|].
  { intros h3 h4 r Hs Hr E. eapply removed_mono; [exact Hs|by apply Hr]. }
  intros h3 removed w3 _ Hr. step; [|done]. intros h4 [] w4 Hs4 E; cbn [negb]; [|by step].
  destruct removed as [r|]; [|done]. subst r. specialize (Hr eq_refl).
  step; [|intros; by step|done]. exists (mkOrigin oid' k.2). split_and!; [by apply oid_of_ok|done|].
  by eapply removed_mono.
Qed.

(** *** Submission accounting *)

(** The rows of a group without metadata. *)
Definition rowless (h : history) (origin : option Origin) (id : string) : Prop :=
  match origin with
  | Some o => (exists local, origin_local_id o id = Some local /\ absent_in h (Some o) local) \/ removed_in h o
  | None => absent_in h None id
  end.

Lemma rowless_mono h h' origin id : h ⊆ h' -> rowless h origin id -> rowless h' origin id.
Proof.
  intros Hs. destruct origin as [o|]; cbn; [|by apply absent_mono].
  intros [(local & Hl & Ha)|Hr]; [left|right; by eapply removed_mono].
  exists local. split; [done|by eapply absent_mono].
Qed.

Lemma known_without_metadata origin ids h w :
  known (submissions_without_metadata origin ids) h w (fun h' r =>
    forall out, r = Ok out -> forall id, id ∈ out -> id ∈ ids /\ rowless h' origin id).
Proof.
  unfold submissions_without_metadata. step; [|done]. intros h1 local_ids w1 _ Hl. cbn beta in Hl. symmetry in Hl.
  step; [done| |done]. intros h2 snap w2 _ Hsnap. cbn beta in Hsnap. cbv zeta. step.
  intros out [= <-] id ([id' local] & -> & [Hn Hz]%list_elem_of_filter)%list_elem_of_fmap. cbn in *.
  apply list_elem_of_lookup in Hz as [j Hj]. apply lookup_zip_with_Some in Hj as (a & b & [= <- <-] & Ha & Hb).
  apply collect_results_Forall2 in Hl. split; [by eapply list_elem_of_lookup_2|].
  pose proof (Forall2_lookup_lr _ _ _ _ _ _ Hl Ha Hb) as E.
  assert (Habs : absent_in h2 origin local).
  { eapply absent_present; [exact Hsnap| |exact Hn]. by eapply list_elem_of_lookup_2. }
  destruct origin as [o|]; cbn in E |- *; [|by injection E as ->].
  left. exists local. split; [|done]. by destruct (origin_local_id o id'); [injection E as ->|].
Qed.

Lemma known_submission_group candidates origin h w :
  known (submission_group candidates origin) h w (fun h' r =>
    forall out, r = Ok out -> forall id, id ∈ out -> id ∈ candidates /\ rowless h' origin id).
Proof.
  unfold submission_group. destruct origin as [o|]; [|apply known_without_metadata].
  eapply known_bind; [apply known_timeout with (Q := fun h' r =>
    forall out, r = Ok out -> forall id, id ∈ out -> id ∈ candidates /\ rowless h' (Some o) id)|].
  - intros h1 h2 r Hs Hr out E id Hid. destruct (Hr out E id Hid). split; [done|by eapply rowless_mono].
  - step; [done|]. intros h1 [[]|e] w1 _ _; [apply known_without_metadata|].
    eapply known_try; [apply known_origin_removed|intros h2 removed w2 _ Hr|done].
    destruct removed; [|by step]. step. intros out [= <-] id Hid. split; [done|]. right. by apply Hr.
  - intros h1 [r|] w1 _ Hr; step; [exact Hr|done].
Qed.

Lemma known_removable groups h w :
  known (removable_submissions groups) h w (fun h' out =>
    forall id, id ∈ out -> exists g, g ∈ groups /\ id ∈ g.2 /\ rowless h' (group_origin g.1) id).
Proof.
  revert h w. induction groups as [|[k candidates] groups IH]; intros h w; cbn [removable_submissions].
  { step. by intros id ?%elem_of_nil. }
  eapply known_bind; [apply known_submission_group|]. intros h1 r w1 _ Hr.
  eapply known_bind; [apply IH|]. intros h2 rest w2 Hs2 Hrest. step.
  assert (Htail : forall id, id ∈ rest ->
    exists g, g ∈ (k, candidates) :: groups /\ id ∈ g.2 /\ rowless h2 (group_origin g.1) id).
  { intros id Hid. destruct (Hrest id Hid) as (g & Hg & Hg'). exists g. split; [by right|done]. }
  destruct r as [ids|]; [|done]. intros id [Hid|Hid]%elem_of_app; [|by apply Htail].
  destruct (Hr ids eq_refl id Hid) as [H1 H2]. exists (k, candidates).
  split_and!; [by left|done|by eapply rowless_mono].
Qed.

Lemma group_submissions_elem ids groups :
  group_submissions ids = Ok groups ->
  forall g id, g ∈ groups -> id ∈ g.2 -> id ∈ ids /\ from_engine_id id = Ok (group_origin g.1).
Proof.
  unfold group_submissions.
  set (step_group := fun (r : result (list (group_key * list string)) string) id => _).
  set (good := fun (gs : list (group_key * list string)) => forall g id, g ∈ gs -> id ∈ g.2 ->
    id ∈ ids /\ from_engine_id id = Ok (group_origin g.1)).
  assert (Herr : forall l e, fold_left step_group l (Err e) = Err e) by (by induction l).
  assert (H : forall l gs, good gs -> l ⊆ ids -> fold_left step_group l (Ok gs) = Ok groups -> good groups).
  { induction l as [|id l IH]; intros gs Hgs Hl; cbn [fold_left]; [by intros [= <-]|].
    unfold step_group at 2. cbn [result_bind]. destruct (from_engine_id id) as [origin|e] eqn:Eo; cbn [result_bind].
    - apply IH; [|set_solver]. intros g x Hg Hx.
      destruct (push_entry_elem _ _ _ _ _ Hg Hx) as [[E ->]|(xs & Hxs & Hy)]; [|by apply (Hgs _ _ Hxs)].
      split; [set_solver|]. rewrite E, Eo. by destruct origin as [[]|].
    - by rewrite Herr. }
  intros Hfold. apply (H ids [] ltac:(by intros ? ? ?%elem_of_nil) ltac:(done) Hfold).
Qed.

Lemma quiet_submissions h w : quiet sweep_submissions h w.
Proof.
  unfold sweep_submissions. apply known_bind with (P := fun _ _ => True); [|intros h1 [r|e] w1 _ _; by step].
  unfold cleanup_submissions. step. step; [done| |done]. intros h1 p w1 _ _. cbv zeta. step; [done| |done].
  intros h2 p2 w2 _ Hp2. cbn beta in Hp2. step; [|done]. intros h3 groups w3 Hs3 Hg. cbn beta in Hg. symmetry in Hg.
  eapply known_bind; [apply known_removable|]. intros h4 removable w4 Hs4 Hrem.
  apply known_try with (P := fun _ _ => True); [|intros; step; by step|done].
  case_bool_decide; [by step|]. step. intros id Hid. destruct (Hrem id Hid) as (g & Hg1 & Hg2 & Hrow).
  destruct (group_submissions_elem _ _ Hg g id Hg1 Hg2) as [Hin Ho].
  apply list_elem_of_filter in Hin as [[_ Hw] Hin]. apply bool_decide_eq_true in Hw. split.
  - exists p2. split; [by apply Hs4, Hs3|done].
  - destruct (group_origin g.1) as [o|]; [right; by exists o|by left].
Qed.

(** *** The pass *)

Lemma quiet_if_pending f p h w :
  (forall h' w', quiet p h' w') -> quiet (if_pending f p) h w.
Proof. intros Hp. unfold if_pending. step. case_match; [apply Hp|by step]. Qed.

Lemma quiet_maintenance h w : quiet (maintenance retention_days) h w.
Proof.
  unfold maintenance. cbv zeta. fold retention.
  repeat (apply known_bind with (P := fun _ _ => True); [apply quiet_if_pending; intros|intros ? [] ? _ _]).
  - apply quiet_control.
  - apply quiet_legacy.
  - apply quiet_origins.
  - apply quiet_engine.
  - apply quiet_registrations.
  - apply quiet_submissions.
  - step. step. by step.
Qed.

(** C15: maintenance deletes only what nobody needs.  Whatever the databases and the
    engine answer, whatever fails and wherever a timer strikes, a pass asks the
    engine to delete an instance only after a read of its database showed it
    terminal and outdated; it deletes rows only of such instances, after the engine
    said that their record is deleted or absent; it deletes or cancels other engine
    records only if they are old roots for which a read showed no row in their own
    database, or whose origin a probe found removed; it drops registrations only of
    removed origins, and ledger entries only of submissions without work and row. *)
Theorem maintenance_deletes_garbage w tr more w' :
  does (maintenance retention_days) w tr more w' ->
  forall before e after, tr = before ++ e :: after -> backed retention_days before (ev_op e).
Proof.
  intros H before e after E.
  exact (proj2 (wp_sound _ [] _ _ _ _ _ _ (quiet_maintenance [] w) H) before e after E).
Qed.
End Safety.

(** ** A concrete instance *)

#[local] Existing Instance sample_uuid.
#[local] Existing Instance sample_collation.

(** The pass of [sample_world]: one instance is still running, the other is retired
    and its rows are deleted. *)
Definition sample_pass : list event :=
  snd (eval sample_world [] (maintenance 30) worker_start).

Lemma maintenance_deletes_garbage_witness :
  map ev_op (take 4 sample_pass) =
    [ReadInstances None; DeleteInstance "0000000a"; DeleteInstance "0000000b"; DeleteRows None ["0000000b"]] /\
  forall before e after, sample_pass = before ++ e :: after -> backed 30 before (ev_op e).
Proof.
  split; [vm_compute; reflexivity|].
  destruct (eval_does sample_world [] (maintenance 30) worker_start) as (tr & E & H).
  intros before e after Htr. apply (maintenance_deletes_garbage 30 worker_start tr _ _ H before e after).
  etransitivity; [|exact Htr]. unfold sample_pass. rewrite E. reflexivity.
Defined.

(** A pass that fails after the engine's part leaves rows whose engine record is
    gone, for a later pass to find absent. *)
Example engine_first_leaves_rows :
  let failing := fun h o => match o return answer o with
    | DeleteRows _ _ => Err "connection lost" | o => sample_world h o end in
  skipn 2 (map (fun e => match e with
      | Ev (DeleteInstance id) (Ok _) => Some ("deleted " +:+ id)
      | Ev (DeleteRows _ _) (Err _) => Some "rows stay" | _ => None end)
    (firstn 4 (snd (eval failing [] (maintenance 30) worker_start)))) =
  [Some "deleted 0000000b"; Some "rows stay"].
Proof. vm_compute. reflexivity. Qed.
