(* ===== verification/Worker.v ===== *)
(** The life cycle of the background worker ([src/worker.rs]): it waits for the
    extension, starts a runtime for one installation of it (an epoch), and runs it
    until the extension goes or PostgreSQL shuts down.

    The loops of the source have no bound; here they take fuel, and [None] is a run
    cut off.  The passes between the ticks of the processing loop are those of
    [Maintenance]; here a pass is one call that says how it ended. *)
From S2P Require Import Prelude RustString Effects Maintenance.

(** ** Operations *)

(** Which branch of the processing loop's [select!] is taken. *)
Inductive tick := ShutdownTick | DropTick | ReconcileTick.
(** How the [select!] over a maintenance pass goes on. *)
Inductive slice := SliceDone (more : bool) | SliceShutdown | SliceDropTick.

Inductive lop : Type :=
| ShutdownRequested
| Sleep (d : N)
| CreatePool (max_connections : N)
| ExtensionExists
| ExtensionEpoch
| ResolveSchema
| SchemaOwned (schema : string)
| OwnedObjects (schema : string)
| ReleaseObjects (schema : string)
| CreateStore (schema : string)
| BeginReady (schema : string)
| CommitReady (schema : string)
| StartRuntime
| ShutdownRuntime (timeout_ms : N)
| CloseStore (grace : option N)
| DeleteSentinels
| InsertSentinel (epoch_id : string)
| NewUuid
| TouchSentinel (epoch_id : string)
| NextTick (reconcile_enabled : bool)
| Slice
| ResetReconcile (delay : N)
| ClosePools (grace : N).

Definition reply (o : lop) : Type :=
  match o with
  | ShutdownRequested => bool
  | Sleep _ => bool
  | CreatePool _ => result unit string
  | ExtensionExists => result bool string
  | ExtensionEpoch => result (option Z) string
  | ResolveSchema => string
  | SchemaOwned _ => result bool string
  | OwnedObjects _ => result bool string
  | ReleaseObjects _ => result unit string
  | CreateStore _ => result unit string
  | BeginReady _ => result (option Z) string
  | CommitReady _ => result unit string
  | StartRuntime => unit
  | ShutdownRuntime _ => unit
  | CloseStore _ => bool
  | DeleteSentinels => result unit string
  | InsertSentinel _ => result unit string
  | NewUuid => string
  | TouchSentinel _ => result bool string
  | NextTick _ => tick
  | Slice => slice
  | ResetReconcile _ => unit
  | ClosePools _ => unit
  end.

(** The worker's cursors are in [Maintenance]; nothing else is kept. *)
Definition life (A : Type) : Type := @act unit lop reply A.
Definition ask (o : lop) : life (reply o) := call o.

(** [None] is a run that the fuel cut off. *)
Definition bind_run {A B} (p : life (option A)) (k : A -> life (option B)) : life (option B) :=
  bind_act p (fun o => match o with Some a => k a | None => Pure None end).
Notation "'let+' x ':=' p 'in' k" := (bind_run p (fun x => k))
  (at level 10, x pattern, p at level 100, k at level 200) : rust_scope.
Definition finish {A} (a : A) : life (option A) := Pure (Some a).

Record worker_settings := mkSettings {
  max_management_connections : N;
  max_duroxide_connections : N;
  (** [pg_durable.reconcile_interval], a duration *)
  reconcile_interval : N;
}.

Section Worker.
Context (settings : worker_settings).

Definition WAIT_FOR_EXTENSION_POLL_INTERVAL : N := from_secs 5.
Definition INIT_RETRY_INTERVAL : N := from_secs 1.
Definition STALE_RUNTIME_RETRY_INTERVAL : N := from_secs 1.
Definition MAINTENANCE_CONTINUATION_DELAY : N := from_millis 100.
Definition POOL_CLOSE_GRACE : N := from_millis 100.
Definition POOL_CLOSE_TIMEOUT : N := from_secs 5.

(** ** Questions to the database *)

Definition check_extension_exists : life bool :=
  let* r := ask ExtensionExists in Pure (match r with Ok b => b | Err _ => false end).

Definition check_duroxide_schema_owned (schema : string) : life bool :=
  let* r := ask (SchemaOwned schema) in Pure (match r with Ok b => b | Err _ => false end).

Definition has_extension_owned_duroxide_objects (schema : string) : life bool :=
  let* r := ask (OwnedObjects schema) in Pure (match r with Ok b => b | Err _ => false end).

Definition capture_extension_epoch : life (result (option Z) string) := ask ExtensionEpoch.

(** A failed read is not a replacement. *)
Definition extension_epoch_replaced (captured : Z) : life bool :=
  let* r := capture_extension_epoch in
  Pure (match r with Ok current => negb (bool_decide (current = Some captured)) | Err _ => false end).

(** False when shutdown was requested during the wait. *)
Definition sleep_or_shutdown (d : N) : life bool := ask (Sleep d).

Definition check_epoch_sentinel (epoch_id : string) : life bool :=
  let* r := ask (TouchSentinel epoch_id) in Pure (match r with Ok b => b | Err _ => false end).

Definition write_epoch_sentinel : life (result string string) :=
  let* epoch_id := ask NewUuid in
  let*? _ := ask DeleteSentinels in
  let*? _ := ask (InsertSentinel epoch_id) in
  Pure (Ok epoch_id).

(** One transaction: lock the tables, compare the epoch, publish. *)
Definition write_worker_ready (schema : string) (epoch_oid : Z) : life (result unit string) :=
  let*? current_epoch := ask (BeginReady schema) in
  if negb (bool_decide (current_epoch = Some epoch_oid)) then
    Pure (Err "Control installation changed before readiness publication")
  else ask (CommitReady schema).

(** ** Loops *)

(** False: shutdown. *)
Fixpoint create_pool (fuel : nat) (max_connections : N) : life (option bool) :=
  match fuel with
  | O => Pure None
  | S fuel' =>
      let* shutdown := ask ShutdownRequested in
      if shutdown then finish false
      else
        let* pool := ask (CreatePool max_connections) in
        match pool with
        | Ok _ => finish true
        | Err _ =>
            let* slept := sleep_or_shutdown (from_secs 5) in
            if slept then create_pool fuel' max_connections else finish false
        end
  end.

Fixpoint wait_for_extension_creation (fuel : nat) : life (option bool) :=
  match fuel with
  | O => Pure None
  | S fuel' =>
      let* shutdown := ask ShutdownRequested in
      if shutdown then finish false
      else
        let* exists_ := check_extension_exists in
        if exists_ then finish true
        else
          let* slept := sleep_or_shutdown WAIT_FOR_EXTENSION_POLL_INTERVAL in
          if slept then wait_for_extension_creation fuel' else finish false
  end.

(** True: a runtime is started. *)
Fixpoint initialize_duroxide_runtime (fuel : nat) (schema : string) (epoch_oid : Z)
    : life (option bool) :=
  match fuel with
  | O => Pure None
  | S fuel' =>
      let retry :=
        let* slept := sleep_or_shutdown INIT_RETRY_INTERVAL in
        if slept then initialize_duroxide_runtime fuel' schema epoch_oid else finish false in
      let* shutdown := ask ShutdownRequested in
      if shutdown then finish false
      else
        let* exists_ := check_extension_exists in
        if negb exists_ then finish false
        else
          let* owned := check_duroxide_schema_owned schema in
          if negb owned then retry
          else
            let* has_objects := has_extension_owned_duroxide_objects schema in
            let* released := if has_objects then ask (ReleaseObjects schema) else Pure (Ok tt) in
            match released with
            | Err _ => retry
            | Ok _ =>
                let* store := ask (CreateStore schema) in
                match store with
                | Err _ => retry
                | Ok _ =>
                    let* ready := write_worker_ready schema epoch_oid in
                    match ready with
                    | Err _ =>
                        let* _ := ask (CloseStore None) in
                        let* _ := sleep_or_shutdown INIT_RETRY_INTERVAL in
                        finish false
                    | Ok _ =>
                        let* _ := ask StartRuntime in
                        finish true
                    end
                end
            end
  end.

Definition teardown_runtime : life unit :=
  let* shutdown := ask ShutdownRequested in
  if shutdown then
    let* _ := ask (CloseStore (Some POOL_CLOSE_GRACE)) in
    ask (ShutdownRuntime 0)
  else
    let* _ := ask (ShutdownRuntime 2000) in
    let* _ := ask (CloseStore (Some POOL_CLOSE_TIMEOUT)) in
    Pure tt.

(** *** Processing *)

Definition reconcile_enabled : bool := negb (N.eqb (reconcile_interval settings) 0).
Definition effective_reconcile_interval : N :=
  if N.eqb (reconcile_interval settings) 0 then from_secs (60 * 60) else reconcile_interval settings.

Definition still_valid (epoch_id : option string) : life bool :=
  match epoch_id with
  | Some eid => check_epoch_sentinel eid
  | None => check_extension_exists
  end.

(** The loop over a pass; false: leave the processing loop. *)
Fixpoint run_slice (fuel : nat) (epoch_id : option string) : life (option bool) :=
  match fuel with
  | O => Pure None
  | S fuel' =>
      let* s := ask Slice in
      match s with
      | SliceDone more =>
          let* _ := ask (ResetReconcile
                         (if more then MAINTENANCE_CONTINUATION_DELAY else effective_reconcile_interval)) in
          finish true
      | SliceShutdown => finish false
      | SliceDropTick =>
          let* valid := still_valid epoch_id in
          if valid then run_slice fuel' epoch_id else finish false
      end
  end.

Fixpoint processing (fuel : nat) (epoch_id : option string) : life (option unit) :=
  match fuel with
  | O => Pure None
  | S fuel' =>
      let* t := ask (NextTick reconcile_enabled) in
      match t with
      | ShutdownTick =>
          let* shutdown := ask ShutdownRequested in
          if shutdown then finish tt else processing fuel' epoch_id
      | DropTick =>
          let* valid := still_valid epoch_id in
          if valid then processing fuel' epoch_id else finish tt
      | ReconcileTick =>
          let+ go_on := run_slice fuel' epoch_id in
          if go_on then processing fuel' epoch_id else finish tt
      end
  end.

Definition run_until_extension_dropped_or_shutdown (fuel : nat) (epoch_id : option string)
    : life (option unit) :=
  let* _ := ask (ResetReconcile effective_reconcile_interval) in
  let+ _ := processing fuel epoch_id in
  let* _ := teardown_runtime in
  finish tt.

(** *** Epochs *)

(** Tear the stale runtime down and try again, unless shut down. *)
Definition retry_epoch (again : life (option unit)) : life (option unit) :=
  let* _ := teardown_runtime in
  let* slept := sleep_or_shutdown STALE_RUNTIME_RETRY_INTERVAL in
  if slept then again else finish tt.

Fixpoint epochs (fuel : nat) : life (option unit) :=
  match fuel with
  | O => Pure None
  | S fuel' =>
      let* shutdown := ask ShutdownRequested in
      if shutdown then finish tt
      else
        let+ created := wait_for_extension_creation fuel' in
        if negb created then finish tt
        else
          let* epoch := capture_extension_epoch in
          match epoch with
          | Ok None => epochs fuel'
          | Err _ =>
              let* slept := sleep_or_shutdown INIT_RETRY_INTERVAL in
              if slept then epochs fuel' else finish tt
          | Ok (Some epoch_oid) =>
              let* duroxide_schema := ask ResolveSchema in
              let+ started := initialize_duroxide_runtime fuel' duroxide_schema epoch_oid in
              if negb started then epochs fuel'
              else
                let* replaced := extension_epoch_replaced epoch_oid in
                if replaced then retry_epoch (epochs fuel')
                else
                  let* sentinel := write_epoch_sentinel in
                  let epoch_id := ok sentinel in
                  let* replaced := extension_epoch_replaced epoch_oid in
                  if replaced then retry_epoch (epochs fuel')
                  else
                    let+ _ := run_until_extension_dropped_or_shutdown fuel' epoch_id in
                    epochs fuel'
          end
  end.

Definition run_duroxide_runtime (fuel : nat) : life (option unit) :=
  if (max_duroxide_connections settings <? 2)%N then finish tt
  else
    let+ mgmt_pool := create_pool fuel (max_management_connections settings) in
    if negb mgmt_pool then finish tt
    else
      let+ poll_pool := create_pool fuel 1 in
      if negb poll_pool then finish tt
      else
        let+ _ := epochs fuel in
        let* _ := ask (ClosePools POOL_CLOSE_GRACE) in
        finish tt.
End Worker.
