(* ===== verification/WorkerSpec.v ===== *)
(** The life cycle of the background worker, against an abstract protocol: a
    runtime runs for one installation of the extension at a time, it is started
    only after readiness was published for the epoch the worker captured, and it
    processes only while no later look at the database contradicted that epoch. *)
From S2P Require Import Prelude RustString Effects Maintenance Worker.

(** ** The protocol *)

(** How far a running runtime has got. *)
Inductive stage : Type :=
| Started
| Checked
| Written (sentinel : option string)
| Running (sentinel : option string)
| CheckDue (sentinel : option string).

Inductive phase : Type :=
(** no runtime; the epoch that was read last *)
| Down (epoch : option Z)
(** the publishing transaction holds its locks and saw this epoch *)
| Locked (epoch : Z)
| Ready (epoch : Z)
| Up (epoch : Z) (st : stage)
(** a runtime whose epoch is known to be gone *)
| Stale
| Closed.

Definition up_or_down (ph : phase) : option phase :=
  match ph with Down _ | Up _ _ | Stale => Some ph | _ => None end.
Definition while_down (ph : phase) : option phase :=
  match ph with Down _ => Some ph | _ => None end.
Definition while_running (ph : phase) (k : Z -> option string -> phase) : option phase :=
  match ph with Up epoch (Running s) => Some (k epoch s) | _ => None end.

(** The runtime after a check of its epoch. *)
Definition after_check (epoch : Z) (good : bool) (st : stage) : phase :=
  if good then Up epoch st else Stale.

Definition after_epoch_read (ph : phase) (r : result (option Z) string) : option phase :=
  let same epoch := match r with Ok e => bool_decide (e = Some epoch) | Err _ => true end in
  match ph with
  | Down _ => Some (Down (match r with Ok e => e | Err _ => None end))
  | Up epoch Started => Some (after_check epoch (same epoch) Checked)
  | Up epoch (Written s) => Some (after_check epoch (same epoch) (Running s))
  | _ => None
  end.

Definition next_phase (ph : phase) (e : @event lop reply) : option phase :=
  let (o, r) := e in
  match o as o return reply o -> option phase with
  | ShutdownRequested | Sleep _ | CloseStore _ => fun _ => up_or_down ph
  | CreatePool _ | ResolveSchema | SchemaOwned _ | OwnedObjects _ | ReleaseObjects _
  | CreateStore _ => fun _ => while_down ph
  | ExtensionEpoch => after_epoch_read ph
  | ExtensionExists => fun r =>
      match ph with
      | Down _ => Some ph
      | Up epoch (CheckDue None) => Some (after_check epoch (default false (ok r)) (Running None))
      | _ => None
      end
  | BeginReady _ => fun r =>
      match ph, r with
      | Down (Some epoch), Ok (Some seen) =>
          Some (if bool_decide (seen = epoch) then Locked epoch else ph)
      | Down _, _ => Some ph
      | _, _ => None
      end
  | CommitReady _ => fun r =>
      match ph with
      | Locked epoch => Some (match r with Ok _ => Ready epoch | Err _ => Down None end)
      | _ => None
      end
  | StartRuntime => fun _ => match ph with Ready epoch => Some (Up epoch Started) | _ => None end
  | ShutdownRuntime _ => fun _ => match ph with Up _ _ | Stale => Some (Down None) | _ => None end
  | NewUuid => fun _ => match ph with Up _ Checked => Some ph | _ => None end
  | DeleteSentinels => fun _ =>
      match ph with Up epoch Checked => Some (Up epoch (Written None)) | _ => None end
  | InsertSentinel id => fun r =>
      match ph with
      | Up epoch (Written None) =>
          Some (Up epoch (Written (match r with Ok _ => Some id | Err _ => None end)))
      | _ => None
      end
  | TouchSentinel id => fun r =>
      match ph with
      | Up epoch (CheckDue (Some id')) =>
          if bool_decide (id = id')
          then Some (after_check epoch (default false (ok r)) (Running (Some id))) else None
      | _ => None
      end
  | NextTick _ => fun t => while_running ph (fun epoch s =>
      Up epoch (match t with DropTick => CheckDue s | _ => Running s end))
  | Slice => fun t => while_running ph (fun epoch s =>
      Up epoch (match t with SliceDropTick => CheckDue s | _ => Running s end))
  | ResetReconcile _ => fun _ => while_running ph (fun epoch s => Up epoch (Running s))
  | ClosePools _ => fun _ => match ph with Down _ => Some Closed | _ => None end
  end r.

(** A finished worker leaves no runtime behind. *)
Definition at_rest (ph : phase) : Prop :=
  match ph with Down _ | Closed => True | _ => False end.

(** ** The worker follows the protocol *)

#[local] Abbreviation sticks := (follows next_phase).

(** One call that the protocol allows, whatever the answer [r]. *)
Ltac ask_as r := intros r; eexists; split; [reflexivity|]; cbn [follows bind_act].

Section Follows.
Context (settings : worker_settings).

(** A part that ended, rather than being cut off, satisfies [P]. *)
Definition ended {A} (P : A -> phase -> Prop) (o : option A) (_ : unit) (ph : phase) : Prop :=
  match o with Some a => P a ph | None => True end.

Lemma sticks_run {A B} (p : life (option A)) (k : A -> life (option B)) ph
    (P : A -> phase -> Prop) (Q : B -> phase -> Prop) :
  sticks p tt ph (ended P) ->
  (forall a ph', P a ph' -> sticks (k a) tt ph' (ended Q)) ->
  sticks (bind_run p k) tt ph (ended Q).
Proof.
  intros H Hk. apply follows_bind. eapply follows_mono; [exact H|].
  intros [a|] [] ph'; [apply Hk|done].
Qed.

Lemma create_pool_sticks fuel n epoch :
  sticks (create_pool fuel n) tt (Down epoch) (ended (fun _ ph => ph = Down epoch)).
Proof.
  induction fuel as [|fuel IH]; cbn [create_pool]; [done|]. apply follows_bind.
  ask_as shutdown. destruct shutdown; [done|].
  ask_as pool. destruct pool as [[]|err]; [done|].
  ask_as slept. by destruct slept; [apply IH|].
Qed.

Lemma wait_for_extension_creation_sticks fuel epoch :
  sticks (wait_for_extension_creation fuel) tt (Down epoch) (ended (fun _ ph => ph = Down epoch)).
Proof.
  induction fuel as [|fuel IH]; cbn [wait_for_extension_creation]; [done|].
  ask_as shutdown. destruct shutdown; [done|].
  ask_as exists_. destruct exists_ as [[]|err]; [done| |];
    ask_as slept; by destruct slept; [apply IH|].
Qed.

Lemma write_worker_ready_sticks schema epoch :
  sticks (write_worker_ready schema epoch) tt (Down (Some epoch)) (fun r _ ph =>
    match r with Ok _ => ph = Ready epoch | Err _ => exists e, ph = Down e end).
Proof.
  unfold write_worker_ready, try_act.
  intros [[seen|]|err]; (eexists; split; [reflexivity|]); cbn [bind_act follows]; [| |cbn; eauto];
    [|rewrite bool_decide_false by done; cbn; eauto].
  destruct (decide (seen = epoch)) as [->|Hne].
  - rewrite !bool_decide_true by done. ask_as commit. destruct commit; eauto.
  - rewrite !bool_decide_false by congruence. cbn. eauto.
Qed.

Definition initialized (epoch : Z) (started : bool) (ph : phase) : Prop :=
  if started then ph = Up epoch Started else exists e, ph = Down e.

Lemma initialize_sticks fuel schema epoch :
  sticks (initialize_duroxide_runtime fuel schema epoch) tt (Down (Some epoch))
    (ended (initialized epoch)).
Proof.
  induction fuel as [|fuel IH]; cbn [initialize_duroxide_runtime]; [done|].
  set (retry := bind_act (sleep_or_shutdown INIT_RETRY_INTERVAL) _).
  assert (Hretry : sticks retry tt (Down (Some epoch)) (ended (initialized epoch))).
  { ask_as slept. destruct slept; [apply IH|cbn; eauto]. }
  clearbody retry. clear IH.
  ask_as shutdown. destruct shutdown; [cbn; eauto|].
  ask_as exists_. destruct exists_ as [[]|err]; cbn [negb]; [|cbn; eauto..].
  ask_as owned. destruct owned as [[]|err]; cbn [negb]; [|done..].
  ask_as has_objects. apply follows_bind.
  assert (Hreleased : sticks (if (match has_objects with Ok b => b | Err _ => false end : bool)
    then ask (ReleaseObjects schema) else Pure (Ok tt)) tt (Down (Some epoch))
    (fun _ _ ph => ph = Down (Some epoch))).
  { destruct (match has_objects with Ok b => b | Err _ => false end); [by ask_as r|done]. }
  eapply follows_mono; [exact Hreleased|]. intros [?|?] [] ph ->; [|done].
  ask_as store. destruct store; [|done]. apply follows_bind.
  eapply follows_mono; [apply write_worker_ready_sticks|]. intros [[]|err'] [] ph; cbn.
  - intros ->. ask_as started. done.
  - intros [e ->]. ask_as closed. ask_as slept. cbn. eauto.
Qed.

(** A runtime, whatever is known of its epoch, is torn down. *)
Definition is_up (ph : phase) : Prop := match ph with Up _ _ | Stale => True | _ => False end.

Lemma teardown_runtime_sticks ph :
  is_up ph -> sticks teardown_runtime tt ph (fun _ _ ph' => ph' = Down None).
Proof.
  intros Hup. assert (Hstay : up_or_down ph = Some ph) by by destruct ph.
  assert (Hdown : forall ms, next_phase ph (Ev (ShutdownRuntime ms) tt) = Some (Down None))
    by by destruct ph.
  intros shutdown. exists ph. split; [done|]. destruct shutdown.
  - intros closed. exists ph. split; [done|]. intros []. by exists (Down None).
  - intros []. exists (Down None). split; [done|]. by ask_as closed.
Qed.

Lemma retry_epoch_sticks again ph (Q : unit -> phase -> Prop) :
  is_up ph -> Q tt (Down None) -> sticks again tt (Down None) (ended Q) ->
  sticks (retry_epoch again) tt ph (ended Q).
Proof.
  intros Hup HQ Ha. apply follows_bind.
  eapply follows_mono; [by apply teardown_runtime_sticks|]. intros [] [] ph' ->.
  ask_as slept. by destruct slept.
Qed.

(** The check of a due epoch, by its sentinel or by the extension. *)
Lemma still_valid_sticks epoch sentinel :
  sticks (still_valid sentinel) tt (Up epoch (CheckDue sentinel)) (fun valid _ ph =>
    ph = after_check epoch valid (Running sentinel)).
Proof.
  destruct sentinel as [id|]; cbn [still_valid].
  - intros r. eexists. cbn [next_phase]. rewrite bool_decide_true by done. split; [reflexivity|].
    by destruct r as [[]|].
  - intros r. eexists. split; [reflexivity|]. by destruct r as [[]|].
Qed.

Definition slice_ended (epoch : Z) (sentinel : option string) (go_on : bool) (ph : phase) : Prop :=
  if go_on then ph = Up epoch (Running sentinel) else is_up ph.

Lemma run_slice_sticks fuel epoch sentinel :
  sticks (run_slice settings fuel sentinel) tt (Up epoch (Running sentinel))
    (ended (slice_ended epoch sentinel)).
Proof.
  induction fuel as [|fuel IH]; cbn [run_slice]; [done|].
  ask_as s. destruct s as [more| |]; cbn.
  - ask_as reset. done.
  - done.
  - apply follows_bind. eapply follows_mono; [apply still_valid_sticks|].
    intros [] [] ph ->; [apply IH|done].
Qed.

Lemma processing_sticks fuel epoch sentinel :
  sticks (processing settings fuel sentinel) tt (Up epoch (Running sentinel))
    (ended (fun _ ph => is_up ph)).
Proof.
  induction fuel as [|fuel IH]; cbn [processing]; [done|].
  ask_as t. destruct t; cbn.
  - ask_as shutdown. by destruct shutdown; [|apply IH].
  - apply follows_bind. eapply follows_mono; [apply still_valid_sticks|].
    intros [] [] ph ->; [apply IH|done].
  - eapply sticks_run; [apply run_slice_sticks|]. intros [] ph; cbn; [|done].
    intros ->. apply IH.
Qed.

Lemma run_until_sticks fuel epoch sentinel :
  sticks (run_until_extension_dropped_or_shutdown settings fuel sentinel) tt
    (Up epoch (Running sentinel)) (ended (fun _ ph => ph = Down None)).
Proof.
  unfold run_until_extension_dropped_or_shutdown. ask_as reset.
  eapply sticks_run; [apply processing_sticks|]. intros [] ph Hup. apply follows_bind.
  eapply follows_mono; [by apply teardown_runtime_sticks|]. by intros [] [] ph' ->.
Qed.

Lemma write_epoch_sentinel_sticks epoch :
  sticks write_epoch_sentinel tt (Up epoch Checked) (fun sentinel _ ph =>
    ph = Up epoch (Written (ok sentinel))).
Proof.
  unfold write_epoch_sentinel, try_act. ask_as uid. ask_as deleted. destruct deleted; [|done].
  ask_as inserted. by destruct inserted.
Qed.

Lemma extension_epoch_replaced_sticks epoch st st' :
  (st = Started /\ st' = Checked) \/ (exists s, st = Written s /\ st' = Running s) ->
  sticks (extension_epoch_replaced epoch) tt (Up epoch st) (fun replaced _ ph =>
    ph = after_check epoch (negb replaced) st').
Proof.
  intros Hst r. assert (next_phase (Up epoch st) (Ev ExtensionEpoch r) = Some (after_check epoch
    (match r with Ok e => bool_decide (e = Some epoch) | Err _ => true end) st')) as E.
  { by destruct Hst as [[-> ->]|(s & -> & ->)]. }
  eexists. split; [exact E|]. destruct r; cbn; [by rewrite negb_involutive|done].
Qed.

Lemma epochs_sticks fuel epoch :
  sticks (epochs settings fuel) tt (Down epoch) (ended (fun _ ph => exists e, ph = Down e)).
Proof.
  revert epoch. induction fuel as [|fuel IH]; intros epoch; cbn [epochs]; [done|].
  ask_as shutdown. destruct shutdown; [cbn; eauto|].
  eapply sticks_run; [apply wait_for_extension_creation_sticks|]. intros [] ph ->; cbn [negb];
    [|cbn; eauto].
  intros read. eexists. split; [reflexivity|]. cbn [bind_act].
  destruct read as [[oid|]|err]; [|apply IH|ask_as slept; destruct slept; [apply IH|cbn; eauto]].
  ask_as schema. eapply sticks_run; [apply initialize_sticks|].
  intros [] ph'; cbn [negb initialized]; [intros ->|intros [e ->]; apply IH].
  assert (Hagain : forall ph, is_up ph -> sticks (retry_epoch (epochs settings fuel)) tt ph
    (ended (fun _ ph => exists e, ph = Down e))) by (intros; apply retry_epoch_sticks; eauto).
  apply follows_bind. eapply follows_mono; [by apply extension_epoch_replaced_sticks; left|].
  intros [] [] ? ->; [by apply Hagain|]. apply follows_bind. cbn [negb after_check].
  eapply follows_mono; [apply write_epoch_sentinel_sticks|]. intros sentinel [] ? ->.
  apply follows_bind. eapply follows_mono; [apply extension_epoch_replaced_sticks; right; eauto|].
  intros [] [] ? ->; [by apply Hagain|].
  eapply sticks_run; [apply run_until_sticks|]. intros [] ? ->. apply IH.
Qed.
End Follows.

(** C21: The life of the background worker follows the protocol, for every answer of
    the database, the engine and the clock: a runtime is started only in the wake of
    a publication whose transaction saw the epoch captured before; it writes its
    sentinel, and later ticks, only while the looks at the database in between did
    not contradict that epoch; every drop tick is followed by a check of the
    worker's own sentinel before anything else; a failed check leads to a teardown;
    and at most one runtime is up at a time.  A worker that returns leaves none. *)
Theorem worker_follows_protocol settings fuel tr o :
  does (run_duroxide_runtime settings fuel) tt tr o tt ->
  exists ph, run_protocol next_phase (Down None) tr = Some ph /\ (o = Some tt -> at_rest ph).
Proof.
  intros Hdoes. eapply (follows_sound next_phase _ _ _ (ended (fun _ ph => at_rest ph))) in Hdoes as
    (ph & Hrun & Hend); [exists ph; split; [done|by intros ->]|].
  unfold run_duroxide_runtime. destruct (_ <? _)%N; [done|].
  eapply sticks_run; [apply create_pool_sticks|]. intros [] ? ->; [|done].
  eapply sticks_run; [apply create_pool_sticks|]. intros [] ? ->; [|done].
  eapply sticks_run; [apply epochs_sticks|]. intros [] ? [e ->]. by ask_as closed.
Qed.

(** ** The worker returns *)

(** From call [n] on, PostgreSQL asks for shutdown: polls see it, waits end early,
    and the loops' [select!]s take the branch that looks for it. *)
Record shuts_down (n : nat) (world : list (@event lop reply) -> forall o, reply o) : Prop := {
  shutdown_requested : forall hist, n <= length hist -> world hist ShutdownRequested = true;
  shutdown_wakes : forall hist d, n <= length hist -> world hist (Sleep d) = false;
  shutdown_ticks : forall hist e, n <= length hist -> world hist (NextTick e) = ShutdownTick;
  shutdown_slices : forall hist, n <= length hist -> world hist Slice <> SliceDropTick;
}.

Section Returns.
Context (settings : worker_settings) (n : nat).
Context (world : list (@event lop reply) -> forall o, reply o) (Hstop : shuts_down n world).

Definition settles {A} (hist : list (@event lop reply)) (p : life (option A)) : Prop :=
  ends world hist p tt.

Lemma settles_bind {A B} hist (p : life A) (k : A -> life (option B)) :
  (forall a tr, settles (hist ++ tr) (k a)) -> settles hist (bind_act p k).
Proof. intros H. apply ends_bind. intros a tr []. apply H. Qed.

Lemma settles_run {A B} hist (p : life (option A)) (k : A -> life (option B)) :
  settles hist p -> (forall a tr, settles (hist ++ tr) (k a)) -> settles hist (bind_run p k).
Proof. intros Hp H. apply ends_run; [exact Hp|]. intros a tr []. apply H. Qed.

Lemma settles_call {A} hist o (k : reply o -> life (option A)) :
  settles (hist ++ [Ev o (world hist o)]) (k (world hist o)) -> settles hist (Call o k).
Proof. done. Qed.

Lemma settles_done {A} hist (a : A) : settles hist (finish a).
Proof. by eexists. Qed.

(** Enough fuel: a step for each call before the shutdown, and one more. *)
Definition enough (fuel : nat) (hist : list (@event lop reply)) : Prop :=
  1 <= fuel /\ n < fuel + length hist.

Lemma enough_later fuel hist tr :
  enough (S fuel) hist -> length hist < n -> 0 < length tr -> enough fuel (hist ++ tr).
Proof. unfold enough. rewrite length_app. lia. Qed.

Ltac settle :=
  repeat first
    [ apply settles_done
     | progress cbn [bind_act negb ask call sleep_or_shutdown check_extension_exists
                     check_duroxide_schema_owned has_extension_owned_duroxide_objects capture_extension_epoch
                     run_until_extension_dropped_or_shutdown]
     | simple apply settles_call
     | match goal with |- settles _ (if ?b then _ else _) => destruct b end
     | match goal with |- settles _ (match ?r with Ok _ => _ | Err _ => _ end) => destruct r end ].

(** A loop that starts with a poll for shutdown. *)
Lemma settles_poll {A} hist fuel (off on_ : life (option A)) :
  enough (S fuel) hist ->
  settles (hist ++ [Ev ShutdownRequested true]) off ->
  (length hist < n -> settles (hist ++ [Ev ShutdownRequested false]) on_) ->
  settles hist (bind_act (ask ShutdownRequested) (fun b => if b then off else on_)).
Proof.
  intros Hf Hoff Hon. cbn [bind_act ask]. apply settles_call.
  destruct (decide (n <= length hist)) as [Hn|Hn].
  - by rewrite (shutdown_requested _ _ Hstop) by done.
  - destruct (world hist ShutdownRequested); [done|]. apply Hon. lia.
Qed.

Ltac later := rewrite <- ?app_assoc; apply enough_later; [done..|rewrite ?length_app; cbn; lia].
Ltac loop_settles fuel IH :=
  intros hist Hf; induction fuel as [|fuel IH] in hist, Hf |- *; [unfold enough in Hf; lia|].

Lemma create_pool_settles fuel m : forall hist, enough fuel hist -> settles hist (create_pool fuel m).
Proof.
  loop_settles fuel IH. cbn [create_pool].
  eapply settles_poll; [done|apply settles_done|]. intros Hn. settle. apply IH. later.
Qed.

Lemma wait_for_extension_creation_settles fuel :
  forall hist, enough fuel hist -> settles hist (wait_for_extension_creation fuel).
Proof.
  loop_settles fuel IH. cbn [wait_for_extension_creation].
  eapply settles_poll; [done|apply settles_done|]. intros Hn.
  settle. apply IH. later.
Qed.

Lemma initialize_settles fuel schema epoch :
  forall hist, enough fuel hist -> settles hist (initialize_duroxide_runtime fuel schema epoch).
Proof.
  loop_settles fuel IH. cbn [initialize_duroxide_runtime].
  set (retry := bind_act (sleep_or_shutdown INIT_RETRY_INTERVAL) _).
  eapply settles_poll; [done|apply settles_done|]. intros Hn.
  assert (Hretry : forall tr, 0 < length tr -> settles (hist ++ tr) retry).
  { intros tr Ht. unfold retry. settle. apply IH. later. }
  clearbody retry.
  settle.
  all: repeat first [ by (rewrite <- ?app_assoc; apply Hretry; rewrite ?length_app; cbn; lia)
    | apply settles_bind; intros ? ?; settle ].
Qed.

(** A loop around a [select!] one branch of which ends it. *)
Lemma before_stop fuel hist (P : Prop) :
  enough (S fuel) hist -> (n <= length hist -> P) -> (length hist < n -> 0 < fuel -> P) -> P.
Proof. unfold enough. intros Hf Hlate Hearly. destruct (decide (n <= length hist)); [auto|]. apply Hearly; lia. Qed.

Lemma run_slice_settles fuel sentinel :
  forall hist, enough fuel hist -> settles hist (run_slice settings fuel sentinel).
Proof.
  loop_settles fuel IH. cbn [run_slice bind_act ask call]. apply settles_call.
  apply (before_stop fuel hist); [done|intros Hn..].
  - pose proof (shutdown_slices _ _ Hstop hist Hn). by destruct (world hist Slice); settle.
  - intros _. destruct (world hist Slice); settle.
    apply settles_bind. intros valid tr. settle. apply IH. later.
Qed.

Lemma processing_settles fuel sentinel :
  forall hist, enough fuel hist -> settles hist (processing settings fuel sentinel).
Proof.
  loop_settles fuel IH. cbn [processing bind_act ask call]. apply settles_call.
  apply (before_stop fuel hist); [done|intros Hn..].
  - rewrite (shutdown_ticks _ _ Hstop) by done. cbn [bind_act ask call]. apply settles_call.
    rewrite (shutdown_requested _ _ Hstop) by (rewrite length_app; lia). apply settles_done.
  - intros _. destruct (world hist _); settle.
    + apply IH. later.
    + apply settles_bind. intros valid tr. settle. apply IH. later.
    + apply settles_run; [apply run_slice_settles; later|]. intros go_on tr. settle. apply IH. later.
Qed.

Lemma epochs_settles fuel : forall hist, enough fuel hist -> settles hist (epochs settings fuel).
Proof.
  loop_settles fuel IH. cbn [epochs].
  eapply settles_poll; [done|apply settles_done|]. intros Hn.
  assert (Hlater : forall tr, 0 < length tr -> enough fuel (hist ++ tr)) by (intros; later).
  assert (Hagain : forall tr, 0 < length tr -> settles (hist ++ tr) (retry_epoch (epochs settings fuel))).
  { intros tr Ht. apply settles_bind. intros [] tr'. settle.
    apply IH. later. }
  apply settles_run; [apply wait_for_extension_creation_settles; later|]. intros created tr. settle.
  - destruct t as [oid|]; [|apply IH; later]. settle.
    apply settles_run; [apply initialize_settles; later|]. intros started tr1.
    settle; [apply IH; later|].
    apply settles_bind. intros replaced tr2. settle; [rewrite <- ?app_assoc; apply Hagain; cbn; lia|].
    apply settles_bind. intros sentinel tr3.
    apply settles_bind. intros replaced' tr4. settle; [rewrite <- ?app_assoc; apply Hagain; cbn; lia|].
    apply settles_run; [|intros [] tr5; apply IH; later].
    settle. apply settles_run; [apply processing_settles; later|]. intros [] tr6.
    apply settles_bind. intros [] tr7. settle.
  - apply IH. later.
Qed.

End Returns.

(** C22: A worker returns once PostgreSQL asks for its shutdown: with one more step
    of fuel than calls were made before, no loop of it (pool creation, waiting for
    the extension, initialization, processing, epochs) is cut off. *)
Theorem worker_returns settings n world :
  shuts_down n world ->
  fst (fst (eval world [] (run_duroxide_runtime settings (S n)) tt)) = Some tt.
Proof.
  intros Hstop. assert (settles world [] (run_duroxide_runtime settings (S n))) as [[] H]; [|done].
  assert (Hlater : forall tr, enough n (S n) ([] ++ tr)) by (intros tr; unfold enough; cbn; lia).
  unfold run_duroxide_runtime. destruct (_ <? _)%N; [by eexists|].
  apply settles_run; [apply (create_pool_settles n _ Hstop), (Hlater [])|]. intros [] tr; [|by eexists].
  apply settles_run; [apply (create_pool_settles n _ Hstop), Hlater|]. intros [] tr'; [|by eexists].
  apply settles_run; [|intros [] tr''; by eexists].
  rewrite <- app_assoc. apply (epochs_settles _ n _ Hstop), Hlater.
Qed.

(** ** A sample life *)

Module SampleWorker.
Definition settings := mkSettings 2 8 (from_secs 60).

(** The extension is replaced between the two looks of the first epoch; the
    shutdown comes at call 55. *)
Definition world (hist : list (@event lop reply)) (o : lop) : reply o :=
  let late := (55 <=? length hist)%nat in
  match o as o return reply o with
  | ShutdownRequested => late
  | Sleep _ => negb late
  | CreatePool _ => Ok tt
  | ExtensionExists => Ok true
  | ExtensionEpoch => Ok (Some (if (length hist <? 18)%nat then 7 else 8)%Z)
  | ResolveSchema => "_duroxide"
  | SchemaOwned _ => Ok true
  | OwnedObjects _ => Ok false
  | ReleaseObjects _ => Ok tt
  | CreateStore _ => Ok tt
  | BeginReady _ => Ok (Some (if (length hist <? 18)%nat then 7 else 8)%Z)
  | CommitReady _ => Ok tt
  | StartRuntime => tt
  | ShutdownRuntime _ => tt
  | CloseStore _ => true
  | DeleteSentinels => Ok tt
  | InsertSentinel _ => Ok tt
  | NewUuid => "2f1e"
  | TouchSentinel _ => Ok true
  | NextTick _ => if late then ShutdownTick else if (length hist <? 48)%nat then DropTick else ReconcileTick
  | Slice => SliceDone false
  | ResetReconcile _ => tt
  | ClosePools _ => tt
  end.

Definition landmark (o : lop) : bool :=
  match o with
  | StartRuntime | ShutdownRuntime _ | NextTick _ | TouchSentinel _ | Slice => true
  | _ => false
  end.
Definition life_of_worker : list lop :=
  map ev_op (snd (eval world [] (run_duroxide_runtime settings 56) tt)).
End SampleWorker.

Lemma worker_follows_protocol_witness :
  exists tr, does (run_duroxide_runtime SampleWorker.settings 56) tt tr (Some tt) tt /\
    map ev_op tr = SampleWorker.life_of_worker /\
    exists ph, run_protocol next_phase (Down None) tr = Some ph /\ (Some tt = Some tt -> at_rest ph).
Proof.
  destruct (eval_does SampleWorker.world [] (run_duroxide_runtime SampleWorker.settings 56) tt)
    as (tr & E & H).
  assert (Hend : fst (fst (eval SampleWorker.world [] (run_duroxide_runtime SampleWorker.settings 56) tt))
    = Some tt) by (vm_compute; reflexivity).
  rewrite Hend in H. destruct (snd (fst _)).
  exists tr. split; [exact H|]. split; [unfold SampleWorker.life_of_worker; by rewrite E|].
  exact (worker_follows_protocol SampleWorker.settings 56 tr (Some tt) H).
Defined.

(** The first runtime is torn down before the second is started; the second one
    ticks until the shutdown. *)
Example sample_life :
  filter (fun o => SampleWorker.landmark o = true) SampleWorker.life_of_worker =
  [StartRuntime; ShutdownRuntime 2000;
   StartRuntime; NextTick true; TouchSentinel "2f1e"; NextTick true; TouchSentinel "2f1e";
   NextTick true; Slice; NextTick true; Slice; NextTick true; ShutdownRuntime 0].
Proof. vm_compute. reflexivity. Qed.

Lemma worker_returns_witness :
  fst (fst (eval SampleWorker.world [] (run_duroxide_runtime SampleWorker.settings 56) tt)) = Some tt.
Proof.
  apply (worker_returns SampleWorker.settings 55 SampleWorker.world).
  assert (Hlate : forall hist : list (@event lop reply), 55 <= length hist -> (55 <=? length hist)%nat = true)
    by (intros hist; apply Nat.leb_le).
  split; intros; cbn [SampleWorker.world]; rewrite ?Hlate by done; done.
Defined.
