(* ===== verification/Registration.v ===== *)
(** Registrations of origins under concurrency ([src/worker.rs], lines 926-957 and
    2026-2112).

    An activity of a satellite registers its origin before it works
    ([register_origin]); maintenance deletes the registration of an origin that is
    gone and has no work left ([Maintenance.cleanup_origin_registrations]).  Both touch
    one row, and here their transactions interleave.  A statement is a step, except
    the DELETE: what its snapshot shows, the row and the absence of work, is one step,
    taking the lock on the row and deleting it another, since READ COMMITTED decides
    by the snapshot and looks again only at a row that was changed, not at one that was only
    locked, meanwhile.  A lock on the row is held to the end of the transaction. *)
From S2P Require Import Prelude.

(** ** State *)

(** Where an activity of the origin is. *)
Inductive activity_stage :=
(** the engine has no work of it *)
| Absent
(** the engine runs it, or has it in a queue *)
| Working
(** the INSERT is done, the transaction open *)
| Inserting
| Registered.

Inductive cleanup_stage :=
| Idle
(** the scan saw the row, and the origin was found to be removed *)
| Removed
(** the row is locked, if there was one *)
| Locked
(** the DELETE runs, and its snapshot has the row and no work *)
| Deleting
| Deleted
| Kept.

Inductive owner := Activity (i : nat) | Cleanup.
#[export] Instance owner_eq_dec : EqDecision owner.
Proof. solve_decision. Defined.

(** The row of one origin in [_origins]: whether it is there for new snapshots, and
    whose transaction has a lock on it or has inserted it. *)
Record registration := mkRegistration {
  committed : bool;
  locked_by : option owner;
  cleanup : cleanup_stage;
  stage_of : nat -> activity_stage;
}.

Definition set_activity (s : registration) (i : nat) (st : activity_stage) : registration :=
  mkRegistration (committed s) (locked_by s) (cleanup s) (fun j => if Nat.eqb i j then st else stage_of s j).
Definition set_lock (s : registration) (o : option owner) : registration :=
  mkRegistration (committed s) o (cleanup s) (stage_of s).
Definition set_cleanup (s : registration) (c : cleanup_stage) : registration :=
  mkRegistration (committed s) (locked_by s) c (stage_of s).
Definition set_committed (s : registration) (b : bool) : registration :=
  mkRegistration b (locked_by s) (cleanup s) (stage_of s).

(** The end of the cleanup's transaction. *)
Definition release_cleanup (s : registration) : registration :=
  set_cleanup (if decide (locked_by s = Some Cleanup) then set_lock s None else s) Idle.

(** ** Steps *)

Inductive registration_step : registration -> registration -> Prop :=
| work_begins s i : stage_of s i = Absent -> registration_step s (set_activity s i Working)
| work_ends s i :
    stage_of s i = Working \/ stage_of s i = Registered -> registration_step s (set_activity s i Absent)
(** INSERT .. ON CONFLICT DO UPDATE .. WHERE false: it waits for whoever deletes,
    locks or inserts the row, and holds it itself from then on *)
| register_insert s i :
    stage_of s i = Working -> locked_by s = None ->
    registration_step s (set_activity (set_lock s (Some (Activity i))) i Inserting)
| register_commit s i :
    stage_of s i = Inserting ->
    registration_step s (set_activity (set_committed (set_lock s None) true) i Registered)
| register_fails s i :
    stage_of s i = Inserting -> registration_step s (set_activity (set_lock s None) i Working)
| cleanup_probe s :
    cleanup s = Idle -> committed s = true -> registration_step s (set_cleanup s Removed)
(** SELECT .. FOR UPDATE: finds the committed row, or nothing *)
| cleanup_lock s :
    cleanup s = Removed -> committed s = true -> locked_by s = None ->
    registration_step s (set_cleanup (set_lock s (Some Cleanup)) Locked)
| cleanup_finds_nothing s :
    cleanup s = Removed -> committed s = false -> registration_step s (set_cleanup s Locked)
(** DELETE .. AND NOT EXISTS ..: the snapshot of the statement *)
| cleanup_decide s :
    cleanup s = Locked -> committed s = true -> (forall i, stage_of s i = Absent) ->
    registration_step s (set_cleanup s Deleting)
| cleanup_keep s i :
    cleanup s = Locked -> stage_of s i <> Absent -> registration_step s (set_cleanup s Kept)
| cleanup_gone s : cleanup s = Locked -> committed s = false -> registration_step s (set_cleanup s Kept)
(** the deletion, which waits for whoever has the row locked *)
| cleanup_delete s :
    cleanup s = Deleting -> locked_by s = None \/ locked_by s = Some Cleanup ->
    registration_step s (set_cleanup (set_lock s (Some Cleanup)) Deleted)
| cleanup_commit_deleted s :
    cleanup s = Deleted -> registration_step s (release_cleanup (set_committed s false))
| cleanup_commit_kept s : cleanup s = Kept -> registration_step s (release_cleanup s)
| cleanup_fails s : cleanup s <> Idle -> registration_step s (release_cleanup s).

Definition unregistered : registration := mkRegistration false None Idle (fun _ => Absent).
