(* ===== verification/RegistrationSpec.v ===== *)
(** No cleanup takes the registration from an activity that works. *)
From S2P Require Import Prelude Registration.
From stdpp Require Import relations.

(** ** The invariant *)

(** The cleanup decided to delete the row, and has not ended. *)
Definition deletion_under_way (s : registration) : Prop := cleanup s = Deleting \/ cleanup s = Deleted.

Record held_safely (s : registration) : Prop := {
  safe_registered : forall i, stage_of s i = Registered -> committed s = true;
  safe_inserting : forall i, stage_of s i = Inserting -> locked_by s = Some (Activity i);
  safe_scanned : cleanup s = Removed -> committed s = true;
  safe_locked : cleanup s = Locked -> locked_by s = Some Cleanup;
  safe_deleting : deletion_under_way s -> locked_by s = Some Cleanup /\
    forall i, stage_of s i <> Registered;
}.

Lemma stage_set_activity s i st j :
  stage_of (set_activity s i st) j = if Nat.eqb i j then st else stage_of s j.
Proof. done. Qed.

(** The invariant after a step of one activity: the activity itself, the others. *)
Ltac of_activity i :=
  constructor; unfold deletion_under_way in *; cbn in *;
  [ intros j; destruct (Nat.eqb_spec i j) as [<-|]
  | intros j; destruct (Nat.eqb_spec i j) as [<-|]
  | | | intros Hdel; split; [|intros j; destruct (Nat.eqb_spec i j) as [<-|]] ];
  try done; try tauto; eauto.

Lemma released s : locked_by (release_cleanup s) = (if decide (locked_by s = Some Cleanup) then None else locked_by s).
Proof. unfold release_cleanup. by destruct (decide _). Qed.
Lemma release_frame s :
  committed (release_cleanup s) = committed s /\ stage_of (release_cleanup s) = stage_of s /\
  cleanup (release_cleanup s) = Idle.
Proof. unfold release_cleanup. by destruct (decide _). Qed.

Lemma release_safe s :
  (forall i, stage_of s i = Registered -> committed s = true) ->
  (forall i, stage_of s i = Inserting -> locked_by s = Some (Activity i)) ->
  held_safely (release_cleanup s).
Proof.
  intros Hr Hi. destruct (release_frame s) as (E1 & E2 & E3).
  constructor; unfold deletion_under_way; rewrite ?E1, ?E2, ?E3, ?released; [done| |done..|by intros [|]].
  intros i H. rewrite (Hi i H). by rewrite decide_False.
Qed.

(** The steps of an activity. *)
Lemma activity_safe s i :
  held_safely s ->
  (stage_of s i = Absent -> held_safely (set_activity s i Working)) /\
  (stage_of s i = Working \/ stage_of s i = Registered -> held_safely (set_activity s i Absent)) /\
  (stage_of s i = Working -> locked_by s = None ->
    held_safely (set_activity (set_lock s (Some (Activity i))) i Inserting)) /\
  (stage_of s i = Inserting ->
    held_safely (set_activity (set_committed (set_lock s None) true) i Registered) /\
    held_safely (set_activity (set_lock s None) i Working)).
Proof.
  intros [Hr Hi Hs Hl Hd]. split_and!.
  - intros H. of_activity i; destruct (Hd Hdel); eauto.
  - intros H. of_activity i; destruct (Hd Hdel); eauto.
  - intros H Hlock. of_activity i; try (intros H'%Hi; congruence); try (intros H'%Hl; congruence);
      destruct (Hd Hdel); try congruence; eauto.
  - intros H. pose proof (Hi i H) as Hlock.
    split; of_activity i; try (intros H'%Hi; congruence); try (intros H'%Hl; congruence);
      destruct (Hd Hdel); try congruence; eauto.
Qed.

Lemma registration_safe s s' : registration_step s s' -> held_safely s -> held_safely s'.
Proof.
  intros Hstep Hsafe. pose proof (activity_safe s) as Hact. pose proof Hsafe as [Hr Hi Hs Hl Hd].
  destruct Hstep as [s i H|s i H|s i H Hlock|s i H|s i H|s Hc Hrow|s Hc Hrow Hlock|s Hc Hrow|s Hc Hrow Hall
    |s i Hc H|s Hc Hrow|s Hc Hlock|s Hc|s Hc|s Hc].
  1-5: destruct (Hact i Hsafe) as (H1 & H2 & H3 & H4).
  - by apply H1.
  - by apply H2.
  - by apply H3.
  - by apply H4.
  - by apply H4.
  - constructor; cbn; [done..|by intros [|]].
  - (* lock *)
    constructor; cbn; [done| |done|done|by intros [|]]. intros i H%Hi. congruence.
  - (* the row the scan saw is there *)
    specialize (Hs Hc). congruence.
  - (* decide *)
    constructor; cbn; [done..|]. intros _. split; [by apply Hl|]. intros i. by rewrite Hall.
  - constructor; cbn; [done..|by intros [|]].
  - constructor; cbn; [done..|by intros [|]].
  - (* delete *)
    destruct (Hd (or_introl Hc)) as [Hown Hnone].
    constructor; cbn; [done| |done|done|done]. intros i H%Hi. congruence.
  - (* the deletion is committed *)
    destruct (Hd (or_intror Hc)) as [_ Hnone]. apply release_safe; cbn; [|done].
    intros i H. by destruct (Hnone i).
  - by apply release_safe.
  - by apply release_safe.
Qed.

Lemma registration_run s s' : rtc registration_step s s' -> held_safely s -> held_safely s'.
Proof. induction 1; eauto using registration_safe. Qed.

(** C20: an activity that has registered its origin stays registered while it works:
    no interleaving of activities and of a cleanup that found the origin removed deletes the
    row, although the cleanup decides by a snapshot of its own that knows nothing of
    the activity.  From the moment the cleanup decides to delete until it ends, it has
    the row locked, so no activity is registered and none has its insertion
    under way: an activity that registers meanwhile waits for the outcome. *)
Theorem registered_while_working s :
  rtc registration_step unregistered s ->
  (forall i, stage_of s i = Registered -> committed s = true) /\
  (deletion_under_way s -> locked_by s = Some Cleanup /\
    (forall i, stage_of s i <> Registered /\ stage_of s i <> Inserting) /\
    forall i s', registration_step s s' -> stage_of s' i <> Inserting).
Proof.
  intros Hrun. assert (Hs : held_safely s).
  { eapply registration_run; [exact Hrun|]. by constructor; cbn; [done..|intros [|]]. }
  assert (Hi : forall s, held_safely s -> locked_by s = Some Cleanup -> forall i, stage_of s i <> Inserting).
  { intros s0 H0 Hl i H. apply (safe_inserting _ H0) in H. congruence. }
  split; [apply (safe_registered _ Hs)|]. intros Hdel.
  destruct (safe_deleting _ Hs Hdel) as [Hown Hnone]. pose proof (Hi s Hs Hown) as Hni.
  split_and!; [done|by split|].
  intros i s' Hstep. destruct Hstep as [s j H|s j H|s j H Hlock|s j H|s j H|s|s|s|s|s|s|s|s|s|s]; try congruence;
    try (rewrite (proj1 (proj2 (release_frame _))); apply Hni);
    cbn; try apply Hni; by destruct (Nat.eqb_spec j i) as [->|]; [|apply Hni].
Qed.

(** ** A registration that waits for a deletion *)

Definition sample_registration : nat -> registration := fix at_step n :=
  match n with
  | O => unregistered
  | S m =>
      let s := at_step m in
      match m with
      | 0 => set_activity s 0 Working
      | 1 => set_activity (set_lock s (Some (Activity 0))) 0 Inserting
      | 2 => set_activity (set_committed (set_lock s None) true) 0 Registered
      | 3 => set_activity s 0 Absent
      | 4 => set_cleanup s Removed
      | 5 => set_cleanup (set_lock s (Some Cleanup)) Locked
      | 6 => set_cleanup s Deleting
      | 7 => set_activity s 1 Working
      | 8 => set_cleanup (set_lock s (Some Cleanup)) Deleted
      | 9 => release_cleanup (set_committed s false)
      | 10 => set_activity (set_lock s (Some (Activity 1))) 1 Inserting
      | _ => set_activity (set_committed (set_lock s None) true) 1 Registered
      end
  end.

Lemma sample_registration_step n :
  n < 12 -> registration_step (sample_registration n) (sample_registration (S n)).
Proof.
  intros Hn. destruct n as [|[|[|[|[|[|[|[|[|[|[|[|n]]]]]]]]]]]]; [..|lia]; clear Hn.
  - by apply work_begins.
  - by apply register_insert.
  - by apply register_commit.
  - apply work_ends. by right.
  - by apply cleanup_probe.
  - by apply cleanup_lock.
  - apply cleanup_decide; [done..|]. by intros [|i].
  - by apply work_begins.
  - apply cleanup_delete; [done|by right].
  - by apply cleanup_commit_deleted.
  - by apply register_insert.
  - by apply register_commit.
Qed.

Lemma sample_registration_run n :
  n <= 12 -> rtc registration_step unregistered (sample_registration n).
Proof.
  induction n as [|n IH]; [done|]. intros Hn. eapply rtc_r; [apply IH; lia|]. by apply sample_registration_step.
Qed.

Lemma registered_while_working_witness :
  committed (sample_registration 12) = true /\
  (stage_of (sample_registration 8) 1 = Working /\
   forall s', registration_step (sample_registration 8) s' -> stage_of s' 1 <> Inserting).
Proof.
  split.
  - apply (registered_while_working (sample_registration 12)) with (i := 1);
      [apply sample_registration_run; lia|reflexivity].
  - split; [reflexivity|]. intros s'.
    apply (registered_while_working (sample_registration 8)); [apply sample_registration_run; lia|].
    left. reflexivity.
Defined.
