(* ===== verification/Routing.v ===== *)
(** Satellite databases ([src/origin.rs]): an instance whose engine id names an
    origin is served over a connection to that database, and nothing is read from
    it before its metadata tables were attested, locked and attested again.

    The functions are programs of [Effects]; a statement is one call, and a read of
    the system catalog answers with the catalog that its statement sees, of which
    the SQL text is written out here.  A [Transaction], a [Route] and a permit that
    go out of scope act as well, with calls of their own. *)
From S2P Require Import Prelude RustString Json Origin Admission Effects.

(** ** The system catalog *)

Record pg_extension := mkExtension { ext_oid : N; ext_name : string; ext_owner : N }.
Record pg_namespace := mkNamespace { nsp_oid : N; nsp_name : string; nsp_owner : N }.
Record pg_class := mkClass {
  class_oid : N;
  relname : string;
  relnamespace : N;
  relkind : ascii;
  relpersistence : ascii;
  relowner : N;
}.
Record pg_depend := mkDepend {
  dep_classid : N;
  dep_objid : N;
  dep_objsubid : Z;
  dep_refclassid : N;
  dep_refobjid : N;
  dep_refobjsubid : Z;
  deptype : ascii;
}.
#[export] Instance pg_depend_eq_dec : EqDecision pg_depend.
Proof. solve_decision. Defined.
Record pg_attribute := mkAttribute {
  attrelid : N;
  attname : string;
  atttypid : N;
  attisdropped : bool;
}.
Record system_catalog := mkCatalog {
  extensions : list pg_extension;
  namespaces : list pg_namespace;
  classes : list pg_class;
  depends : list pg_depend;
  attributes : list pg_attribute;
  databases : list (N * string);
  current_database : string;
}.

(** PostgreSQL's fixed object ids: ['pg_extension'::regclass],
    ['pg_class'::regclass], ['uuid'::regtype]. *)
Definition PG_EXTENSION : N := 3079.
Definition PG_CLASS : N := 1259.
Definition UUID : N := 2950.

(** ** Attestation *)

Inductive MetadataScope := InstallationScope | GraphScope.
#[export] Instance MetadataScope_eq_dec : EqDecision MetadataScope.
Proof. solve_decision. Defined.

Definition names (s : MetadataScope) : list string :=
  match s with
  | InstallationScope => ["_installation"]
  | GraphScope => ["_installation"; "instances"; "nodes"]
  end.

(** Extension, namespace, trusted owner, relation, name. *)
Definition object : Type := N * N * N * N * string.
Definition object_name (o : object) : string := snd o.

Record MetadataIdentity := mkIdentity { scope : MetadataScope; objects : list object }.
#[export] Instance MetadataIdentity_eq_dec : EqDecision MetadataIdentity.
Proof. solve_decision. Defined.

Section Attest.
Context (cat : system_catalog).

(** The join of the extension with its member [c]. *)
Definition is_member (e : pg_extension) (d : pg_depend) (c : pg_class) : bool :=
  (dep_refobjid d =? ext_oid e)%N && (dep_refclassid d =? PG_EXTENSION)%N &&
  (dep_classid d =? PG_CLASS)%N && Ascii.eqb (deptype d) "e" &&
  (dep_objsubid d =? 0)%Z && (dep_refobjsubid d =? 0)%Z && (class_oid c =? dep_objid d)%N.

Definition has_uuid_id (c : pg_class) : bool :=
  existsb (fun a => (attrelid a =? class_oid c)%N && String.eqb (attname a) "id" &&
           negb (attisdropped a) && (atttypid a =? UUID)%N) (attributes cat).

Definition trusted (wanted : list string) (e : pg_extension) (n : pg_namespace) (c : pg_class) : bool :=
  String.eqb (ext_name e) "pg_durable" && String.eqb (nsp_name n) "df" &&
  (nsp_oid n =? relnamespace c)%N && bool_decide (relname c ∈ wanted) &&
  Ascii.eqb (relkind c) "r" && Ascii.eqb (relpersistence c) "p" &&
  (relowner c =? ext_owner e)%N && (nsp_owner n =? ext_owner e)%N &&
  (negb (String.eqb (relname c) "_installation") || has_uuid_id c).

Definition current_database_oid : option N :=
  fst <$> find (fun d => String.eqb (snd d) (current_database cat)) (databases cat).

Definition object_of (e : pg_extension) (n : pg_namespace) (c : pg_class) : object :=
  (ext_oid e, nsp_oid n, ext_owner e, class_oid c, relname c).

Definition row_of (wanted : list string) (e : pg_extension) (d : pg_depend) (c : pg_class)
    (n : pg_namespace) : list object :=
  if is_member e d c && trusted wanted e n c then [object_of e n c] else [].

Definition by_name (a b : object) : Prop := str_le (object_name a) (object_name b).
#[global] Instance by_name_dec : RelDecision by_name.
Proof. intros a b. unfold by_name. apply _. Defined.

Definition attested_objects (origin : Origin) (wanted : list string) : list object :=
  if bool_decide (current_database_oid = Some (database_oid origin)) then
    merge_sort by_name (
      e ← extensions cat; d ← depends cat; c ← classes cat; n ← namespaces cat;
      row_of wanted e d c n)
  else [].
End Attest.

(** ** Calls *)

(** The connections of a routed activity: the control pool, the route's pool of one
    connection, and the connection that runs the user's SQL. *)
Inductive conn := ControlConn | SourceConn | UserConn.
#[export] Instance conn_eq_dec : EqDecision conn.
Proof. solve_decision. Defined.

(** A semaphore's answer under [tokio::time::timeout]. *)
Inductive acquired := Granted | SemaphoreClosed | AcquireTimedOut.
Inductive connect_answer := Connected | ConnectFailed (error : string) | ConnectTimedOut.

(** A column of a row as [row.try_get] decodes it, by its type; the error is that of
    a value the type cannot hold. *)
Inductive cell :=
| CBool (v : result (option bool) string)
| CInt (type_name : string) (v : result (option Z) string)
| CFloat4 (v : result (option Z) string)
| CFloat8 (v : result (option Z) string)
| CText (type_name : string) (v : result (option string) string)
| CNumeric (v : result (option string) string)
| CUuid (v : result (option string) string)
| CTimestamptz (v : result (option string) string)
| CTimestamp (v : result (option string) string)
| CDate (v : result (option string) string)
| CJson (v : result (option value) string)
| CVoid
| COther (type_name : string).

Inductive dop : Type :=
| RegisterOrigin (o : Origin)
| AcquireSlots (count timeout : N)
| ReleaseSlots
| AcquireUserPermit (timeout : N)
| ReleaseUserPermit
| FindDatabase (oid : N)
| ConnectPool (database : string)
| ClosePool
| Begin (c : conn)
| SetReadCommitted (c : conn)
| SetLockTimeout (c : conn)
| SetStatementTimeout (c : conn)
| ReadCatalog (c : conn) (origin : Origin) (s : MetadataScope)
| LockTables (c : conn) (s : MetadataScope)
| InstallationIds (c : conn)
| Commit (c : conn)
| Rollback (c : conn)
| DropTransaction (c : conn)
| ConnectUser (user database application : string)
| SetInWorkflow
| PinConformingStrings
| RunQuery (query : string)
| DropUserConn.

Definition reply (o : dop) : Type :=
  match o with
  | RegisterOrigin _ => result unit sqlx_error
  | AcquireSlots _ _ | AcquireUserPermit _ => acquired
  | FindDatabase _ => result (option (string * bool)) sqlx_error
  | ConnectPool _ => result unit sqlx_error
  | ReleaseSlots | ReleaseUserPermit | ClosePool | DropTransaction _ | DropUserConn => unit
  | Begin _ | SetReadCommitted _ | SetLockTimeout _ | SetStatementTimeout _ | LockTables _ _
  | Commit _ | Rollback _ => result unit sqlx_error
  | ReadCatalog _ _ _ => result system_catalog sqlx_error
  | InstallationIds _ => result (list N) sqlx_error
  | ConnectUser _ _ _ => connect_answer
  | SetInWorkflow => result unit sqlx_error
  | PinConformingStrings => result (option string) sqlx_error
  | RunQuery _ => result (list (list (string * cell))) sqlx_error
  end.

Definition db (A : Type) : Type := @act unit dop reply A.
Definition ask (o : dop) : db (reply o) := call o.
Definition db_map_err {A E F} (f : E -> F) (p : db (result A E)) : db (result A F) :=
  let* r := p in Pure (map_err f r).

Definition REPLACED : string := "Origin installation removed or replaced".

Section Routing.
(** [sqlx::Error::Protocol], a dependency: its display text *)
Context (protocol_text : string -> string).
Definition replaced : sqlx_error := mkSqlxError None true (protocol_text REPLACED).

(** ** Metadata transactions *)

Definition attest_metadata (c : conn) (origin : Origin) (s : MetadataScope)
    : db (result MetadataIdentity sqlx_error) :=
  let*? cat := ask (ReadCatalog c origin s) in
  let objects := attested_objects cat origin (names s) in
  if negb (Nat.eqb (length objects) (length (names s))) then Pure (Err replaced)
  else Pure (Ok (mkIdentity s objects)).

Definition lock_attested_metadata (c : conn) (origin : Origin) (before : MetadataIdentity)
    : db (result unit sqlx_error) :=
  let*? _ := ask (LockTables c (scope before)) in
  let*? after := attest_metadata c origin (scope before) in
  if negb (bool_decide (before = after)) then Pure (Err replaced) else Pure (Ok tt).

Definition installation_matches (c : conn) (origin : Origin) : db (result bool sqlx_error) :=
  let*? ids := ask (InstallationIds c) in
  Pure (Ok (bool_decide (installation_id origin ∈ ids))).

Definition check_identity (c : conn) (origin : Origin) : db (result unit sqlx_error) :=
  let*? matches_ := installation_matches c origin in
  if negb matches_ then Pure (Err replaced) else Pure (Ok tt).

Definition configure_metadata_transaction (c : conn) : db (result unit sqlx_error) :=
  let*? _ := ask (SetLockTimeout c) in
  ask (SetStatementTimeout c).

Definition lock_and_validate (c : conn) (origin : Origin) : db (result unit sqlx_error) :=
  let*? before := attest_metadata c origin InstallationScope in
  let*? _ := lock_attested_metadata c origin before in
  check_identity c origin.

(** The rest of a function that owns a transaction: an early return drops it. *)
Definition owning_transaction {A E} (c : conn) (p : db (result A E)) : db (result A E) :=
  let* r := p in
  match r with
  | Ok a => Pure (Ok a)
  | Err e => let* _ := ask (DropTransaction c) in Pure (Err e)
  end.

Definition begin_metadata (c : conn) (origin : option Origin) : db (result unit sqlx_error) :=
  let*? _ := ask (Begin c) in
  match origin with
  | None => Pure (Ok tt)
  | Some origin =>
      owning_transaction c (
        let*? _ := ask (SetReadCommitted c) in
        let*? _ := configure_metadata_transaction c in
        let*? before := attest_metadata c origin GraphScope in
        let*? _ := lock_attested_metadata c origin before in
        check_identity c origin)
  end.

Definition validate_execution_connection (c : conn) (origin : Origin) : db (result unit string) :=
  let*? _ := db_map_err error_text (ask (Begin c)) in
  let* validation :=
    (let*? _ := ask (SetReadCommitted c) in
      let*? _ := configure_metadata_transaction c in
      lock_and_validate c origin) in
  match validation with
  | Err error =>
      let message := "Origin execution fence: " +:+ error_text error in
      let*? _ := db_map_err (fun rollback => message +:+ "; rollback failed: " +:+ error_text rollback)
          (ask (Rollback c)) in
      Pure (Err message)
  | Ok _ =>
      db_map_err (fun error => "Origin execution fence commit failed: " +:+ error_text error)
        (ask (Commit c))
  end.

(** ** Connections *)

Definition acquire_connections (count : N) : db (result unit string) :=
  let* r := ask (AcquireSlots count (from_secs 30)) in
  Pure (match r with
        | Granted => Ok tt
        | SemaphoreClosed => Err "Origin connection admission closed"
        | AcquireTimedOut => Err "Origin connection admission timed out"
        end).

Definition routing_database (operation : string) (error : sqlx_error) : RoutingError :=
  let message := operation +:+ ": " +:+ error_text error in
  if is_retryable_database_error error then RoutingRetryable message else RoutingPermanent message.

Definition routing_text (e : RoutingError) : string :=
  match e with RoutingRetryable m | RoutingPermanent m => m end.

(** [permit] is held by the routes that own their pool. *)
Record Route := mkRoute {
  pool : conn;
  route_database : option string;
  route_origin : option Origin;
  permit : bool;
}.

Definition validate_typed (r : Route) : db (result unit RoutingError) :=
  match route_origin r with
  | None => Pure (Ok tt)
  | Some origin =>
      let c := pool r in
      let*? _ := db_map_err (routing_database "Origin admission unavailable") (ask (Begin c)) in
      let*? _ := owning_transaction c (
        let*? _ := db_map_err (routing_database "Origin admission isolation") (ask (SetReadCommitted c)) in
        let*? _ := db_map_err (routing_database "Origin admission timeouts")
            (configure_metadata_transaction c) in
        db_map_err (routing_database "Origin admission unavailable") (lock_and_validate c origin)) in
      db_map_err (routing_database "Origin admission close failed") (ask (Rollback c))
  end.

Definition validate (r : Route) : db (result unit string) :=
  db_map_err routing_text (validate_typed r).

(** [Route::close], and the task that [Drop] spawns. *)
Definition close (r : Route) : db unit :=
  if permit r then
    let* _ := ask ClosePool in
    ask ReleaseSlots
  else Pure tt.

Definition connect_typed (origin : Origin) : db (result Route RoutingError) :=
  let*? _ := db_map_err RoutingRetryable (acquire_connections 1) in
  let* connected :=
    (let*? found := db_map_err (routing_database "Origin database lookup failed")
        (ask (FindDatabase (database_oid origin))) in
     match found with
     | None => Pure (Err (RoutingPermanent "Origin database removed"))
     | Some (database, allowed) =>
         if negb allowed then Pure (Err (RoutingRetryable "Origin database connections disabled"))
         else
           let*? _ := db_map_err (routing_database "Origin database connection failed")
               (ask (ConnectPool database)) in
           Pure (Ok (mkRoute SourceConn (Some database) (Some origin) true))
     end) in
  match connected with
  | Err e => let* _ := ask ReleaseSlots in Pure (Err e)
  | Ok route =>
      let* valid := validate_typed route in
      match valid with
      | Err e => let* _ := close route in Pure (Err e)
      | Ok _ => Pure (Ok route)
      end
  end.

Definition connect (origin : Origin) : db (result Route string) :=
  db_map_err routing_text (connect_typed origin).

Context {U : UuidCrate}.

Definition route_typed (engine_id : string) : db (result Route RoutingError) :=
  match from_engine_id engine_id with
  | Err e => Pure (Err (RoutingPermanent e))
  | Ok None => Pure (Ok (mkRoute ControlConn None None false))
  | Ok (Some origin) =>
      let*? _ := db_map_err (routing_database "Register origin") (ask (RegisterOrigin origin)) in
      connect_typed origin
  end.

Definition route (engine_id : string) : db (result Route string) :=
  db_map_err routing_text (route_typed engine_id).
End Routing.
