(* ===== verification/RoutingSpec.v ===== *)
(** What a metadata transaction knows about the database it reads: the relations are
    those of the extension of that origin, they are the same before and after the
    lock, and the installation is the one that the engine id names. *)
From S2P Require Import Prelude RustString Sql Origin Admission Effects Routing.

(** ** Attestation *)

(** The constraints of the catalog that the query relies on: the unique indexes of
    its relations, and that no membership is recorded twice. *)
Record catalog_ok (cat : system_catalog) : Prop := {
  ext_names_unique : NoDup (ext_name <$> extensions cat);
  nsp_names_unique : NoDup (nsp_name <$> namespaces cat);
  relnames_unique : NoDup ((fun c => (relname c, relnamespace c)) <$> classes cat);
  class_oids_unique : NoDup (class_oid <$> classes cat);
  depends_unique : NoDup (depends cat);
}.

(** A permanent table of [df] that belongs to the extension and its owner. *)
Definition trusted_relation (cat : system_catalog) (origin : Origin) (o : object) : Prop :=
  exists e n c d, e ∈ extensions cat /\ n ∈ namespaces cat /\ c ∈ classes cat /\ d ∈ depends cat /\
    o = object_of e n c /\ is_member e d c = true /\
    ext_name e = "pg_durable" /\ nsp_name n = "df" /\ relnamespace c = nsp_oid n /\
    relkind c = "r"%char /\ relpersistence c = "p"%char /\
    relowner c = ext_owner e /\ nsp_owner n = ext_owner e /\
    (relname c = "_installation" -> has_uuid_id cat c = true) /\
    current_database_oid cat = Some (database_oid origin).

#[export] Instance by_name_trans : Transitive by_name.
Proof. intros a b c. unfold by_name. apply str_le_trans. Qed.
#[export] Instance by_name_total : Total by_name.
Proof. intros a b. unfold by_name. apply str_le_total. Qed.

Lemma key_inj {A B} (f : A -> B) l x y : NoDup (f <$> l) -> x ∈ l -> y ∈ l -> f x = f y -> x = y.
Proof.
  induction l as [|a l IH]; [by intros _ ?%elem_of_nil|]. rewrite fmap_cons.
  intros [Ha Hl]%NoDup_cons [->|Hx]%elem_of_cons [->|Hy]%elem_of_cons E; auto.
  - destruct Ha. rewrite E. by apply list_elem_of_fmap_2.
  - destruct Ha. rewrite <- E. by apply list_elem_of_fmap_2.
Qed.

Lemma NoDup_key {A B} (f : A -> B) l : NoDup (f <$> l) -> NoDup l.
Proof. apply NoDup_fmap_1. Qed.

Section Attestation.
Context (cat : system_catalog) (origin : Origin).

Lemma row_of_elem wanted e d c n o :
  o ∈ row_of cat wanted e d c n <-> o = object_of e n c /\ is_member e d c = true /\ trusted cat wanted e n c = true.
Proof.
  unfold row_of. destruct (is_member e d c) eqn:E1, (trusted cat wanted e n c) eqn:E2; cbn;
    rewrite ?list_elem_of_singleton; set_solver.
Qed.

Lemma trusted_spec wanted e n c :
  trusted cat wanted e n c = true ->
  ext_name e = "pg_durable" /\ nsp_name n = "df" /\ relnamespace c = nsp_oid n /\ relname c ∈ wanted /\
  relkind c = "r"%char /\ relpersistence c = "p"%char /\ relowner c = ext_owner e /\
  nsp_owner n = ext_owner e /\ (relname c = "_installation" -> has_uuid_id cat c = true).
Proof.
  unfold trusted. rewrite !andb_true_iff, orb_true_iff, negb_true_iff.
  rewrite !String.eqb_eq, !Ascii.eqb_eq, !N.eqb_eq, bool_decide_eq_true, String.eqb_neq.
  intros ((((((((H1 & H2) & H3) & H4) & H5) & H6) & H7) & H8) & H9).
  split_and!; auto. intros Hn. by destruct H9.
Qed.

Lemma is_member_spec e d c :
  is_member e d c = true ->
  d = mkDepend PG_CLASS (class_oid c) 0 PG_EXTENSION (ext_oid e) 0 "e"%char.
Proof.
  unfold is_member. rewrite !andb_true_iff, !N.eqb_eq, !Z.eqb_eq, Ascii.eqb_eq.
  intros ((((((? & ?) & ?) & ?) & ?) & ?) & ?). destruct d; cbn in *; congruence.
Qed.

Lemma attested_objects_elem wanted o :
  o ∈ attested_objects cat origin wanted ->
  trusted_relation cat origin o /\ object_name o ∈ wanted.
Proof.
  unfold attested_objects. case_bool_decide as Hdb; [|by intros ?%elem_of_nil].
  rewrite merge_sort_Permutation.
  intros (e & (d & (c & (n & Ho & Hn)%list_elem_of_bind & Hc)%list_elem_of_bind & Hd)%list_elem_of_bind
    & He)%list_elem_of_bind.
  apply row_of_elem in Ho as (-> & Hm & Ht). pose proof (trusted_spec _ _ _ _ Ht) as H.
  split; [|tauto]. exists e, n, c, d. tauto.
Qed.

Lemma trusted_member wanted e d c n o :
  o ∈ row_of cat wanted e d c n ->
  o = object_of e n c /\ ext_name e = "pg_durable" /\ nsp_name n = "df" /\ relnamespace c = nsp_oid n /\
  d = mkDepend PG_CLASS (class_oid c) 0 PG_EXTENSION (ext_oid e) 0 "e"%char.
Proof.
  intros (-> & Hm & Ht)%row_of_elem. pose proof (trusted_spec _ _ _ _ Ht).
  pose proof (is_member_spec _ _ _ Hm). tauto.
Qed.

Ltac members :=
  repeat match goal with
    | H : _ ∈ _ ≫= _ |- _ => apply list_elem_of_bind in H as (? & H & ?)
    | H : _ ∈ row_of _ _ _ _ _ _ |- _ => apply trusted_member in H as (? & ? & ? & ? & ?)
    end.

Lemma attested_NoDup wanted :
  catalog_ok cat -> NoDup (attested_objects cat origin wanted).
Proof.
  intros [He Hn Hr Hc Hd]. unfold attested_objects. case_bool_decide; [|constructor].
  rewrite merge_sort_Permutation.
  apply NoDup_bind; [|intros e Hin|by eapply NoDup_key].
  { intros e1 e2 o ? ? ? ?. members. apply (key_inj ext_name _ _ _ He); congruence. }
  apply NoDup_bind; [|intros d Hind|done].
  { intros d1 d2 o ? ? ? ?. members. subst. unfold object_of in *. congruence. }
  apply NoDup_bind; [|intros c Hinc|by eapply NoDup_key].
  { intros c1 c2 o ? ? ? ?. members. subst. apply (key_inj class_oid _ _ _ Hc); unfold object_of in *; congruence. }
  apply NoDup_bind; [|intros n Hinn|by eapply NoDup_key].
  { intros n1 n2 o ? ? ? ?. members. apply (key_inj nsp_name _ _ _ Hn); congruence. }
  unfold row_of. destruct (_ && _); [apply NoDup_singleton|constructor].
Qed.

Lemma attested_name_inj wanted o1 o2 :
  catalog_ok cat -> o1 ∈ attested_objects cat origin wanted -> o2 ∈ attested_objects cat origin wanted ->
  object_name o1 = object_name o2 -> o1 = o2.
Proof.
  intros [He Hn Hr Hc Hd] ((e1 & n1 & c1 & d1 & ? & ? & ? & ? & -> & ? & ? & ? & ? & _) & _)%attested_objects_elem
    ((e2 & n2 & c2 & d2 & ? & ? & ? & ? & -> & ? & ? & ? & ? & _) & _)%attested_objects_elem.
  cbn. intros E.
  assert (e1 = e2) as -> by (apply (key_inj ext_name _ _ _ He); congruence).
  assert (n1 = n2) as -> by (apply (key_inj nsp_name _ _ _ Hn); congruence).
  assert (c1 = c2) as -> by (apply (key_inj _ _ _ _ Hr); cbn; congruence).
  done.
Qed.

(** Every wanted name occurs once, if the query finds as many rows as names. *)
Lemma attested_names wanted :
  catalog_ok cat -> NoDup wanted -> StronglySorted str_le wanted ->
  length (attested_objects cat origin wanted) = length wanted ->
  object_name <$> attested_objects cat origin wanted = wanted.
Proof.
  intros Hok Hnd Hsorted Hlen.
  assert (Hin : forall x, x ∈ object_name <$> attested_objects cat origin wanted -> x ∈ wanted).
  { intros x (o & -> & Ho)%list_elem_of_fmap. by apply attested_objects_elem in Ho as [_ Ho]. }
  assert (Hperm : object_name <$> attested_objects cat origin wanted ≡ₚ wanted).
  { apply submseteq_length_Permutation; [|by rewrite length_fmap, Hlen].
    apply NoDup_submseteq; [|done]. apply NoDup_fmap_2_strong; [|by apply attested_NoDup].
    intros. by eapply attested_name_inj. }
  apply (StronglySorted_unique str_le); [|done..].
  unfold attested_objects. case_bool_decide; [|constructor].
  apply (StronglySorted_fmap _ by_name); [done|]. apply (merge_sort_sorted by_name).
Qed.
End Attestation.

(** ** The metadata transaction *)

(** What a metadata transaction saw of a scope: complete, the same before and after
    the lock, and in the installation that the origin names. *)
Definition attested (origin : Origin) (s : MetadataScope) (before after : system_catalog)
    (ids : list N) : Prop :=
  attested_objects before origin (names s) = attested_objects after origin (names s) /\
  length (attested_objects after origin (names s)) = length (names s) /\
  installation_id origin ∈ ids.

Definition configured (c : conn) : list (@event dop reply) :=
  [Ev (SetReadCommitted c) (Ok tt); Ev (SetLockTimeout c) (Ok tt); Ev (SetStatementTimeout c) (Ok tt)].
Definition seen (c : conn) (origin : Origin) (s : MetadataScope) (before after : system_catalog)
    (ids : list N) : list (@event dop reply) :=
  [Ev (ReadCatalog c origin s) (Ok before); Ev (LockTables c s) (Ok tt);
   Ev (ReadCatalog c origin s) (Ok after); Ev (InstallationIds c) (Ok ids)].
(** The events of a validated transaction up to the reads of its owner. *)
Definition validated (c : conn) (origin : Origin) (s : MetadataScope) (before after : system_catalog)
    (ids : list N) : list (@event dop reply) :=
  Ev (Begin c) (Ok tt) :: configured c ++ seen c origin s before after ids.

Definition opened (c : conn) (e : @event dop reply) (open : bool) : bool :=
  match ev_op e as o return reply o -> bool with
  | Begin c' => fun r => if bool_decide (c' = c) then open || is_ok r else open
  | Commit c' | Rollback c' => fun _ => open && negb (bool_decide (c' = c))
  | DropTransaction c' => fun _ => open && negb (bool_decide (c' = c))
  | _ => fun _ => open
  end (ev_answer e).
(** Whether a transaction is open on a connection after some events. *)
Definition is_open (c : conn) (tr : list (@event dop reply)) : bool :=
  fold_left (fun open e => opened c e open) tr false.

(** One statement, with its answer in [a]; the rest of the run in [H]. *)
Ltac ask_inv H a :=
  apply does_try in H as (? & ? & a & ? & -> & (? & ? & -> & -> & <- & ->) & H).
Ltac sub_inv H lem a F :=
  apply does_try in H as (? & ? & a & ? & -> & F%lem & H).
Ltac stop_inv H := destruct H as (-> & -> & ->).

Section Transactions.
Context (protocol_text : string -> string).

(** The statements of a transaction before its owner reads. *)
Definition statement (c : conn) (o : dop) : Prop :=
  match o with
  | SetReadCommitted c' | SetLockTimeout c' | SetStatementTimeout c' | ReadCatalog c' _ _
  | LockTables c' _ | InstallationIds c' => c' = c
  | _ => False
  end.
Definition inside (c : conn) (tr : list (@event dop reply)) : Prop :=
  Forall (fun e => statement c (ev_op e)) tr.

Lemma inside_open c tr open : inside c tr -> fold_left (fun open e => opened c e open) tr open = open.
Proof.
  intros H. revert open. induction H as [|e tr He _ IH]; intros open; [done|]. cbn. rewrite IH.
  destruct e as [o r]. by destruct o.
Qed.

Lemma inside_app c tr1 tr2 : inside c tr1 -> inside c tr2 -> inside c (tr1 ++ tr2).
Proof. apply Forall_app_2. Qed.

Ltac inside := repeat first [done | assumption | simple apply inside_app | by repeat constructor].

Definition attestation (c : conn) (origin : Origin) (s : MetadataScope) : db (result unit sqlx_error) :=
  let*? before := attest_metadata protocol_text c origin s in
  let*? _ := lock_attested_metadata protocol_text c origin before in
  check_identity protocol_text c origin.

Lemma attest_metadata_does c origin s st tr r st' :
  does (attest_metadata protocol_text c origin s) st tr r st' ->
  inside c tr /\
  match r with
  | Ok id => exists cat, tr = [Ev (ReadCatalog c origin s) (Ok cat)] /\
      id = mkIdentity s (attested_objects cat origin (names s)) /\
      length (attested_objects cat origin (names s)) = length (names s)
  | Err _ => True
  end.
Proof.
  unfold attest_metadata. intros H. ask_inv H answer.
  destruct answer as [cat|e]; [|stop_inv H; split; [inside|done]].
  destruct (negb _) eqn:E; stop_inv H; (split; [inside|]); [done|].
  apply negb_false_iff, Nat.eqb_eq in E. eauto.
Qed.

Lemma attestation_does c origin s st tr r st' :
  does (attestation c origin s) st tr r st' ->
  inside c tr /\
  match r with
  | Ok _ => exists before after ids, tr = seen c origin s before after ids /\
      attested origin s before after ids
  | Err _ => True
  end.
Proof.
  unfold attestation, lock_attested_metadata, check_identity, installation_matches. intros H.
  sub_inv H attest_metadata_does before F1. destruct F1 as [I1 F1].
  destruct before as [id|]; [|stop_inv H; split; [inside|done]].
  destruct F1 as (before & -> & -> & Hlen).
  apply does_try in H as (tr2 & ? & a & ? & -> & H1 & H).
  ask_inv H1 a3. destruct a3 as [[]|]; [|stop_inv H1; stop_inv H; split; [inside|done]].
  sub_inv H1 attest_metadata_does again F2. destruct F2 as [I2 F2].
  destruct again as [again|]; [|stop_inv H1; stop_inv H; split; [inside|done]].
  destruct F2 as (after & -> & -> & Hlen').
  destruct (negb _) eqn:Eq; stop_inv H1; [stop_inv H; split; [inside|done]|].
  apply negb_false_iff, bool_decide_eq_true in Eq. injection Eq as Eq.
  apply does_try in H as (tr3 & ? & a & ? & -> & H1 & H).
  ask_inv H1 ids. destruct ids as [ids|]; stop_inv H1; [|stop_inv H; split; [inside|done]].
  destruct (negb _) eqn:Ei; stop_inv H; (split; [inside|]); [done|].
  apply negb_false_iff, bool_decide_eq_true in Ei.
  exists before, after, ids. split; [reflexivity|]. by split.
Qed.

(** The lock and its surroundings, in a transaction that was set up. *)
Lemma configured_does c (p : db (result unit sqlx_error)) st tr r st' :
  does (let*? _ := ask (SetReadCommitted c) in
    let*? _ := configure_metadata_transaction c in p) st tr r st' ->
  exists set rest, tr = set ++ rest /\ inside c set /\
  ((rest = [] /\ is_ok r = false) \/
   (exists st1, set = configured c /\ does p st1 rest r st')).
Proof.
  unfold configure_metadata_transaction. intros H.
  ask_inv H a1. destruct a1 as [[]|]; [|stop_inv H; eexists _, []; split_and!; [done|inside|by left]].
  apply does_try in H as (tr1 & ? & a & ? & -> & H1 & H). rewrite app_assoc.
  ask_inv H1 a2. destruct a2 as [[]|].
  - destruct H1 as (? & ? & -> & -> & <- & ->). destruct a as [[]|].
    + eexists _, _. split_and!; [done|inside|]. right. eauto.
    + stop_inv H. eexists _, []. split_and!; [done|inside|by left].
  - stop_inv H1. stop_inv H. eexists _, []. split_and!; [done|inside|by left].
Qed.

(** The statements of a transaction before its owner reads. *)
Definition validation (c : conn) (origin : Origin) (s : MetadataScope) : db (result unit sqlx_error) :=
  let*? _ := ask (SetReadCommitted c) in
  let*? _ := configure_metadata_transaction c in
  attestation c origin s.

Lemma validation_does c origin s st tr r st' :
  does (validation c origin s) st tr r st' ->
  inside c tr /\
  match r with
  | Ok _ => exists before after ids, tr = configured c ++ seen c origin s before after ids /\
      attested origin s before after ids
  | Err _ => True
  end.
Proof.
  intros (set & rest & -> & Hset & [[-> Hr]|(st1 & -> & H)])%configured_does.
  - rewrite app_nil_r. by destruct r.
  - apply attestation_does in H as [Hin H]. split; [by apply inside_app|].
    destruct r as [[]|]; [|done]. destruct H as (before & after & ids & -> & H). eauto.
Qed.

Lemma inside_begun c tr : inside c tr -> is_open c (Ev (Begin c) (Ok tt) :: tr) = true.
Proof. intros H. unfold is_open. cbn. rewrite bool_decide_true by done. by apply inside_open. Qed.

Lemma dropped_closed c tr : is_open c (tr ++ [Ev (DropTransaction c) tt]) = false.
Proof.
  unfold is_open. rewrite fold_left_app. cbn. rewrite bool_decide_true by done.
  by rewrite andb_false_r.
Qed.
End Transactions.

(** C12: A metadata transaction of an origin is handed to its owner only after the
    tables of its scope were attested, locked and attested again with the same
    result, in a transaction with bounded waits that sees every commit before the
    lock, and after the installation that the engine id names was found; the
    attested tables are, name for name, the permanent tables that belong to the
    extension in the database of the origin, and to its owner.  When anything fails
    the transaction does not stay open. *)
Theorem metadata_transaction_attested pt c origin st tr r st' :
  does (begin_metadata pt c (Some origin)) st tr r st' ->
  is_open c tr = is_ok r /\
  (is_ok r = true -> exists before after ids, tr = validated c origin GraphScope before after ids /\
    installation_id origin ∈ ids /\
    (catalog_ok before -> object_name <$> attested_objects before origin (names GraphScope) =
       ["_installation"; "instances"; "nodes"]) /\
    forall o, o ∈ attested_objects before origin (names GraphScope) ->
      trusted_relation before origin o /\ trusted_relation after origin o).
Proof.
  unfold begin_metadata. intros H. ask_inv H begun. destruct begun as [[]|e].
  2: { stop_inv H. split; [|done]. unfold is_open. cbn. by rewrite bool_decide_true. }
  unfold owning_transaction in H. apply does_bind in H as (tr1 & tr2 & v & s1 & -> & Hv & H).
  apply (validation_does pt) in Hv as [Hin Hv]. destruct v as [[]|e].
  - stop_inv H. rewrite app_nil_r. destruct Hv as (before & after & ids & -> & Heq & Hlen & Hids).
    cbn [app]. split; [by apply inside_begun|]. intros _. exists before, after, ids. split_and!; [done..| |].
    + intros Hok. apply (attested_names before origin (names GraphScope) Hok).
      * repeat constructor; set_solver.
      * repeat constructor.
      * by rewrite Heq.
    + intros o Ho. split; [by apply attested_objects_elem in Ho as [? _]|].
      rewrite Heq in Ho. by apply attested_objects_elem in Ho as [? _].
  - destruct H as ([] & ? & -> & -> & -> & ->). split; [|done]. cbn [is_ok].
    change (?a ++ tr1 ++ ?b) with ((a ++ tr1) ++ b). apply dropped_closed.
Qed.

(** ** A sample origin *)

Module SampleOrigin.
Definition origin : Origin := sample_origin.
Definition table (oid : N) (name : string) : pg_class := mkClass oid name 200 "r" "p" 10.
Definition member (oid : N) : pg_depend := mkDepend PG_CLASS oid 0 PG_EXTENSION 100 0 "e".

(** The extension's tables, and a table of the same name in another schema. *)
Definition catalog : system_catalog := mkCatalog
    [mkExtension 90 "plpgsql" 10; mkExtension 100 "pg_durable" 10]
    [mkNamespace 11 "public" 10; mkNamespace 200 "df" 10]
    [table 303 "nodes"; table 301 "_installation"; table 302 "instances";
     mkClass 400 "instances" 11 "r" "p" 20]
    [member 301; member 302; member 303]
    [mkAttribute 301 "id" UUID false; mkAttribute 400 "id" UUID false]
    [(5%N, "postgres"); (16384%N, "app")] "app".

Definition world (hist : list (@event dop reply)) (o : dop) : reply o :=
  match o as o return reply o with
  | RegisterOrigin _ => Ok tt
  | AcquireSlots _ _ | AcquireUserPermit _ => Granted
  | FindDatabase _ => Ok (Some ("app", true))
  | ConnectPool _ => Ok tt
  | ReleaseSlots | ReleaseUserPermit | ClosePool | DropTransaction _ | DropUserConn => tt
  | Begin _ | SetReadCommitted _ | SetLockTimeout _ | SetStatementTimeout _ | LockTables _ _
  | Commit _ | Rollback _ => Ok tt
  | ReadCatalog _ _ _ => Ok catalog
  | InstallationIds _ => Ok [170%N]
  | ConnectUser _ _ _ => Connected
  | SetInWorkflow => Ok tt
  | PinConformingStrings => Ok (Some "on")
  | RunQuery _ => Ok [[("n", CInt "INT4" (Ok (Some 1%Z)))]]
  end.
End SampleOrigin.

Lemma metadata_transaction_attested_witness :
  exists tr, does (begin_metadata (fun s => s) SourceConn (Some SampleOrigin.origin)) tt tr (Ok tt) tt /\
    length tr = 8 /\
    is_open SourceConn tr = true /\ catalog_ok SampleOrigin.catalog /\
    exists before after ids, tr = validated SourceConn SampleOrigin.origin GraphScope before after ids.
Proof.
  destruct (eval_does SampleOrigin.world []
    (begin_metadata (fun s => s) SourceConn (Some SampleOrigin.origin)) tt) as (tr & E & H).
  assert (Hok : fst (fst (eval SampleOrigin.world []
    (begin_metadata (fun s => s) SourceConn (Some SampleOrigin.origin)) tt)) = Ok tt)
    by (vm_compute; reflexivity).
  rewrite Hok in H. destruct (snd (fst _)).
  exists tr. split; [exact H|]. split; [apply (f_equal (fun x => length (snd x))) in E; etransitivity; [symmetry; exact E|vm_compute; reflexivity]|].
  destruct (metadata_transaction_attested _ _ _ _ _ _ _ H) as [Hopen Hall].
  split; [exact Hopen|]. split; [split; apply (bool_decide_unpack _); vm_compute; exact I|].
  destruct (Hall eq_refl) as (before & after & ids & Etr & _). eauto.
Defined.
