(* ===== verification/SqlActivity.v ===== *)
(** The SQL activity ([src/activities/execute_sql.rs], its registration in
    [src/registry.rs], [connect_as_user] and [acquire_execution_permit] of
    [src/types.rs]): the query of a SQL node runs on a connection of its own that
    is opened as the submitting role. *)
From S2P Require Import Prelude RustString Json Substitution Graph Origin Admission.
From S2P Require Import Orchestration Effects Routing.

(** ** Input *)

Definition de_sql_input (v : value) : option ExecuteSqlInput :=
  l ← as_object v;
  query ← req "query" as_str l;
  submitted_by ← req "submitted_by" as_str l;
  database ← opt "database" as_str l;
  quoting ← dflt "sql_quoting_version" Legacy de_sql_quoting l;
  Some (mkSqlInput query submitted_by database quoting).

#[export] Instance sql_input_codec : Codec ExecuteSqlInput := {|
  type_name := "struct ExecuteSqlInput"; en := en_sql_input; de := de_sql_input;
  valid _ := True |}.

(** ** Rows *)

(** Floats are bit patterns: a pattern is finite unless all bits of its exponent are
    set. *)
Definition f64_finite (bits : Z) : bool := negb (Z.land (Z.shiftr bits 52) 2047 =? 2047)%Z.
Definition f32_finite (bits : Z) : bool := negb (Z.land (Z.shiftr bits 23) 255 =? 255)%Z.

(** [v as f64] of a finite [f32]: exact; a subnormal gets a leading bit. *)
Definition f32_to_f64 (bits : Z) : Z :=
  let sign := Z.shiftl (Z.land (Z.shiftr bits 31) 1) 63 in
  let exponent := Z.land (Z.shiftr bits 23) 255 in
  let mantissa := Z.land bits 8388607 in
  if (exponent =? 0)%Z then
    if (mantissa =? 0)%Z then sign
    else
      let top := Z.log2 mantissa in
      Z.lor sign (Z.lor (Z.shiftl (top + 874) 52)
                        (Z.land (Z.shiftl mantissa (52 - top)) 4503599627370495))
  else Z.lor sign (Z.lor (Z.shiftl (exponent + 896) 52) (Z.shiftl mantissa 29)).

Definition decode_as {A} (what col_name : string) (f : A -> value) (v : result (option A) string)
    : result value string :=
  match v with
  | Ok (Some a) => Ok (f a)
  | Ok None => Ok Null
  | Err e => Err ("Failed to decode " +:+ what +:+ " column '" +:+ col_name +:+ "': " +:+ e)
  end.

Definition decode_column (col_name : string) (c : cell) : result value string :=
  match c with
  | CBool v => decode_as "BOOL" col_name Bool v
  | CInt type_name v => decode_as type_name col_name json_int v
  | CFloat4 v => decode_as "FLOAT4" col_name
      (fun b => if f32_finite b then Number (Float (f32_to_f64 b)) else Null) v
  | CFloat8 v => decode_as "FLOAT8" col_name
      (fun b => if f64_finite b then Number (Float b) else Null) v
  | CText _ v => decode_as "text" col_name JString v
  | CNumeric v => decode_as "NUMERIC" col_name JString v
  | CUuid v => decode_as "UUID" col_name JString v
  | CTimestamptz v => decode_as "TIMESTAMPTZ" col_name JString v
  | CTimestamp v => decode_as "TIMESTAMP" col_name JString v
  | CDate v => decode_as "DATE" col_name JString v
  | CJson v => decode_as "JSON" col_name (fun x => x) v
  | CVoid => Ok Null
  | COther other =>
      Err ("Unsupported column type '" +:+ other +:+ "' for column '" +:+ col_name +:+ "'. " +:+
           "Supported types: bool, int2, int4, int8, float4, float8, " +:+
           "text, varchar, numeric, uuid, timestamptz, timestamp, date, jsonb, json, void.")
  end.

Fixpoint decode_row (columns : list (string * cell)) (row_obj : members) : result members string :=
  match columns with
  | [] => Ok row_obj
  | (col_name, c) :: rest =>
      let? v := decode_column col_name c in
      decode_row rest (obj_insert col_name v row_obj)
  end.

Fixpoint decode_rows (rows : list (list (string * cell))) : result (list value) string :=
  match rows with
  | [] => Ok []
  | row :: rest =>
      let? row_obj := decode_row row [] in
      let? result_rows := decode_rows rest in
      Ok (Object row_obj :: result_rows)
  end.

Definition result_value (result_rows : list value) : value :=
  Object [("rows", Array result_rows);
          ("row_count", Number (PosInt (N.of_nat (length result_rows))))].

(** ** The activity *)

Record sql_settings := mkSqlSettings {
  max_user_connections : N;
  (** seconds, an [i32] *)
  execution_acquire_timeout : N;
  (** [pg_durable.database] *)
  control_database : string;
}.

Definition WORKER_WORKFLOW_SQL_APPLICATION_NAME : string := "pg_durable:worker:workflow-sql".

Section Activity.
Context (protocol_text : string -> string) (settings : sql_settings).
Context {SJ : SerdeJson} {U : UuidCrate}.

Definition acquire_execution_permit : db (result unit string) :=
  let timeout := from_secs (execution_acquire_timeout settings) in
  let reached := "pg_durable: connection limit reached (max_user_connections="
      +:+ show_N (max_user_connections settings) +:+ "). " in
  let* r := ask (AcquireUserPermit timeout) in
  Pure (match r with
        | Granted => Ok tt
        | SemaphoreClosed => Err (reached +:+ "Semaphore closed unexpectedly.")
        | AcquireTimedOut =>
            Err (reached +:+ "Timed out after " +:+ show_N (execution_acquire_timeout settings) +:+
                 "s waiting for an available execution slot.")
        end).

(** The rest of a function that owns the user's connection. *)
Definition owning_user_conn {A E} (p : db (result A E)) : db (result A E) :=
  let* r := p in
  let* _ := ask DropUserConn in
  Pure r.
Definition owning_user_permit {A E} (p : db (result A E)) : db (result A E) :=
  let* r := p in
  let* _ := ask ReleaseUserPermit in
  Pure r.

Definition connect_as_user (user : string) (database : option string) : db (result unit string) :=
  let db := default (control_database settings) database in
  let* r := ask (ConnectUser user db WORKER_WORKFLOW_SQL_APPLICATION_NAME) in
  match r with
  | ConnectTimedOut =>
      Pure (Err ("Connection to database '" +:+ db +:+ "' as '" +:+ user +:+ "' timed out after 30s"))
  | ConnectFailed e =>
      Pure (Err ("Failed to connect to database '" +:+ db +:+ "' as '" +:+ user +:+ "'. Error: " +:+ e))
  | Connected =>
      let* r := ask SetInWorkflow in
      match r with
      | Ok _ => Pure (Ok tt)
      | Err e => let* _ := ask DropUserConn in Pure (Err ("SET df.in_workflow failed: " +:+ error_text e))
      end
  end.

Definition prepare_sql_quoting (version : SqlQuotingVersion) : db (result unit string) :=
  if is_legacy version then
    let*? setting := db_map_err (fun e => "Failed to enforce legacy SQL quoting: " +:+ error_text e)
        (ask PinConformingStrings) in
    match setting with
    | None => Pure (Err ("Legacy workflow SQL requires standard_conforming_strings=on; " +:+
                         "replay-compatible literals are unsafe when it is off"))
    | Some _ => Pure (Ok tt)
    end
  else Pure (Ok tt).

Definition execute_query (query : string) : db (result string string) :=
  let* r := ask (RunQuery query) in
  Pure (match r with
        | Ok rows => let? result_rows := decode_rows rows in
            Ok (value_to_string (result_value result_rows))
        | Err e => Err ("SQL execution failed: " +:+ error_text e)
        end).

Definition validate_source (source : option Route) : db (result unit string) :=
  match source with Some r => validate protocol_text r | None => Pure (Ok tt) end.

Definition execute_in_origin (input_json : string) (origin : option Origin) (source : option Route)
    : db (result string string) :=
  match map_err (fun e => "Invalid execute_sql input: " +:+ e) (from_json input_json) with
  | Err e => Pure (Err e)
  | Ok input =>
      let*? _ := acquire_execution_permit in
      owning_user_permit (
        let*? _ := validate_source source in
        let*? _ := connect_as_user (sql_submitted_by input) (sql_database input) in
        owning_user_conn (
          let*? _ := validate_source source in
          let*? _ := match origin with
            | Some origin => validate_execution_connection protocol_text UserConn origin
            | None => Pure (Ok tt)
            end in
          let*? _ := prepare_sql_quoting (sql_quoting input) in
          let*? _ := validate_source source in
          execute_query (sql_query input)))
  end.

(** [execute]: without a route. *)
Definition execute (input_json : string) : db (result string string) :=
  execute_in_origin input_json None None.

(** *** Registration *)

(** An input without a database runs in the route's; one that runs in the route's
    database is fenced by the origin. *)
Definition routed_input (instance_id : string) (r : Route) (input_json : string)
    : result (string * option Origin) string :=
  match route_database r with
  | None => Ok (input_json, None)
  | Some database =>
      let? input := from_json input_json in
      let input := match sql_database input with
        | None => mkSqlInput (sql_query input) (sql_submitted_by input) (Some database)
              (sql_quoting input)
        | Some _ => input
        end in
      let? execution_origin := if bool_decide (sql_database input = Some database)
        then from_engine_id instance_id else Ok None in
      Ok (to_json input, execution_origin)
  end.

Definition execute_sql (instance_id input_json : string) : db (result string string) :=
  let*? r := route protocol_text instance_id in
  match routed_input instance_id r input_json with
  | Err e => let* _ := close r in Pure (Err e)
  | Ok (input_json, execution_origin) =>
      let* result := execute_in_origin input_json execution_origin (Some r) in
      let* _ := close r in
      Pure result
  end.
End Activity.
