(* ===== verification/SqlActivitySpec.v ===== *)
(** What holds of the database when the user's SQL is sent, and that the activity
    gives back whatever it took. *)
From S2P Require Import Prelude RustString Json Substitution Graph Sql Origin Admission.
From S2P Require Import Orchestration Effects Routing RoutingSpec SqlActivity JsonText.

(** ** Input *)

#[export] Instance sql_input_codec_ok : CodecOk ExecuteSqlInput.
Proof. constructor; intros [q u d []] _; by destruct d. Qed.

(** ** Queries of a run *)

Definition queries (tr : list (@event dop reply)) : list string :=
  omap (fun e => match ev_op e with RunQuery q => Some q | _ => None end) tr.
Definition no_query (o : dop) : Prop := match o with RunQuery _ => False | _ => True end.

Lemma queries_app tr1 tr2 : queries (tr1 ++ tr2) = queries tr1 ++ queries tr2.
Proof. apply omap_app. Qed.

Lemma queries_none tr : Forall (fun e => no_query (ev_op e)) tr -> queries tr = [].
Proof.
  induction 1 as [|[o r] tr Ho _ IH]; [done|]. unfold queries in *. cbn in *. by destruct o.
Qed.

Ltac onlys :=
  repeat first
    [ done | assumption
    | progress intros
    | simple apply only_try | simple apply only_bind | progress cbv zeta
    | match goal with |- only _ (match ?r with _ => _ end) => destruct r end
    | match goal with |- only _ (call _) => split end
    | match goal with |- only _ (ask _) => split end ].

Lemma db_map_err_does {A E F} (f : E -> F) (p : db (result A E)) st tr r st' :
  does (db_map_err f p) st tr r st' -> exists r0, does p st tr r0 st' /\ r = map_err f r0.
Proof.
  intros (tr1 & tr2 & r0 & s1 & -> & H & (-> & -> & ->))%does_bind. rewrite app_nil_r. eauto.
Qed.

(** A statement whose error is mapped. *)
Ltac mapped_inv H b :=
  apply does_try in H as (? & ? & ? & ? & -> & (b & (? & ? & -> & -> & <- & ->) & ->)%db_map_err_does & H);
  cbn [map_err] in H.

Section Activity.
Context (protocol_text : string -> string) (settings : sql_settings).
Context {SJ : SerdeJson} {U : UuidCrate}.

Lemma lock_and_validate_only c o P :
  (forall op, statement c op -> P op) -> only P (lock_and_validate protocol_text c o).
Proof.
  intros HP. unfold lock_and_validate, lock_attested_metadata, attest_metadata, check_identity,
    installation_matches. onlys; by apply HP.
Qed.

(** *** What each step leaves in the history *)

Definition admitted (r : Route) (tr : list (@event dop reply)) : Prop :=
  match route_origin r with
  | None => tr = []
  | Some o => exists before after ids, attested o InstallationScope before after ids /\
      tr = validated (pool r) o InstallationScope before after ids ++
      [Ev (Rollback (pool r)) (Ok tt)]
  end.


Lemma configure_only c P :
  (forall op, statement c op -> P op) -> only P (configure_metadata_transaction c).
Proof. intros HP. unfold configure_metadata_transaction. onlys; by apply HP. Qed.

Lemma configure_does c st tr r st' :
  does (configure_metadata_transaction c) st tr r st' -> is_ok r = true ->
  tr = [Ev (SetLockTimeout c) (Ok tt); Ev (SetStatementTimeout c) (Ok tt)].
Proof.
  unfold configure_metadata_transaction. intros H Hr. ask_inv H a. destruct a as [[]|]; [|by stop_inv H].
  destruct H as (b & ? & -> & -> & -> & ->). by destruct b as [[]|].
Qed.

Lemma validate_only r (P : dop -> Prop) :
  (forall c op, statement c op -> P op) -> (forall c, P (Begin c)) -> (forall c, P (Rollback c)) ->
  (forall c, P (DropTransaction c)) -> only P (validate protocol_text r).
Proof.
  intros HP Hb Hr Hd. unfold validate, validate_typed, owning_transaction, db_map_err. onlys; auto.
  all: first [by apply (HP (pool r)) | by apply configure_only, HP | by apply lock_and_validate_only, HP].
Qed.

Lemma validate_does r st tr v st' :
  does (validate protocol_text r) st tr v st' -> is_ok v = true -> admitted r tr.
Proof.
  intros (v' & H & ->)%db_map_err_does Hv. unfold validate_typed in H. unfold admitted.
  destruct (route_origin r) as [o|]; [|by stop_inv H].
  mapped_inv H b.
  destruct b as [[]|]; [|by stop_inv H].
  unfold owning_transaction in H.
  apply does_try in H as (tr1 & tr2 & v & s2 & -> & Hin & H).
  apply does_bind in Hin as (tr3 & tr4 & v3 & s3 & -> & Hin & Hend).
  destruct v3 as [[]|]; [stop_inv Hend|].
  2: { destruct Hend as (? & ? & -> & -> & -> & ->). by stop_inv H. }
  apply db_map_err_does in H as (closed & (? & ? & -> & -> & <- & ->) & ->).
  destruct closed as [[]|]; [|done].
  mapped_inv Hin b.
  destruct b as [[]|]; [|by destruct Hin as (_ & ? & _)].
  apply does_try in Hin as (? & ? & ? & ? & -> & (b & F & ->)%db_map_err_does & Hin).
  destruct b as [[]|]; cbn [map_err] in Hin; [|by destruct Hin as (_ & ? & _)].
  apply configure_does in F as ->; [|done]. apply db_map_err_does in Hin as (w & Hin & Hw). destruct w as [[]|]; [|done].
  apply (attestation_does protocol_text _ _ InstallationScope) in Hin as [_ (before & after & ids & -> & Hat)].
  exists before, after, ids. split; [done|]. unfold validated, configured. rewrite app_nil_r. done.
Qed.

(** The fence of the user's connection: a transaction of its own, committed. *)
Definition fenced (o : Origin) (tr : list (@event dop reply)) : Prop :=
  exists before after ids, attested o InstallationScope before after ids /\
  tr = validated UserConn o InstallationScope before after ids ++ [Ev (Commit UserConn) (Ok tt)].

Lemma validate_execution_connection_does o st tr r st' :
  does (validate_execution_connection protocol_text UserConn o) st tr r st' -> is_ok r = true ->
  fenced o tr.
Proof.
  unfold validate_execution_connection. intros H Hr.
  mapped_inv H b.
  destruct b as [[]|]; [|by stop_inv H].
  apply does_bind in H as (tr1 & tr2 & v & s2 & -> & Hin & H).
  apply (validation_does protocol_text _ _ InstallationScope) in Hin as [_ Hin].
  destruct v as [[]|].
  - destruct Hin as (before & after & ids & -> & Hat).
    apply db_map_err_does in H as (w & (c & ? & -> & -> & -> & ->) & ->).
    destruct c as [[]|]; [|done]. exists before, after, ids. by split.
  - mapped_inv H w. destruct w; by stop_inv H.
Qed.

(** The connection of the role, marked as one of a workflow. *)
Definition session (user : string) (database : option string) : list (@event dop reply) :=
  [Ev (ConnectUser user (default (control_database settings) database)
       WORKER_WORKFLOW_SQL_APPLICATION_NAME) Connected; Ev SetInWorkflow (Ok tt)].

Lemma connect_as_user_does user database st tr r st' :
  does (connect_as_user settings user database) st tr r st' -> is_ok r = true ->
  tr = session user database.
Proof.
  unfold connect_as_user. intros H Hr.
  apply does_bind in H as (tr1 & tr2 & c & s2 & -> & (? & ? & -> & -> & <- & ->) & H).
  destruct c; [|by stop_inv H..].
  apply does_bind in H as (tr1 & tr3 & c & s3 & -> & (? & ? & -> & -> & <- & ->) & H).
  destruct c as [[]|]; [by stop_inv H|]. destruct H as (? & ? & -> & -> & -> & ->). done.
Qed.

(** The pinning that literals of the legacy quoting version rely on. *)
Definition pinned (version : SqlQuotingVersion) (tr : list (@event dop reply)) : Prop :=
  if is_legacy version then exists setting, tr = [Ev PinConformingStrings (Ok (Some setting))] else tr = [].

Lemma prepare_sql_quoting_does version st tr r st' :
  does (prepare_sql_quoting version) st tr r st' -> is_ok r = true -> pinned version tr.
Proof.
  unfold prepare_sql_quoting, pinned. intros H Hr. destruct (is_legacy version); [|by stop_inv H].
  mapped_inv H b.
  destruct b as [[setting|]|]; stop_inv H; [eauto|done..].
Qed.

(** *** The activity *)

Definition granted : list (@event dop reply) :=
  [Ev (AcquireUserPermit (from_secs (execution_acquire_timeout settings))) Granted].

(** The history of a query: a permit, the role's connection, the fence, the pinned
    quoting, and the source before, between and after. *)
Definition prepared (input : ExecuteSqlInput) (origin : option Origin) (source : Route)
    (tr : list (@event dop reply)) : Prop :=
  exists v1 v2 fence pin v3,
  tr = granted ++ v1 ++ session (sql_submitted_by input) (sql_database input) ++ v2 ++ fence ++ pin ++ v3 /\
  admitted source v1 /\ admitted source v2 /\ admitted source v3 /\
  match origin with Some o => fenced o fence | None => fence = [] end /\
  pinned (sql_quoting input) pin.

Lemma quiet_does {A} (p : db A) st tr r st' : only no_query p -> does p st tr r st' -> queries tr = [].
Proof. intros Hp H. by eapply queries_none, only_does. Qed.

Lemma validate_quiet r : only no_query (validate protocol_text r).
Proof. apply validate_only; [|done..]. by intros c []. Qed.
Lemma acquire_quiet : only no_query (acquire_execution_permit settings).
Proof. unfold acquire_execution_permit. onlys. Qed.
Lemma connect_quiet u d : only no_query (connect_as_user settings u d).
Proof. unfold connect_as_user. onlys. Qed.
Lemma prepare_quiet version : only no_query (prepare_sql_quoting version).
Proof. unfold prepare_sql_quoting, db_map_err. onlys. Qed.
Lemma fence_quiet o : only no_query (validate_execution_connection protocol_text UserConn o).
Proof.
  unfold validate_execution_connection, db_map_err. onlys.
  - apply configure_only. by intros [].
  - apply lock_and_validate_only. by intros [].
Qed.

Lemma acquire_execution_permit_does st tr r st' :
  does (acquire_execution_permit settings) st tr r st' -> is_ok r = true -> tr = granted.
Proof.
  intros (tr1 & tr2 & a & s2 & -> & (? & ? & -> & -> & <- & ->) & (-> & -> & ->))%does_bind. by destruct a.
Qed.

(** The next step of a run: [lem] for what it leaves, [q] that it asks no query. *)
Ltac quiet := rewrite ?queries_app;
  repeat match goal with H : queries _ = [] |- _ => rewrite H; clear H end; reflexivity.
Ltac step_inv H t F Q q :=
  apply does_try in H as (t & ? & [[]|] & ? & -> & F & H);
                          assert (Q := quiet_does _ _ _ _ _ q F); [|stop_inv H; left; quiet].

(** The events of the activity around the query. *)
Definition asks_once (input : ExecuteSqlInput) (origin : option Origin) (r : Route)
    (tr : list (@event dop reply)) : Prop :=
  queries tr = [] \/
  exists before ans after, tr = before ++ Ev (RunQuery (sql_query input)) ans :: after /\
  queries before = [] /\ queries after = [] /\ prepared input origin r before.

Lemma execute_in_origin_does input_json origin r st tr v st' :
  does (execute_in_origin protocol_text settings input_json origin (Some r)) st tr v st' ->
  match from_json input_json with
  | Ok input => asks_once input origin r tr
  | Err _ => tr = []
  end.
Proof.
  unfold execute_in_origin. destruct (from_json input_json) as [input|e]; cbn [map_err];
    [|by intros (-> & _)]. intros H. unfold asks_once.
  step_inv H t0 Fp Hqp acquire_quiet. apply acquire_execution_permit_does in Fp as ->; [|done].
  apply does_bind in H as (tr1 & tr2 & v1 & s1 & -> & H & ([] & ? & -> & -> & -> & _)).
  step_inv H t1 F1 Hq1 (validate_quiet r). apply validate_does in F1; [|done].
  step_inv H t2 F2 Hq2 (connect_quiet (sql_submitted_by input) (sql_database input)).
  apply connect_as_user_does in F2 as ->; [|done].
  apply does_bind in H as (tr3 & tr4 & v2 & s2 & -> & H & ([] & ? & -> & -> & -> & _)).
  step_inv H t3 F3 Hq3 (validate_quiet r). apply validate_does in F3; [|done].
  assert (Hqf : only no_query (match origin with
    | Some origin => validate_execution_connection protocol_text UserConn origin
    | None => Pure (Ok tt) end)) by (destruct origin; [apply fence_quiet|done]).
  step_inv H t4 F4 Hq4 Hqf.
  step_inv H t5 F5 Hq5 (prepare_quiet (sql_quoting input)). apply prepare_sql_quoting_does in F5; [|done].
  step_inv H t6 F6 Hq6 (validate_quiet r). apply validate_does in F6; [|done].
  apply does_bind in H as (tr5 & tr6 & rows & s3 & -> & (ans & ? & -> & -> & <- & ->) & (-> & _)).
  right. exists (granted ++ t1 ++ session (sql_submitted_by input) (sql_database input) ++ t3 ++ t4 ++ t5 ++ t6), rows,
    [Ev DropUserConn tt; Ev ReleaseUserPermit tt].
  split; [by rewrite <- !app_assoc|]. split; [quiet|]. split; [done|].
  exists t1, t3, t4, t5, t6. split_and!; [done..| |done].
  destruct origin; [by eapply validate_execution_connection_does|by destruct F4].
Qed.

(** *** Routing *)

(** How a route came about. *)
Definition routed (instance_id : string) (r : Route) (tr : list (@event dop reply)) : Prop :=
  match from_engine_id instance_id with
  | Err _ => False
  | Ok None => tr = [] /\ r = mkRoute ControlConn None None false
  | Ok (Some o) => exists database v,
      tr = [Ev (RegisterOrigin o) (Ok tt); Ev (AcquireSlots 1 (from_secs 30)) Granted;
            Ev (FindDatabase (database_oid o)) (Ok (Some (database, true)));
            Ev (ConnectPool database) (Ok tt)] ++ v /\
      r = mkRoute SourceConn (Some database) (Some o) true /\ admitted r v
  end.

Lemma close_quiet r : only no_query (close r).
Proof. unfold close. onlys. Qed.

Lemma validate_typed_does r st tr v st' :
  does (validate_typed protocol_text r) st tr v st' ->
  queries tr = [] /\ (is_ok v = true -> admitted r tr).
Proof.
  intros H. assert (H' : does (validate protocol_text r) st (tr ++ []) (map_err routing_text v) st').
  { apply does_bind. exists tr, [], v, st'. by split_and!. }
  rewrite app_nil_r in H'. split; [by eapply quiet_does, H'; apply validate_quiet|].
  intros Hv. eapply validate_does; [exact H'|]. by destruct v.
Qed.

Lemma connect_typed_does o st tr v st' :
  does (connect_typed protocol_text o) st tr v st' ->
  queries tr = [] /\
  match v with
  | Ok r => exists database w,
      tr = [Ev (AcquireSlots 1 (from_secs 30)) Granted;
            Ev (FindDatabase (database_oid o)) (Ok (Some (database, true)));
            Ev (ConnectPool database) (Ok tt)] ++ w /\
      r = mkRoute SourceConn (Some database) (Some o) true /\ admitted r w
  | Err _ => True
  end.
Proof.
  unfold connect_typed. intros H.
  apply does_try in H as (tr0 & tr1 & a & s1 & -> & (b & F & ->)%db_map_err_does & H).
  apply does_bind in F as (? & ? & g & ? & -> & (? & ? & -> & -> & <- & ->) & (-> & -> & ->)).
  destruct g; cbn [map_err] in H; [|stop_inv H; done..].
  apply does_bind in H as (tr2 & tr3 & w & s2 & -> & Hc & H).
  mapped_inv Hc found. destruct found as [[[database allowed]|]|]; cbn [map_err] in Hc;
    [|stop_inv Hc; destruct H as (? & ? & -> & -> & -> & ->); done..].
  destruct allowed; cbn [negb] in Hc; [|stop_inv Hc; destruct H as (? & ? & -> & -> & -> & ->); done].
  mapped_inv Hc joined. destruct joined as [[]|];
    [|stop_inv Hc; destruct H as (? & ? & -> & -> & -> & ->); done].
  stop_inv Hc. apply does_bind in H as (tr4 & tr5 & valid & s3 & -> & [Hq Hv]%validate_typed_does & H).
  destruct valid as [[]|].
  - stop_inv H. split; [rewrite !queries_app; by rewrite Hq|].
    exists database, tr4. split; [by rewrite !app_nil_r|]. split; [done|]. by apply Hv.
  - apply does_bind in H as (tr6 & tr7 & [] & s4 & -> & Hcl & H). stop_inv H.
    apply quiet_does in Hcl; [|apply close_quiet]. split; [|done]. rewrite !queries_app, Hq, Hcl. done.
Qed.

Lemma route_does instance_id st tr v st' :
  does (route protocol_text instance_id) st tr v st' ->
  queries tr = [] /\ match v with Ok r => routed instance_id r tr | Err _ => True end.
Proof.
  intros (w & H & ->)%db_map_err_does. unfold route_typed in H. unfold routed.
  destruct (from_engine_id instance_id) as [[o|]|e]; [|by stop_inv H..].
  mapped_inv H reg. destruct reg as [[]|]; [|by stop_inv H].
  apply connect_typed_does in H as [Hq H]. split; [rewrite !queries_app; by rewrite Hq|].
  destruct w as [r|]; [|done]. destruct H as (database & w & -> & -> & Hw). by exists database, w.
Qed.
End Activity.

(** ** The query of a node *)

(** The input that runs, and the origin that fences it: an input without a database
    runs in the route's. *)
Definition effective (instance_id : string) `{UuidCrate} (r : Route) (input run : ExecuteSqlInput)
    (origin : option Origin) : Prop :=
  sql_query run = sql_query input /\ sql_submitted_by run = sql_submitted_by input /\
  sql_quoting run = sql_quoting input /\
  match route_database r with
  | None => run = input /\ origin = None
  | Some database =>
      sql_database run = Some (default database (sql_database input)) /\
      origin = if bool_decide (default database (sql_database input) = database)
               then route_origin r else None
  end.

Section Activity.
Context (protocol_text : string -> string) (settings : sql_settings).
Context {SJ : SerdeJson} {SL : SerdeJsonLaws SJ} {U : UuidCrate}.

Lemma routed_input_effective instance_id r tr input_json run_json origin :
  routed instance_id r tr -> routed_input instance_id r input_json = Ok (run_json, origin) ->
  forall run, from_json run_json = Ok run ->
  exists input, from_json input_json = Ok input /\ effective instance_id r input run origin.
Proof.
  unfold routed, routed_input, effective. intros Hr Hi run Hrun.
  destruct (from_engine_id instance_id) as [[o|]|e] eqn:Eo; [|destruct Hr as [-> ->]|done].
  - destruct Hr as (database & v & -> & -> & _). cbn [route_database route_origin] in *.
    destruct (from_json input_json) as [input|] eqn:Ein; [|done]. cbn [result_bind] in Hi.
    exists input. split; [done|]. destruct input as [q u [d|] quoting]; cbn in Hi |- *; revert Hi;
      case_bool_decide as Hd; cbn; try (rewrite Eo; cbn); intros [= <- <-];
      rewrite from_to_json in Hrun by done; injection Hrun as <-; cbn; split_and!; try done.
    + injection Hd as ->. by rewrite bool_decide_true.
    + rewrite bool_decide_false; [done|]. congruence.
    + by rewrite bool_decide_true.
  - cbn in *. injection Hi as <- <-. exists run. by split_and!.
Qed.

(** C8: The SQL activity sends at most one query, the one of its node, and only when
    all of this lies behind it: a permit for a user connection; a connection that
    was opened as the submitting role, to the node's database, the origin's when the
    node names none, and marked as one of a workflow; if that is the database of the
    origin, a committed transaction on this very connection that found the origin's
    installation in attested tables; under the legacy quoting version, the pinning
    of conforming strings; and, for an origin, a transaction that found the
    installation there before the connection was made, after it, and last of all
    just before the query. *)
Theorem sql_query_guarded instance_id input_json st tr v st' :
  does (execute_sql protocol_text settings instance_id input_json) st tr v st' ->
  queries tr = [] \/
  exists opening (r : Route) before (input run : ExecuteSqlInput) (origin : option Origin)
    (ans : reply (RunQuery (sql_query input))) after,
  tr = opening ++ before ++ Ev (RunQuery (sql_query input)) ans :: after /\
  queries opening = [] /\ queries before = [] /\ queries after = [] /\
  routed instance_id r opening /\ from_json input_json = Ok input /\
  effective instance_id r input run origin /\ prepared settings run origin r before.
Proof.
  intros (opening & tr1 & a & s1 & -> & Hr & H)%does_try. apply route_does in Hr as [Hq Hr].
  destruct a as [r|e]; [|destruct H as (-> & _); left; by rewrite app_nil_r].
  destruct (routed_input instance_id r input_json) as [[run_json origin]|e] eqn:Ei.
  2: { left. apply does_bind in H as (tr2 & tr3 & [] & s2 & -> & Hc & (-> & _)).
  apply quiet_does in Hc; [|apply close_quiet]. by rewrite !queries_app, Hq, Hc. }
  apply does_bind in H as (tr2 & tr3 & result_ & s2 & -> & Hx & H).
  apply does_bind in H as (tr4 & tr5 & [] & s3 & -> & Hc & (-> & _)).
  apply quiet_does in Hc; [|apply close_quiet].
  apply execute_in_origin_does in Hx. destruct (from_json run_json) as [run|e] eqn:Erun.
  2: { left. subst. by rewrite !queries_app, Hq, Hc. }
  destruct (routed_input_effective _ _ _ _ _ _ Hr Ei _ Erun) as (input & Hin & Heff).
  destruct Hx as [Hx|(before & ans & after & -> & Hb & Ha & Hp)].
  - left. by rewrite !queries_app, Hq, Hx, Hc.
  - right. destruct Heff as (Eq & Heff). rewrite Eq in *.
    exists opening, r, before, input, run, origin, ans, (after ++ tr4).
    split_and!; [by rewrite app_nil_r, <- app_assoc|done|done| |done..].
    by rewrite queries_app, Ha, Hc.
Qed.
End Activity.

(** ** Results *)

(** [v as f64] on 1.5, the smallest subnormal, the largest number and minus zero. *)
Example f32_to_f64_samples :
  map f32_to_f64 [0x3fc00000; 1; 0x7f7fffff; 0x80000000]%Z =
  [0x3ff8000000000000; 0x36a0000000000000; 0x47efffffe0000000; 0x8000000000000000]%Z.
Proof. vm_compute. reflexivity. Qed.

(** The JSON value of an SQL value. *)
Inductive represents : cell -> value -> Prop :=
  | rep_bool b : represents (CBool (Ok (Some b))) (Bool b)
  | rep_natural ty z : (0 <= z)%Z -> represents (CInt ty (Ok (Some z))) (Number (PosInt (Z.to_N z)))
  | rep_negative ty z : (z < 0)%Z -> represents (CInt ty (Ok (Some z))) (Number (NegInt z))
  | rep_float4 b : f32_finite b = true ->
      represents (CFloat4 (Ok (Some b))) (Number (Float (f32_to_f64 b)))
  | rep_float8 b : f64_finite b = true -> represents (CFloat8 (Ok (Some b))) (Number (Float b))
  | rep_nonfinite4 b : f32_finite b = false -> represents (CFloat4 (Ok (Some b))) Null
  | rep_nonfinite8 b : f64_finite b = false -> represents (CFloat8 (Ok (Some b))) Null
  | rep_text ty x : represents (CText ty (Ok (Some x))) (JString x)
  | rep_numeric x : represents (CNumeric (Ok (Some x))) (JString x)
  | rep_uuid x : represents (CUuid (Ok (Some x))) (JString x)
  | rep_timestamptz x : represents (CTimestamptz (Ok (Some x))) (JString x)
  | rep_timestamp x : represents (CTimestamp (Ok (Some x))) (JString x)
  | rep_date x : represents (CDate (Ok (Some x))) (JString x)
  | rep_json v : represents (CJson (Ok (Some v))) v
  | rep_void : represents CVoid Null
  | rep_null c : c ∈ [CBool (Ok None); CFloat4 (Ok None); CFloat8 (Ok None); CNumeric (Ok None);
        CUuid (Ok None); CTimestamptz (Ok None); CTimestamp (Ok None); CDate (Ok None);
        CJson (Ok None)] -> represents c Null
  | rep_null_int ty : represents (CInt ty (Ok None)) Null
  | rep_null_text ty : represents (CText ty (Ok None)) Null.

(** What the driver says of a column whose value it cannot read. *)
Definition read_failure (c : cell) : option (string * string) :=
  match c with
  | CBool (Err e) => Some ("BOOL", e) | CInt ty (Err e) => Some (ty, e)
  | CFloat4 (Err e) => Some ("FLOAT4", e) | CFloat8 (Err e) => Some ("FLOAT8", e)
  | CText _ (Err e) => Some ("text", e) | CNumeric (Err e) => Some ("NUMERIC", e)
  | CUuid (Err e) => Some ("UUID", e) | CTimestamptz (Err e) => Some ("TIMESTAMPTZ", e)
  | CTimestamp (Err e) => Some ("TIMESTAMP", e) | CDate (Err e) => Some ("DATE", e)
  | CJson (Err e) => Some ("JSON", e)
  | _ => None
  end.

(** The error of a column that is of another type or cannot be read. *)
Definition column_error (name : string) (c : cell) : option string :=
  match c with
  | COther type_name =>
      Some ("Unsupported column type '" +:+ type_name +:+ "' for column '" +:+ name +:+ "'. " +:+
            "Supported types: bool, int2, int4, int8, float4, float8, " +:+
            "text, varchar, numeric, uuid, timestamptz, timestamp, date, jsonb, json, void.")
  | _ => (fun p => "Failed to decode " +:+ fst p +:+ " column '" +:+ name +:+ "': " +:+ snd p)
           <$> read_failure c
  end.

Lemma decode_column_spec name c :
  match decode_column name c with
  | Ok x => represents c x /\ column_error name c = None
  | Err e => column_error name c = Some e
  end.
Proof.
  destruct c as [v|ty v|v|v|ty v|v|v|v|v|v|v| |ty]; cbn; try done; try (split; [constructor|done]);
    destruct v as [[v|]|e]; cbn; try done; (split; [|done]); try (constructor; set_solver).
  - unfold json_int. destruct (Z.leb_spec 0 v); by constructor.
  - destruct (f32_finite v) eqn:E; by constructor.
  - destruct (f64_finite v) eqn:E; by constructor.
Qed.

(** The errors of the columns of a row, in order. *)
Definition column_errors (columns : list (string * cell)) : list string :=
  omap (fun nc => column_error (fst nc) (snd nc)) columns.

(** The last column of a name. *)
Definition last_cell (name : string) (columns : list (string * cell)) : option cell :=
  fold_left (fun found nc => if String.eqb name (fst nc) then Some (snd nc) else found) columns None.

(** An object with a member for every name of a column, the value of the last
    column of that name, in the order of the columns when their names are distinct. *)
Definition row_object (columns : list (string * cell)) (v : value) : Prop :=
  exists m, v = Object m /\
    (forall name, match last_cell name columns with
     | Some c => exists x, obj_get name m = Some x /\ represents c x
     | None => obj_get name m = None
     end) /\
    (NoDup (map fst columns) -> map fst m = map fst columns).

Lemma decode_row_err columns m e :
  decode_row columns m = Err e <-> head (column_errors columns) = Some e.
Proof.
  revert m. induction columns as [|[n c] columns IH]; intros m; [by split|]. unfold column_errors in *.
  cbn. pose proof (decode_column_spec n c) as Hc.
  destruct (decode_column n c) as [v|e']; cbn; [destruct Hc as [_ ->]; apply IH|].
  rewrite Hc. split; by intros [= ->].
Qed.

Lemma obj_insert_fresh k v m : k ∉ map fst m -> obj_insert k v m = m ++ [(k, v)].
Proof.
  induction m as [|[k' v'] m IH]; cbn; [done|]. intros [Hne Hm]%not_elem_of_cons.
  rewrite (proj2 (String.eqb_neq _ _)) by congruence. by rewrite IH.
Qed.

Lemma decode_row_members columns m m' found name :
  decode_row columns m = Ok m' ->
  match found with
  | Some c => exists x, obj_get name m = Some x /\ represents c x
  | None => obj_get name m = None
  end ->
  match fold_left (fun found nc => if String.eqb name (fst nc) then Some (snd nc) else found)
          columns found with
  | Some c => exists x, obj_get name m' = Some x /\ represents c x
  | None => obj_get name m' = None
  end.
Proof.
  revert m found. induction columns as [|[n c] columns IH]; intros m found; cbn; [by intros [= <-]|].
  pose proof (decode_column_spec n c) as Hc. destruct (decode_column n c) as [v|]; [cbn|done].
  intros H Hf. apply (IH _ _ H). destruct (String.eqb_spec name n) as [->|Hne].
  - exists v. split; [apply obj_get_insert_eq|apply Hc].
  - by rewrite obj_get_insert_ne by congruence.
Qed.

Lemma decode_row_keys columns m m' :
  decode_row columns m = Ok m' -> NoDup (map fst m ++ map fst columns) ->
  map fst m' = map fst m ++ map fst columns.
Proof.
  revert m. induction columns as [|[n c] columns IH]; intros m; cbn.
  - intros [= <-] _. by rewrite app_nil_r.
  - destruct (decode_column n c) as [v|] eqn:Ec; [cbn|done]. intros H Hnd.
    rewrite obj_insert_fresh in H.
    + rewrite (IH _ H); rewrite map_app, <- app_assoc; done.
    + apply NoDup_app in Hnd as (_ & Hd & _). intros Hn. apply (Hd _ Hn). by left.
Qed.

Lemma decode_rows_spec rows :
  match decode_rows rows with
  | Ok out => rows ≫= column_errors = [] /\ Forall2 row_object rows out
  | Err e => head (rows ≫= column_errors) = Some e
  end.
Proof.
  induction rows as [|row rows IH]; cbn; [by split|].
  destruct (decode_row row []) as [m|e] eqn:Er; cbn.
  - assert (En : column_errors row = []).
    { destruct (column_errors row) eqn:Ec; [done|]. apply (f_equal head) in Ec.
      apply (decode_row_err row []) in Ec. congruence. }
    rewrite En. cbn. destruct (decode_rows rows) as [out|e]; cbn; [|done].
    destruct IH as [IH1 IH2]. split; [done|]. constructor; [|done]. exists m. split_and!; [done| |].
    + intros name. by apply (decode_row_members row [] m None name Er).
    + intros Hnd. by apply (decode_row_keys row [] m Er).
  - apply decode_row_err in Er. destruct (column_errors row); [done|]. done.
Qed.

(** C26: The answer of a query that ran is the text of an object with the members
    [rows], an array with an object for every row, in order, and [row_count], the
    number of the rows.  The object of a row has, for every name of a column, the JSON
    value of the last column of that name, as [represents] lists it type by type (null
    for an SQL null, for a float that is not finite and for void), its members in the
    order of the columns when their names are distinct.  When a column is of a type
    that is not listed or cannot be read, the answer is an error instead, that of the
    first such column of the first such row; a failure of the query is an error too. *)
Theorem sql_result_contract `{SerdeJson} query st tr r st' :
  does (execute_query query) st tr r st' ->
  exists answer, tr = [Ev (RunQuery query) answer] /\
    match answer with
    | Err e => r = Err ("SQL execution failed: " +:+ error_text e)
    | Ok rows =>
        match head (rows ≫= column_errors) with
        | Some e => r = Err e
        | None => exists out, Forall2 row_object rows out /\
            r = Ok (value_to_string (Object [("rows", Array out);
              ("row_count", Number (PosInt (N.of_nat (length rows))))]))
        end
    end.
Proof.
  intros (tr1 & tr2 & rows & s1 & -> & (? & ? & -> & -> & <- & ->) & (-> & -> & ->))%does_bind.
  exists rows. split; [done|]. destruct rows as [rows|e]; [|done].
  pose proof (decode_rows_spec rows) as Hs. destruct (decode_rows rows) as [out|e]; cbn.
  + destruct Hs as [-> Hf]. exists out. split; [done|]. unfold result_value.
    by rewrite (Forall2_length _ _ _ Hf).
  + by rewrite Hs.
Qed.

(** ** What the activity takes, it gives back *)

Record held := mkHeld {
  h_slot : bool;
  h_pool : bool;
  h_permit : bool;
  h_user : bool;
  (** the connection with an open transaction *)
  h_open : option conn;
}.

Definition nothing_held : held := mkHeld false false false false None.

Definition alive (h : held) (c : conn) : bool :=
  match c with ControlConn => true | SourceConn => h_pool h | UserConn => h_user h end.
Definition when {A} (b : bool) (a : A) : option A := if b then Some a else None.

(** A slot is held around the route's pool, a permit around the user's connection;
    there is one transaction at a time; the user's query runs outside of any. *)
Definition next_held (h : held) (e : @event dop reply) : option held :=
  let 'mkHeld slot pool permit user open := h in
  let (o, r) := e in
  match o as o return reply o -> option held with
  | RegisterOrigin _ | FindDatabase _ => fun _ => Some h
  | AcquireSlots _ _ => fun r => when (negb slot)
      (mkHeld (match r with Granted => true | _ => false end) pool permit user open)
  | ReleaseSlots => fun _ => when (slot && negb pool) (mkHeld false pool permit user open)
  | ConnectPool _ => fun r => when (slot && negb pool) (mkHeld slot (is_ok r) permit user open)
  | ClosePool => fun _ => when (pool && negb (bool_decide (open = Some SourceConn)))
      (mkHeld slot false permit user open)
  | AcquireUserPermit _ => fun r => when (negb permit)
      (mkHeld slot pool (match r with Granted => true | _ => false end) user open)
  | ReleaseUserPermit => fun _ => when (permit && negb user) (mkHeld slot pool false user open)
  | ConnectUser _ _ _ => fun r => when (permit && negb user)
      (mkHeld slot pool permit (match r with Connected => true | _ => false end) open)
  | DropUserConn => fun _ => when (user && negb (bool_decide (open = Some UserConn)))
      (mkHeld slot pool permit false open)
  | SetInWorkflow | PinConformingStrings => fun _ => when user h
  | RunQuery _ => fun _ => when (user && bool_decide (open = None)) h
  | Begin c => fun r => when (alive h c && bool_decide (open = None))
      (mkHeld slot pool permit user (if is_ok r then Some c else None))
  | Commit c | Rollback c => fun _ => when (bool_decide (open = Some c)) (mkHeld slot pool permit user None)
  | DropTransaction c => fun _ => when (bool_decide (open = Some c)) (mkHeld slot pool permit user None)
  | SetReadCommitted c | SetLockTimeout c | SetStatementTimeout c | ReadCatalog c _ _
  | LockTables c _ | InstallationIds c => fun _ => when (bool_decide (open = Some c)) h
  end r.

Abbreviation holds := (follows next_held).

Section Held.
Context (protocol_text : string -> string) (settings : sql_settings).
Context {SJ : SerdeJson} {U : UuidCrate}.

Definition begun (h : held) (c : conn) : held :=
  mkHeld (h_slot h) (h_pool h) (h_permit h) (h_user h) (Some c).

Lemma holds_statements {A} (p : db A) c h :
  (forall P : dop -> Prop, (forall op, statement c op -> P op) -> only P p) ->
  holds p tt (begun h c) (fun _ _ h' => h' = begun h c).
Proof.
  intros Hp. apply follows_only, Hp. intros op Hop r. destruct op; try done; cbn in Hop; subst; cbn;
    by rewrite bool_decide_true.
Qed.

Lemma holds_map_err {A E F} (f : E -> F) (p : db (result A E)) h Q :
  holds p tt h (fun r s h' => Q (map_err f r) s h') -> holds (db_map_err f p) tt h Q.
Proof. intros H. apply follows_bind. eapply follows_mono; [exact H|]. by intros a [] h'. Qed.

(** A program that keeps what is held, in front of the rest of a function. *)
Lemma holds_then {A B E} (p : db (result A E)) (k : A -> db (result B E)) h h1 (Q : _ -> unit -> held -> Prop) :
  holds p tt h (fun _ _ h' => h' = h1) ->
  (forall a, holds (k a) tt h1 Q) -> (forall e, Q (Err e) tt h1) -> holds (try_act p k) tt h Q.
Proof.
  intros Hp Hk He. apply follows_try. eapply follows_mono; [exact Hp|]. intros [a|e] [] h' ->; auto.
Qed.

Lemma holds_last {A} (p : db A) h h1 (Q : _ -> unit -> held -> Prop) :
  holds p tt h (fun _ _ h' => h' = h1) -> (forall a, Q a tt h1) -> holds p tt h Q.
Proof. intros Hp HQ. eapply follows_mono; [exact Hp|]. intros a [] h' ->; auto. Qed.

Ltac one h := intros r; exists h; split; [cbn; by rewrite ?bool_decide_true by done|].

Lemma holds_statement o c h :
  statement c o -> holds (ask o) tt (begun h c) (fun _ _ h' => h' = begun h c).
Proof. intros Ho. apply (holds_statements _ c). intros P HP. by split; [apply HP|]. Qed.

Lemma holds_begin c h Q :
  alive h c = true -> h_open h = None -> Q (Ok tt) tt (begun h c) -> (forall e, Q (Err e) tt h) ->
  holds (ask (Begin c)) tt h Q.
Proof.
  destruct h as [slot pool_ permit user open]. cbn [h_open]. intros Ha -> Hok Herr r. cbn.
  unfold alive in *. cbn in *. rewrite Ha. cbn. eexists. split; [reflexivity|].
  destruct r as [[]|e]; auto.
Qed.

Lemma holds_finish (o : dop) c h :
  o = Commit c \/ o = Rollback c \/ o = DropTransaction c -> h_open h = None ->
  holds (ask o) tt (begun h c) (fun _ _ h' => h' = h).
Proof.
  destruct h as [slot pool_ permit user open]. cbn [h_open]. intros Ho ->.
  destruct Ho as [->|[->| ->]]; intros r; cbn; rewrite bool_decide_true by done; by eexists.
Qed.

Lemma holds_lock_and_validate c o h :
  holds (lock_and_validate protocol_text c o) tt (begun h c) (fun _ _ h' => h' = begun h c).
Proof. apply holds_statements. intros P HP. by apply lock_and_validate_only. Qed.
Lemma holds_configure c h :
  holds (configure_metadata_transaction c) tt (begun h c) (fun _ _ h' => h' = begun h c).
Proof. apply holds_statements. intros P HP. by apply configure_only. Qed.

Lemma holds_owning {A E} (p : db (result A E)) c h :
  holds p tt (begun h c) (fun _ _ h' => h' = begun h c) -> h_open h = None ->
  holds (owning_transaction c p) tt (begun h c)
    (fun r _ h' => h' = if is_ok r then begun h c else h).
Proof.
  intros Hp Ho. apply follows_bind. eapply holds_last; [exact Hp|]. intros [a|e]; [done|].
  apply follows_bind. eapply holds_last; [apply holds_finish; [by right; right|done]|done].
Qed.

Definition usable (r : Route) (h : held) : Prop :=
  h_open h = None /\ (route_origin r = None \/ alive h (pool r) = true).

Lemma holds_validate_typed r h :
  usable r h -> holds (validate_typed protocol_text r) tt h (fun _ _ h' => h' = h).
Proof.
  intros [Ho Ha]. unfold validate_typed.
  destruct (route_origin r) as [o|]; [|done]. destruct Ha as [|Ha]; [done|].
  apply follows_try, holds_map_err, holds_begin; [done..| |done]. cbn [map_err].
  apply follows_try. eapply follows_mono; [apply holds_owning; [|done]|].
  { apply (holds_then _ _ _ (begun h (pool r))); [|intros a|done].
    { apply holds_map_err. eapply holds_last; [by apply holds_statement|done]. }
    apply (holds_then _ _ _ (begun h (pool r))); [|intros b|done].
    { apply holds_map_err. eapply holds_last; [by apply holds_configure|done]. }
    apply holds_map_err. eapply holds_last; [by apply holds_lock_and_validate|done]. }
  intros [[]|e] [] h' ->; [|done]. cbn [is_ok].
  apply holds_map_err. eapply holds_last; [apply holds_finish; [by right; left|done]|done].
Qed.

Lemma holds_validate r h :
  usable r h -> holds (validate protocol_text r) tt h (fun _ _ h' => h' = h).
Proof. intros H. by apply holds_map_err, holds_validate_typed. Qed.

Lemma holds_fence o h :
  h_open h = None -> h_user h = true ->
  holds (validate_execution_connection protocol_text UserConn o) tt h (fun _ _ h' => h' = h).
Proof.
  intros Ho Hu. unfold validate_execution_connection.
  apply follows_try, holds_map_err, holds_begin; [by destruct h|done| |done]. cbn [map_err].
  apply follows_bind.
  eapply (holds_last _ _ (begun h UserConn)).
  { apply (holds_then _ _ _ (begun h UserConn)); [by apply holds_statement|intros a|done].
    apply (holds_then _ _ _ (begun h UserConn)); [by apply holds_configure|intros b|done].
    apply holds_lock_and_validate. }
  intros [[]|e].
  - apply holds_map_err. eapply holds_last; [apply holds_finish; [by left|done]|done].
  - apply (holds_then _ _ _ h); [|done..]. apply holds_map_err.
    eapply holds_last; [apply holds_finish; [by right; left|done]|done].
Qed.

(** What a route holds on to. *)
Definition of_route (r : Route) : held := mkHeld (permit r) (permit r) false false None.
Definition with_permit (h : held) (user : bool) : held :=
  mkHeld (h_slot h) (h_pool h) true user (h_open h).

Definition route_ok (r : Route) : Prop :=
  match route_origin r with None => permit r = false | Some _ => permit r = true /\ pool r = SourceConn end.

Lemma usable_route r b1 b2 :
  route_ok r -> usable r (mkHeld (permit r) (permit r) b1 b2 None).
Proof. unfold route_ok, usable. cbn. destruct (route_origin r); [intros [-> ->]|]; auto. Qed.

Lemma holds_connect_as_user user database h :
  h_open h = None ->
  holds (connect_as_user settings user database) tt (with_permit h false)
    (fun r _ h' => h' = with_permit h (is_ok r)).
Proof.
  destruct h as [slot pool_ permit_ user_ open]. cbn [h_open]. intros ->. intros r.
  eexists. split; [reflexivity|]. destruct r; [|done..].
  intros set. eexists. split; [reflexivity|]. destruct set as [[]|e]; [done|].
  intros []. eexists. by split.
Qed.

Lemma holds_prepare version h :
  h_user h = true -> holds (prepare_sql_quoting version) tt h (fun _ _ h' => h' = h).
Proof.
  intros Hu. unfold prepare_sql_quoting. destruct (is_legacy version); [|done].
  apply (holds_then _ _ _ h); [|by intros [?|]|done]. apply holds_map_err.
  destruct h as [slot pool_ permit_ user_ open]. cbn in Hu. subst. intros r. eexists. by split.
Qed.

Lemma holds_execute_in_origin input_json origin r :
  route_ok r ->
  holds (execute_in_origin protocol_text settings input_json origin (Some r)) tt (of_route r)
    (fun _ _ h' => h' = of_route r).
Proof.
  intros Hr. unfold execute_in_origin. destruct (map_err _ _) as [input|e]; [|done].
  assert (Hv : forall b1 b2, holds (validate_source protocol_text (Some r)) tt
    (mkHeld (permit r) (permit r) b1 b2 None) (fun _ _ h' => h' = mkHeld (permit r) (permit r) b1 b2 None))
    by (intros; by apply holds_validate, usable_route).
  apply follows_try, follows_bind. intros a. eexists. split; [reflexivity|]. cbn [follows].
  destruct a; [|done..]. apply follows_bind.
  apply (follows_mono _ _ _ _ (fun _ _ h' => h' = with_permit (of_route r) false)).
  2: { intros v [] h' ->. intros []. eexists. by split. }
  apply (holds_then _ _ _ (with_permit (of_route r) false)); [apply Hv|intros [] |done].
  apply follows_try. eapply follows_mono; [by apply holds_connect_as_user|].
  intros [[]|e] [] h' ->; [|done]. cbn [is_ok]. apply follows_bind.
  apply (follows_mono _ _ _ _ (fun _ _ h' => h' = with_permit (of_route r) true)).
  2: { intros v [] h' ->. intros []. eexists. by split. }
  apply (holds_then _ _ _ (with_permit (of_route r) true)); [apply Hv|intros [] |done].
  apply (holds_then _ _ _ (with_permit (of_route r) true)); [|intros [] |done].
  { destruct origin; [by apply holds_fence|done]. }
  apply (holds_then _ _ _ (with_permit (of_route r) true)); [by apply holds_prepare|intros [] |done].
  apply (holds_then _ _ _ (with_permit (of_route r) true)); [apply Hv|intros [] |done].
  apply follows_bind. intros rows. eexists. by split.
Qed.

Lemma holds_close r : holds (close r) tt (of_route r) (fun _ _ h' => h' = nothing_held).
Proof.
  unfold close, of_route. destruct (permit r); [|done].
  intros []. eexists. split; [reflexivity|]. intros []. eexists. by split.
Qed.

Lemma holds_connect_typed o :
  holds (connect_typed protocol_text o) tt nothing_held (fun v _ h' =>
    match v with Ok r => route_ok r /\ h' = of_route r | Err _ => h' = nothing_held end).
Proof.
  apply follows_try, holds_map_err, follows_bind. intros a. eexists. split; [reflexivity|].
  cbn [follows]. destruct a; [|done..]. cbn [map_err]. apply follows_bind.
  assert (Hrelease : forall e : RoutingError, holds (let* _ := ask ReleaseSlots in Pure (Err e)) tt
    (mkHeld true false false false None) (fun (v : result Route RoutingError) _ h' =>
    match v with Ok r => route_ok r /\ h' = of_route r | Err _ => h' = nothing_held end)).
  { intros e []. eexists. by split. }
  apply follows_try, holds_map_err. intros found. eexists. split; [reflexivity|].
  destruct found as [[[database []]|]|e]; [|apply Hrelease..].
  apply follows_try, holds_map_err. intros joined. eexists. split; [reflexivity|].
  destruct joined as [[]|e]; [|apply Hrelease].
  apply follows_bind. set (r := mkRoute SourceConn (Some database) (Some o) true).
  apply (holds_last _ _ (of_route r)).
  { by apply holds_validate_typed, usable_route. }
  intros [[]|e]; [by split|]. apply follows_bind.
  eapply follows_mono; [apply holds_close|]. by intros [] [] h' ->.
Qed.
Lemma holds_route_typed instance_id :
  holds (route_typed protocol_text instance_id) tt nothing_held (fun v _ h' =>
    match v with Ok r => route_ok r /\ h' = of_route r | Err _ => h' = nothing_held end).
Proof.
  unfold route_typed. destruct (from_engine_id instance_id) as [[o|]|e]; [|done..].
  apply (holds_then _ _ _ nothing_held); [|intros []|done].
  { apply holds_map_err. intros r. eexists. by split. }
  eapply follows_mono; [apply holds_connect_typed|]. by intros [r|e] [] h.
Qed.

Lemma holds_route instance_id :
  holds (route protocol_text instance_id) tt nothing_held (fun v _ h' =>
    match v with Ok r => route_ok r /\ h' = of_route r | Err _ => h' = nothing_held end).
Proof.
  apply holds_map_err. eapply follows_mono; [apply holds_route_typed|]. by intros [r|e] [] h.
Qed.

Lemma holds_execute_sql instance_id input_json :
  holds (execute_sql protocol_text settings instance_id input_json) tt nothing_held
    (fun _ _ h => h = nothing_held).
Proof.
  apply follows_try. eapply follows_mono; [apply holds_route|].
  intros [r|e] [] h; [|done]. cbn. intros [Hr ->].
  destruct (routed_input instance_id r input_json) as [[run_json origin]|e].
  2: { apply follows_bind. eapply follows_mono; [apply holds_close|]. by intros [] [] h ->. }
  apply follows_bind. eapply follows_mono; [by apply holds_execute_in_origin|]. intros out [] h ->.
  apply follows_bind. eapply follows_mono; [apply holds_close|]. by intros [] [] h ->.
Qed.

(** C9: The SQL activity gives back everything it took, on every path, whatever the
    database answers: every step of it is one [next_held] allows (the route's pool is opened
    under its slot and closed before the slot is given back; the user's connection is
    opened under its permit and dropped before the permit is given back; there is one
    transaction at a time, on a connection that is open, ended on that connection; the
    node's query runs on the user's connection outside of any), and when the activity
    answers, with a result or an error, no slot, pool, permit, connection or transaction
    is left. *)
Theorem sql_activity_releases instance_id input_json st tr v st' :
  does (execute_sql protocol_text settings instance_id input_json) st tr v st' ->
  run_protocol next_held nothing_held tr = Some nothing_held.
Proof.
  destruct st, st'. intros Hdoes.
  by eapply (follows_sound next_held _ _ _ (fun _ _ h => h = nothing_held)) in Hdoes as (h & Hrun & ->);
    [|apply holds_execute_sql].
Qed.
End Held.

(** ** A sample run *)

#[local] Existing Instance text_json.
#[local] Existing Instance sample_uuid.

(** A node of a workflow of the database [app], from before the new quoting. *)
Definition sample_run : db (result string string) :=
  execute_sql (fun s => s) (mkSqlSettings 10 30 "postgres") (engine_id sample_origin "ab12cd34")
    (to_json (mkSqlInput "SELECT 1 AS n" "alice" None Legacy)).

Example sample_result :
  fst (fst (eval SampleOrigin.world [] sample_run tt)) =
    Ok (value_to_string (Object [("rows", Array [Object [("n", Number (PosInt 1))]]);
                                 ("row_count", Number (PosInt 1))])).
Proof. vm_compute. reflexivity. Qed.

Lemma sample_run_does :
  exists tr, snd (eval SampleOrigin.world [] sample_run tt) = tr /\
    does sample_run tt tr (fst (fst (eval SampleOrigin.world [] sample_run tt))) tt.
Proof.
  destruct (eval_does SampleOrigin.world [] sample_run tt) as (tr & E & H).
  exists tr. split; [by rewrite E|]. by destruct (snd (fst _)).
Qed.

(** Two rows, of an integer and a text that is null in the second one. *)
Definition sample_rows : list (list (string * cell)) :=
  [[("n", CInt "INT4" (Ok (Some (-1)%Z))); ("t", CText "TEXT" (Ok (Some "x")))];
   [("n", CInt "INT4" (Ok (Some 2%Z))); ("t", CText "TEXT" (Ok None))]].

Lemma sql_result_contract_witness :
  exists out, Forall2 row_object sample_rows out /\
    (let? r := decode_rows sample_rows in Ok (value_to_string (result_value r))) =
      Ok (value_to_string (Object [("rows", Array out); ("row_count", Number (PosInt 2))])).
Proof.
  assert (Hd : does (execute_query "SELECT n, t") tt [Ev (RunQuery "SELECT n, t") (Ok sample_rows)]
    (let? r := decode_rows sample_rows in Ok (value_to_string (result_value r))) tt).
  { unfold execute_query. cbn. eexists _, _. by split_and!. }
  destruct (sql_result_contract _ _ _ _ _ Hd) as (answer & E & H).
  apply (f_equal (fun tr : list (@event dop reply) => match tr with
    | Ev o a :: _ => match o as o return reply o -> option (result (list (list (string * cell))) sqlx_error) with
                     | RunQuery _ => fun a => Some a | _ => fun _ => None end a
    | [] => None end)) in E.
  injection E as <-. destruct H as (out & Hout & H). exists out. split; [exact Hout|exact H].
Defined.

Lemma sql_query_guarded_witness :
  exists tr, queries tr = ["SELECT 1 AS n"] /\ length tr = 58 /\
    exists opening r before (input run : ExecuteSqlInput) origin
      (ans : reply (RunQuery (sql_query input))) after,
      tr = opening ++ before ++ Ev (RunQuery (sql_query input)) ans :: after /\
      routed (engine_id sample_origin "ab12cd34") r opening /\
      prepared (mkSqlSettings 10 30 "postgres") run origin r before.
Proof.
  destruct sample_run_does as (tr & <- & H).
  assert (Hq : queries (snd (eval SampleOrigin.world [] sample_run tt)) = ["SELECT 1 AS n"])
    by (vm_compute; reflexivity).
  eexists. split; [exact Hq|]. split; [vm_compute; reflexivity|].
  destruct (sql_query_guarded _ _ _ _ _ _ _ _ H) as [Hnone|
    (opening & r & before & input & run & origin & ans & after & E & _ & _ & _ & Hr & _ & _ & Hp)].
  { rewrite Hq in Hnone. discriminate Hnone. }
  exists opening, r, before, input, run, origin, ans, after. split; [exact E|]. split; [exact Hr|exact Hp].
Defined.

Lemma sql_activity_releases_witness :
  exists tr, queries tr = ["SELECT 1 AS n"] /\ run_protocol next_held nothing_held tr = Some nothing_held.
Proof.
  destruct sample_run_does as (tr & <- & H). exists (snd (eval SampleOrigin.world [] sample_run tt)).
  split; [vm_compute; reflexivity|]. exact (sql_activity_releases _ _ _ _ _ _ _ _ H).
Defined.
