(* ===== verification/Client.v ===== *)
(** What a session asks of the engine ([src/client.rs]; the control state of
    [src/types.rs], lines 360-565; [backend_origin] of [src/origin.rs]): a client
    that is cached for the session and dropped when it may be stale, submissions
    that share a transaction with their accounting, and signals that reach the
    children of an instance.

    The functions are programs of [Effects] over the session's two caches. *)
From S2P Require Import Prelude RustString Origin Effects.

(** ** Data *)

Record BackendControlState := mkControl {
  extension_oid : Z;
  schema : string;
  ready : bool;
}.
#[export] Instance BackendControlState_eq_dec : EqDecision BackendControlState.
Proof. solve_decision. Defined.

Record BackendClient := mkClient { connection_string : string; control : BackendControlState }.

Record caches := mkCaches {
  duroxide_client : option BackendClient;
  (** the URL of the cached control connection *)
  control_connection : option string;
}.

(** The provider's tables that a quota lookup reads. *)
Record quota_snapshot := mkQuota {
  q_submissions : list (string * string * N);
  (** instance and its current execution *)
  q_instances : list (string * Z);
  q_executions : list (string * Z * option string);
  q_queue : list string;
}.

(** ** Calls *)

Inductive cop : Type :=
(** the session's own database, through SPI *)
| CurrentDatabase
| SpiExtensionOid
| SpiHelperExists
| SpiHelperSchema
| SpiReadyTable (schema : string)
| SpiReady (schema : string)
| InstallationText
| MyDatabaseId
(** the control connection *)
| ParseOptions (url : string)
| ConnectControl (url : string)
| ControlRow
| ControlSchema
| ControlReady (schema : string)
| Elapsed
(** the provider *)
| NewProvider (url schema : string)
| BeginTransaction
| ConfigureTransaction
| ReadQuota (schema : string)
| InsertSubmission (schema instance_id origin : string) (submitted_by : N)
| EnqueueWork (schema instance_id work_item : string)
| CommitTransaction
| RollbackTransaction
| CancelInstance (instance_id reason : string)
| RaiseEvent (instance_id event_name data : string)
| InstanceTree (instance_id : string)
| InstanceStatus (instance_id : string).

Definition reply (o : cop) : Type :=
  match o with
  | CurrentDatabase | SpiHelperSchema | InstallationText => result (option string) string
  | SpiExtensionOid => result (option Z) string
  | SpiHelperExists | SpiReadyTable _ | SpiReady _ => result (option bool) string
  | MyDatabaseId => N
  | ParseOptions _ | ConnectControl _ | NewProvider _ _ => result unit string
  | ControlRow => result (option (Z * bool * bool * bool)) string
  | ControlSchema => result string string
  | ControlReady _ => result bool string
  | Elapsed => bool
  | BeginTransaction | ConfigureTransaction | EnqueueWork _ _ _ | CommitTransaction
  | RollbackTransaction => result unit string
  | ReadQuota _ => result quota_snapshot string
  | InsertSubmission _ _ _ _ => result (option string) string
  | CancelInstance _ _ | RaiseEvent _ _ _ => result unit string
  | InstanceTree _ => result (list string) string
  | InstanceStatus _ => result string string
  end.

Definition backend (A : Type) : Type := @act caches cop reply A.
Definition ask (o : cop) : backend (reply o) := call o.
Definition lift {A} (a : A) : backend A := Pure a.
Definition be_map_err {A E F} (f : E -> F) (p : backend (result A E)) : backend (result A F) :=
  let* r := p in Pure (map_err f r).

Definition set_client (c : option BackendClient) : backend unit :=
  update (fun s => mkCaches c (control_connection s)).
Definition set_control (c : option string) : backend unit :=
  update (fun s => mkCaches (duroxide_client s) c).

(** ** The provider's schema *)

Definition LEGACY_DUROXIDE_SCHEMA : string := "duroxide".

Definition backend_schema_name (schema : string) : result string string :=
  if String.eqb schema "_duroxide" then Ok "_duroxide"
  else if String.eqb schema LEGACY_DUROXIDE_SCHEMA then Ok LEGACY_DUROXIDE_SCHEMA
  else Err ("Unsupported duroxide provider schema: " +:+ schema).

Definition resolve_duroxide_schema_spi : backend string :=
  let* helper := ask SpiHelperExists in
  if negb (match helper with Ok (Some b) => b | _ => false end) then Pure LEGACY_DUROXIDE_SCHEMA
  else
    let* s := ask SpiHelperSchema in
    Pure (match s with
          | Ok (Some s) => if str_is_empty s then LEGACY_DUROXIDE_SCHEMA else s
          | _ => LEGACY_DUROXIDE_SCHEMA
          end).

Section Client.
(** [serde_json::to_string] of the engine's [WorkItem::StartOrchestration] and the
    debug text of a reservation, dependencies *)
Context (start_orchestration : string -> string -> string -> string)
    (debug_reservation : result (option string) string -> string).
(** the URL and the database of the control installation, from the settings *)
Context (control_url control_database : string).

(** ** The control installation *)

Definition backend_local_control_state : backend (result (option BackendControlState) string) :=
  let*? database := ask CurrentDatabase in
  let*? database := lift (ok_or database "Caller database is unavailable") in
  if negb (String.eqb database control_database) then Pure (Ok None)
  else
    let*? oid := ask SpiExtensionOid in
    let*? extension_oid := lift (ok_or oid "pg_durable control installation unavailable") in
    let* resolved := resolve_duroxide_schema_spi in
    let*? schema := lift (backend_schema_name resolved) in
    let*? table := ask (SpiReadyTable schema) in
    let*? ready :=
      match default false table with
      | true => let*? r := ask (SpiReady schema) in Pure (Ok (default false r))
      | false => Pure (Ok false)
      end in
    Pure (Ok (Some (mkControl extension_oid schema ready))).

Definition unavailable (error : string) : string :=
  "pg_durable control installation unavailable: " +:+ error.

Definition read_backend_control_state : backend (result BackendControlState string) :=
  let*? row := be_map_err unavailable (ask ControlRow) in
  let*? (extension_oid, helper_exists, legacy_ready_exists, current_ready_exists) :=
    lift (ok_or row "pg_durable control installation unavailable") in
  let*? schema :=
    (if helper_exists : bool then
        let*? s := be_map_err unavailable (ask ControlSchema) in
        Pure (backend_schema_name s)
      else Pure (Ok LEGACY_DUROXIDE_SCHEMA)) in
  let table_exists := if String.eqb schema LEGACY_DUROXIDE_SCHEMA then legacy_ready_exists
    else current_ready_exists in
  let*? ready := (if table_exists : bool then be_map_err unavailable (ask (ControlReady schema))
    else Pure (Ok false)) in
  Pure (Ok (mkControl extension_oid schema ready)).

(** The part of a refresh that the timer of five seconds may cut off. *)
Definition control_lookup (database_url : string) : backend (result BackendControlState string) :=
  let* cached := gets control_connection in
  let*? _ :=
    match cached with
    | None =>
        let*? _ := be_map_err (fun e => "Invalid control database connection options: " +:+ e)
            (ask (ParseOptions database_url)) in
        let*? _ := be_map_err unavailable (ask (ConnectControl database_url)) in
        let* _ := set_control (Some database_url) in
        Pure (Ok tt)
    | Some _ => Pure (Ok tt)
    end in
  read_backend_control_state.

Definition refresh_backend_control_state (database_url : string)
    : backend (result BackendControlState string) :=
  let* cached := gets control_connection in
  let* _ := match cached with
    | Some url => if negb (String.eqb url database_url) then set_control None else Pure tt
    | None => Pure tt
    end in
  let* r := interrupt Elapsed (fun b => b) (control_lookup database_url) in
  let result_ := default (Err (unavailable "control lookup timed out after 5000ms")) r in
  let* _ := if is_ok result_ then Pure tt else set_control None in
  Pure result_.

Definition backend_control_state (database_url : string) : backend (result BackendControlState string) :=
  let*? local := backend_local_control_state in
  match local with
  | Some state => Pure (Ok state)
  | None => refresh_backend_control_state database_url
  end.

Definition try_backend_duroxide_schema : backend (result string string) :=
  let*? current_database := be_map_err (fun error => "Failed to resolve caller database: " +:+ error)
      (ask CurrentDatabase) in
  let*? current_database := lift (ok_or current_database "Failed to resolve caller database") in
  if String.eqb current_database control_database then
    let* resolved := resolve_duroxide_schema_spi in Pure (backend_schema_name resolved)
  else
    let*? state := backend_control_state control_url in Pure (Ok (schema state)).

(** [df.validate_installation]: an error is [pgrx::error!]. *)
Definition validate_installation : backend (result bool string) :=
  let*? database := be_map_err (fun error => "Cannot identify installation database: " +:+ error)
      (ask CurrentDatabase) in
  if bool_decide (database = Some control_database) then Pure (Ok true)
  else
    let*? state := backend_control_state control_url in
    Pure (if negb (ready state) then Err "pg_durable control installation unavailable or not ready"
      else Ok true).

(** ** The cached client *)

Definition is_connection_error (err : string) : bool :=
  let lower := to_lowercase err in
  str_contains "connection" lower || str_contains "pool timed out" lower ||
  str_contains "broken pipe" lower || str_contains "reset by peer" lower ||
  str_contains "closed" lower.

Definition NOT_INITIALIZED : string :=
  "pg_durable control background worker not yet initialized - try again in a moment".

Definition with_backend_client {T} (f : BackendClient -> backend (result T string))
    : backend (result T string) :=
  let pg_conn_str := control_url in
  let* state := backend_control_state pg_conn_str in
  match state with
  | Err e => let* _ := set_client None in Pure (Err e)
  | Ok control_ =>
      if negb (ready control_) then let* _ := set_client None in Pure (Err NOT_INITIALIZED)
      else
        let* cached := gets duroxide_client in
        let* _ := match cached with
          | Some c =>
              if negb (String.eqb (connection_string c) pg_conn_str) ||
                negb (bool_decide (control c = control_))
              then set_client None else Pure tt
          | None => Pure tt
          end in
        let* cached := gets duroxide_client in
        let*? _ :=
          match cached with
          | Some _ => Pure (Ok tt)
          | None =>
              let*? _ := be_map_err (fun e => "Failed to connect to duroxide store: " +:+ e)
                  (ask (NewProvider pg_conn_str (schema control_))) in
              let* _ := set_client (Some (mkClient pg_conn_str control_)) in
              Pure (Ok tt)
          end in
        let* client := gets duroxide_client in
        let* result_ := match client with
          | Some c => f c
          | None => Pure (Err "Client unexpectedly missing")
          end in
        let* _ := match result_ with
          | Err e => if is_connection_error e then set_client None else Pure tt
          | Ok _ => Pure tt
          end in
        Pure result_
  end.

(** ** The origin of the session *)

Context {U : UuidCrate}.

Definition backend_origin : backend (result (option Origin) string) :=
  let*? database := ask CurrentDatabase in
  let*? database := lift (ok_or database "Caller database is unavailable") in
  if String.eqb database control_database then Pure (Ok None)
  else
    let*? text := be_map_err (fun e => "Origin installation unavailable: " +:+ e) (ask InstallationText) in
    let*? text := lift (ok_or text "Origin installation identity is missing") in
    let* oid := ask MyDatabaseId in
    let*? id := lift (uuid_parse_str text) in
    Pure (Ok (Some (mkOrigin oid id))).

Definition backend_engine_id (local_id : string) : backend (result string string) :=
  let*? origin := backend_origin in
  Pure (Ok (engine_id_for_origin origin local_id)).

(** ** Transactions of the provider *)

(** The rest of a function around a transaction: commit on success; on failure roll
    back before the error is returned. *)
Definition finish_transaction {A} (rollback_failed commit_failed : string) (r : result A string)
    : backend (result A string) :=
  match r with
  | Ok a =>
      let*? _ := be_map_err (fun e => commit_failed +:+ e) (ask CommitTransaction) in
      Pure (Ok a)
  | Err error =>
      let*? _ := be_map_err (fun e => error +:+ rollback_failed +:+ e) (ask RollbackTransaction) in
      Pure (Err error)
  end.

(** *** Quotas *)

(** The ids a quota counts: those of the local table, and those of the accounting,
    [UNION] without duplicates. *)
Definition requested (q : quota_snapshot) (engine_ids : list string) (origin_key : string)
    (submitted_by : N) : list string :=
  remove_dups (engine_ids ++ omap (fun '(id, o, u) =>
    if String.eqb o origin_key && (u =? submitted_by)%N then Some id else None) (q_submissions q)).

(** A row of the query: the id, its instance, and the status of the execution that
    was joined. *)
Definition quota_rows (q : quota_snapshot) (id : string) : list (option string * option (option string)) :=
  let instances := filter (fun i => fst i = id) (q_instances q) in
  match instances with
  | [] => [(None, None)]
  | _ =>
      '(instance_id, current) ← instances;
      match filter (fun e => fst e = (instance_id, current)) (q_executions q) with
      | [] => [(Some instance_id, None)]
      | es => (fun e => (Some instance_id, Some (snd e))) <$> es
      end
  end.

(** [FILTER (WHERE ..)]: a status that is not terminal, or none while there is an
    instance or a queued start. *)
Definition counts_active (q : quota_snapshot) (id : string)
    (row : option string * option (option string)) : bool :=
  match snd row with
  | Some (Some status) => negb (String.eqb status "Completed" || String.eqb status "Failed")
  | _ => bool_decide (is_Some (fst row)) || existsb (String.eqb id) (q_queue q)
  end.

Definition quota_counts (q : quota_snapshot) (ids : list string) (include_active : bool) : nat * nat :=
  if include_active then
    let rows := id ← ids; (fun r => (id, r)) <$> quota_rows q id in
    (length rows, length (filter (fun r => counts_active q (fst r) (snd r) = true) rows))
  else (length ids, O).

Definition submission_counts (ids : list string) (submitted_by : N) (include_active : bool)
    : backend (result (nat * nat) string) :=
  let*? origin := backend_origin in
  let origin_key := engine_id_for_origin origin "" in
  let engine_ids := engine_id_for_origin origin <$> ids in
  with_backend_client (fun backend =>
    let*? _ := be_map_err (fun e => "Failed to begin df.start() quota lookup: " +:+ e)
        (ask BeginTransaction) in
    let* result_ :=
      (let*? _ := be_map_err (fun e => "Failed to configure df.start() quota lookup: " +:+ e)
          (ask ConfigureTransaction) in
       let*? q := be_map_err (fun e => "Failed to read df.start() active instances: " +:+ e)
           (ask (ReadQuota (schema (control backend)))) in
       Pure (Ok (quota_counts q (requested q engine_ids origin_key submitted_by) include_active))) in
    finish_transaction "; quota lookup rollback failed: " "Failed to finish df.start() quota lookup: " result_).

(** *** Submissions *)

(** A reservation whose transaction is open. *)
Record PendingSubmission := mkPending { pending_schema : string; pending_instance_id : string }.

Definition reserve_submission_transaction (schema instance_id origin : string) (submitted_by : N)
    : backend (result bool string) :=
  let*? _ := be_map_err (fun e => "Failed to begin durable submission: " +:+ e) (ask BeginTransaction) in
  let* result_ :=
    (let*? _ := be_map_err (fun e => "Failed to configure durable submission: " +:+ e)
        (ask ConfigureTransaction) in
     be_map_err (fun e => "Failed to reserve durable submission: " +:+ e)
     (ask (InsertSubmission schema instance_id origin submitted_by))) in
  match result_ with
  | Ok (Some _) => Pure (Ok true)
  | _ =>
      let*? _ := be_map_err (fun error => "Submission reservation rollback failed: " +:+ error +:+
                             "; reservation result: " +:+ debug_reservation result_)
          (ask RollbackTransaction) in
      Pure (map_ok (fun _ => false) result_)
  end.

Definition reserve_submission_id (instance_id : string) (submitted_by : N)
    : backend (result (option PendingSubmission) string) :=
  let*? origin := backend_origin in
  let origin_key := engine_id_for_origin origin "" in
  let instance_id := engine_id_for_origin origin instance_id in
  with_backend_client (fun backend =>
    let*? reserved := reserve_submission_transaction (schema (control backend)) instance_id origin_key
        submitted_by in
    Pure (Ok (if reserved : bool then Some (mkPending (schema (control backend)) instance_id) else None))).

Definition rollback (p : PendingSubmission) : backend (result unit string) :=
  be_map_err (fun e => "Failed to release submission reservation: " +:+ e) (ask RollbackTransaction).

(** [Drop] of a reservation that was not used; its error is only a warning. *)
Definition drop_pending (p : PendingSubmission) : backend unit :=
  let* _ := ask RollbackTransaction in Pure tt.

Definition enqueue (p : PendingSubmission) (function_name input : string) : backend (result unit string) :=
  let* result_ := be_map_err (fun e => "Failed to enqueue durable submission: " +:+ e)
      (ask (EnqueueWork (pending_schema p) (pending_instance_id p)
            (start_orchestration (pending_instance_id p) function_name input))) in
  finish_transaction "; submission rollback failed: " "Failed to commit durable submission: " result_.

(** ** Cancellation and signals *)

Definition cancel_durable_function (instance_id reason : string) : backend (result unit string) :=
  let*? inst_id := backend_engine_id instance_id in
  with_backend_client (fun backend =>
    be_map_err (fun e => "Failed to cancel durable function: " +:+ e) (ask (CancelInstance inst_id reason))).

Fixpoint running_among (root_instance_id : string) (all_ids : list string) : backend (list string) :=
  match all_ids with
  | [] => Pure []
  | child :: rest =>
      if String.eqb child root_instance_id then running_among root_instance_id rest
      else
        let* info := ask (InstanceStatus child) in
        let* others := running_among root_instance_id rest in
        Pure (match info with
              | Ok status => if eq_ignore_ascii_case status "running" then child :: others else others
              | Err _ => others
              end)
  end.

Definition list_running_descendants (root_instance_id : string) : backend (list string) :=
  let* tree := ask (InstanceTree root_instance_id) in
  match tree with
  | Ok all_ids => running_among root_instance_id all_ids
  | Err _ => Pure []
  end.

(** The error of a child is only a warning. *)
Definition raise_to (event_name data child : string) : backend unit :=
  let* _ := ask (RaiseEvent child event_name data) in Pure tt.

Definition raise_external_event (instance_id event_name data : string) : backend (result unit string) :=
  let*? inst_id := backend_engine_id instance_id in
  with_backend_client (fun backend =>
    let*? _ := be_map_err (fun e => "Failed to raise event: " +:+ e)
        (ask (RaiseEvent inst_id event_name data)) in
    let* children := list_running_descendants inst_id in
    let* _ := each (raise_to event_name data) children in
    Pure (Ok tt)).
End Client.
