(* ===== verification/ClientSpec.v ===== *)
(** What holds of the session's calls: a cached client is used only while it is
    current, a start is enqueued in the transaction that accounts for it, and quotas
    count what they say. *)
From S2P Require Import Prelude RustString Origin Effects Client.

Section Current.
Context (control_url control_database : string).

(** ** The cached client *)

(** How a call that reached its client went: the control state was read in this very
    call and is ready; the client is for it and for the current URL. *)
Definition used {T} (f : BackendClient -> backend (result T string)) (s : caches)
    (tr : list (@event cop reply)) (r : result T string) (s' : caches) : Prop :=
  exists tr0 tr1 tr2 s0 s1 s2 c,
  tr = tr0 ++ tr1 ++ tr2 /\
  does (backend_control_state control_database control_url) s tr0 (Ok (control c)) s0 /\
  (tr1 = [] \/ tr1 = [Ev (NewProvider control_url (schema (control c))) (Ok tt)]) /\
  connection_string c = control_url /\ ready (control c) = true /\
  duroxide_client s1 = Some c /\ does (f c) s1 tr2 r s2 /\
  s' = match r with
    | Err e => if is_connection_error e then mkCaches None (control_connection s2) else s2
    | Ok _ => s2
    end.

Lemma set_client_does c s tr u s' :
  does (set_client c) s tr u s' -> tr = [] /\ s' = mkCaches c (control_connection s).
Proof. by intros (-> & _ & ->). Qed.

(** The client after a provider was asked for where there was none. *)
Lemma client_made_does control_ s tr made s' :
  match duroxide_client s with
  | Some c => connection_string c = control_url /\ control c = control_
  | None => True
  end ->
  does (match duroxide_client s with
        | Some _ => Pure (Ok tt)
        | None =>
            let*? _ := be_map_err (fun e => "Failed to connect to duroxide store: " +:+ e)
                (ask (NewProvider control_url (schema control_))) in
            let* _ := set_client (Some (mkClient control_url control_)) in
            Pure (Ok tt)
        end) s tr made s' ->
  (made = Ok tt /\ exists c, duroxide_client s' = Some c /\ connection_string c = control_url /\
   control c = control_ /\ (tr = [] \/ tr = [Ev (NewProvider control_url (schema control_)) (Ok tt)])) \/
  (is_ok made = false /\ duroxide_client s' = None).
Proof.
  intros Hc Hm. destruct (duroxide_client s) as [c|] eqn:Ec.
  - destruct Hm as (-> & -> & ->). left. split; [done|]. exists c. rewrite Ec. naive_solver.
  - apply does_try in Hm as (t5 & t6 & a & s3 & -> & Hn & Hm).
    apply does_bind in Hn as (t7 & t8 & b & s4 & -> & (? & ? & -> & -> & <- & ->) & (-> & -> & ->)).
    destruct b as [[]|e]; cbn [map_err] in Hm.
    + left. apply does_bind in Hm as (t9 & t10 & [] & s5 & -> & [-> ->]%set_client_does & (-> & -> & ->)).
      split; [done|]. eexists. split; [done|]. split_and!; [done..|]. by right.
    + right. by destruct Hm as (-> & -> & ->).
Qed.

Lemma with_backend_client_does {T} (f : BackendClient -> backend (result T string)) s tr r s' :
  does (with_backend_client control_url control_database f) s tr r s' ->
  used f s tr r s' \/ (is_ok r = false /\ duroxide_client s' = None).
Proof.
  intros (tr0 & tr1 & state & s0 & -> & Hs & H)%does_bind.
  destruct state as [control_|e].
  2: { right. apply does_bind in H as (t1 & t2 & [] & s1 & -> & [-> ->]%set_client_does & (-> & -> & ->)). done. }
  destruct (ready control_) eqn:Er; cbn [negb] in H.
  2: { right. apply does_bind in H as (t1 & t2 & [] & s1 & -> & [-> ->]%set_client_does & (-> & -> & ->)). done. }
  cbn [does bind_act gets] in H.
  apply does_bind in H as (t1 & t2 & [] & s1 & -> & H1 & H).
  assert (Hkept : t1 = [] /\ control_connection s1 = control_connection s0 /\
    match duroxide_client s1 with
    | Some c => connection_string c = control_url /\ control c = control_
    | None => True end).
  { destruct (duroxide_client s0) as [c|] eqn:Ec; [|destruct H1 as (-> & _ & ->); by rewrite Ec].
    destruct (negb _ || negb _) eqn:Eb; [by apply set_client_does in H1 as [-> ->]|].
    destruct H1 as (-> & _ & ->). rewrite Ec.
    apply orb_false_iff in Eb as [Eu Es]. apply negb_false_iff in Eu, Es.
    apply String.eqb_eq in Eu. by apply bool_decide_eq_true in Es. }
  destruct Hkept as (-> & Hconn & Hc). cbn [does bind_act gets] in H.
  apply does_try in H as (t3 & t4 & made & s2 & -> & Hm & H).
  pose proof (client_made_does _ _ _ _ _ Hc Hm) as Hmade.
  destruct Hmade as [(-> & c & Ec & Eurl & Econtrol & Ht3)|[Hno Hnone]].
  2: { destruct made; [done|]. destruct H as (-> & -> & ->). by right. }
  left. cbn [does bind_act gets] in H. rewrite Ec in H.
  apply does_bind in H as (t5 & t6 & out & s3 & -> & Hf & H).
  apply does_bind in H as (t7 & t8 & [] & s4 & -> & Hend & (-> & -> & ->)).
  exists tr0, t3, t5, s0, s2, s3, c. rewrite Econtrol.
  assert (Hfin : t7 = [] /\ s4 = match out with
    | Err e => if is_connection_error e then mkCaches None (control_connection s3) else s3
    | Ok _ => s3 end).
  { destruct out as [a|e]; [by destruct Hend as (-> & _ & ->)|].
    destruct (is_connection_error e); [by apply set_client_does in Hend|]. by destruct Hend as (-> & _ & ->). }
  destruct Hfin as [-> ->]. cbn [app]. rewrite !app_nil_r. by split_and!.
Qed.
End Current.

(** A session's call to the engine runs on its cached client only when the control
    installation, looked at in this very call, is ready, and the client was made for
    that installation and the configured URL: a stale one is dropped and made anew.
    An error that speaks of a connection drops the client again; whenever the call
    does not get as far, it is an error and no client is left in the cache. *)
Theorem client_used_current {T} url db (f : BackendClient -> backend (result T string)) s tr r s' :
  does (with_backend_client url db f) s tr r s' ->
  used url db f s tr r s' \/ (is_ok r = false /\ duroxide_client s' = None).
Proof. apply with_backend_client_does. Qed.

(** ** Transactions of the provider *)

(** No transaction, or one that reserved an id, or one that did not. *)
Inductive txn := NoTxn | OpenTxn (reserved : option string).
#[export] Instance txn_eq_dec : EqDecision txn.
Proof. solve_decision. Defined.

Definition next_txn (t : txn) (e : @event cop reply) : option txn :=
  let (o, r) := e in
  match o as o return reply o -> option txn with
  | BeginTransaction => fun r =>
      match t with NoTxn => Some (match r with Ok _ => OpenTxn None | Err _ => NoTxn end) | _ => None end
  | ConfigureTransaction | ReadQuota _ => fun _ => match t with OpenTxn None => Some t | _ => None end
  | InsertSubmission _ id _ _ => fun r =>
      match t with
      | OpenTxn None => Some (OpenTxn (match r with Ok (Some _) => Some id | _ => None end))
      | _ => None
      end
  | EnqueueWork _ id _ => fun _ =>
      match t with OpenTxn (Some id') => if bool_decide (id = id') then Some t else None | _ => None end
  | CommitTransaction | RollbackTransaction => fun _ =>
      match t with OpenTxn _ => Some NoTxn | NoTxn => None end
  | _ => fun _ => Some t
  end r.

(** Calls that no transaction takes part in. *)
Definition outside (o : cop) : Prop :=
  match o with
  | BeginTransaction | ConfigureTransaction | ReadQuota _ | InsertSubmission _ _ _ _
  | EnqueueWork _ _ _ | CommitTransaction | RollbackTransaction => False
  | _ => True
  end.

Ltac onlys :=
  repeat first
    [ done | assumption
    | progress intros
    | simple apply only_try | simple apply only_bind | simple apply only_interrupt
    | progress cbv zeta
    | match goal with |- only _ (match ?r with _ => _ end) => destruct r end
    | match goal with |- only _ (call _) => split end
    | match goal with |- only _ (ask _) => split end
    | match goal with |- only _ (gets _) => progress cbn end
    | match goal with |- only _ (set_client _) => progress cbn end
    | match goal with |- only _ (set_control _) => progress cbn end
    | match goal with |- only _ (lift _) => progress cbn end ].

Section Transactions.
Context (start_orchestration : string -> string -> string -> string)
    (debug_reservation : result (option string) string -> string).
Context (control_url control_database : string) {U : UuidCrate}.

Lemma backend_control_state_outside : only outside (backend_control_state control_database control_url).
Proof.
  unfold backend_control_state, backend_local_control_state, refresh_backend_control_state, control_lookup,
    read_backend_control_state, resolve_duroxide_schema_spi, be_map_err. onlys.
Qed.

Lemma backend_origin_outside : only outside (backend_origin control_database).
Proof. unfold backend_origin, be_map_err. onlys. Qed.

Lemma follows_outside {A} (p : backend A) s t :
  only outside p -> follows next_txn p s t (fun _ _ t' => t' = t).
Proof.
  intros Hp. apply follows_only. induction p as [a|k IH|s1 p IH|o k IH]; cbn in *; auto.
  destruct Hp as [Ho Hk]. split; [|auto]. intros r. by destruct o.
Qed.

Lemma follows_after {A B} (p : backend A) (k : A -> backend B) s t Q :
  only outside p -> (forall a s', follows next_txn (k a) s' t Q) -> follows next_txn (bind_act p k) s t Q.
Proof.
  intros Hp Hk. apply follows_bind. eapply follows_mono; [by apply follows_outside|]. by intros a s' t' ->.
Qed.

Lemma follows_with_client {T} (f : BackendClient -> backend (result T string)) s t
    (R : result T string -> txn -> Prop) :
  (forall c s, follows next_txn (f c) s t (fun r _ t' => R r t')) -> (forall e, R (Err e) t) ->
  follows next_txn (with_backend_client control_url control_database f) s t (fun r _ t' => R r t').
Proof.
  intros Hf He. unfold with_backend_client. apply follows_after; [apply backend_control_state_outside|].
  intros [control_|e] s0; [|apply follows_after; [done|intros; apply He]].
  destruct (negb (ready control_)); [apply follows_after; [done|intros; apply He]|].
  apply follows_after; [done|]. intros cached s1.
  apply follows_after; [onlys|]. intros [] s2. apply follows_after; [done|]. intros cached' s3.
  apply follows_try. eapply follows_mono.
  { apply follows_outside. unfold be_map_err. onlys. }
  intros [[]|e] s4 t' ->; [|apply He]. apply follows_after; [done|]. intros client s5.
  apply follows_bind. eapply (follows_mono _ _ _ _ (fun r _ t' => R r t')).
  { destruct client as [c|]; [apply Hf|apply He]. }
  intros r s6 t' HR. apply follows_after; [onlys|]. by intros [] s7.
Qed.

Lemma txn_map_err {A E F} (f : E -> F) (p : backend (result A E)) s t (Q : _ -> caches -> txn -> Prop) :
  follows next_txn p s t (fun r s' t' => Q (map_err f r) s' t') -> follows next_txn (be_map_err f p) s t Q.
Proof. intros H. apply follows_bind. eapply follows_mono; [exact H|]. by intros. Qed.

Lemma finish_transaction_follows {A} m1 m2 (r : result A string) s id :
  follows next_txn (finish_transaction m1 m2 r) s (OpenTxn id) (fun _ _ t' => t' = NoTxn).
Proof.
  destruct r as [a|e]; cbn [finish_transaction]; apply follows_try, txn_map_err; intros r;
    (eexists; split; [reflexivity|]); by destruct r.
Qed.

Lemma reserve_transaction_follows schema id origin by_ s :
  follows next_txn (reserve_submission_transaction debug_reservation schema id origin by_) s NoTxn
    (fun r _ t' => t' = match r with Ok true => OpenTxn (Some id) | _ => NoTxn end).
Proof.
  unfold reserve_submission_transaction. apply follows_try, txn_map_err. intros begun.
  eexists. split; [reflexivity|]. destruct begun as [[]|e]; [|done]. cbn [map_err follows].
  apply follows_bind.
  apply (follows_mono _ _ _ _ (fun r _ t' => t' = OpenTxn (match r with Ok (Some _) => Some id | _ => None end))).
  { apply follows_try, txn_map_err. intros configured. eexists. split; [reflexivity|].
    destruct configured as [[]|e]; [|done]. apply txn_map_err. intros inserted.
    eexists. split; [reflexivity|]. by destruct inserted as [[x|]|e]. }
  intros [[x|]|e] s' t' ->; [done| |]; apply follows_try, txn_map_err; intros rolled;
    (eexists; split; [reflexivity|]); by destruct rolled as [[]|].
Qed.

Lemma reserve_submission_id_follows id by_ s :
  follows next_txn (reserve_submission_id debug_reservation control_url control_database id by_) s NoTxn
    (fun r _ t' => t' = match r with Ok (Some p) => OpenTxn (Some (pending_instance_id p)) | _ => NoTxn end).
Proof.
  unfold reserve_submission_id. apply follows_try. eapply follows_mono.
  { apply follows_outside, backend_origin_outside. }
  intros [origin|e] s' t' ->; [|done]. apply follows_with_client; [|done]. intros c s1.
  apply follows_try. eapply follows_mono; [apply reserve_transaction_follows|].
  by intros [[]|e] s2 t2 ->.
Qed.

(** What becomes of a reservation in [df.start]. *)
Inductive fate := Enqueued (function_name input : string) | RolledBack | Dropped.
Definition submission (id : string) (by_ : N) (f : fate) : backend unit :=
  let* r := reserve_submission_id debug_reservation control_url control_database id by_ in
  match r with
  | Ok (Some p) =>
      match f with
      | Enqueued name input => let* _ := enqueue start_orchestration p name input in Pure tt
      | RolledBack => let* _ := rollback p in Pure tt
      | Dropped => drop_pending p
      end
  | _ => Pure tt
  end.
End Transactions.

(** C27: A start is enqueued only in the transaction that accounts for it, under the
    same engine id, after the ledger took that id; and whatever becomes of the
    reservation (it is enqueued, given back when the id is taken, or dropped while an
    error unwinds) no transaction on the provider stays open; nor does a quota
    lookup leave one. *)
Theorem submission_transactions_closed enc dbg url db `{UuidCrate} s tr s' :
  (forall id by_ f, does (submission enc dbg url db id by_ f) s tr tt s' ->
     run_protocol next_txn NoTxn tr = Some NoTxn) /\
  (forall ids by_ active r, does (submission_counts url db ids by_ active) s tr r s' ->
     run_protocol next_txn NoTxn tr = Some NoTxn).
Proof.
  split.
  - intros id by_ f Hdoes.
    eapply (follows_sound next_txn _ _ _ (fun _ _ t => t = NoTxn)) in Hdoes as (t & Hrun & ->); [done|].
    apply follows_bind. eapply follows_mono; [apply reserve_submission_id_follows|].
    intros [[p|]|e] s1 t ->; [|done..]. destruct f.
    + apply follows_bind. unfold enqueue. apply follows_bind, txn_map_err. intros r. cbn.
      rewrite bool_decide_true by done. eexists. split; [done|].
      eapply follows_mono; [apply finish_transaction_follows|]. by intros ? ? ? ->.
    + apply follows_bind, txn_map_err. intros r. eexists. by split.
    + intros r. eexists. by split.
  - intros ids by_ active r Hdoes.
    eapply (follows_sound next_txn _ _ _ (fun _ _ t => t = NoTxn)) in Hdoes as (t & Hrun & ->); [done|].
    unfold submission_counts. apply follows_try. eapply follows_mono.
    { by apply follows_outside, backend_origin_outside. }
    intros [origin|e] s1 t ->; [|done]. apply (follows_with_client url db _ _ _ (fun _ t' => t' = NoTxn)); [|done].
    intros c s2. apply follows_try, txn_map_err. intros begun. eexists. split; [reflexivity|].
    destruct begun as [[]|e]; [|done]. cbn [map_err]. apply follows_bind.
    apply (follows_mono _ _ _ _ (fun _ _ t' => t' = OpenTxn None)).
    { apply follows_try, txn_map_err. intros configured. eexists. split; [reflexivity|].
      destruct configured as [[]|e]; [|done]. apply follows_try, txn_map_err. intros read.
      eexists. split; [reflexivity|]. by destruct read. }
    intros out s3 t ->. eapply follows_mono; [apply finish_transaction_follows|]. by intros ? ? ? ->.
Qed.

(** A successful call is one of its client's. *)
Lemma with_client_calls {T} url db (f : BackendClient -> backend (result T string)) s tr a s' :
  does (with_backend_client url db f) s tr (Ok a) s' ->
  exists c s1 s2 tr1, tr1 ⊆ tr /\ does (f c) s1 tr1 (Ok a) s2.
Proof.
  intros [(tr0 & tr1 & tr2 & s0 & s1 & s2 & c & -> & _ & _ & _ & _ & _ & H & _)|[? _]]%with_backend_client_does;
    [|done]. exists c, s1, s2, tr2. split; [set_solver|done].
Qed.

Lemma finish_transaction_ok {A} m1 m2 (r : result A string) s tr a s' :
  does (finish_transaction m1 m2 r) s tr (Ok a) s' -> r = Ok a.
Proof.
  destruct r as [b|e]; cbn [finish_transaction];
    intros (t1 & t2 & x & s1 & -> & _ & H)%does_try; destruct x; by destruct H as (_ & [=] & _); subst.
Qed.

(** ** Quotas *)

Lemma filter_unique {A K} `{EqDecision K} (f : A -> K) (k : K) (l : list A) :
  NoDup (f <$> l) -> filter (fun x => f x = k) l = option_list (head (filter (fun x => f x = k) l)).
Proof.
  induction l as [|x l IH]; [done|]. rewrite fmap_cons, NoDup_cons. intros [Hx Hl].
  rewrite filter_cons. destruct (decide (f x = k)) as [<-|Hne]; [|by apply IH]. cbn. f_equal.
  rewrite IH by done. destruct (filter (fun y => f y = f x) l) as [|y l'] eqn:E; [done|].
  assert (Hy : y ∈ filter (fun y => f y = f x) l) by (rewrite E; left).
  apply list_elem_of_filter in Hy as [Ey Hy]. destruct Hx. rewrite <- Ey. by apply list_elem_of_fmap_2.
Qed.

Section Quota.
Context (q : quota_snapshot).

(** The engine's instance of an id with the status of its current execution. *)
Definition joined (id : string) : option string * option (option string) :=
  match head (filter (fun i => fst i = id) (q_instances q)) with
  | None => (None, None)
  | Some (instance_id, current) =>
      (Some instance_id, snd <$> head (filter (fun e => fst e = (instance_id, current)) (q_executions q)))
  end.

(** An execution is current when it is the one its instance names. *)
Definition current_status (id status : string) : Prop :=
  exists current, (id, current) ∈ q_instances q /\ (id, current, Some status) ∈ q_executions q.
(** Not yet finished: its current execution has a status that is not terminal, or
    none, and it is an instance or queued to become one. *)
Definition unfinished (id : string) : Prop :=
  (exists status, current_status id status /\ status <> "Completed" /\ status <> "Failed") \/
  ((forall status, ~ current_status id status) /\
   (id ∈ (q_instances q).*1 \/ id ∈ q_queue q)).

Lemma quota_rows_joined id :
  NoDup (fst <$> q_instances q) -> NoDup (fst <$> q_executions q) -> quota_rows q id = [joined id].
Proof.
  intros Hi He. unfold quota_rows, joined. rewrite (filter_unique fst id) by done.
  destruct (head _) as [[instance_id current]|]; cbn; [|done].
  rewrite (filter_unique fst (instance_id, current)) by done.
  by destruct (head _) as [e|].
Qed.

Lemma head_filter {A K} `{EqDecision K} (f : A -> K) (k : K) (l : list A) :
  match head (filter (fun x => f x = k) l) with
  | Some x => x ∈ l /\ f x = k
  | None => forall x, x ∈ l -> f x <> k
  end.
Proof.
  destruct (filter _ l) as [|x l'] eqn:E; cbn.
  - intros x Hx Hk. assert (Hin : x ∈ filter (fun x => f x = k) l) by by apply list_elem_of_filter.
    rewrite E in Hin. by apply not_elem_of_nil in Hin.
  - assert (Hin : x ∈ filter (fun x => f x = k) l) by (rewrite E; left).
    by apply list_elem_of_filter in Hin as [? ?].
Qed.

(** The one row of a key. *)
Lemma NoDup_fst_unique {K V} (l : list (K * V)) k v v' :
  NoDup l.*1 -> (k, v) ∈ l -> (k, v') ∈ l -> v = v'.
Proof.
  induction l as [|[k0 v0] l IH]; [set_solver|]. rewrite fmap_cons, NoDup_cons. intros [Hk Hl].
  assert (Hout : forall w, (k0, w) ∈ l -> False) by (intros w Hw; by apply Hk, (list_elem_of_fmap_2 fst l (k0, w))).
  rewrite !elem_of_cons. intros [H|H] [H'|H']; simplify_eq; [done| | |by apply IH];
    exfalso; by eapply Hout.
Qed.

Lemma counts_active_unfinished id :
  NoDup (q_instances q).*1 -> NoDup (q_executions q).*1 ->
  counts_active q id (joined id) = true <-> unfinished id.
Proof.
  intros Hi He. unfold joined, counts_active.
  assert (Hqueue : existsb (String.eqb id) (q_queue q) = true <-> id ∈ q_queue q).
  { rewrite existsb_exists. setoid_rewrite String.eqb_eq. setoid_rewrite <- list_elem_of_In.
    naive_solver. }
  pose proof (head_filter fst id (q_instances q)) as Hinst.
  destruct (head _) as [[instance_id current]|]; cbn [fst snd].
  2: { rewrite bool_decide_false by (by intros [? ?]). cbn [orb]. rewrite Hqueue. unfold unfinished, current_status.
  split.
  - intros Hin. right. split; [|by right]. intros status (current & Hc & _). by apply (Hinst _ Hc).
  - intros [(status & (current & Hc & _) & _)|[_ [Hc|Hc]]]; [|apply list_elem_of_fmap in Hc as (x & -> & Hc)|done];
      by destruct (Hinst _ Hc). }
  destruct Hinst as [Hin Ek]. cbn in Ek. subst instance_id.
  pose proof (head_filter fst (id, current) (q_executions q)) as Hexec.
  assert (Hcur : forall current', (id, current') ∈ q_instances q -> current' = current)
    by (intros current' H'; by eapply NoDup_fst_unique).
  destruct (head _) as [[key [status|]]|]; cbn [fmap option_fmap option_map fst snd].
  - destruct Hexec as [Hx Ek]. cbn in Ek. subst key.
    assert (Hst : forall status', current_status id status' -> status' = status).
    { intros status' (current' & H1 & H2). rewrite (Hcur _ H1) in H2.
      pose proof (NoDup_fst_unique _ _ _ _ He Hx H2) as [= ->]. done. }
    rewrite negb_true_iff, orb_false_iff, !String.eqb_neq. split.
    + intros [H1 H2]. left. exists status. split; [by exists current|done].
    + intros [(status' & H1 & H2)|[H1 _]]; [by rewrite <- (Hst _ H1)|].
      destruct (H1 status). by exists current.
  - destruct Hexec as [Hx Ek]. cbn in Ek. subst key. rewrite bool_decide_true by by eexists. split; [|done].
    intros _. right. split; [|left; by apply (list_elem_of_fmap_2 fst _ (id, current))].
    intros status (current' & H1 & H2). rewrite (Hcur _ H1) in H2.
    by pose proof (NoDup_fst_unique _ _ _ _ He Hx H2).
  - rewrite bool_decide_true by by eexists. split; [|done].
    intros _. right. split; [|left; by apply (list_elem_of_fmap_2 fst _ (id, current))].
    intros status (current' & H1 & H2). rewrite (Hcur _ H1) in H2. by apply (Hexec _ H2).
Qed.

Lemma quota_counts_joined ids :
  NoDup (fst <$> q_instances q) -> NoDup (fst <$> q_executions q) ->
  quota_counts q ids true =
    (length ids, length (filter (fun id => counts_active q id (joined id) = true) ids)).
Proof.
  intros Hi He. unfold quota_counts.
  assert (E : (id ← ids; (fun r => (id, r)) <$> quota_rows q id) = (fun id => (id, joined id)) <$> ids).
  { induction ids as [|id ids IH]; [done|]. cbn. rewrite quota_rows_joined, IH by done. done. }
  rewrite E, length_fmap. f_equal. induction ids as [|id ids IH]; [done|]. rewrite fmap_cons, !filter_cons.
  assert (E' : (id ← ids; (fun r => (id, r)) <$> quota_rows q id) = (fun id => (id, joined id)) <$> ids).
  { cbn in E. rewrite quota_rows_joined in E by done. by injection E. }
  specialize (IH E'). cbn [fst snd].
  case_decide; cbn [length]; first [by rewrite IH | done].
Qed.

Lemma quota_counts_exact ids :
  NoDup (fst <$> q_instances q) -> NoDup (fst <$> q_executions q) -> NoDup ids ->
  exists active, quota_counts q ids true = (length ids, length active) /\ NoDup active /\
  forall id, id ∈ active <-> id ∈ ids /\ unfinished id.
Proof.
  intros Hi He Hids. eexists. split; [by apply quota_counts_joined|]. split; [by apply NoDup_filter|].
  intros id. rewrite list_elem_of_filter, counts_active_unfinished by done. tauto.
Qed.

Lemma requested_elem engine_ids key user id :
  id ∈ requested q engine_ids key user <-> id ∈ engine_ids \/ (id, key, user) ∈ q_submissions q.
Proof.
  unfold requested. rewrite elem_of_remove_dups, elem_of_app, list_elem_of_omap. split.
  - intros [H|([[i o] u] & Hin & H)]; [by left|]. right. cbn in H.
    destruct (String.eqb o key) eqn:E1, (u =? user)%N eqn:E2; try done. cbn in H. injection H as <-.
    apply String.eqb_eq in E1 as <-. by apply N.eqb_eq in E2 as <-.
  - intros [H|H]; [by left|]. right. exists (id, key, user). split; [done|]. cbn.
    by rewrite String.eqb_refl, N.eqb_refl.
Qed.
End Quota.

Section Lookup.
Context (control_url control_database : string) {U : UuidCrate}.

(** A successful lookup is a snapshot, counted. *)
Lemma submission_counts_does ids by_ active s tr counts s' :
  does (submission_counts control_url control_database ids by_ active) s tr (Ok counts) s' ->
  exists origin q sch, Ev (ReadQuota sch) (Ok q) ∈ tr /\
  counts = quota_counts q (requested q (engine_id_for_origin origin <$> ids)
                           (engine_id_for_origin origin "") by_) active.
Proof.
  intros (tr0 & tr1 & o & s0 & -> & _ & H)%does_try. destruct o as [origin|e]; [|by destruct H as (_ & ? & _)].
  apply with_client_calls in H as (c & s1 & s2 & tr2 & Hin & H).
  apply does_try in H as (t1 & t2 & a & s3 & -> & Hb & H).
  destruct a as [[]|]; [|by destruct H as (_ & ? & _)].
  apply does_bind in H as (t3 & t4 & out & s4 & -> & Hr & Hf).
  apply finish_transaction_ok in Hf as ->.
  apply does_try in Hr as (t5 & t6 & a & s5 & -> & _ & Hr). destruct a as [[]|]; [|by destruct Hr as (_ & ? & _)].
  apply does_try in Hr as (t7 & t8 & a & s6 & -> & Hq & Hr).
  apply does_bind in Hq as (t9 & t10 & q & s7 & -> & (? & ? & -> & -> & <- & ->) & (-> & -> & ->)).
  destruct q as [q|e]; cbn [map_err] in Hr; [|by destruct Hr as (_ & ? & _)].
  destruct Hr as (-> & [= ->] & ->). exists origin, q, (schema (control c)). split; [|done].
  apply elem_of_app. right. apply Hin. rewrite !elem_of_app. set_solver.
Qed.
End Lookup.

(** The counts of a quota lookup are numbers of instances: every id of the caller's
    table and every submission that the ledger has of the caller in this origin
    counts once as retained, also when it is in both; it counts as active if and
    only if its current execution is not terminal, or there is none while the engine
    or its queue still has it. *)
Theorem submission_counts_exact url db `{UuidCrate} ids by_ s tr total active s' :
  does (submission_counts url db ids by_ true) s tr (Ok (total, active)) s' ->
  exists q sch origin (retained : list string),
    Ev (ReadQuota sch) (Ok q) ∈ tr /\ NoDup retained /\
    (forall id, id ∈ retained <-> id ∈ engine_id_for_origin origin <$> ids \/
       (id, engine_id_for_origin origin "", by_) ∈ q_submissions q) /\
    (NoDup (fst <$> q_instances q) -> NoDup (fst <$> q_executions q) ->
       total = length retained /\
       exists running, active = length running /\ NoDup running /\
         forall id, id ∈ running <-> id ∈ retained /\ unfinished q id).
Proof.
  intros (origin & q & sch & Hin & E)%submission_counts_does.
  exists q, sch, origin, (requested q (engine_id_for_origin origin <$> ids) (engine_id_for_origin origin "") by_).
  split; [done|]. split; [apply NoDup_remove_dups|]. split; [intros id; apply requested_elem|].
  intros Hi He.
  destruct (quota_counts_exact q (requested q (engine_id_for_origin origin <$> ids)
    (engine_id_for_origin origin "") by_) Hi He (NoDup_remove_dups _)) as (running & E' & ? & ?).
  rewrite E' in E. injection E as -> ->. split; [done|]. by exists running.
Qed.

(** ** A sample session *)

Module SampleSession.
Definition control : BackendControlState := mkControl 16400 "_duroxide" true.
Definition stale : caches := mkCaches (Some (mkClient "postgres://control" (mkControl 16390 "_duroxide" true))) None.

(** The extension was replaced since the client was cached; two starts of [alice]
    are accounted for, of which one has ended. *)
Definition world (hist : list (@event cop reply)) (o : cop) : reply o :=
  match o as o return reply o with
  | CurrentDatabase => Ok (Some "postgres")
  | SpiHelperSchema => Ok (Some "_duroxide")
  | InstallationText => Ok None
  | SpiExtensionOid => Ok (Some 16400%Z)
  | SpiHelperExists => Ok (Some true)
  | SpiReadyTable _ => Ok (Some true)
  | SpiReady _ => Ok (Some true)
  | MyDatabaseId => 5%N
  | ParseOptions _ => Ok tt
  | ConnectControl _ => Ok tt
  | NewProvider _ _ => Ok tt
  | ControlRow => Ok None
  | ControlSchema => Ok "_duroxide"
  | ControlReady _ => Ok true
  | Elapsed => false
  | BeginTransaction => Ok tt
  | ConfigureTransaction => Ok tt
  | EnqueueWork _ _ _ => Ok tt
  | CommitTransaction => Ok tt
  | RollbackTransaction => Ok tt
  | ReadQuota _ => Ok (mkQuota [("0000000a", "", 10%N); ("0000000b", "", 10%N); ("0000000c", "", 11%N)]
                       [("0000000a", 1%Z)] [(("0000000a", 1%Z), Some "Completed")] ["0000000b"])
  | InsertSubmission _ id _ _ => Ok (Some id)
  | CancelInstance _ _ => Err "connection refused"
  | RaiseEvent _ _ _ => Ok tt
  | InstanceTree _ => Ok []
  | InstanceStatus _ => Ok "Running"
  end.

#[local] Existing Instance sample_uuid.
Definition counts : backend (result (nat * nat) string) :=
  submission_counts "postgres://control" "postgres" ["0000000a"] 10 true.
Definition cancelling : backend (result unit string) :=
  cancel_durable_function "postgres://control" "postgres" "0000000a" "stop".
(** A refused connection drops the client. *)
Example cancel_refused :
  fst (eval world [] cancelling stale) =
    (Err "Failed to cancel durable function: connection refused", mkCaches None None).
Proof. vm_compute. reflexivity. Qed.
End SampleSession.

(** The run of a program in the sample world. *)
Lemma sample_does {A} (p : backend A) (s : caches) :
  exists tr, snd (eval SampleSession.world [] p s) = tr /\
    does p s tr (fst (fst (eval SampleSession.world [] p s))) (snd (fst (eval SampleSession.world [] p s))).
Proof.
  destruct (eval_does SampleSession.world [] p s) as (tr & E & H). exists tr. split; [by rewrite E|done].
Qed.

(** The stale client is replaced. *)
Lemma client_used_current_witness :
  let p := with_backend_client "postgres://control" "postgres"
    (fun _ => be_map_err (fun e => "Failed to raise event: " +:+ e) (ask (RaiseEvent "0000000a" "go" "{}"))) in
  exists tr r s', does p SampleSession.stale tr r s' /\
    duroxide_client s' = Some (mkClient "postgres://control" SampleSession.control) /\
    exists f, used "postgres://control" "postgres" f SampleSession.stale tr r s'.
Proof.
  intros p. destruct (sample_does p SampleSession.stale) as (tr & <- & H).
  eexists _, _, _. split; [exact H|]. split; [vm_compute; reflexivity|].
  destruct (client_used_current _ _ _ _ _ _ _ H) as [Hu|[Hr Hn]]; [eexists; exact Hu|].
  exfalso. revert Hr. vm_compute. intros Hr. discriminate Hr.
Defined.

#[local] Existing Instance sample_uuid.

Lemma submission_transactions_closed_witness :
  exists tr, does (submission (fun _ _ _ => "{}") (fun _ => "") "postgres://control" "postgres" "0000000d" 10
      (Enqueued "f" "{}")) SampleSession.stale tr tt (mkCaches (Some (mkClient "postgres://control"
        SampleSession.control)) None) /\
    length tr = 13 /\ run_protocol next_txn NoTxn tr = Some NoTxn.
Proof.
  destruct (sample_does (submission (fun _ _ _ => "{}") (fun _ => "") "postgres://control" "postgres" "0000000d" 10
      (Enqueued "f" "{}")) SampleSession.stale) as (tr & E & H).
  assert (H' : does (submission (fun _ _ _ => "{}") (fun _ => "") "postgres://control" "postgres" "0000000d" 10
      (Enqueued "f" "{}")) SampleSession.stale tr tt (mkCaches (Some (mkClient "postgres://control"
        SampleSession.control)) None)) by exact H.
  exists tr. split; [exact H'|]. split; [rewrite <- E; vm_compute; reflexivity|].
  exact (proj1 (submission_transactions_closed _ _ _ _ _ _ _) _ _ _ H').
Defined.

Lemma submission_counts_exact_witness :
  exists tr s', does SampleSession.counts SampleSession.stale tr (Ok (2, 1)) s' /\
    exists q sch, Ev (ReadQuota sch) (Ok q) ∈ tr.
Proof.
  destruct (sample_does SampleSession.counts SampleSession.stale) as (tr & <- & H).
  assert (Hr : fst (fst (eval SampleSession.world [] SampleSession.counts SampleSession.stale)) = Ok (2, 1))
    by (vm_compute; reflexivity).
  rewrite Hr in H. eexists _, _. split; [exact H|].
  destruct (submission_counts_exact _ _ _ _ _ _ _ _ _ H) as (q & sch & origin & retained & Hin & _).
  exists q, sch. exact Hin.
Defined.
