(* ===== verification/Quota.v ===== *)
(** Admission of starts by several sessions at once ([src/dsl.rs], lines 1066-1168 and
    1533-1603; [src/client.rs], lines 185-273 and 395-462).

    [Submission] and [Client] model the start of one session.  Here sessions of any
    number of roles interleave over the tables of one database, its quota locks and the
    ledger of the provider, which commits at once while a session's rows wait for
    the end of its transaction. *)
From S2P Require Import Prelude RustString Origin Client Submission.

(** ** State *)

(** Where a session is in [df.start]. *)
Inductive start_stage :=
| Outside
(** the lock of the role is held, nothing was counted *)
| Locked (user : N)
| Allowed (user : N)
(** a reservation of the local id is open *)
| Reserved (user : N) (id : string)
(** the row is inserted, too *)
| Claimed (user : N) (id : string)
(** the start was refused or failed *)
| Failing.
#[export] Instance start_stage_eq_dec : EqDecision start_stage.
Proof. solve_decision. Defined.

(** Rows of [df.instances]: the local id and the role. *)
Abbreviation instance_rows := (gmap string N).

Record start_session := mkStartSession { own : instance_rows; stage : start_stage }.

Record cluster := mkCluster {
  provider : quota_snapshot;
  (** committed rows *)
  rows : instance_rows;
  (** the session that holds the lock of a role *)
  holder : gmap N nat;
  session : nat -> start_session;
  (** commits of reservations whose answer was lost, and those that arrived after all *)
  in_doubt : list (string * N);
  late : gset string;
}.

Definition set_session (c : cluster) (i : nat) (s : start_session) : cluster :=
  mkCluster (provider c) (rows c) (holder c) (fun j => if Nat.eqb i j then s else session c j)
    (in_doubt c) (late c).
Definition set_stage (c : cluster) (i : nat) (s : start_stage) : cluster :=
  set_session c i (mkStartSession (own (session c i)) s).
Definition set_holder (c : cluster) (h : gmap N nat) : cluster :=
  mkCluster (provider c) (rows c) h (session c) (in_doubt c) (late c).
Definition set_rows (c : cluster) (r : instance_rows) : cluster :=
  mkCluster (provider c) r (holder c) (session c) (in_doubt c) (late c).
Definition set_provider (c : cluster) (q : quota_snapshot) : cluster :=
  mkCluster q (rows c) (holder c) (session c) (in_doubt c) (late c).

Definition add_submission (q : quota_snapshot) (engine_id origin : string) (user : N) : quota_snapshot :=
  mkQuota ((engine_id, origin, user) :: q_submissions q) (q_instances q) (q_executions q) (q_queue q).
Definition add_to_queue (q : quota_snapshot) (engine_id : string) : quota_snapshot :=
  mkQuota (q_submissions q) (q_instances q) (q_executions q) (engine_id :: q_queue q).

(** ** Counting *)

Definition rows_of (r : instance_rows) (user : N) : gset string := dom (filter (fun kv => kv.2 = user) r).

(** The latest snapshot: what is committed, and what the session itself has inserted. *)
Definition current_instance_ids (c : cluster) (i : nat) (user : N) : list string :=
  elements (rows_of (own (session c i)) user ∪ rows_of (rows c) user).

Section Cluster.
Context {U : UuidCrate} (origin : option Origin).
(** [df.max_instances_per_user] and [df.max_concurrent_per_user]; the roles that are
    superusers *)
Context (instance_limit concurrent_limit : Z) (superuser : N -> bool).

Definition origin_key : string := engine_id_for_origin origin "".

Definition counted (c : cluster) (i : nat) (user : N) : nat * nat :=
  quota_counts (provider c)
    (requested (provider c) (engine_id_for_origin origin <$> current_instance_ids c i user) origin_key user)
    (0 <? concurrent_limit)%Z.

(** The roles whose starts [enforce_instance_limits] does not look at. *)
Definition unlimited (user : N) : bool :=
  superuser user || (concurrent_limit =? 0)%Z && (instance_limit =? 0)%Z.

(** What a start of the role finds. *)
Record finds (c : cluster) (i : nat) (user : N) (env : start_env) : Prop := {
  finds_user : user_oid env = user;
  finds_superuser : role_is_superuser env = Ok (superuser user);
  finds_instance_limit : max_instances_per_user env = instance_limit;
  finds_concurrent_limit : max_concurrent_per_user env = concurrent_limit;
  finds_counts : submission_counts env =
  Ok (Z.of_nat (counted c i user).1, Z.of_nat (counted c i user).2);
}.

(** ** Steps *)

Inductive start_step : cluster -> cluster -> Prop :=
  (** [acquire_instance_quota_lock]: granted when no other session has it. *)
  | step_lock c i user :
      stage (session c i) = Outside -> unlimited user = false ->
      (holder c !! user = None \/ holder c !! user = Some i) ->
      start_step c (set_stage (set_holder c (<[user := i]> (holder c))) i (Locked user))
      (** the counts are within the limits *)
  | step_admit c i user env :
      stage (session c i) = Locked user -> finds c i user env -> check_superuser env = Ok tt ->
      start_step c (set_stage c i (Allowed user))
      (** no lock is taken where nothing is limited *)
  | step_admit_unlimited c i user env :
      stage (session c i) = Outside -> unlimited user = true -> finds c i user env ->
      check_superuser env = Ok tt ->
      start_step c (set_stage c i (Allowed user))
      (** [reserve_submission_id]: the ledger has not got the id, open or committed *)
  | step_reserve c i user id :
      stage (session c i) = Allowed user ->
      (forall o v, (engine_id_for_origin origin id, o, v) ∉ q_submissions (provider c)) ->
      (forall j v, stage (session c j) <> Reserved v id /\ stage (session c j) <> Claimed v id) ->
      start_step c (set_stage c i (Reserved user id))
      (** the row is inserted; one that is there already sends the start to another id *)
  | step_claim c i user id :
      stage (session c i) = Reserved user id ->
      rows c !! id = None -> (forall j, own (session c j) !! id = None) ->
      start_step c (set_session c i (mkStartSession (<[id := user]> (own (session c i))) (Claimed user id)))
  | step_taken c i user id :
      stage (session c i) = Reserved user id -> start_step c (set_stage c i (Allowed user))
      (** [PendingSubmission::enqueue] commits reservation and work item together *)
  | step_enqueue c i user id :
      stage (session c i) = Claimed user id ->
      start_step c (set_stage (set_provider c (add_to_queue
          (add_submission (provider c) (engine_id_for_origin origin id) origin_key user)
          (engine_id_for_origin origin id))) i Outside)
      (** an error anywhere; that of the commit may come before the commit *)
  | step_fail c i :
      stage (session c i) <> Outside -> start_step c (set_stage c i Failing)
  | step_lost_answer c i user id :
      stage (session c i) = Claimed user id ->
      start_step c (set_stage (mkCluster (provider c) (rows c) (holder c) (session c)
                               ((engine_id_for_origin origin id, user) :: in_doubt c) (late c)) i Failing)
  | step_late_commit c engine_id user :
      (engine_id, user) ∈ in_doubt c ->
      start_step c (mkCluster (add_submission (provider c) engine_id origin_key user) (rows c) (holder c)
                    (session c) (in_doubt c) ({[engine_id]} ∪ late c))
      (** A rollback, to a savepoint or of the transaction: rows go, and locks that were
         taken for no row that stays. *)
  | step_rollback c i own' holder' :
      stage (session c i) ∈ [Outside; Failing] ->
      own' ⊆ own (session c i) ->
      (forall user j, holder c !! user = Some j -> j <> i -> holder' !! user = Some j) ->
      (forall user j, holder' !! user = Some j -> holder c !! user = Some j) ->
      (forall id user, own' !! id = Some user -> holder c !! user = Some i -> holder' !! user = Some i) ->
      start_step c (set_session (set_holder c holder') i (mkStartSession own' Outside))
      (** Commit: the rows are visible, the locks are free. *)
  | step_commit c i :
      stage (session c i) = Outside ->
      start_step c (set_session (set_rows (set_holder c (filter (fun kv => kv.2 <> i) (holder c)))
                                 (own (session c i) ∪ rows c)) i (mkStartSession ∅ Outside))
      (** The engine runs, other databases submit, maintenance deletes. *)
  | step_engine c q :
      (forall id user, (id, origin_key, user) ∈ q_submissions q -> (id, origin_key, user) ∈ q_submissions (provider c)) ->
      start_step c (set_provider c q)
  | step_retention c r : r ⊆ rows c -> start_step c (set_rows c r).

Definition quiet (q : quota_snapshot) (r : instance_rows) : cluster :=
  mkCluster q r ∅ (fun _ => mkStartSession ∅ Outside) [] ∅.

(** What a role has retained: its rows and its submissions from this database, a
    start that is in both once. *)
Definition ledger_of (q : quota_snapshot) (user : N) : gset string :=
  list_to_set (omap (fun '(id, o, u) =>
    if String.eqb o origin_key && (u =? user)%N then Some id else None) (q_submissions q)).
Definition retained (c : cluster) (user : N) : gset string :=
  set_map (engine_id_for_origin origin) (rows_of (rows c) user) ∪ ledger_of (provider c) user.
End Cluster.
