(* ===== verification/QuotaSpec.v ===== *)
(** However starts interleave, a role retains no more than its limit. *)
From S2P Require Import Prelude RustString Origin Client ClientSpec Submission Quota.
From stdpp Require Import relations.

Section Quota.
Context {U : UuidCrate} (origin : option Origin).
Context (instance_limit concurrent_limit : Z) (superuser : N -> bool).

Abbreviation engine := (engine_id_for_origin origin).
Abbreviation step := (Quota.start_step origin instance_limit concurrent_limit superuser).
Abbreviation ledger := (ledger_of origin).

(** ** Rows *)

Lemma rows_of_elem r user id : id ∈ rows_of r user <-> r !! id = Some user.
Proof.
  unfold rows_of. rewrite elem_of_dom. split.
  - intros [u [Hl E]%map_lookup_filter_Some]. cbn in E. by subst.
  - intros H. exists user. by apply map_lookup_filter_Some.
Qed.

Lemma ledger_elem q user id : id ∈ ledger q user <-> (id, origin_key origin, user) ∈ q_submissions q.
Proof.
  unfold ledger_of. rewrite elem_of_list_to_set, list_elem_of_omap. split.
  - intros ([[i o] u] & Hin & E). cbn in E.
    destruct (String.eqb_spec o (origin_key origin)), (N.eqb_spec u user); by simplify_eq/=.
  - intros H. eexists. split; [exact H|]. cbn. by rewrite String.eqb_refl, N.eqb_refl.
Qed.

(** What a session counts as retained by a role. *)
Definition occupied (own rows : instance_rows) (q : quota_snapshot) (user : N) : gset string :=
  set_map engine (rows_of own user ∪ rows_of rows user) ∪ ledger q user.

Lemma occupied_elem own rows q user e :
  e ∈ occupied own rows q user <->
    (exists id, e = engine id /\ (own !! id = Some user \/ rows !! id = Some user)) \/
  (e, origin_key origin, user) ∈ q_submissions q.
Proof.
  unfold occupied. rewrite elem_of_union, elem_of_map, ledger_elem.
  setoid_rewrite elem_of_union. by setoid_rewrite rows_of_elem.
Qed.

(** The count of a quota lookup is at least the number of what is occupied. *)
Lemma quota_rows_nonempty q id : 1 <= length (quota_rows q id).
Proof.
  unfold quota_rows. destruct (filter _ (q_instances q)) as [|[i cur] l] eqn:E; [done|]. cbn [mbind list_bind].
  rewrite length_app. destruct (filter _ (q_executions q)); cbn; [lia|]. rewrite length_fmap. cbn. lia.
Qed.

Lemma quota_counts_total q ids active : length ids <= (quota_counts q ids active).1.
Proof.
  unfold quota_counts. destruct active; cbn [fst]; [|done].
  induction ids as [|id ids IH]; [done|]. cbn [mbind list_bind]. rewrite length_app, length_fmap. cbn [length].
  pose proof (quota_rows_nonempty q id). lia.
Qed.

Lemma counted_occupied c i user :
  size (occupied (own (session c i)) (rows c) (provider c) user) <=
    (counted origin concurrent_limit c i user).1.
Proof.
  unfold counted. etrans; [|apply quota_counts_total].
  rewrite <- (size_list_to_set (C := gset string) _ (NoDup_remove_dups _ : NoDup (requested _ _ _ _))).
  apply subseteq_size. intros e. rewrite occupied_elem, elem_of_list_to_set, requested_elem.
  unfold current_instance_ids. intros [(id & -> & H)|H]; [left|by right].
  apply list_elem_of_fmap. exists id. split; [done|]. by rewrite elem_of_elements, elem_of_union, !rows_of_elem.
Qed.

(** ** The invariant *)

(** What is held of a role's quota: retained, or inserted by the session with its lock. *)
Definition held (c : cluster) (user : N) : gset string :=
  occupied (match holder c !! user with Some i => own (session c i) | None => ∅ end) (rows c) (provider c) user.

Definition used (c : cluster) (user : N) : Z := Z.of_nat (size (held c user ∖ late c)).

Definition at_work (s : start_stage) : option N :=
  match s with Locked u | Allowed u | Reserved u _ | Claimed u _ => Some u | Outside | Failing => None end.

Record fair (c : cluster) (user : N) : Prop := {
  (** who works on a start of the role, or has a row of it, has its lock *)
  fair_works : forall i, at_work (stage (session c i)) = Some user -> holder c !! user = Some i;
  fair_owns : forall i id, own (session c i) !! id = Some user -> holder c !! user = Some i;
  fair_claims : forall i id, stage (session c i) = Claimed user id -> own (session c i) !! id = Some user;
  fair_used : (used c user <= instance_limit)%Z;
  (** an admitted start has room for one *)
  fair_room : forall i, stage (session c i) = Allowed user \/ (exists id, stage (session c i) = Reserved user id) ->
  (used c user < instance_limit)%Z;
}.

Lemma retained_held c user : retained origin c user ⊆ held c user.
Proof.
  unfold retained, held, occupied. intros e. rewrite !elem_of_union, !elem_of_map.
  setoid_rewrite elem_of_union. naive_solver.
Qed.

Lemma used_mono c c' user : held c' user ⊆ held c user -> late c ⊆ late c' -> (used c' user <= used c user)%Z.
Proof.
  intros H1 H2. unfold used. apply inj_le, subseteq_size. set_solver.
Qed.

Lemma size_add_le (x : string) (X : gset string) : size ({[x]} ∪ X) <= S (size X).
Proof. rewrite size_union_alt, size_singleton. apply le_n_S, subseteq_size. set_solver. Qed.

(** *** What is held, whoever holds it *)

Definition owners_hold (c : cluster) (user : N) : Prop :=
  forall i id, own (session c i) !! id = Some user -> holder c !! user = Some i.
Definition has_row (c : cluster) (user : N) (id : string) : Prop :=
  (exists i, own (session c i) !! id = Some user) \/ rows c !! id = Some user.

Lemma held_elem c user e :
  owners_hold c user ->
  e ∈ held c user <-> (exists id, e = engine id /\ has_row c user id) \/
  (e, origin_key origin, user) ∈ q_submissions (provider c).
Proof.
  intros Ho. unfold held. rewrite occupied_elem. apply or_iff_compat_r.
  split; intros (id & -> & H); exists id; (split; [done|]).
  - destruct (holder c !! user) as [i|]; [|by destruct H; [|right]].
    destruct H; [left; by exists i|by right].
  - destruct H as [[i H]|H]; [|by right]. left. by rewrite (Ho _ _ H).
Qed.

(** A step that adds nothing to what is held. *)
Lemma fair_frame c c' user :
  fair c user -> owners_hold c' user ->
  (forall id, has_row c' user id -> has_row c user id) ->
  (forall e, (e, origin_key origin, user) ∈ q_submissions (provider c') -> e ∈ late c' \/ e ∈ held c user) ->
  late c ⊆ late c' ->
  (forall i, at_work (stage (session c' i)) = Some user -> holder c' !! user = Some i) ->
  (forall i id, stage (session c' i) = Claimed user id -> own (session c' i) !! id = Some user) ->
  (forall i, stage (session c' i) = Allowed user \/ (exists id, stage (session c' i) = Reserved user id) ->
   (used c user < instance_limit)%Z) ->
  fair c' user.
Proof.
  intros Hf Ho' Hrows Hsubs Hlate Hworks Hclaims Hroom.
  assert (Hused : (used c' user <= used c user)%Z).
  { unfold used. apply inj_le, subseteq_size. intros e [He Hnl]%elem_of_difference.
    apply elem_of_difference. split; [|set_solver]. apply held_elem in He as [(id & -> & H)|H]; [| |done].
    - apply held_elem; [exact (fair_owns _ _ Hf)|]. left. eauto.
    - by destruct (Hsubs _ H). }
  constructor; [done|done|done| |].
  - pose proof (fair_used _ _ Hf). lia.
  - intros i Hi. specialize (Hroom i Hi). lia.
Qed.

Lemma fair_submitted c user e :
  fair c user -> (e, origin_key origin, user) ∈ q_submissions (provider c) -> e ∈ held c user.
Proof. intros Hf H. apply held_elem; [exact (fair_owns _ _ Hf)|]. by right. Qed.

(** *** Steps *)

Lemma own_set_stage c i s j : own (session (set_stage c i s) j) = own (session c j).
Proof. cbn. by destruct (Nat.eqb_spec i j) as [<-|]. Qed.
Lemma stage_set_stage c i s j :
  stage (session (set_stage c i s) j) = if Nat.eqb i j then s else stage (session c j).
Proof. cbn. by destruct (Nat.eqb i j). Qed.

(** A step of one session that changes its stage only. *)
Lemma fair_stage c i s user :
  fair c user ->
  (at_work s = Some user -> holder c !! user = Some i) ->
  (forall id, s = Claimed user id -> own (session c i) !! id = Some user) ->
  (s = Allowed user \/ (exists id, s = Reserved user id) -> (used c user < instance_limit)%Z) ->
  fair (set_stage c i s) user.
Proof.
  intros Hf Hw Hc Hr. apply (fair_frame c); [done|..].
  - intros j id. rewrite own_set_stage. apply (fair_owns _ _ Hf).
  - unfold has_row. by setoid_rewrite own_set_stage.
  - intros e He. right. by apply fair_submitted.
  - done.
  - intros j. rewrite stage_set_stage. destruct (Nat.eqb_spec i j) as [<-|]; [done|apply (fair_works _ _ Hf)].
  - intros j id. rewrite stage_set_stage, own_set_stage.
    destruct (Nat.eqb_spec i j) as [<-|]; [apply Hc|apply (fair_claims _ _ Hf)].
  - intros j. rewrite stage_set_stage. destruct (Nat.eqb_spec i j) as [<-|]; [done|apply (fair_room _ _ Hf)].
Qed.

Lemma fair_lock c i v user :
  fair c user -> stage (session c i) = Outside -> holder c !! v = None \/ holder c !! v = Some i ->
  fair (set_stage (set_holder c (<[v := i]> (holder c))) i (Locked v)) user.
Proof.
  intros Hf Hi Hv.
  assert (Hholder : forall j, holder c !! user = Some j -> <[v := i]> (holder c) !! user = Some j).
  { intros j Hj. destruct (decide (v = user)) as [->|]; [|by rewrite lookup_insert_ne].
    rewrite lookup_insert_eq. destruct Hv; congruence. }
  apply (fair_frame c); [done|..].
  - intros j id H. apply Hholder. revert H. change (session (set_stage ?x _ _) j) with (session (set_stage x i (Locked v)) j).
    rewrite own_set_stage. apply (fair_owns _ _ Hf).
  - unfold has_row. by setoid_rewrite own_set_stage.
  - intros e He. right. by apply fair_submitted.
  - done.
  - intros j. rewrite stage_set_stage. destruct (Nat.eqb_spec i j) as [<-|].
    + intros [= ->]. cbn. apply lookup_insert_eq.
    + intros H. by apply Hholder, (fair_works _ _ Hf).
  - intros j id. rewrite stage_set_stage, own_set_stage.
    destruct (Nat.eqb_spec i j) as [<-|]; [done|apply (fair_claims _ _ Hf)].
  - intros j. rewrite stage_set_stage. destruct (Nat.eqb_spec i j) as [<-|]; [by intros [|[]]|apply (fair_room _ _ Hf)].
Qed.

(** Allowed is who counted fewer than the limit. *)
Lemma admitted_room c i user env :
  fair c user -> stage (session c i) = Locked user -> superuser user = false -> (0 < instance_limit)%Z ->
  finds origin instance_limit concurrent_limit superuser c i user env -> check_superuser env = Ok tt ->
  (used c user < instance_limit)%Z.
Proof.
  intros Hf Hi Hu Hl Henv. unfold check_superuser. rewrite (finds_superuser _ _ _ _ _ _ _ _ Henv), Hu.
  cbn [map_err result_bind]. unfold enforce_instance_limits.
  rewrite (finds_instance_limit _ _ _ _ _ _ _ _ Henv), (finds_counts _ _ _ _ _ _ _ _ Henv).
  rewrite (proj2 (Z.eqb_neq instance_limit 0)), andb_false_r by lia.
  destruct (quota_lock env); [|done]. cbn [negb map_err result_bind].
  rewrite (proj2 (Z.ltb_lt 0 instance_limit)) by lia. cbn [andb].
  destruct (Z.leb_spec instance_limit (Z.of_nat (counted origin concurrent_limit c i user).1)); [done|]. intros _.
  pose proof (counted_occupied c i user). unfold used, held.
  rewrite (fair_works _ _ Hf i) by by rewrite Hi.
  assert (size (occupied (own (session c i)) (rows c) (provider c) user ∖ late c) <=
    size (occupied (own (session c i)) (rows c) (provider c) user)) by (apply subseteq_size; set_solver).
  lia.
Qed.

(** The state after a claim. *)
Definition claimed (c : cluster) (i : nat) (v : N) (id : string) : cluster :=
  set_session c i (mkStartSession (<[id := v]> (own (session c i))) (Claimed v id)).

Lemma own_claimed c i v id j k w :
  own (session (claimed c i v id) j) !! k = Some w ->
  own (session c j) !! k = Some w \/ (j = i /\ k = id /\ w = v).
Proof.
  cbn. destruct (Nat.eqb_spec i j) as [<-|]; cbn; [|by left].
  intros [[<- <-]|[_ H]]%lookup_insert_Some; [by right|by left].
Qed.

Lemma claimed_keeps c i v id j k w :
  (forall j, own (session c j) !! id = None) ->
  own (session c j) !! k = Some w -> own (session (claimed c i v id) j) !! k = Some w.
Proof.
  intros Hfresh H. cbn. destruct (Nat.eqb_spec i j) as [<-|]; [|done]. cbn.
  rewrite lookup_insert_ne; [done|]. intros ->. by rewrite Hfresh in H.
Qed.

Lemma stage_claimed c i v id j :
  stage (session (claimed c i v id) j) = if Nat.eqb i j then Claimed v id else stage (session c j).
Proof. cbn. by destruct (Nat.eqb i j). Qed.

Lemma fair_claim c i v id user :
  fair c user -> stage (session c i) = Reserved v id ->
  (forall j, own (session c j) !! id = None) -> fair (claimed c i v id) user.
Proof.
  intros Hf Hi Hfresh. set (c' := claimed _ _ _ _).
  pose proof (own_claimed c i v id) as Hown. pose proof (stage_claimed c i v id) as Hstage.
  pose proof (fun j k w => claimed_keeps c i v id j k w Hfresh) as Hold. fold c' in Hown, Hstage, Hold.
  assert (Ho' : owners_hold c' user).
  { intros j k H. apply Hown in H as [H|(-> & -> & ->)]; [by apply (fair_owns _ _ Hf) in H|].
    apply (fair_works _ _ Hf). by rewrite Hi. }
  assert (Hsub : forall e, e ∈ held c' user -> e ∈ held c user \/ (v = user /\ e = engine id)).
  { intros e He. apply held_elem in He; [|done].
    destruct He as [(k & -> & [[j H]|H])|H]; [apply Hown in H as [H|(_ & -> & ->)]; [|by right]|..]; left;
      (apply held_elem; [exact (fair_owns _ _ Hf)|]); [left; exists k..|by right]; (split; [done|]).
    - left. by exists j.
    - by right. }
  assert (Hsame : v <> user -> (used c' user <= used c user)%Z).
  { intros Hv. apply used_mono; [|done]. intros e He. by destruct (Hsub e He) as [|[? _]]. }
  constructor.
  - intros j. rewrite Hstage. destruct (Nat.eqb_spec i j) as [<-|]; [|apply (fair_works _ _ Hf)].
    intros [= ->]. apply (fair_works _ _ Hf). by rewrite Hi.
  - exact Ho'.
  - intros j k. rewrite Hstage. destruct (Nat.eqb_spec i j) as [<-|].
    + intros [= <- <-]. unfold c', claimed. cbn. rewrite Nat.eqb_refl. apply lookup_insert_eq.
    + intros H. by apply Hold, (fair_claims _ _ Hf).
  - destruct (decide (v = user)) as [->|Hv].
    + pose proof (fair_room _ _ Hf i (or_intror (ex_intro _ id Hi))) as Hroom. unfold used in *.
      change (late c') with (late c).
      assert (size (held c' user ∖ late c) <= S (size (held c user ∖ late c))); [|lia].
      rewrite <- (size_add_le (engine id)). apply subseteq_size. intros e [He Hl]%elem_of_difference.
      destruct (Hsub e He) as [|[_ ->]]; set_solver.
    + pose proof (fair_used _ _ Hf) as Hu. pose proof (Hsame Hv). lia.
  - intros j. rewrite Hstage. destruct (Nat.eqb_spec i j) as [<-|]; [by intros [|[]]|].
    intros Hj. destruct (decide (v = user)) as [->|Hv].
    + assert (Hj' : at_work (stage (session c j)) = Some user) by (by destruct Hj as [->|[k ->]]).
      apply (fair_works _ _ Hf) in Hj'. pose proof (fair_works _ _ Hf i) as Hi'. rewrite Hi in Hi'.
      rewrite (Hi' eq_refl) in Hj'. by injection Hj'.
    + pose proof (fair_room _ _ Hf _ Hj). pose proof (Hsame Hv). lia.
Qed.

(** A step outside of the sessions' stages and rows. *)
Lemma fair_elsewhere c c' user :
  fair c user -> session c' = session c -> holder c' = holder c -> rows c' ⊆ rows c ->
  (forall e, (e, origin_key origin, user) ∈ q_submissions (provider c') -> e ∈ late c' \/ e ∈ held c user) ->
  late c ⊆ late c' -> fair c' user.
Proof.
  intros Hf Hs Hh Hr Hq Hl. apply (fair_frame c); [done|..|done|done| | |]; unfold owners_hold, has_row;
    rewrite ?Hs, ?Hh.
  - apply (fair_owns _ _ Hf).
  - intros id [H|H]; [by left|]. right. by eapply lookup_weaken.
  - apply (fair_works _ _ Hf).
  - apply (fair_claims _ _ Hf).
  - apply (fair_room _ _ Hf).
Qed.

Lemma fair_enqueue c i v id user :
  fair c user -> (v = user -> own (session c i) !! id = Some v) ->
  fair (set_provider c (add_to_queue (add_submission (provider c) (engine id) (origin_key origin) v) (engine id)))
    user.
Proof.
  intros Hf Hi. apply (fair_elsewhere c); [done..| |done].
  intros e [[= -> ->]|He]%elem_of_cons; right; [|by apply fair_submitted].
  apply held_elem; [exact (fair_owns _ _ Hf)|]. left. exists id. split; [done|]. left. exists i. by apply Hi.
Qed.

(** The end of a transaction, or of a part of it, when the session is at no start. *)
Lemma fair_end c c' i own' user :
  fair c user ->
  session c' = session (set_session c i (mkStartSession own' Outside)) ->
  provider c' = provider c -> late c' = late c ->
  (forall id, own' !! id = Some user -> own (session c i) !! id = Some user /\ holder c' !! user = Some i) ->
  (forall id, rows c' !! id = Some user -> rows c !! id = Some user \/ own (session c i) !! id = Some user) ->
  (forall j, j <> i -> holder c !! user = Some j -> holder c' !! user = Some j) ->
  fair c' user.
Proof.
  intros Hf Hs Hp Hl Hown Hrows Hholder.
  assert (Hsame : session c' i = mkStartSession own' Outside) by (rewrite Hs; cbn; by rewrite Nat.eqb_refl).
  assert (Hother : forall j, j <> i -> session c' j = session c j).
  { intros j Hj. rewrite Hs. cbn. by destruct (Nat.eqb_spec i j) as [->|]. }
  apply (fair_frame c); [done|..].
  - intros j id. destruct (decide (j = i)) as [->|Hj].
    + rewrite Hsame. intros H. by apply (Hown id).
    + rewrite Hother by done. intros H. apply Hholder, (fair_owns _ _ Hf _ id); done.
  - intros id [[j H]|H].
    + left. destruct (decide (j = i)) as [->|Hj]; [|exists j; by rewrite Hother in H].
      rewrite Hsame in H. exists i. by apply Hown.
    + destruct (Hrows _ H); [by right|left; by exists i].
  - intros e He. right. rewrite Hp in He. by apply fair_submitted.
  - by rewrite Hl.
  - intros j. destruct (decide (j = i)) as [->|Hj]; [by rewrite Hsame|].
    rewrite Hother by done. intros H. by apply Hholder, (fair_works _ _ Hf).
  - intros j id. destruct (decide (j = i)) as [->|Hj]; [by rewrite Hsame|].
    rewrite Hother by done. apply (fair_claims _ _ Hf).
  - intros j. destruct (decide (j = i)) as [->|Hj]; [rewrite Hsame; by intros [|[]]|].
    rewrite Hother by done. apply (fair_room _ _ Hf).
Qed.

Lemma fair_step c c' user :
  superuser user = false -> (0 < instance_limit)%Z -> step c c' -> fair c user -> fair c' user.
Proof.
  intros Hu Hl Hstep Hf. destruct Hstep as [c i v Hi Hv Hlock|c i v env Hi Henv Hok|c i v env Hi Hv Henv Hok
    |c i v id Hi Hnew Hopen|c i v id Hi Hrow Hown|c i v id Hi|c i v id Hi|c i Hi|c i v id Hi|c e v Hdoubt
    |c i own' holder' Hi Hown Hkeep Hless Hrows|c i Hi|c q Hq|c r Hr].
  - by apply fair_lock.
  - apply fair_stage; [done|..].
    + intros [= ->]. apply (fair_works _ _ Hf). by rewrite Hi.
    + done.
    + intros [[= ->]|[id [=]]]. by apply (admitted_room _ i _ env).
  - assert (v <> user).
    { intros ->. revert Hv. unfold unlimited. rewrite Hu, (proj2 (Z.eqb_neq instance_limit 0)), andb_false_r by lia.
      done. }
    apply fair_stage; [done| | |]; [by intros [=]|done|by intros [[=]|[id [=]]]].
  - apply fair_stage; [done|..].
    + intros [= ->]. apply (fair_works _ _ Hf). by rewrite Hi.
    + done.
    + intros [[=]|[id' [= -> ->]]]. apply (fair_room _ _ Hf i). by left.
  - by apply fair_claim.
  - apply fair_stage; [done|..].
    + intros [= ->]. apply (fair_works _ _ Hf). by rewrite Hi.
    + done.
    + intros [[= ->]|[id' [=]]]. apply (fair_room _ _ Hf i). right. by exists id.
  - apply fair_stage; [|done|done|by intros [|[]]].
    apply (fair_enqueue _ i); [done|]. intros ->. by apply (fair_claims _ _ Hf).
  - apply fair_stage; [done|done|done|by intros [|[]]].
  - apply fair_stage; [|done|done|by intros [|[]]].
    apply (fair_elsewhere c); [done..| |done]. intros e He. right. by apply fair_submitted.
  - apply (fair_elsewhere c); [done..| |cbn; set_solver].
    intros e' [[= -> ->]|He]%elem_of_cons; [left; cbn; set_solver|right; by apply fair_submitted].
  - apply (fair_end c _ i own'); [done..| |by left|].
    + intros id Hid. pose proof (lookup_weaken _ _ _ _ Hid Hown) as Hi'. split; [done|].
      apply (Hrows id user); [done|]. by apply (fair_owns _ _ Hf _ id).
    + intros j Hj Hh. by apply (Hkeep _ j).
  - apply (fair_end c _ i ∅); [done..| | |].
    + done.
    + intros id [H|[_ H]]%lookup_union_Some_raw; [by right|by left].
    + intros j Hj Hh. by apply map_lookup_filter_Some.
  - apply (fair_elsewhere c); [done..| |done]. intros e He. right. by apply fair_submitted, Hq.
  - apply (fair_elsewhere c); [done..| |done]. intros e He. right. by apply fair_submitted.
Qed.

Lemma fair_quiet q r user :
  (Z.of_nat (size (retained origin (quiet q r) user)) <= instance_limit)%Z -> fair (quiet q r) user.
Proof.
  intros H. constructor; cbn; try done; [|by intros _ [|[]]].
  etrans; [|exact H]. unfold used. apply inj_le, subseteq_size. intros e [He _]%elem_of_difference.
  apply held_elem in He; [|done]. unfold retained. rewrite elem_of_union, elem_of_map, ledger_elem.
  setoid_rewrite rows_of_elem. destruct He as [(id & -> & [[i Hr]|Hr])|He]; [done|left; by exists id|by right].
Qed.

Lemma fair_run c c' user :
  superuser user = false -> (0 < instance_limit)%Z -> rtc step c c' -> fair c user -> fair c' user.
Proof. intros Hu Hl. induction 1; [done|]. eauto using fair_step. Qed.

(** C19: However the starts of any number of sessions interleave, with each other, with
    rollbacks to savepoints, commits, the engine and retention, a role that is not a
    superuser retains no more than [df.max_instances_per_user] rows and submissions,
    where a limit is set: counting, reserving, inserting and the separate
    commit of the ledger are not one atomic step, but the lock of the role is held from
    before the count until its rows are visible or gone.  The one exception is a commit
    whose answer was lost and that arrives after its caller was told of a failure. *)
Theorem retained_within_quota q r c user :
  superuser user = false -> (0 < instance_limit)%Z ->
  (Z.of_nat (size (retained origin (quiet q r) user)) <= instance_limit)%Z ->
  rtc step (quiet q r) c ->
  (Z.of_nat (size (retained origin c user ∖ late c)) <= instance_limit)%Z.
Proof.
  intros Hu Hl Hq Hrun. pose proof (fair_used _ _ (fair_run _ _ _ Hu Hl Hrun (fair_quiet _ _ _ Hq))) as H.
  etrans; [|exact H]. unfold used. apply inj_le, subseteq_size. pose proof (retained_held c user). set_solver.
Qed.

End Quota.

(** ** Two sessions of a role that may retain one start *)

#[local] Existing Instance sample_uuid.

Definition quota_env (user : N) (counts : nat * nat) : start_env := {|
  helper_marker := None; statement_start := 0; database_exists := Ok (Some true);
  user_oid := user; user_name := "alice"; role_can_login := Ok (Some true);
  role_is_superuser := Ok false; enable_superuser_instances := false;
  max_concurrent_per_user := 0; max_instances_per_user := 1; quota_lock := true;
  submission_counts := Ok (Z.of_nat counts.1, Z.of_nat counts.2); installed_version := Some "0.2.4";
  node_uuid := fun _ => ""; sink_table_name := fun _ => Ok None; lock_metadata := Ok tt;
  instance_uuid := fun _ => "";
  reserve_submission_id := fun _ => Ok true; instance_insert_error := fun _ => None;
  reservation_rollback := fun _ => Ok tt; node_insert_error := fun _ => None;
  captured_vars := ∅; current_xact_id := Ok (Some "7001"); enqueue := fun _ _ => Ok tt |}.

Definition sample_cluster : nat -> cluster := fix at_step n :=
  match n with
  | O => quiet (mkQuota [] [] [] []) ∅
  | S m =>
      let c := at_step m in
      match m with
      | 0 => set_stage (set_holder c (<[7%N := 0]> (holder c))) 0 (Locked 7)
      | 1 => set_stage c 0 (Allowed 7)
      | 2 => set_stage c 0 (Reserved 7 "a1")
      | 3 => set_session c 0 (mkStartSession (<["a1" := 7%N]> (own (session c 0))) (Claimed 7 "a1"))
      | 4 => set_stage (set_provider c (add_to_queue
          (add_submission (provider c) (engine_id_for_origin None "a1") (origin_key None) 7)
          (engine_id_for_origin None "a1"))) 0 Outside
      | 5 => set_session (set_rows (set_holder c (filter (fun kv => kv.2 <> 0) (holder c)))
          (own (session c 0) ∪ rows c)) 0 (mkStartSession ∅ Outside)
      | _ => set_stage (set_holder c (<[7%N := 1]> (holder c))) 1 (Locked 7)
      end
  end.

Abbreviation sample_step := (Quota.start_step None 1 0 (fun _ => false)).

Lemma quota_env_finds c i :
  finds None 1 0 (fun _ => false) c i 7 (quota_env 7 (counted None 0 c i 7)).
Proof. by constructor. Qed.

Lemma sample_cluster_step n : n < 7 -> sample_step (sample_cluster n) (sample_cluster (S n)).
Proof.
  intros Hn. destruct n as [|[|[|[|[|[|[|n]]]]]]]; [..|lia]; clear Hn.
  - apply step_lock; [reflexivity..|by left].
  - eapply step_admit; [reflexivity|apply quota_env_finds|vm_compute; reflexivity].
  - apply step_reserve; [reflexivity|cbn; intros ?? H; by apply elem_of_nil in H|].
    intros [|j] v; cbn; by split.
  - apply step_claim; [reflexivity..|]. by intros [|j].
  - apply (step_enqueue _ _ _ _ _ 0 7 "a1"). reflexivity.
  - apply (step_commit _ _ _ _ _ 0). reflexivity.
  - apply step_lock; [reflexivity..|left; reflexivity].
Qed.

Lemma sample_cluster_run n : n <= 7 -> rtc sample_step (sample_cluster 0) (sample_cluster n).
Proof.
  induction n as [|n IH]; [done|]. intros Hn. eapply rtc_r; [apply IH; lia|]. by apply sample_cluster_step.
Qed.

(** The second session is refused while the start of the first is retained. *)
Example second_start_refused :
  counted None 0 (sample_cluster 7) 1 7 = (1, 0) /\
  exists e, check_superuser (quota_env 7 (counted None 0 (sample_cluster 7) 1 7)) = Err e.
Proof. split; [by vm_compute|]. eexists. vm_compute. reflexivity. Qed.

Lemma retained_within_quota_witness :
  (Z.of_nat (size (retained None (sample_cluster 7) 7 ∖ late (sample_cluster 7))) <= 1)%Z.
Proof.
  apply (retained_within_quota None 1 0 (fun _ => false) (mkQuota [] [] [] []) ∅).
  - reflexivity.
  - reflexivity.
  - apply (bool_decide_unpack _). vm_compute. exact I.
  - apply (sample_cluster_run 7). lia.
Defined.
