(* ===== verification/NewSession.v ===== *)
(** Starts in a transaction of their own ([src/dsl.rs], lines 1163-1260 and
    1321-1364; [src/client.rs], lines 455-636) and the connection URLs of
    [src/types.rs], lines 190-284: a start that survives the caller's rollback runs on
    a session of its own, under a cluster-wide limit of such launches. *)
From S2P Require Import Prelude RustString Effects.

(** ** Connection URLs *)

(** [percent_encoding::utf8_percent_encode(s, NON_ALPHANUMERIC)], a dependency: only
    letters, digits and percent signs are left. *)
Class PercentEncode : Type := { percent_encode : string -> string }.
Class PercentLaws (P : PercentEncode) : Prop := {
  percent_encode_chars : forall s,
    str_forall (fun c => is_ascii_alphanumeric c || Ascii.eqb c "%") (percent_encode s) = true;
}.

Section Urls.
Context {P : PercentEncode}.

Definition connection_url_with_application_name (database_url application_name : string) : string :=
  let separator := if contains_char "?" database_url then "&" else "?" in
  database_url +:+ separator +:+ "application_name=" +:+ percent_encode application_name.

Definition host_is_url_safe (host : string) : bool :=
  if starts_with "[" host then ends_with "]" host
  else str_forall (fun c => is_ascii_alphanumeric c || Ascii.eqb c "." || Ascii.eqb c "-" ||
                   Ascii.eqb c "_") host.

Definition url_host (host : string) : string :=
  if host_is_url_safe host then host else percent_encode host.

Definition build_connection_url (user host : string) (port : Z) (database : string) : string :=
  "postgres://" +:+ user +:+ "@" +:+ url_host host +:+ ":" +:+ show_Z port +:+ "/" +:+ database.

Definition resolve_host (configured_host environment_host : option string) : string :=
  match configured_host with
  | Some host => if str_is_empty host then default "127.0.0.1" environment_host else host
  | None => default "127.0.0.1" environment_host
  end.

Definition postgres_connection_string (worker_role : string) (configured_host environment_host : option string)
    (port : Z) (database : string) : string :=
  build_connection_url worker_role (resolve_host configured_host environment_host) port database.
End Urls.

(** ** Calls *)

(** A [sqlx::Error]: its text, and the SQLSTATE and the hint of a database error. *)
Record session_error := mkSessionError {
  error_message : string;
  error_sqlstate : option string;
  error_hint : option string;
}.

Inductive opened := Connected | ConnectFailed (error : string) | ConnectTimedOut.

Inductive nop : Type :=
| InWorkflow
| CurrentUser
| RequireLogin (user_oid : N) (user caller : string)
| TryAdvisoryLock (class slot : Z)
| AdvisoryUnlock (class slot : Z)
| TimeIsUp
| SleepMs (ms : N)
| CurrentDatabase
| OpenSession (user database application : string)
| SetInWorkflow (value : bool)
| SetLockTimeout (ms : N)
| SetStatementTimeout (ms : N)
| StartThere (fut : string) (label database : option string)
| CloseSession
| DropSession.

Definition reply (o : nop) : Type :=
  match o with
  | InWorkflow | TimeIsUp => bool
  | CurrentUser => N * string
  | RequireLogin _ _ _ => result unit string
  | TryAdvisoryLock _ _ => result (option bool) string
  | AdvisoryUnlock _ _ | SleepMs _ | CloseSession | DropSession => unit
  | CurrentDatabase => result (option string) string
  | OpenSession _ _ _ => opened
  | SetInWorkflow _ | SetLockTimeout _ | SetStatementTimeout _ => result unit session_error
  (** the inner error is that of decoding the id *)
  | StartThere _ _ _ => result (result string string) session_error
  end.

Definition launch (A : Type) : Type := @act unit nop reply A.
Definition ask (o : nop) : launch (reply o) := call o.
Definition la_map_err {A E F} (f : E -> F) (p : launch (result A E)) : launch (result A F) :=
  let* r := p in Pure (map_err f r).

(** ** Errors *)

Inductive error_code := INTERNAL_ERROR | CONFIGURATION_LIMIT_EXCEEDED.
Record ErrorReport := mkReport { code : error_code; message : string; hint : option string }.

Definition NEW_TRANSACTION_START_STATEMENT_TIMEOUT_MS : N := 30000.

Definition format_new_transaction_start_error (sqlstate : option string) (message : string) : string :=
  let lower := to_lowercase message in
  let ms := show_N NEW_TRANSACTION_START_STATEMENT_TIMEOUT_MS in
  let other := "df.start() on new transaction failed: " +:+ message in
  match sqlstate with
  | Some code =>
      if String.eqb code "55P03" && str_contains "lock timeout" lower then
        "pg_durable: transaction_mode => 'new' launch hit lock_timeout after " +:+ ms +:+
        "ms while waiting on a lock in the loopback session: " +:+ message
      else if String.eqb code "57014" && str_contains "statement timeout" lower then
        "pg_durable: transaction_mode => 'new' launch hit statement_timeout after " +:+ ms +:+
        "ms while running df.start() in the loopback session: " +:+ message
      else other
  | None => other
  end.

Definition new_transaction_start_error (message : string) : ErrorReport :=
  mkReport INTERNAL_ERROR message None.

Definition classify_new_transaction_start_error (err : session_error) : ErrorReport :=
  mkReport
    (if bool_decide (error_sqlstate err = Some "53400") then CONFIGURATION_LIMIT_EXCEEDED else INTERNAL_ERROR)
    (format_new_transaction_start_error (error_sqlstate err) (error_message err))
    (match error_sqlstate err with Some _ => error_hint err | None => None end).

(** ** The session *)

Definition BACKEND_NEW_TRANSACTION_APPLICATION_NAME : string := "pg_durable:backend:new-transaction".

Definition connect_as_user_for_new_transaction (user db : string) : launch (result unit string) :=
  let* r := ask (OpenSession user db BACKEND_NEW_TRANSACTION_APPLICATION_NAME) in
  match r with
  | ConnectTimedOut =>
      Pure (Err ("Connection to database '" +:+ db +:+ "' as '" +:+ user +:+ "' timed out after 30s"))
  | ConnectFailed e =>
      Pure (Err ("Failed to connect to database '" +:+ db +:+ "' as '" +:+ user +:+ "'. Error: " +:+ e))
  | Connected =>
      let* r := ask (SetInWorkflow true) in
      match r with
      | Ok _ => Pure (Ok tt)
      | Err e =>
          let* _ := ask DropSession in Pure (Err ("SET df.in_workflow failed: " +:+ error_message e))
      end
  end.

Definition start_on_new_session (fut : string) (label database : option string)
    : launch (result string ErrorReport) :=
  let*? _ := la_map_err (fun e => new_transaction_start_error
      ("failed to clear df.in_workflow on new-transaction session: " +:+ error_message e))
      (ask (SetInWorkflow false)) in
  let failed e := new_transaction_start_error
      ("failed to set timeouts on new-transaction session: " +:+ error_message e) in
  let*? _ := la_map_err failed (ask (SetLockTimeout NEW_TRANSACTION_START_STATEMENT_TIMEOUT_MS)) in
  let*? _ := la_map_err failed (ask (SetStatementTimeout NEW_TRANSACTION_START_STATEMENT_TIMEOUT_MS)) in
  let*? row := la_map_err classify_new_transaction_start_error (ask (StartThere fut label database)) in
  Pure (map_err (fun e => new_transaction_start_error
      ("df.start() on new transaction returned no instance id: " +:+ e)) row).

Definition client_start_in_new_transaction (fut : string) (label database : option string) (user : string)
    : launch (result string ErrorReport) :=
  let*? found := la_map_err (fun e => new_transaction_start_error ("Failed to resolve caller database: " +:+ e))
      (ask CurrentDatabase) in
  match found with
  | None => Pure (Err (new_transaction_start_error "Failed to resolve caller database"))
  | Some origin_database =>
      let*? _ := la_map_err new_transaction_start_error
          (connect_as_user_for_new_transaction user origin_database) in
      let* result_ := start_on_new_session fut label database in
      let* _ := ask CloseSession in
      Pure result_
  end.

(** ** Launch slots *)

Definition NEW_TRANSACTION_START_LOCK_CLASS_ID : Z := 0x50474446.

(** The rest of [0..limit], from a slot. *)
Fixpoint try_slots (slot : Z) (remaining : nat) : launch (result (option Z) string) :=
  match remaining with
  | O => Pure (Ok None)
  | S remaining' =>
      let* locked := ask (TryAdvisoryLock NEW_TRANSACTION_START_LOCK_CLASS_ID slot) in
      match locked with
      | Ok (Some true) => Pure (Ok (Some slot))
      | Ok (Some false) => try_slots (slot + 1) remaining'
      | Ok None => Pure (Err ("failed to acquire transaction_mode => 'new' launch slot: " +:+
                              "pg_try_advisory_lock returned NULL"))
      | Err e => Pure (Err ("failed to acquire transaction_mode => 'new' launch slot: " +:+ e))
      end
  end.

Section Launch.
(** [pg_durable.max_new_transaction_starts], and its timeout in seconds *)
Context (limit : nat) (timeout_secs : N).

Definition try_acquire_new_transaction_start_slot : launch (result (option Z) string) := try_slots 0 limit.

(** The poll, [None] when it is cut off. *)
Fixpoint acquire_new_transaction_start_slot (fuel : nat) : launch (option (result Z string)) :=
  match fuel with
  | O => Pure None
  | S fuel' =>
      let* slot := try_acquire_new_transaction_start_slot in
      match slot with
      | Err e => Pure (Some (Err e))
      | Ok (Some slot) => Pure (Some (Ok slot))
      | Ok None =>
          let* up := ask TimeIsUp in
          if up then
            Pure (Some (Err ("pg_durable: transaction_mode => 'new' launch limit reached " +:+
                             "(max_new_transaction_starts=" +:+ show_nat limit +:+ "). Timed out after " +:+
                             show_N timeout_secs +:+ "s waiting for a launch slot before opening the loopback session.")))
          else
            let* _ := ask (SleepMs 100) in
            acquire_new_transaction_start_slot fuel'
      end
  end.

(** [df.start] under [transaction_mode => 'new']; an error is [pgrx::error!] or the
    report of one. *)
Definition start_in_new_transaction (fuel : nat) (fut : string) (label database : option string)
    : launch (option (result string ErrorReport)) :=
  let* in_workflow := ask InWorkflow in
  if in_workflow then
    Pure (Some (Err (new_transaction_start_error
                     ("df.start() with transaction_mode => 'new' cannot be called inside a workflow - " +:+
                      "a df.sql() node already runs as a single autocommitted statement, so a plain " +:+
                      "df.start() there is already independent of any caller transaction"))))
  else
    let* (user_oid, user_name) := ask CurrentUser in
    let* login := ask (RequireLogin user_oid user_name "df.start()") in
    match login with
    | Err e => Pure (Some (Err (new_transaction_start_error e)))
    | Ok _ =>
        let* guard := acquire_new_transaction_start_slot fuel in
        match guard with
        | None => Pure None
        | Some (Err e) => Pure (Some (Err (new_transaction_start_error e)))
        | Some (Ok slot) =>
            let* result_ := client_start_in_new_transaction fut label database user_name in
            let* _ := ask (AdvisoryUnlock NEW_TRANSACTION_START_LOCK_CLASS_ID slot) in
            Pure (Some result_)
        end
    end.
End Launch.
