(* ===== verification/NewSessionSpec.v ===== *)
(** When a start runs in a session of its own, that the launch ends, and what a host
    can do to a connection URL. *)
From S2P Require Import Prelude RustString Effects NewSession.

(** ** Connection URLs *)

Definition url_inert (c : ascii) : bool :=
  is_ascii_alphanumeric c || Ascii.eqb c "." || Ascii.eqb c "-" || Ascii.eqb c "_" || Ascii.eqb c "%".

(** A host that is not bracketed reaches the URL without a character that ends the
    host component or starts another one. *)
Lemma url_host_inert `{PercentLaws} host :
  starts_with "[" host = false -> str_forall url_inert (url_host host) = true.
Proof.
  intros Hb. unfold url_host, host_is_url_safe. rewrite Hb.
  destruct (str_forall _ host) eqn:E.
  - revert E. apply str_forall_impl. intros c Hc. unfold url_inert. by rewrite Hc.
  - eapply str_forall_impl; [|apply percent_encode_chars]. intros c. unfold url_inert.
    rewrite !orb_true_iff. tauto.
Qed.

(** A bracketed one is taken as it is: only its first and last character are looked
    at, so that it can name another host and parameters. *)
Example bracketed_host_injects (P : PercentEncode) :
  build_connection_url "postgres" "[x]@evil/?y=[z]" 5432 "postgres" =
  "postgres://postgres@[x]@evil/?y=[z]:5432/postgres".
Proof. reflexivity. Qed.

(** ** The launch *)

Record stage := mkStage {
  outside_workflow : bool;
  user : option string;
  may_login : option string;
  slot : option Z;
  caller_database : option string;
  session : option (string * string);
  (** [df.in_workflow] there *)
  flag : option bool;
  lock_bounded : bool;
  statement_bounded : bool;
  (** the inner [df.start], and the id it gave *)
  started : option (option string);
}.
Definition at_start : stage := mkStage false None None None None None None false false None.

Definition when {A} (b : bool) (a : A) : option A := if b then Some a else None.

Section Launch.
Context (limit : nat) (fut : string) (label database : option string).

Definition next_stage (x : stage) (e : @event nop reply) : option stage :=
  let 'mkStage outside u login sl db ses fl lb sb st := x in
  let (o, r) := e in
  match o as o return reply o -> option stage with
  | InWorkflow => fun r => Some (mkStage (negb r) u login sl db ses fl lb sb st)
  | CurrentUser => fun r => Some (mkStage outside (Some (snd r)) login sl db ses fl lb sb st)
  | RequireLogin _ name _ => fun r => when (outside && bool_decide (u = Some name))
        (mkStage outside u (if is_ok r then Some name else None) sl db ses fl lb sb st)
  | TryAdvisoryLock class s => fun r =>
      when (bool_decide (class = NEW_TRANSACTION_START_LOCK_CLASS_ID) && bool_decide (is_Some login) &&
            bool_decide (sl = None) && (0 <=? s)%Z && (s <? Z.of_nat limit)%Z)
        (mkStage outside u login (match r with Ok (Some true) => Some s | _ => None end) db ses fl lb sb st)
  | AdvisoryUnlock class s => fun _ =>
      when (bool_decide (class = NEW_TRANSACTION_START_LOCK_CLASS_ID) && bool_decide (sl = Some s) &&
            bool_decide (ses = None))
        (mkStage outside u login None db ses fl lb sb st)
  | TimeIsUp => fun _ => when (bool_decide (sl = None)) x
  | SleepMs _ => fun _ => when (bool_decide (sl = None)) x
  | CurrentDatabase => fun r => when (bool_decide (is_Some sl))
        (mkStage outside u login sl (match r with Ok d => d | Err _ => None end) ses fl lb sb st)
  | OpenSession name d _ => fun r =>
      when (bool_decide (is_Some sl) && bool_decide (login = Some name) && bool_decide (db = Some d) &&
            bool_decide (ses = None))
        (mkStage outside u login sl db (match r with Connected => Some (name, d) | _ => None end)
         None false false st)
  | SetInWorkflow b => fun r => when (bool_decide (is_Some ses))
        (mkStage outside u login sl db ses (if is_ok r then Some b else None) lb sb st)
  | SetLockTimeout ms => fun r => when (bool_decide (is_Some ses) && (0 <? ms)%N)
        (mkStage outside u login sl db ses fl (is_ok r) sb st)
  | SetStatementTimeout ms => fun r => when (bool_decide (is_Some ses) && (0 <? ms)%N)
        (mkStage outside u login sl db ses fl lb (is_ok r) st)
  | StartThere f l d => fun r =>
      when (bool_decide (is_Some ses) && bool_decide (fl = Some false) && lb && sb &&
            bool_decide (st = None) && bool_decide (f = fut) && bool_decide (l = label) &&
            bool_decide (d = database))
        (mkStage outside u login sl db ses fl lb sb
         (Some (match r with Ok (Ok i) => Some i | _ => None end)))
  | CloseSession | DropSession => fun _ => when (bool_decide (is_Some ses))
        (mkStage outside u login sl db None None lb sb st)
  end r.

(** The id handed back is the one that the inner [df.start] gave. *)
Definition id_of {E} (r : result string E) : option string :=
  match r with Ok i => Some i | Err _ => None end.
Definition reports {E} (out : result string E) (x : stage) : Prop :=
  id_of out = (a ← started x; a).
(** Nothing is held on to. *)
Definition released (x : stage) : Prop := slot x = None /\ session x = None.

Abbreviation goes := (follows next_stage).
Ltac ask_as r := intros r; eexists; split; [cbn; rewrite ?bool_decide_true by (done || by eexists); reflexivity|];
    cbn [follows bind_act].

Definition admitted (name : string) (sl : option Z) : stage :=
  mkStage true (Some name) (Some name) sl None None None false false None.

Lemma la_goes {A E F} (f : E -> F) (p : launch (result A E)) x (Q : _ -> unit -> stage -> Prop) :
  goes p tt x (fun r s x' => Q (map_err f r) s x') -> goes (la_map_err f p) tt x Q.
Proof. intros H. apply follows_bind. eapply follows_mono; [exact H|]. by intros a [] x'. Qed.

Lemma try_slots_goes s remaining name :
  (0 <= s)%Z -> (s + Z.of_nat remaining <= Z.of_nat limit)%Z ->
  goes (try_slots s remaining) tt (admitted name None) (fun r _ x =>
    x = admitted name (match r with Ok o => o | Err _ => None end)).
Proof.
  revert s. induction remaining as [|remaining IH]; intros s Hs Hl; cbn [try_slots]; [done|].
  intros locked. eexists. split.
  { cbn. rewrite (proj2 (Z.leb_le 0 s)), (proj2 (Z.ltb_lt s _)) by lia. reflexivity. }
  destruct locked as [[[]|]|e]; cbn [bind_act]; [done|apply IH; lia|done..].
Qed.

Lemma acquire_goes timeout_secs fuel name :
  goes (acquire_new_transaction_start_slot limit timeout_secs fuel) tt (admitted name None) (fun r _ x =>
    x = admitted name (match r with Some (Ok s) => Some s | _ => None end)).
Proof.
  induction fuel as [|fuel IH]; cbn [acquire_new_transaction_start_slot]; [done|].
  apply follows_bind. eapply follows_mono; [apply try_slots_goes; lia|].
  intros [[s|]|e] [] x ->; [done| |done]. ask_as up. destruct up; [done|]. ask_as slept. apply IH.
Qed.

Lemma session_goes x :
  is_Some (session x) -> started x = None ->
  goes (start_on_new_session fut label database) tt x (fun out _ x' =>
    slot x' = slot x /\ is_Some (session x') /\ reports out x').
Proof.
  intros Hses Hst. destruct x; cbn in Hses, Hst. subst. unfold start_on_new_session, reports.
  apply follows_try, la_goes. ask_as cleared. destruct cleared as [[]|e]; [|done].
  apply follows_try, la_goes. ask_as locked. destruct locked as [[]|e]; [|done].
  apply follows_try, la_goes. ask_as bounded. destruct bounded as [[]|e]; [|done].
  apply follows_try, la_goes. ask_as row. by destruct row as [[]|].
Qed.

Lemma client_goes name s :
  goes (client_start_in_new_transaction fut label database name) tt (admitted name (Some s)) (fun out _ x =>
    slot x = Some s /\ session x = None /\ reports out x).
Proof.
  unfold client_start_in_new_transaction. apply follows_try, la_goes. ask_as found.
  destruct found as [[db|]|e]; [|done..]. apply follows_try, la_goes.
  apply follows_bind. ask_as r. destruct r; [|done..]. ask_as marked.
  destruct marked as [[]|e]; [|by ask_as dropped].
  apply follows_bind. eapply follows_mono; [apply session_goes; [by eexists|done]|].
  intros out [] x (Hs & Hses & Hid). destruct x. cbn in Hs, Hses. by ask_as closed.
Qed.

Lemma start_goes timeout_secs fuel :
  goes (start_in_new_transaction limit timeout_secs fuel fut label database) tt at_start
    (fun out _ x => released x /\ forall r, out = Some r -> reports r x).
Proof.
  unfold start_in_new_transaction, released. ask_as workflow.
  destruct workflow; [split; [done|]; by intros r [= <-]|]. ask_as who.
  destruct who as [oid name]. ask_as login. destruct login as [[]|e]; [|split; [done|]; by intros r [= <-]].
  apply follows_bind. eapply follows_mono; [apply acquire_goes|].
  intros [[s|e]|] [] x ->; [|split; [done|]; by intros r [= <-]|done]. apply follows_bind.
  eapply follows_mono; [apply client_goes|]. intros out [] x (Hs & Hses & Hid). destruct x. cbn in Hs, Hses.
  subst. ask_as given. split; [done|]. by intros r [= <-].
Qed.
End Launch.

(** C28: A start under [transaction_mode => 'new'] runs the inner [df.start] at most
    once, with the caller's arguments, and only outside a workflow, for the role that
    called and is let log in, while one advisory lock below the launch limit is held, in
    a session opened as that role in the caller's database with [df.in_workflow]
    cleared and both timeouts set.  The lock is tried for, and slept for, while none is
    held; the session is closed before it is given back.  However the start ends,
    neither is held any more, and the id returned is the one the inner start gave. *)
Theorem new_session_start_guarded limit timeout_secs fuel fut label database tr out :
  does (start_in_new_transaction limit timeout_secs fuel fut label database) tt tr out tt ->
  exists x, run_protocol (next_stage limit fut label database) at_start tr = Some x /\
    released x /\ forall r, out = Some r -> reports r x.
Proof. intros H. exact (follows_sound _ _ _ _ _ _ _ _ (start_goes _ _ _ _ _ _) H). Qed.

(** ** That it ends *)

Section Answers.
Context (limit : nat) (timeout_secs : N) (n : nat).
Context (world : list (@event nop reply) -> forall o, reply o).
Context (Hup : forall hist, n <= length hist -> world hist TimeIsUp = true).

Lemma acquire_ends fuel hist :
  1 <= fuel -> n < fuel + length hist ->
  ends world hist (acquire_new_transaction_start_slot limit timeout_secs fuel) tt.
Proof.
  revert hist. induction fuel as [|fuel IH]; [lia|]. intros hist _ Hf.
  cbn [acquire_new_transaction_start_slot]. apply ends_bind.
  intros [[s|]|e] tr []; [by eexists| |by eexists]. unfold ends. cbn [ask call bind_act eval].
  destruct (decide (n <= length (hist ++ tr))) as [Hn|Hn].
  - rewrite Hup by done. by eexists.
  - rewrite length_app in Hn. destruct (world _ TimeIsUp); [by eexists|].
    apply IH; rewrite ?length_app; cbn; lia.
Qed.
End Answers.

(** A start under [transaction_mode => 'new'] answers once its wait for a slot is
    over: with one more poll of fuel than calls were made before the time was up, the
    poll is not cut off. *)
Theorem new_session_start_answers limit timeout_secs n (world : list (@event nop reply) -> forall o, reply o)
    fut label database :
  (forall hist, n <= length hist -> world hist TimeIsUp = true) ->
  ends world [] (start_in_new_transaction limit timeout_secs (S n) fut label database) tt.
Proof.
  intros Hup. unfold start_in_new_transaction.
  apply ends_bind. intros [] tr1 []; [by eexists|]. apply ends_bind. intros [oid name] tr2 [].
  apply ends_bind. intros [[]|e] tr3 []; [|by eexists].
  apply ends_run; [apply (acquire_ends _ _ n); [done|lia..]|].
  intros [s|e] tr4 []; [|by eexists]. apply ends_bind. intros out tr5 [].
  apply ends_bind. intros [] tr6 []. by eexists.
Qed.

(** The class of the launch locks in decimal, as [pg_locks] shows it (the comment on
    the constant gives another number). *)
Example launch_lock_class : NEW_TRANSACTION_START_LOCK_CLASS_ID = 1346847814%Z.
Proof. reflexivity. Qed.

(** ** A sample launch *)

Module SampleLaunch.
(** Two slots are taken at first, the second one is free at the next poll. *)
Definition world (hist : list (@event nop reply)) (o : nop) : reply o :=
  match o as o return reply o with
  | InWorkflow => false
  | CurrentUser => (16385%N, "alice")
  | RequireLogin _ _ _ => Ok tt
  | TryAdvisoryLock _ s => Ok (Some ((5 <? length hist)%nat && (0 <? s)%Z))
  | AdvisoryUnlock _ _ | SleepMs _ | CloseSession | DropSession => tt
  | TimeIsUp => (50 <=? length hist)%nat
  | CurrentDatabase => Ok (Some "shop")
  | OpenSession _ _ _ => Connected
  | SetInWorkflow _ | SetLockTimeout _ | SetStatementTimeout _ => Ok tt
  | StartThere _ _ _ => Ok (Ok "1a2b3c4d")
  end.
Definition start : launch (option (result string ErrorReport)) :=
  start_in_new_transaction 2 10 51 "SELECT 1" None (Some "shop").
Definition made : list nop :=
  [InWorkflow; CurrentUser; RequireLogin 16385 "alice" "df.start()";
   TryAdvisoryLock 1346847814 0; TryAdvisoryLock 1346847814 1; TimeIsUp; SleepMs 100;
   TryAdvisoryLock 1346847814 0; TryAdvisoryLock 1346847814 1; CurrentDatabase;
   OpenSession "alice" "shop" "pg_durable:backend:new-transaction"; SetInWorkflow true;
   SetInWorkflow false; SetLockTimeout 30000; SetStatementTimeout 30000;
   StartThere "SELECT 1" None (Some "shop"); CloseSession; AdvisoryUnlock 1346847814 1].
End SampleLaunch.

Lemma new_session_start_guarded_witness :
  exists tr, does SampleLaunch.start tt tr (Some (Ok "1a2b3c4d")) tt /\
    map ev_op tr = SampleLaunch.made /\
    exists x, run_protocol (next_stage 2 "SELECT 1" None (Some "shop")) at_start tr = Some x /\
      released x /\ forall r, Some (Ok "1a2b3c4d" : result string ErrorReport) = Some r -> reports r x.
Proof.
  destruct (eval_does SampleLaunch.world [] SampleLaunch.start tt) as (tr & E & H).
  assert (Hend : fst (fst (eval SampleLaunch.world [] SampleLaunch.start tt)) = Some (Ok "1a2b3c4d"))
    by (vm_compute; reflexivity).
  rewrite Hend in H. destruct (snd (fst _)). exists tr. split; [exact H|]. split.
  - transitivity (map ev_op (snd (eval SampleLaunch.world [] SampleLaunch.start tt))); [by rewrite E|].
    vm_compute. reflexivity.
  - exact (new_session_start_guarded 2 10 51 "SELECT 1" None (Some "shop") tr _ H).
Defined.

Lemma new_session_start_answers_witness : ends SampleLaunch.world [] SampleLaunch.start tt.
Proof.
  apply (new_session_start_answers 2 10 50 SampleLaunch.world "SELECT 1" None (Some "shop")).
  intros hist. apply Nat.leb_le.
Defined.
