(* ===== verification/Endpoints.v ===== *)
(** Stored endpoints ([src/endpoints.rs], lines 17-657): references, the options
    of servers and user mappings, credentials, and the catalog of one request.

    Server and mapping rows, the connection and its checks are what PostgreSQL
    answers, the record [catalog_env]; the catalog itself, which connects once
    and reads each server once, is a state. *)
From S2P Require Import Prelude RustString Json UrlCrate.

(** Dependencies: [percent_encoding], and the header types of [http]. *)
Class HeaderCrate : Type := {
  percent_decode : string -> string;
  (** [HeaderName::from_bytes], as the name's text *)
  header_name_from : string -> option string;
  (** [HeaderValue::from_str] accepts *)
  header_value_ok : string -> bool;
}.

(** Header names are kept in lower case. *)
Class HeaderLaws (HC : HeaderCrate) : Prop := {
  header_name_lower s n : header_name_from s = Some n -> n = to_ascii_lowercase s;
}.

(** ** Characters *)

(** [c.is_control()]: the ASCII controls, and U+0080 to U+009F in two bytes. *)
Definition c1_controls : list string :=
  map (fun n => bytes [194; 128 + N.of_nat n]%N) (seq 0 32).
Definition has_control (s : string) : bool :=
  str_exists (fun c => (byte_of c <? 32)%N || (byte_of c =? 127)%N) s ||
  existsb (fun p => str_contains p s) c1_controls.
Definition has_white_space (s : string) : bool := existsb (fun p => str_contains p s) white_space.

(** [{:?}] of a string, for the characters below U+0080 and printable ones. *)
Definition debug_char (c : ascii) : string :=
  let n := byte_of c in
  if (n =? 34)%N then bytes [92; 34]%N
  else if (n =? 92)%N then bytes [92; 92]%N
  else if (n =? 10)%N then bytes [92; 110]%N
  else if (n =? 13)%N then bytes [92; 114]%N
  else if (n =? 9)%N then bytes [92; 116]%N
  else if (n =? 0)%N then bytes [92; 48]%N
  else String c "".
Fixpoint debug_chars (s : string) : string :=
  match s with String c s' => debug_char c +:+ debug_chars s' | "" => "" end.
Definition debug_str (s : string) : string := bytes [34]%N +:+ debug_chars s +:+ bytes [34]%N.

(** ** References *)

Record EndpointReference := mkEndpointRef { er_server : string; er_path : string }.

Section Endpoints.
Context {UC : UrlCrate} {UO : UrlOps UC} {HC : HeaderCrate}.

(** A segment that would be resolved against its parent, or split. *)
Definition segment_escapes (segment : string) : bool :=
  let decoded := percent_decode segment in
  String.eqb decoded "." || String.eqb decoded ".." || contains_char "/" decoded
    || contains_char "\" decoded.

Definition validate_endpoint_path (path : string) : result unit string :=
  if negb (starts_with "/" path) || starts_with "//" path || contains_char "\" path
      || contains_char "#" path || has_control path || has_white_space path
  then Err "Endpoint path must start with one slash and contain no backslash, fragment or whitespace"
  else if existsb segment_escapes (split_char "/" (default "" (head (split_char "?" path))))
  then Err "Endpoint path cannot contain traversal segments or encoded separators"
  else Ok tt.

Definition endpoint_reference_validate (r : EndpointReference) : result unit string :=
  if str_is_empty (er_server r) || has_control (er_server r)
  then Err "Endpoint server name must be nonempty and contain no control characters"
  else validate_endpoint_path (er_path r).

(** [df.endpoint]: [Err] is [pgrx::error!]. *)
Definition endpoint (server path : string) : result EndpointReference string :=
  let reference := mkEndpointRef server path in
  let? _ := endpoint_reference_validate reference in Ok reference.

(** The fields of a composite value, NULL or not. *)
Definition from_tuple (server path : option string) : result EndpointReference string :=
  let? server := ok_or server "Endpoint server must not be NULL" in
  let? path := ok_or path "Endpoint path must not be NULL" in
  let reference := mkEndpointRef server path in
  let? _ := endpoint_reference_validate reference in Ok reference.

(** ** URLs *)

Definition strip_slash (s : string) : string := default s (strip_suffix "/" s).

Definition compose_endpoint_url (base : Url) (path : string) : result Url string :=
  let? _ := validate_endpoint_path path in
  let? composed := map_err (fun _ => "Invalid endpoint request URL")
      (url_parse (strip_slash (url_as_str base) +:+ path)) in
  if negb (url_same_origin composed base)
      || negb (starts_with (strip_slash (url_path base) +:+ "/") (url_path composed))
  then Err "Endpoint path cannot escape its base URL"
  else Ok composed.

(** ** Options *)

Inductive AuthScheme :=
  | AuthNone
  | AuthBearer
  | AuthHeader (name : string)
  | AuthQuery.

Record EndpointConfig := mkEndpointConfig { base_url : option Url; auth_scheme : AuthScheme }.

(** The options by name; a repeated name is an error. *)
Fixpoint parse_options_go (options : list string) (parsed : gmap string string)
    : result (gmap string string) string :=
  match options with
  | [] => Ok parsed
  | option :: options' =>
      match split_once_char "=" option with
      | None => Err "Invalid endpoint option: expected name=value"
      | Some (name, v) =>
          if bool_decide (is_Some (parsed !! name)) then Err "Duplicate endpoint option"
          else parse_options_go options' (<[name := v]> parsed)
      end
  end.
Definition parse_options (options : list string) : result (gmap string string) string :=
  parse_options_go options ∅.

Definition required (options : gmap string string) (name : string) : result string string :=
  ok_or (v ← options !! name; if str_is_empty v then None else Some v)
    ("Endpoint option '" +:+ name +:+ "' is required and must not be empty").

Definition routing_headers : list string :=
  ["host"; "content-type"; "content-length"; "transfer-encoding"; "connection";
   "proxy-authorization"; "proxy-authenticate"; "te"; "trailer"; "upgrade"; "keep-alive"].

Definition base_url_from (options : gmap string string) : result (option Url) string :=
  if bool_decide (is_Some (options !! "base_url")) then
    let? raw_url := required options "base_url" in
    if has_white_space raw_url || has_control raw_url || contains_char "{" raw_url
        || contains_char "}" raw_url || contains_char "\" raw_url
    then Err "Endpoint base_url must be a literal HTTPS URL"
    else
      let? url := map_err (fun _ => "Invalid endpoint base_url") (url_parse raw_url) in
      if negb (String.eqb (url_scheme url) "https") || negb (bool_decide (is_Some (url_host url)))
          || negb (str_is_empty (url_username url)) || bool_decide (is_Some (url_password url))
          || bool_decide (is_Some (url_query url)) || bool_decide (is_Some (url_fragment url))
      then Err "Endpoint base_url must be HTTPS without userinfo, query or fragment"
      else Ok (Some url)
  else Ok None.

Definition auth_scheme_from (options : gmap string string) : result AuthScheme string :=
  let? scheme := required options "auth_scheme" in
  if String.eqb scheme "none" then Ok AuthNone
  else if String.eqb scheme "bearer" then Ok AuthBearer
  else if String.eqb scheme "query" then Ok AuthQuery
  else if String.eqb scheme "header" then
    let? raw_name := required options "header_name" in
    let? name := ok_or (header_name_from raw_name) "Invalid endpoint header_name" in
    if bool_decide (name ∈ routing_headers)
    then Err "Endpoint header_name cannot control HTTP routing or framing"
    else Ok (AuthHeader name)
  else if String.eqb scheme "managed-identity"
  then Err "Managed identity is not supported in this version"
  else Err "Unsupported endpoint auth_scheme; allowed: none, bearer, header, query".

Definition from_options (options : list string) : result EndpointConfig string :=
  let? options := parse_options options in
  if existsb (fun name => bool_decide (name ∉ ["base_url"; "auth_scheme"; "header_name"]))
      (map fst (map_to_list options))
  then Err "Unsupported endpoint server option; allowed: base_url, auth_scheme, header_name"
  else
    let? base := base_url_from options in
    let? scheme := auth_scheme_from options in
    if negb (match scheme with AuthHeader _ => true | _ => false end)
        && bool_decide (is_Some (options !! "header_name"))
    then Err "Endpoint header_name requires auth_scheme 'header'"
    else if negb (bool_decide (is_Some base)) && negb (match scheme with AuthNone => true | _ => false end)
    then Err "Endpoint base_url is required unless auth_scheme is 'none'"
    else Ok (mkEndpointConfig base scheme).

(** ** Credentials *)

Definition SECRET_OPTION_PREFIX : string := "secret.".

Definition validate_secret_key (key : string) : result unit string :=
  if str_is_empty key || contains_char "=" key || has_control key
  then Err "Secret keys must be nonempty without control characters or '='"
  else Ok tt.

Definition is_ascii (s : string) : bool := str_forall (fun c => (byte_of c <? 128)%N) s.

(** The URL a query credential is tried in. *)
Definition credential_url (query : string) : result Url string :=
  url_parse ("https://endpoint.invalid/?" +:+ query).

Definition validate_mapping_option (name v : string) : result unit string :=
  match strip_prefix SECRET_OPTION_PREFIX name with
  | Some key => validate_secret_key key
  | None =>
      if str_is_empty v then Err "Endpoint credential options must not be empty"
      else if String.eqb name "token" || String.eqb name "header_value" then
        if negb (header_value_ok v) then Err "Invalid endpoint credential header value"
        else if String.eqb name "token" && (negb (is_ascii v) || has_white_space v)
        then Err "Endpoint bearer token must be ASCII without whitespace"
        else Ok tt
      else if String.eqb name "query_string" then
        let query := default v (strip_prefix "?" v) in
        if str_is_empty query || has_white_space query || has_control query
            || contains_char "#" query || contains_char "{" query || contains_char "}" query
        then Err "Endpoint query_string must be a nonempty encoded query without a fragment"
        else
          let? parsed := map_err (fun _ => "Invalid endpoint query_string") (credential_url query) in
          if bool_decide (url_query parsed = Some query) then Ok tt
          else Err "Endpoint query_string must already be URL-encoded"
      else Err ("Unsupported endpoint user mapping option; allowed: token, header_value, " +:+
                "query_string, secret.<key>")
  end.

Fixpoint validate_each (options : list (string * string)) : result unit string :=
  match options with
  | [] => Ok tt
  | (name, v) :: options' =>
      let? _ := validate_mapping_option name v in validate_each options'
  end.
Definition validate_mapping_options (options : list string) : result unit string :=
  let? options := parse_options options in validate_each (sorted_entries options).

(** The catalog an option list belongs to. *)
Inductive option_catalog := ForeignServer | UserMapping | ForeignDataWrapper | OtherCatalog.

Definition endpoint_option_validator (options : list string) (catalog : option_catalog)
    : result unit string :=
  match catalog with
  | ForeignServer => map_ok (fun _ => tt) (from_options options)
  | UserMapping => validate_mapping_options options
  | ForeignDataWrapper =>
      match options with [] => Ok tt | _ => Err "pg_durable_fdw does not accept wrapper options" end
  | OtherCatalog => Err "pg_durable_fdw does not support foreign tables or column options"
  end.

Inductive EndpointAuth :=
  | NoAuth
  | BearerAuth (v : string)
  | HeaderAuth (name v : string)
  | QueryAuth (query : string).

Record ResolvedEndpoint := mkResolved { re_base_url : Url; re_auth : EndpointAuth }.

Definition resolve_auth (config : AuthScheme) (mapping : list string) : result EndpointAuth string :=
  let? _ := validate_mapping_options mapping in
  let? mapping := parse_options mapping in
  match config with
  | AuthNone => Ok NoAuth
  | AuthBearer =>
      let? token := required mapping "token" in
      if header_value_ok ("Bearer " +:+ token) then Ok (BearerAuth ("Bearer " +:+ token))
      else Err "Invalid endpoint bearer token"
  | AuthHeader name =>
      let? v := required mapping "header_value" in
      if header_value_ok v then Ok (HeaderAuth name v)
      else Err "Invalid endpoint credential header value"
  | AuthQuery =>
      let? v := required mapping "query_string" in Ok (QueryAuth (default v (strip_prefix "?" v)))
  end.

(** ** Requests *)

Record EndpointRequest := mkEndpointRequest {
  ereq_url : Url;
  ereq_credential_header : option (string * string);
}.

Definition AUTHORIZATION : string := "authorization".

Definition credential_name (auth : EndpointAuth) : option string :=
  match auth with
  | BearerAuth _ => Some AUTHORIZATION
  | HeaderAuth name _ => Some name
  | _ => None
  end.

Definition header_names (headers : option value) : list string :=
  match headers ≫= as_object with Some l => obj_keys l | None => [] end.

(** The query with more appended; an empty query counts as none. *)
Definition append_query (url : Url) (query : string) : Url :=
  url_set_query (Some (match url_query url with
                       | Some existing => if str_is_empty existing then query
                           else existing +:+ "&" +:+ query
                       | None => query
                       end)) url.

Definition prepare_endpoint_request (e : ResolvedEndpoint) (path : string) (headers : option value)
    : result EndpointRequest string :=
  let? url := compose_endpoint_url (re_base_url e) path in
  if existsb (fun name => eq_ignore_ascii_case name "host" ||
              match credential_name (re_auth e) with
              | Some credential => eq_ignore_ascii_case name credential
              | None => false
              end) (header_names headers)
  then Err "Request headers cannot override endpoint routing or authentication"
  else
    match re_auth e with
    | NoAuth => Ok (mkEndpointRequest url None)
    | BearerAuth v => Ok (mkEndpointRequest url (Some (AUTHORIZATION, v)))
    | HeaderAuth name v => Ok (mkEndpointRequest url (Some (name, v)))
    | QueryAuth query =>
        let? c := map_err (fun _ => "Invalid endpoint credential query") (credential_url query) in
        let names := map fst (url_query_pairs c) in
        if existsb (fun p => bool_decide (fst p ∈ names)) (url_query_pairs url)
        then Err "Request query cannot override endpoint credential parameters"
        else Ok (mkEndpointRequest (append_query url query) None)
    end.

(** ** The catalog of a request *)

(** What the database answers in the session of the catalog. *)
Record catalog_env := mkCatalogEnv {
  execution_permit : result unit string;
  connect_as_user : string -> option string -> result unit string;
  (** the origin of the route, when it has one *)
  has_origin : bool;
  attest_metadata : result unit string;
  begin_snapshot : bool;
  set_search_path : bool;
  origin_fence : result unit string;
  identity_matches : string -> option bool;
  wrapper_installed : option bool;
  (** oid, whether the wrapper is ours, USAGE, the options *)
  server_row : string -> option (option (Z * bool * bool * option (list string)));
  (** [umoptions] of the mapping of the current role *)
  mapping_row : Z -> option (option (option (list string)));
  close_connection : bool;
}.

Record CatalogServer := mkCatalogServer {
  cs_oid : Z;
  cs_config : EndpointConfig;
  cs_mapping : option (list string);
}.

(** What a catalog does to the database. *)
Inductive catalog_event :=
  | Connected (role : string) (database : option string)
  | ReadServer (server : string)
  | ReadMapping (oid : Z)
  | Closed.

Record EndpointCatalog := mkCatalog {
  cat_submitted_by : string;
  cat_database : option string;
  cat_connection : bool;
  cat_servers : gmap string CatalogServer;
  cat_events : list catalog_event;
}.

Definition catalog_new (submitted_by : string) (database : option string) : EndpointCatalog :=
  mkCatalog submitted_by database false ∅ [].

Definition log_event (e : catalog_event) (c : EndpointCatalog) : EndpointCatalog :=
  mkCatalog (cat_submitted_by c) (cat_database c) (cat_connection c) (cat_servers c) (cat_events c ++ [e]).
Definition set_connection (b : bool) (c : EndpointCatalog) : EndpointCatalog :=
  mkCatalog (cat_submitted_by c) (cat_database c) b (cat_servers c) (cat_events c).
Definition set_servers (servers : gmap string CatalogServer) (c : EndpointCatalog) : EndpointCatalog :=
  mkCatalog (cat_submitted_by c) (cat_database c) (cat_connection c) servers (cat_events c).

(** A result and the catalog it leaves. *)
Definition catalog_m (A : Type) : Type := EndpointCatalog -> result A string * EndpointCatalog.
Definition ret_c {A} (a : A) : catalog_m A := fun c => (Ok a, c).
Definition bind_c {A B} (m : catalog_m A) (k : A -> catalog_m B) : catalog_m B :=
  fun c => match m c with (Ok a, c) => k a c | (Err e, c) => (Err e, c) end.
Definition lift_c {A} (r : result A string) : catalog_m A := fun c => (r, c).
Definition update_c (f : EndpointCatalog -> EndpointCatalog) : catalog_m unit := fun c => (Ok tt, f c).

Context (env : catalog_env).

Definition answer {A} (o : option A) (e : string) : result A string := ok_or o e.
Definition expect (b : bool) (e : string) : result unit string := if b then Ok tt else Err e.

(** The checks of a new connection, after which it is kept. *)
Definition open_connection (role : string) (database : option string) : result unit string :=
  let? _ := map_err (fun e => "Endpoint catalog connection failed: " +:+ e)
      (connect_as_user env role database) in
  let? _ := if has_origin env then attest_metadata env else Ok tt in
  let? _ := expect (begin_snapshot env) "Endpoint catalog snapshot failed" in
  let? _ := expect (set_search_path env) "Endpoint catalog search path setup failed" in
  let? _ := if has_origin env then origin_fence env else Ok tt in
  let? same := answer (identity_matches env role) "Endpoint catalog identity check failed" in
  let? _ := expect same ("Endpoint catalog identity differs from submitting role " +:+ debug_str role) in
  let? installed := answer (wrapper_installed env) "Endpoint wrapper lookup failed" in
  expect installed "Endpoint support is not installed; update the pg_durable extension schema".

Definition connection : catalog_m unit := fun c =>
  if cat_connection c then (Ok tt, c)
  else
    match execution_permit env with
    | Err e => (Err e, c)
    | Ok _ =>
        let c := log_event (Connected (cat_submitted_by c) (cat_database c)) c in
        match open_connection (cat_submitted_by c) (cat_database c) with
        | Err e => (Err e, c)
        | Ok _ => (Ok tt, set_connection true c)
        end
    end.

(** A server's row as it may be used. *)
Definition checked_server (server : string) : result CatalogServer string :=
  let? endpoint := answer (server_row env server) "Endpoint server lookup failed" in
  let? row := ok_or endpoint "Endpoint server does not exist" in
  let '(oid, correct_wrapper, permitted, options) := row in
  let? _ := expect correct_wrapper "Endpoint server must use pg_durable_fdw" in
  let? _ := expect permitted "Permission denied: endpoint server USAGE is required" in
  let? config := from_options (default [] options) in
  Ok (mkCatalogServer oid config None).

Definition load_server (server : string) : catalog_m CatalogServer := fun c =>
  match cat_servers c !! server with
  | Some entry => (Ok entry, c)
  | None =>
      match connection c with
      | (Err e, c) => (Err ("Endpoint server " +:+ debug_str server +:+ ": " +:+ e), c)
      | (Ok _, c) =>
          let c := log_event (ReadServer server) c in
          match checked_server server with
          | Err e => (Err e, c)
          | Ok entry => (Ok entry, set_servers (<[server := entry]> (cat_servers c)) c)
          end
      end
  end.

Definition load_user_mapping (oid : Z) : result (list string) string :=
  let? mapping := answer (mapping_row env oid) "Endpoint user mapping lookup failed" in
  let? mapping := ok_or mapping
      ("Endpoint user mapping for the submitting role is required; " +:+
       "PUBLIC mappings are unsupported") in
  let? mapping := ok_or mapping "Endpoint credential options are missing or inaccessible" in
  let? _ := validate_mapping_options mapping in
  Ok mapping.

Definition load_mapping (server : string) : catalog_m (list string) :=
  bind_c (load_server server) (fun entry =>
    match cs_mapping entry with
    | Some mapping => ret_c mapping
    | None =>
        bind_c connection (fun _ => bind_c (update_c (log_event (ReadMapping (cs_oid entry)))) (fun _ =>
          bind_c (lift_c (load_user_mapping (cs_oid entry))) (fun mapping =>
            bind_c (update_c (fun c => set_servers
                              (<[server := mkCatalogServer (cs_oid entry) (cs_config entry) (Some mapping)]> (cat_servers c)) c))
            (fun _ => ret_c mapping))))
    end).

Definition resolve_named_secrets (server : string) : catalog_m (gmap string string) :=
  bind_c (load_mapping server) (fun mapping =>
    bind_c (lift_c (parse_options mapping)) (fun options =>
      ret_c (list_to_map (omap (fun '(name, v) =>
        (fun key => (key, v)) <$> strip_prefix SECRET_OPTION_PREFIX name) (map_to_list options))))).

Definition resolve_endpoint (server : string) : catalog_m ResolvedEndpoint :=
  bind_c (load_server server) (fun entry =>
    bind_c (lift_c (ok_or (base_url (cs_config entry))
                    ("Endpoint server " +:+ debug_str server +:+
                     " has no base_url; it can only be used for named secrets"))) (fun base =>
                       match auth_scheme (cs_config entry) with
                       | AuthNone => ret_c (mkResolved base NoAuth)
                       | scheme =>
                           bind_c (load_mapping server) (fun mapping =>
                             bind_c (lift_c (resolve_auth scheme mapping)) (fun auth => ret_c (mkResolved base auth)))
                       end)).

Definition close : catalog_m unit := fun c =>
  if cat_connection c then
    (expect (close_connection env) "Endpoint catalog connection close failed",
     log_event Closed (set_connection false c))
  else (Ok tt, c).

(** [parse_request] is [ssrf::parse_request_url]. *)
Definition prepare_request (parse_request : string -> result Url string) (server : option string)
    (url : string) (headers : option value) : catalog_m EndpointRequest :=
  match server with
  | Some server =>
      bind_c (lift_c (validate_endpoint_path url)) (fun _ =>
        bind_c (resolve_endpoint server) (fun e => lift_c (prepare_endpoint_request e url headers)))
  | None => lift_c (let? u := parse_request url in Ok (mkEndpointRequest u None))
  end.
End Endpoints.

(** ** A concrete instance *)

Definition sample_headers : HeaderCrate := {|
  percent_decode s := s;
  header_name_from s :=
    if negb (str_is_empty s) && str_forall (fun c => is_ascii_alphanumeric c || Ascii.eqb c "-") s
    then Some (to_ascii_lowercase s) else None;
  header_value_ok s := negb (has_control s);
|}.

Lemma sample_headers_laws : HeaderLaws sample_headers.
Proof. split. cbn. intros s n. destruct (_ && _); [by intros [= <-]|done]. Qed.

(** A server with a header credential and a named secret. *)
Definition sample_catalog : catalog_env := {|
  execution_permit := Ok tt;
  connect_as_user _ _ := Ok tt;
  has_origin := false;
  attest_metadata := Ok tt;
  begin_snapshot := true;
  set_search_path := true;
  origin_fence := Ok tt;
  identity_matches _ := Some true;
  wrapper_installed := Some true;
  server_row s :=
    Some (if String.eqb s "github"
          then Some (7%Z, true, true, Some ["base_url=https://api.github.com/v1"; "auth_scheme=header";
                                            "header_name=X-Api-Key"])
          else None);
  mapping_row _ := Some (Some (Some ["header_value=k3y"; "secret.token=s3cret"]));
  close_connection := true;
|}.
