(* ===== verification/Explain.v ===== *)
(** [df.explain]: the graph of an instance or of a future as a tree of text
    ([src/explain.rs]).

    The renderer recurses over the graph by ids, so its recursion takes fuel;
    running out is a stop of its own, as is a slice inside a character, which
    panics. *)
From S2P Require Import Prelude RustString Json Graph Flatten NodeStatus Endpoints.

(** ** Text *)

(** [s.chars().count()] *)
Definition chars_count (s : string) : nat := N.to_nat (str_count (fun c => negb (is_continuation c)) s).

(** [s.lines()] *)
Definition strip_cr (l : string) : string := default l (strip_suffix (String "013" "") l).
Definition str_lines (s : string) : list string :=
  let parts := split_char "010" s in
  map strip_cr (removelast parts) ++
  match List.last parts "" with "" => [] | l => [l] end.

Fixpoint spaces (n : nat) : string := match n with O => "" | S n' => String " " (spaces n') end.
(** [format!("{line:width$}")] *)
Definition pad (width : nat) (line : string) : string := line +:+ spaces (width - chars_count line).

Definition newline : string := String "010" "".

(** ** Nodes *)

Record ExplainNode := mkExplainNode {
  x_id : string;
  x_node_type : string;
  x_query : option string;
  x_result_name : option string;
  x_left_node : option string;
  x_right_node : option string;
  x_status : option string;
  x_result : option string;
  x_status_details : option string;
}.

#[export] Instance explain_node_facts : NodeFacts ExplainNode := {|
  nf_node_type := x_node_type; nf_query := x_query; nf_left_node := x_left_node;
  nf_right_node := x_right_node; nf_status := x_status; nf_status_details := x_status_details;
|}.

(** [ExplainNode::from] *)
Definition explain_node_from (node : MaterializedNode) : ExplainNode :=
  mkExplainNode (m_id node) (m_node_type node) (m_query node) (m_result_name node)
    (m_left_node node) (m_right_node node) None None None.

Definition with_status (s : option string) (n : ExplainNode) : ExplainNode :=
  mkExplainNode (x_id n) (x_node_type n) (x_query n) (x_result_name n) (x_left_node n)
    (x_right_node n) s (x_result n) (x_status_details n).

(** How a rendering stops without a text: a panic, [pgrx::error!], no fuel. *)
Inductive stop := Panic | Raised (message : string) | NoFuel.

(** [if s.len() > limit { format!("{}...", &s[..cut]) } else { s }] *)
Definition truncated (limit cut : nat) (s : string) : result string stop :=
  if Nat.ltb limit (String.length s)
  then let? t := ok_or (slice_to cut s) Panic in Ok (t +:+ "...")
  else Ok s.

Section Display.
Context {SJ : SerdeJson}.

(** [serde_json::from_str(query).ok()] of an optional query *)
Definition loop_config (node : ExplainNode) : option LoopConfig :=
  q ← x_query node; ok (from_json (A := LoopConfig) q).

(** [cfg[key].as_str()] *)
Definition config_str (cfg : value) (key : string) : option string := as_str (index cfg key).

Definition extra_nodes (node : ExplainNode) : option (list value) :=
  cfg ← config_value (x_query node); as_array (index cfg "extra_nodes").

Definition loop_kind (c : LoopConfig) : string :=
  match bool_decide (is_Some (loop_condition_node c)), continue_on_failure c with
  | false, false => "infinite"
  | true, false => "while"
  | false, true => "infinite, continue on failure"
  | true, true => "while, continue on failure"
  end.

Definition http_display (node : ExplainNode) : result (string * string) stop :=
  match config_value (x_query node) with
  | None => Ok ("?", "?")
  | Some cfg =>
      let method := default "POST" (config_str cfg "method") in
      let url := default "?" (config_str cfg "url") in
      match config_str cfg "endpoint" with
      | Some server => Ok (method, "endpoint " +:+ debug_str server +:+ " " +:+ url)
      | None => let? display_url := truncated 40 37 url in Ok (method, display_url)
      end
  end.

Definition present (o : option string) : nat := match o with Some _ => 1 | None => 0 end.

Definition format_node_display (node : ExplainNode) : result string stop :=
  let name_suffix := match x_result_name node with
    | Some n => " |=> '" +:+ n +:+ "'" | None => "" end in
  let t := x_node_type node in
  if String.eqb t "SQL" then
    let? q := truncated 50 47 (default "?" (x_query node)) in
    Ok ("SQL: " +:+ q +:+ name_suffix)
  else if String.eqb t "SLEEP" then
    Ok ("SLEEP " +:+ default "?" (x_query node) +:+ "s" +:+ name_suffix)
  else if String.eqb t "WAIT_SCHEDULE" then
    let cron := default "?" (cfg ← config_value (x_query node); config_str cfg "cron_expr") in
    Ok ("WAIT '" +:+ cron +:+ "'" +:+ name_suffix)
  else if String.eqb t "HTTP" || String.eqb t "HTTP_MULTIPART" then
    let? (method, url) := http_display node in
    Ok (t +:+ " " +:+ method +:+ " " +:+ url +:+ name_suffix)
  else if String.eqb t "SIGNAL" then
    let '(signal_name, timeout) :=
      match config_value (x_query node) with
      | Some cfg => (default "?" (config_str cfg "signal_name"), as_i64 (index cfg "timeout_seconds"))
      | None => ("?", None)
      end in
    let timeout_str := match timeout with Some n => " (" +:+ show_Z n +:+ "s)" | None => "" end in
    Ok ("SIGNAL '" +:+ signal_name +:+ "'" +:+ timeout_str +:+ name_suffix)
  else if String.eqb t "LOOP" then
    let config := default (mkLoopConfig false None) (loop_config node) in
    Ok ("LOOP (" +:+ loop_kind config +:+ ")" +:+ name_suffix)
  else if String.eqb t "BREAK" then
    match cfg ← config_value (x_query node); config_str cfg "break_value" with
    | Some v => let? v := truncated 20 17 v in Ok ("BREAK '" +:+ v +:+ "'" +:+ name_suffix)
    | None => Ok ("BREAK" +:+ name_suffix)
    end
  else if String.eqb t "IF" then Ok ("IF" +:+ name_suffix)
  else if String.eqb t "JOIN" then
    let count := present (x_left_node node) + present (x_right_node node)
        + length (default [] (extra_nodes node)) in
    Ok ("JOIN (" +:+ show_nat count +:+ ")" +:+ name_suffix)
  else if String.eqb t "THEN" then Ok "SEQUENCE"
  else Ok t.

Definition status_marker (show_status : bool) (node : ExplainNode) : string :=
  if show_status then
    match x_status node with
    | Some s => if String.eqb s "completed" then " ✓"
        else if String.eqb s "failed" then " ✗"
        else if String.eqb s "running" then " ⏳"
        else if String.eqb s "pending" then " ○"
        else if String.eqb s "skipped" then " ⊘" else ""
    | None => ""
    end
  else "".

(** ** The tree *)

Context (nodes : gmap string ExplainNode) (show_status : bool).

(** Texts pushed one after the other. *)
Fixpoint push_all (l : list (result string stop)) : result string stop :=
  match l with
  | [] => Ok ""
  | r :: l' => let? a := r in let? b := push_all l' in Ok (a +:+ b)
  end.

(** The leaves of nested THENs, in order. *)
Fixpoint collect_sequence (fuel : nat) (node_id : string) : option (list string) :=
  match fuel with
  | O => None
  | S fuel' =>
      match nodes !! node_id with
      | None => Some []
      | Some node =>
          if String.eqb (x_node_type node) "THEN" then
            let sub (o : option string) :=
              match o with Some child => collect_sequence fuel' child | None => Some [] end in
            l ← sub (x_left_node node); r ← sub (x_right_node node); Some (l ++ r)
          else Some [node_id]
      end
  end.

Section Children.
(** [build_tree_recursive] one level down: id, prefix, is-last. *)
Context (rec : string -> string -> bool -> result string stop).

(** A heading and the subtree below it, for a child that is there. *)
Definition labelled (prefix label : string) (is_last : bool) (child : option string)
    : result string stop :=
  match child with
  | Some c =>
      let? sub := rec c (prefix +:+ "  ") is_last in
      Ok (prefix +:+ label +:+ ":" +:+ newline +:+ sub)
  | None => Ok ""
  end.

Definition branches (node : ExplainNode) : list string :=
  option_list (x_left_node node) ++ option_list (x_right_node node) ++
  (if String.eqb (x_node_type node) "JOIN" then omap as_str (default [] (extra_nodes node)) else []).

Definition render_branches (prefix : string) (l : list string) : list (result string stop) :=
  imap (fun i branch_id =>
    labelled prefix ("║ branch " +:+ show_nat (S i)) (Nat.eqb i (length l - 1)) (Some branch_id)) l.

Definition render_children (node : ExplainNode) (prefix : string) : result string stop :=
  let t := x_node_type node in
  if String.eqb t "LOOP" then
    push_all [labelled prefix "↻ body" true (x_left_node node);
              labelled prefix "? while" true (loop_config node ≫= loop_condition_node)]
  else if String.eqb t "IF" then
    push_all [labelled prefix "? condition" true
              (cfg ← config_value (x_query node); config_str cfg "condition_node");
              labelled prefix "✓ then" true (x_left_node node);
              labelled prefix "✗ else" true (x_right_node node)]
  else if String.eqb t "JOIN" || String.eqb t "RACE" then
    push_all (render_branches prefix (branches node))
  else Ok "".

(** One step of a sequence: its line, and its children unless its type has
    none. *)
Definition childless : list string :=
  ["THEN"; "SQL"; "SLEEP"; "WAIT_SCHEDULE"; "HTTP"; "HTTP_MULTIPART"].

Definition render_step (prefix connector node_id : string) : result string stop :=
  match nodes !! node_id with
  | None => Ok ""
  | Some node =>
      let? display := format_node_display node in
      let? below := if bool_decide (x_node_type node ∈ childless) then Ok ""
        else render_children node (prefix +:+ "    ") in
      Ok (prefix +:+ connector +:+ display +:+ status_marker show_status node +:+ newline +:+ below)
  end.

Definition render_sequence (prefix connector : string) (sequence : list string)
    : result string stop :=
  push_all (imap (fun i node_id =>
    render_step prefix (match i with O => connector | _ => "→ " end) node_id) sequence).
End Children.

Fixpoint build_tree_recursive (fuel : nat) (node_id prefix : string) (is_last : bool)
    : result string stop :=
  match fuel with
  | O => Err NoFuel
  | S fuel' =>
      match nodes !! node_id with
      | None => Ok ""
      | Some node =>
          let connector := if str_is_empty prefix then "" else if is_last then "└─" else "├─" in
          let? node_display := format_node_display node in
          if String.eqb (x_node_type node) "THEN" then
            let? sequence := ok_or (collect_sequence fuel node_id) NoFuel in
            render_sequence (build_tree_recursive fuel') prefix connector sequence
          else
            let child_prefix := if str_is_empty prefix then "    "
              else if is_last then prefix +:+ "    " else prefix +:+ "│   " in
            let? below := render_children (build_tree_recursive fuel') node child_prefix in
            Ok (prefix +:+ connector +:+ node_display +:+ status_marker show_status node +:+ newline +:+
                below)
      end
  end.

(** Lines are padded to the longest one and four more. *)
Definition align (output : string) : string :=
  let lines := str_lines (trim_end output) in
  let max_len := fold_right Nat.max 0 (map chars_count lines) in
  join newline (map (pad (max_len + 4)) lines).

(** One level of recursion per node. *)
Definition tree_fuel : nat := S (size nodes).

Definition build_tree_visualization (root_id : string) : result string stop :=
  map_ok align (build_tree_recursive tree_fuel root_id "" true).
End Display.

(** ** Explaining a future *)

Section Explain.
Context {SJ : SerdeJson}.

(** [N1], [N2], ... *)
Definition explain_ids : IdSource := fun n => Ok ("N" +:+ show_nat (S n)).

(** [.collect()] into a map: a later node of an id replaces an earlier one. *)
Definition node_map (l : list (string * ExplainNode)) : gmap string ExplainNode :=
  list_to_map (reverse l).

Definition explain_durofut (root : Durofut) : result string stop :=
  let? flattened := ok_or (flatten_graph root explain_ids) NoFuel in
  match flattened with
  | Err e => Ok ("Invalid durable function graph: " +:+ graph_error_to_string e)
  | Ok (root_id, flat_nodes) =>
      build_tree_visualization (node_map (map (fun n => (m_id n, explain_node_from n)) flat_nodes))
        false root_id
  end.

Definition sql_keywords : list string :=
  ["SELECT "; "INSERT "; "UPDATE "; "DELETE "; "WITH "; "CREATE "; "ALTER "; "DROP "; "CALL "; "DO ";
   "TRUNCATE "; "GRANT "; "REVOKE "; "EXPLAIN "; "SELECT" +:+ newline; "INSERT" +:+ newline;
   "UPDATE" +:+ newline; "DELETE" +:+ newline; "WITH" +:+ newline].
Definition looks_like_plain_sql (input : string) : bool :=
  existsb (fun kw => starts_with kw (to_uppercase (trim_start input))) sql_keywords.

Definition looks_like_dsl_expression (input : string) : bool :=
  existsb (fun m => str_contains m input) ["~>"; "|=>"; "?>"; "!>"; "@>"; "df."].

(** What the database and the engine answer. *)
Record explain_env := mkExplainEnv {
  (** [SELECT root_node, label, status FROM df.instances WHERE id = ..] *)
  instance_rows : string -> result (list (option string * option string * option string)) unit;
  (** engine status and output; an error is raised by [backend_engine_id] *)
  engine_info : string -> result (string * option string) string;
  (** the rows of [df.nodes], those without an id left out *)
  instance_nodes : string -> list (string * ExplainNode);
  (** [SELECT {expr}]; an error is its debug text *)
  evaluate : string -> result (option string) string;
}.
Context (env : explain_env).

Definition explain_expression (expr : string) : result string stop :=
  match try_from_json expr with
  | Ok root => explain_durofut root
  | Err _ =>
      if negb (looks_like_dsl_expression expr) then
        if looks_like_plain_sql expr then explain_durofut (sql_durofut expr)
        else Ok ("Cannot explain input: not a valid Durofut JSON, instance ID, SQL statement, " +:+
                 "or DSL expression." +:+ newline +:+
                 "Hint: DSL expressions use df.*() functions and operators like ~>, |=>, &, |.")
      else
        match evaluate env expr with
        | Ok None => Ok "Expression returned NULL"
        | Err e => Ok ("Failed to evaluate expression: " +:+ e)
        | Ok (Some root_json) =>
            match try_from_json root_json with
            | Err e => Ok ("Failed to parse Durofut JSON: " +:+ e)
            | Ok root => explain_durofut root
            end
        end
  end.

(** The first row with a root node. *)
Definition find_instance (instance_id : string) : option (string * option string * string) :=
  match instance_rows env instance_id with
  | Ok rows => head (omap (fun '(root, label, status) =>
      root ← root; Some (root, label, default "" status)) rows)
  | Err _ => None
  end.

Definition status_icon (status : string) : string :=
  let s := to_lowercase status in
  if String.eqb s "completed" || String.eqb s "continuedasnew" then "✓"
  else if String.eqb s "failed" || String.eqb s "canceled" || String.eqb s "cancelled" then "✗"
  else if String.eqb s "running" then "⏳" else "○".

(** Nodes with the statuses [df.instance_nodes] reports. *)
Definition with_inferred (inferred : gmap string Inferred) (nodes : gmap string ExplainNode)
    : gmap string ExplainNode :=
  map_imap (fun id n => Some match inferred !! id with
    | Some i => with_status (Some (NodeStatus.status i)) n
    | None => n end) nodes.

Definition explain_header (instance_id : string) (label : option string) (status : string)
    (output : option string) : result string stop :=
  let first := match label with
    | Some l => "Instance: " +:+ instance_id +:+ " (" +:+ l +:+ ")" +:+ newline
    | None => "Instance: " +:+ instance_id +:+ newline
    end in
  let? third := match output with
    | Some out => let? t := truncated 60 57 out in Ok ("Output:   " +:+ t +:+ newline)
    | None => Ok ""
    end in
  Ok (first +:+ "Status:   " +:+ status_icon status +:+ " " +:+ status +:+ newline +:+ third
      +:+ newline).

Definition explain_instance (instance_id : string) : result string stop :=
  match find_instance instance_id with
  | None => Ok ("Instance '" +:+ instance_id +:+ "' not found")
  | Some (root_id, label, pg_status) =>
      let? (duroxide_status, output) := map_err Raised (engine_info env instance_id) in
      let loaded := node_map (instance_nodes env instance_id) in
      let? inferred := ok_or (infer_statuses loaded (Some root_id)) NoFuel in
      let nodes := with_inferred inferred loaded in
      if bool_decide (nodes = ∅) then Ok ("No nodes found for instance '" +:+ instance_id +:+ "'")
      else
        let status := if str_is_empty duroxide_status then pg_status else duroxide_status in
        let? header := explain_header instance_id label status output in
        let? tree := build_tree_visualization nodes true root_id in
        Ok (header +:+ tree)
  end.

Definition explain (input : string) : result string stop :=
  let trimmed := trim input in
  if Nat.eqb (String.length trimmed) 8 && str_forall is_ascii_hexdigit trimmed
  then explain_instance trimmed else explain_expression trimmed.
End Explain.
