(* ===== verification/Secrets.v ===== *)
(** Secret references in HTTP requests ([src/secrets.rs], lines 7-375): their
    serialized form, the checks at composition and before a request, and their
    materialization into headers, query and form. *)
From S2P Require Import Prelude RustString Json Substitution HttpConfig UrlCrate Endpoints.

(** ** Data *)

Record SecretReference := mkSecretRef { sr_server : string; sr_key : string; sr_prefix : string }.
#[export] Instance SecretReference_eq_dec : EqDecision SecretReference.
Proof. solve_decision. Defined.

Record SecretBindings := mkBindings {
  sb_headers : gmap string SecretReference;
  sb_query : gmap string SecretReference;
  sb_form : gmap string SecretReference;
}.

Record SecretOptions := mkSecretOptions {
  secret_bindings : option SecretBindings;
  form_fields : option (gmap string string);
}.

(** [deny_unknown_fields] *)
Definition known_fields (fields : list string) (l : members) : option unit :=
  if forallb (fun k => bool_decide (k ∈ fields)) (obj_keys l) then Some tt else None.

Definition de_secret_reference (v : value) : option SecretReference :=
  l ← as_object v;
  _ ← known_fields ["server"; "key"; "prefix"] l;
  server ← req "server" as_str l;
  key ← req "key" as_str l;
  prefix ← dflt "prefix" "" as_str l;
  Some (mkSecretRef server key prefix).

Definition en_secret_reference (r : SecretReference) : value :=
  Object ([("server", JString (sr_server r)); ("key", JString (sr_key r))]
          ++ skip_if (str_is_empty (sr_prefix r)) "prefix" (JString (sr_prefix r))).

Definition de_secret_bindings (v : value) : option SecretBindings :=
  l ← as_object v;
  _ ← known_fields ["headers"; "query"; "form"] l;
  headers ← dflt "headers" ∅ (de_map de_secret_reference) l;
  query ← dflt "query" ∅ (de_map de_secret_reference) l;
  form ← dflt "form" ∅ (de_map de_secret_reference) l;
  Some (mkBindings headers query form).

Definition skip_empty (k : string) (m : gmap string SecretReference) : members :=
  skip_if (bool_decide (m = ∅)) k (en_map en_secret_reference m).
Definition en_secret_bindings (b : SecretBindings) : value :=
  Object (skip_empty "headers" (sb_headers b) ++ skip_empty "query" (sb_query b)
          ++ skip_empty "form" (sb_form b)).

(** The flattened members of a config. *)
Definition de_secret_options (l : members) : option SecretOptions :=
  bindings ← opt "secret_bindings" de_secret_bindings l;
  fields ← opt "form_fields" de_string_map l;
  Some (mkSecretOptions bindings fields).

(** The named secrets of every server that is referred to. *)
Abbreviation secret_catalog := (gmap string (gmap string string)).

Section Secrets.
Context {UC : UrlCrate} {UO : UrlOps UC} {HC : HeaderCrate} {HD : HttpDeps} {SJ : SerdeJson}.

(** ** Checks *)

Definition secret_reference_validate (r : SecretReference) : result unit string :=
  if str_is_empty (sr_server r) || has_control (sr_server r)
  then Err "Secret references require a nonempty server name without control characters"
  else validate_secret_key (sr_key r).

Definition credential_header_name (name : string) : result string string :=
  let? name := ok_or (header_name_from name) "Invalid credential header name" in
  if bool_decide (name ∈ routing_headers)
  then Err "Credential headers cannot control HTTP routing or framing"
  else Ok name.

(** The bound headers in order; [seen] are the names met so far. *)
Fixpoint validate_header_bindings (seen : list string) (l : list (string * SecretReference))
    : result unit string :=
  match l with
  | [] => Ok tt
  | (name, reference) :: l' =>
      let? _ := secret_reference_validate reference in
      let? name := credential_header_name name in
      if bool_decide (name ∈ seen) then Err "Duplicate secret header binding (case-insensitive)"
      else if negb (header_value_ok (sr_prefix reference)) then Err "Invalid secret header prefix"
      else validate_header_bindings (name :: seen) l'
  end.

Fixpoint validate_field_bindings (l : list (string * SecretReference)) : result unit string :=
  match l with
  | [] => Ok tt
  | (name, reference) :: l' =>
      let? _ := secret_reference_validate reference in
      if str_is_empty name || has_control name
      then Err "Secret field names must be nonempty without control characters"
      else if negb (str_is_empty (sr_prefix reference))
      then Err "Secret prefixes are supported only in header bindings"
      else validate_field_bindings l'
  end.

Definition secret_bindings_validate (b : SecretBindings) : result unit string :=
  let? _ := validate_header_bindings [] (sorted_entries (sb_headers b)) in
  validate_field_bindings (sorted_entries (sb_query b) ++ sorted_entries (sb_form b)).

(** [df.secret]: [Err] is [pgrx::error!]. *)
Definition secret (server key : string) : result value string :=
  let reference := mkSecretRef server key "" in
  let? _ := secret_reference_validate reference in Ok (en_secret_reference reference).

Definition form_mode (o : SecretOptions) : bool :=
  bool_decide (is_Some (form_fields o)) ||
  match secret_bindings o with Some b => negb (bool_decide (sb_form b = ∅)) | None => false end.

Fixpoint validate_form_fields (bindings : option SecretBindings) (names : list string)
    : result unit string :=
  match names with
  | [] => Ok tt
  | name :: names' =>
      if str_is_empty name || has_control name
      then Err "Form field names must be nonempty without control characters"
      else if match bindings with Some b => bool_decide (is_Some (sb_form b !! name)) | None => false end
      then Err "A form field cannot have both an ordinary value and a secret binding"
      else validate_form_fields bindings names'
  end.

Fixpoint validate_form_headers (l : members) : result unit string :=
  match l with
  | [] => Ok tt
  | (name, v) :: l' =>
      if eq_ignore_ascii_case name "content-length" || eq_ignore_ascii_case name "transfer-encoding"
      then Err "Form requests cannot override HTTP body framing"
      else if eq_ignore_ascii_case name "content-type" &&
        negb (match as_str v with
              | Some v => eq_ignore_ascii_case v "application/x-www-form-urlencoded"
              | None => false
              end)
      then Err "Form requests require application/x-www-form-urlencoded Content-Type"
      else validate_form_headers l'
  end.

Definition secret_options_validate (o : SecretOptions) (has_body : bool) (method : string)
    (multipart : bool) (headers : option value) : result unit string :=
  let? _ := match secret_bindings o with Some b => secret_bindings_validate b | None => Ok tt end in
  if form_mode o then
    if multipart || has_body
    then Err "Form fields cannot be combined with a raw body or multipart request"
    else if negb (bool_decide (method ∈ ["POST"; "PUT"; "PATCH"]))
    then Err "Form fields require POST, PUT or PATCH"
    else
      let? _ := validate_form_fields (secret_bindings o)
          (match form_fields o with Some fields => map fst (sorted_entries fields) | None => [] end) in
      validate_form_headers (match headers ≫= as_object with Some l => l | None => [] end)
  else Ok tt.

Definition bound_names (m : gmap string SecretReference) : list string := map fst (sorted_entries m).

Definition validate_destinations (o : SecretOptions) (request : EndpointRequest)
    (headers : option value) : result unit string :=
  match secret_bindings o with
  | None => Ok tt
  | Some b =>
      let? _ := secret_bindings_validate b in
      let active := negb (bool_decide (sb_headers b = ∅)) || negb (bool_decide (sb_query b = ∅))
          || negb (bool_decide (sb_form b = ∅)) in
      if existsb (fun name => (active && eq_ignore_ascii_case name "host") ||
                  existsb (eq_ignore_ascii_case name) (bound_names (sb_headers b))) (header_names headers)
      then Err "Secret bindings conflict with ordinary request headers or Host"
      else if match ereq_credential_header request with
        | Some (name, _) =>
            existsb (fun secret_name => eq_ignore_ascii_case secret_name name)
              (bound_names (sb_headers b))
        | None => false
        end
      then Err "Secret binding cannot override endpoint authentication"
      else if existsb (fun p => bool_decide (is_Some (sb_query b !! fst p)))
          (url_query_pairs (ereq_url request))
      then Err "Secret binding conflicts with an existing query parameter"
      else Ok tt
  end.

(** ** Materialization *)

Record ResolvedBindings := mkResolvedBindings {
  rb_headers : gmap string string;
  rb_form_body : option string;
}.

Definition secret_place (slot name : string) (r : SecretReference) : string :=
  slot +:+ "[" +:+ debug_str name +:+ "], server " +:+ debug_str (sr_server r) +:+ ", key " +:+
  debug_str (sr_key r).

Definition secret_lookup (catalog : secret_catalog) (slot name : string) (r : SecretReference)
    : result string string :=
  ok_or (values ← catalog !! sr_server r; values !! sr_key r)
    ("Referenced secret key is missing: " +:+ secret_place slot name r).

Definition materialize_header (catalog : secret_catalog) (name : string) (r : SecretReference)
    : result (string * string) string :=
  let? header_name := credential_header_name name in
  let? secret := secret_lookup catalog "headers" name r in
  if header_value_ok (sr_prefix r +:+ secret) then Ok (header_name, sr_prefix r +:+ secret)
  else Err ("Resolved secret is not a valid HTTP header value: " +:+ secret_place "headers" name r).

(** The values of a list of bindings, in order. *)
Definition materialize_fields (catalog : secret_catalog) (slot : string)
    (l : list (string * SecretReference)) : result (list (string * string)) string :=
  collect_results (fun '(name, r) => map_ok (pair name) (secret_lookup catalog slot name r)) l.

Definition materialize (o : SecretOptions) (catalog : secret_catalog) (request : EndpointRequest)
    : result (ResolvedBindings * EndpointRequest) string :=
  let fields := default ∅ (form_fields o) in
  let? (headers, request, fields) :=
    match secret_bindings o with
    | None => Ok (∅, request, fields)
    | Some b =>
        let? headers := collect_results (fun '(name, r) => materialize_header catalog name r)
            (sorted_entries (sb_headers b)) in
        let? request :=
          if bool_decide (sb_query b = ∅) then Ok request
          else
            let? query := materialize_fields catalog "query" (sorted_entries (sb_query b)) in
            Ok (mkEndpointRequest (append_query (ereq_url request) (form_urlencode query))
                (ereq_credential_header request)) in
        let? form := materialize_fields catalog "form" (sorted_entries (sb_form b)) in
        Ok (fold_left (fun m '(k, v) => <[k := v]> m) headers ∅, request,
            fold_left (fun m '(k, v) => <[k := v]> m) form fields)
    end in
  let form_body := if form_mode o then Some (form_urlencode (sorted_entries fields)) else None in
  Ok (mkResolvedBindings headers form_body, request).

(** The servers in use, in order. *)
Definition secret_servers (b : SecretBindings) : list string :=
  sort_strings (elements (list_to_set (C := gset string)
                          (map (fun p => sr_server (snd p))
                           (map_to_list (sb_headers b) ++ map_to_list (sb_query b) ++ map_to_list (sb_form b))))).

Section Resolve.
Context (env : catalog_env).

Fixpoint load_secrets (servers : list string) (catalog : secret_catalog) : catalog_m secret_catalog :=
  match servers with
  | [] => ret_c catalog
  | server :: servers' =>
      bind_c (fun c => let '(r, c) := resolve_named_secrets env server c in
        (map_err (fun e => "Secret server " +:+ debug_str server +:+ ": " +:+ e) r, c))
        (fun values => load_secrets servers' (<[server := values]> catalog))
  end.

Definition secret_resolve (o : SecretOptions) (request : EndpointRequest) (headers : option value)
    : catalog_m (ResolvedBindings * EndpointRequest) :=
  bind_c (lift_c (validate_destinations o request headers)) (fun _ =>
    bind_c (match secret_bindings o with
            | Some b => load_secrets (secret_servers b) ∅
            | None => ret_c ∅
            end) (fun catalog => lift_c (materialize o catalog request))).
End Resolve.

(** ** Composition *)

Definition configure_bindings (request : string) (bindings : value) (form : option value)
    : result string string :=
  let? bindings := ok_or (de_secret_bindings bindings)
      "Invalid secret bindings: expected header/query/form maps of secret references" in
  let? _ := secret_bindings_validate bindings in
  let? node := map_err (fun _ => "Secret bindings require an HTTP node") (value_from_str request) in
  let? multipart :=
    match get "node_type" node ≫= as_str with
    | Some t => if String.eqb t "HTTP" then Ok false else if String.eqb t "HTTP_MULTIPART" then Ok true
        else Err "Secret bindings require a single HTTP or HTTP_MULTIPART node"
    | None => Err "Secret bindings require a single HTTP or HTTP_MULTIPART node"
    end in
  let? query := ok_or (get "query" node ≫= as_str) "HTTP node has no request configuration" in
  let? config := map_err (fun _ => "Invalid HTTP request configuration") (value_from_str query) in
  match as_object config, as_object node with
  | Some config_members, Some node_members =>
      let? fields :=
        match form with
        | None => Ok None
        | Some v => map_ok Some (ok_or (de_string_map v) "Form fields must be an object of string values")
        end in
      let o := mkSecretOptions (Some bindings) fields in
      let? _ := secret_options_validate o
          (match get "body" config with Some body => negb (is_null body) | None => false end)
          (default "" (get "method" config ≫= as_str)) multipart (get "headers" config) in
      let l := obj_insert "secret_bindings" (en_secret_bindings bindings) config_members in
      let config := Object (match fields with
                            | Some fields => obj_insert "form_fields" (en_string_map fields) l
                            | None => l
                            end) in
      let? _ := check_http_request_size config true in
      Ok (value_to_string (Object (obj_insert "query" (JString (value_to_string config)) node_members)))
  | _, _ => Err "Invalid HTTP request configuration"
  end.
End Secrets.
