(* ===== verification/HttpResponse.v ===== *)
(** Responses of HTTP requests ([src/activities/http_response.rs]): how a body is
    read and classified, the headers that are kept, the sink, the envelope. *)
From S2P Require Import Prelude RustString Json Substitution HttpConfig.

(** ** The standard library: UTF-8 *)

(** [String::from_utf8] accepts: each character is one to four bytes, in the
    shortest form, without surrogates. *)
Fixpoint utf8_go (fuel : nat) (s : string) : bool :=
  match fuel with
  | O => false
  | S fuel' =>
      match s with
      | "" => true
      | String a s1 =>
          if in_range 0 127 a then utf8_go fuel' s1
          else
            match s1 with
            | "" => false
            | String b s2 =>
                if in_range 194 223 a then in_range 128 191 b && utf8_go fuel' s2
                else
                  match s2 with
                  | "" => false
                  | String c s3 =>
                      if in_range 224 239 a then
                        (if in_range 224 224 a then in_range 160 191 b
                         else if in_range 237 237 a then in_range 128 159 b
                         else in_range 128 191 b) && in_range 128 191 c && utf8_go fuel' s3
                      else
                        match s3 with
                        | "" => false
                        | String d s4 =>
                            in_range 240 244 a &&
                            (if in_range 240 240 a then in_range 144 191 b
                             else if in_range 244 244 a then in_range 128 143 b
                             else in_range 128 191 b) &&
                            in_range 128 191 c && in_range 128 191 d && utf8_go fuel' s4
                        end
                  end
            end
      end
  end.
Definition utf8_valid (s : string) : bool := utf8_go (S (String.length s)) s.

(** Dependencies: [base64], [sha2], the charset decoder of [reqwest]. *)
Class BodyDeps : Type := {
  base64_encode : string -> string;
  sha256_hex : string -> string;
  (** [Response::text] of a body with this [Content-Type] *)
  decode_text : option string -> string -> result string string;
}.

(** ** Responses *)

(** A response as it arrives: header values are [None] when they are not text,
    chunks may fail. *)
Record HttpResponse := mkResponse {
  resp_status : N;
  resp_headers : list (string * option string);
  resp_content_length : option N;
  resp_chunks : list (result string string);
}.

Definition SAFE_RESPONSE_HEADERS : list string :=
  ["content-type"; "content-length"; "etag"; "last-modified"; "x-ms-request-id"; "x-ms-version";
   "x-request-id"; "content-md5"; "x-ms-content-crc64"; "x-ms-blob-content-md5"; "digest";
   "content-digest"; "repr-digest"].
Definition ERROR_BODY_PREVIEW_BYTES : nat := 512.

Definition first_part (sep : ascii) (s : string) : string := default "" (head (split_char sep s)).

Definition textual_types : list string :=
  ["application/json"; "application/xml"; "application/javascript"; "application/ecmascript";
   "application/x-www-form-urlencoded"; "application/graphql"; "application/yaml";
   "application/x-yaml"].

Definition is_declared_textual (content_type : option string) : bool :=
  match content_type with
  | None => false
  | Some content_type =>
      let mime := to_ascii_lowercase (trim (first_part ";" (first_part "," content_type))) in
      if str_is_empty mime then false
      else if starts_with "text/" mime then true
      else if ends_with "+json" mime || ends_with "+xml" mime || ends_with "+yaml" mime then true
      else bool_decide (mime ∈ textual_types)
  end.

(** ** Bodies *)

Inductive body_encoding := TextEncoding | Base64Encoding.
Definition encoding_name (e : body_encoding) : string :=
  match e with TextEncoding => "text" | Base64Encoding => "base64" end.

Record ResponseBody := mkBody { body_text : string; body_encoded : body_encoding }.

(** The largest boundary at or below [n]. *)
Fixpoint floor_boundary (n : nat) (s : string) : nat :=
  match n with
  | O => O
  | S n' => if is_char_boundary n s then n else floor_boundary n' s
  end.

(** [None] is a panic: a slice off a character boundary. *)
Definition body_error_preview (b : ResponseBody) : option string :=
  let len := String.length (body_text b) in
  if Nat.leb len ERROR_BODY_PREVIEW_BYTES then Some (body_text b)
  else
    excerpt ← slice_to (floor_boundary ERROR_BODY_PREVIEW_BYTES (body_text b)) (body_text b);
    Some (excerpt +:+ "... [truncated, " +:+ show_nat len +:+ " " +:+
          match body_encoded b with Base64Encoding => "base64 characters" | TextEncoding => "bytes" end
          +:+ " total]").

(** [text_from_bytes]: bytes that PostgreSQL can hold as text. *)
Definition text_from_bytes (s : string) : result string string :=
  if contains_char "000" s then Err s else if utf8_valid s then Ok s else Err s.

Record StoredResponse := mkStored { stored_table : string; stored_key : string; stored_database : string }.

Record ResponseContent := mkContent {
  rc_inline : option ResponseBody;
  rc_bytes : N;
  rc_sha256 : option string;
  rc_sink_body : option string;
  rc_sink : option StoredResponse;
}.

Definition content_encoding (c : ResponseContent) : string :=
  match rc_inline c with Some b => encoding_name (body_encoded b) | None => "omitted" end.

Definition content_error_preview (c : ResponseContent) : option string :=
  match rc_inline c with
  | Some b => body_error_preview b
  | None => Some ("response body omitted (" +:+ show_N (rc_bytes c) +:+ " bytes)")
  end.

Section Response.
Context {BD : BodyDeps}.

Definition exceeded (limit : N) : string :=
  "HTTP response body exceeds max_response_bytes (" +:+ show_N limit +:+ " bytes)".

(** What is buffered and hashed so far. *)
Record reading := mkReading { rd_bytes : string; rd_total : N; rd_hashed : string }.

(** The loop over the chunks, with the arithmetic of [u64]. *)
Fixpoint read_chunks (mode : HttpResponseMode) (limit : N) (chunks : list (result string string))
    (r : reading) : result reading string :=
  match chunks with
  | [] => Ok r
  | Err e :: _ => Err ("Failed to read response body: " +:+ e)
  | Ok chunk :: chunks' =>
      let n := N.of_nat (String.length chunk) in
      if (u64_wrapping_sub limit (rd_total r) <? n)%N then Err (exceeded limit)
      else
        read_chunks mode limit chunks'
          (mkReading (if bool_decide (mode = Inline) || bool_decide (mode = Sink)
            then rd_bytes r +:+ chunk else rd_bytes r)
           (u64_wrapping_add (rd_total r) n)
           (if bool_decide (mode = Metadata) || bool_decide (mode = Sink)
             then rd_hashed r +:+ chunk else rd_hashed r))
  end.

(** The first value of a header. *)
Definition header_value (name : string) (r : HttpResponse) : option (option string) :=
  snd <$> head (filter (fun p => fst p = name) (resp_headers r)).

Definition inline_body (content_type : option (option string)) (s : string)
    : result ResponseBody string :=
  if is_declared_textual (mjoin content_type) then
    let? text := map_err (fun e => "Failed to read response body: " +:+ e)
        (decode_text (mjoin content_type) s) in
    Ok (mkBody text TextEncoding)
  else
    match text_from_bytes s with
    | Ok text => Ok (mkBody text TextEncoding)
    | Err s => Ok (mkBody (base64_encode s) Base64Encoding)
    end.

Definition read_body (response : HttpResponse) (options : HttpBodyOptions)
    : result ResponseContent string :=
  let content_type := header_value "content-type" response in
  let mode := default Inline (HttpConfig.response options) in
  let limit := default u64_max (max_response_bytes options) in
  if match resp_content_length response with Some n => (limit <? n)%N | None => false end
  then Err (exceeded limit)
  else
    let? r := read_chunks mode limit (resp_chunks response) (mkReading "" 0 "") in
    let hashes := bool_decide (mode = Metadata) || bool_decide (mode = Sink) in
    let? inline :=
      if bool_decide (mode = Inline) then map_ok Some (inline_body content_type (rd_bytes r))
      else Ok None in
    Ok (mkContent inline (rd_total r) (if hashes then Some (sha256_hex (rd_hashed r)) else None)
        (if bool_decide (mode = Sink) then Some (rd_bytes r) else None) None).

Definition header_kept (options : HttpBodyOptions) (name : string) : bool :=
  match response_headers options with
  | None | Some (Preset All) => true
  | Some (Preset Safe) => bool_decide (name ∈ SAFE_RESPONSE_HEADERS)
  | Some (AllowList names) => existsb (fun allowed => eq_ignore_ascii_case allowed name) names
  end.

(** Collected into a map: a later value of a name replaces an earlier one. *)
Definition collect_headers (response : HttpResponse) (options : HttpBodyOptions) : members :=
  fold_left (fun l '(name, v) =>
    if header_kept options name
    then match v with Some s => obj_insert name (JString s) l | None => l end
    else l) (resp_headers response) [].

(** ** The sink *)

(** What the database of the sink answers; an error is its SQLSTATE, if it has
    one. *)
Abbreviation db_answer A := (result A (option string)).
Record sink_env := mkSinkEnv {
  sink_permit : result unit string;
  (** [source.validate()], by the number of calls before it *)
  source_valid : nat -> result unit string;
  source_database : option string;
  source_has_origin : bool;
  sink_connect : string -> option string -> result unit string;
  sink_begin : db_answer unit;
  sink_isolation : db_answer unit;
  sink_setup : db_answer unit;
  sink_origin_valid : db_answer unit;
  sink_identity : string -> db_answer bool;
  sink_qualified : string -> db_answer (option string);
  sink_lock : string -> db_answer unit;
  sink_location : string -> db_answer (option (string * string));
  sink_key : string;
  (** rows inserted into the table under the key with the body *)
  sink_insert : string -> string -> string -> db_answer N;
  sink_constraints : db_answer unit;
  (** exactly one row has the key, and its digest is this *)
  sink_verify : string -> string -> string -> db_answer bool;
  sink_commit_setup : db_answer unit;
  sink_commit : db_answer unit;
  sink_close : db_answer unit;
}.

Definition sink_error {A} (operation : string) (r : db_answer A) : result A string :=
  map_err (fun code =>
    match code with
    | Some code => "HTTP response sink " +:+ operation +:+ " failed (SQLSTATE " +:+ code +:+ ")"
    | None => "HTTP response sink " +:+ operation +:+ " failed (connection or protocol error)"
    end) r.

Definition store_response (env : sink_env) (table body sha256 submitted_by : string)
    (destination : option string) : result StoredResponse string :=
  let? _ := sink_permit env in
  let? _ := source_valid env 0 in
  let database := match destination with Some d => Some d | None => source_database env end in
  let? _ := sink_connect env submitted_by database in
  let? _ := source_valid env 1 in
  let? _ := sink_error "transaction" (sink_begin env) in
  let execution_origin := source_has_origin env && bool_decide (database = source_database env) in
  let? _ := if execution_origin then sink_error "origin isolation" (sink_isolation env) else Ok tt in
  let? _ := sink_error "transaction setup" (sink_setup env) in
  let? _ := if execution_origin then sink_error "origin validation" (sink_origin_valid env) else Ok tt in
  let? identity_matches := sink_error "identity check" (sink_identity env submitted_by) in
  if negb identity_matches
  then Err "HTTP response sink connection does not match the submitting role"
  else
    let? qualified := sink_error "table name validation" (sink_qualified env table) in
    let? qualified := ok_or qualified "HTTP response sink 'into' must be a schema-qualified table" in
    let? _ := sink_error "table lock" (sink_lock env qualified) in
    let? location := sink_error "table validation" (sink_location env qualified) in
    let? (table, database) := ok_or location "HTTP response sink requires a permanent table" in
    let? _ := if bool_decide (Some database = source_database env) then Ok tt else source_valid env 2 in
    let key := sink_key env in
    let? inserted := sink_error "insert" (sink_insert env table key body) in
    if negb (inserted =? 1)%N then Err "HTTP response sink did not insert exactly one row"
    else
      let? _ := sink_error "constraint check" (sink_constraints env) in
      let? same := sink_error "stored body verification" (sink_verify env table key sha256) in
      if negb same
      then Err "HTTP response sink row is missing, not durable, or its key or body was changed"
      else
        let? _ := sink_error "commit setup" (sink_commit_setup env) in
        let? _ := sink_error "commit" (sink_commit env) in
        let? _ := sink_error "connection close" (sink_close env) in
        Ok (mkStored table key database).

(** [timed_out]: the node's timeout passed before the row was stored. *)
Definition store_in_sink (env : sink_env) (timed_out : bool) (options : HttpBodyOptions)
    (submitted_by : string) (database : option string) (c : ResponseContent)
    : result ResponseContent string :=
  match rc_sink_body c with
  | None => Ok c
  | Some body =>
      let? table := ok_or (into options) "HTTP response sink is missing 'into'" in
      let? sha256 := ok_or (rc_sha256 c) "HTTP response sink is missing its digest" in
      if timed_out then Err "HTTP response sink timed out before completion"
      else
        let? stored := store_response env table body sha256 submitted_by database in
        Ok (mkContent (rc_inline c) (rc_bytes c) (rc_sha256 c) None (Some stored))
  end.

(** ** The envelope *)

Definition some_member (k : string) (o : option string) : members :=
  match o with Some s => [(k, JString s)] | None => [] end.

Definition envelope_value (status_code : N) (content : ResponseContent) (headers : members)
    (is_ok : bool) (duration_ms : N) : value :=
  match rc_inline content with
  | Some b =>
      Object [("status", Number (PosInt status_code)); ("body", JString (body_text b));
              ("encoding", JString (encoding_name (body_encoded b))); ("headers", Object headers);
              ("ok", Bool is_ok); ("duration_ms", Number (PosInt duration_ms))]
  | None =>
      let sink := rc_sink content in
      Object ([("status", Number (PosInt status_code)); ("ok", Bool is_ok);
               ("bytes", Number (PosInt (rc_bytes content))); ("headers", Object headers);
               ("duration_ms", Number (PosInt duration_ms))]
              ++ some_member "sha256" (rc_sha256 content)
              ++ some_member "sink" (stored_table <$> sink)
              ++ some_member "sink_key" (stored_key <$> sink)
              ++ some_member "sink_database" (stored_database <$> sink))
  end.

Definition serialize_envelope {SJ : SerdeJson} (status_code : N) (content : ResponseContent)
    (headers : members) (is_ok : bool) (duration_ms : N) : string :=
  value_to_string (envelope_value status_code content headers is_ok duration_ms).
End Response.
