(* ===== verification/Monitoring.v ===== *)
(** Monitoring functions ([src/monitoring.rs]): the listings of instances with
    their opaque cursors, execution histories and node rows.

    The tables are seen as row-level security shows them; what PostgreSQL's
    [to_char] and [::timestamptz] do is a dependency. *)
From S2P Require Import Prelude RustString Sql Json Origin NodeStatus HttpResponse.

(** ** Dependencies *)

(** [to_char(t, ..)] of the listing query and [text::timestamptz].  A timestamp is in
    microseconds. *)
Class PgTime : Type := {
  ts_text : Z -> string;
  ts_cast : string -> result Z string;
}.

Definition is_digits (n : nat) : list (ascii -> bool) := replicate n is_ascii_digit.
Definition one (c : ascii) : ascii -> bool := Ascii.eqb c.

(** The pattern of [cursor_timestamp_well_formed], without its optional end. *)
Definition timestamp_pattern : list (ascii -> bool) :=
  is_digits 4 ++ [one "-"] ++ is_digits 2 ++ [one "-"] ++ is_digits 2 ++ [one "T"] ++ is_digits 2 ++
  [one ":"] ++ is_digits 2 ++ [one ":"] ++ is_digits 2 ++ [one "."] ++ is_digits 6 ++
  [fun c => Ascii.eqb "+" c || Ascii.eqb "-" c] ++ is_digits 2.

Fixpoint match_pattern (p : list (ascii -> bool)) (s : string) : option string :=
  match p, s with
  | [], _ => Some s
  | f :: p', String c s' => if f c then match_pattern p' s' else None
  | _ :: _, "" => None
  end.
Definition timestamp_shape (s : string) : bool :=
  match match_pattern timestamp_pattern s with
  | Some "" => true
  | Some s' => bool_decide (match_pattern ([one ":"] ++ is_digits 2) s' = Some "")
  | None => false
  end.

(** [::pg_catalog.timestamptz] reads the texts of the supported timestamps, those
    from year 1 to 9999, which have the documented shape. *)
Class PgTimeLaws (PT : PgTime) : Type := {
  ts_supported : Z -> Prop;
  ts_cast_text : forall t, ts_supported t -> ts_cast (ts_text t) = Ok t;
  ts_text_shape : forall t, ts_supported t -> timestamp_shape (ts_text t) = true;
}.

(** ** Cursors *)

Definition CURSOR_VERSION : string := "v1".
Definition MAX_CURSOR_LEN : nat := 512.

Fixpoint hex_bytes (s : string) : string :=
  match s with String c s' => hex_go 2 (byte_of c) +:+ hex_bytes s' | "" => "" end.

Definition encode_cursor (created_at_text id : string) : string :=
  hex_bytes (CURSOR_VERSION +:+ "|" +:+ created_at_text +:+ "|" +:+ id).

(** [(b as char).to_digit(16)] *)
Definition to_digit16 (c : ascii) : option N :=
  if is_ascii_digit c then Some (byte_of c - 48)%N
  else if in_range 97 102 c then Some (byte_of c - 87)%N
  else if in_range 65 70 c then Some (byte_of c - 55)%N
  else None.

(** The loop over pairs; an odd end would be out of bounds. *)
Fixpoint decode_pairs (s : string) : option string :=
  match s with
  | String a (String b s') =>
      hi ← to_digit16 a; lo ← to_digit16 b;
      rest ← decode_pairs s'; Some (String (ascii_of_N (hi * 16 + lo)) rest)
  | "" => Some ""
  | String _ "" => None
  end.

Definition decode_cursor (cursor : string) : option (string * string) :=
  if str_is_empty cursor || Nat.ltb MAX_CURSOR_LEN (String.length cursor)
     || negb (Nat.even (String.length cursor)) then None
  else
    decoded ← decode_pairs cursor;
    if negb (utf8_valid decoded) then None
    else
      '(version, rest) ← split_once_char "|" decoded;
      if negb (String.eqb version CURSOR_VERSION) then None
      else
        '(ts, id) ← split_once_char "|" rest;
        if str_is_empty ts || str_is_empty id then None else Some (ts, id).

(** ** Listings *)

(** A row of [df.instances] that the caller may see. *)
Record instance_view := mkView {
  v_id : string;
  v_root_node : option string;
  v_label : option string;
  v_status : option string;
  v_created_at : option Z;
  v_completed_at : option Z;
}.

(** What the engine tells of an instance: its engine id, function name, execution
    count and output. *)
Definition engine_row : Type := string * string * Z * option string.
Definition instance_info_row : Type := string * Z * option string.

Record monitor_env := mkMonitor {
  (** [pg_durable.list_instances_max_limit] *)
  max_limit : Z;
  (** the visible rows *)
  visible_rows : list instance_view;
  (** SPI statements succeed *)
  spi_ok : bool;
  (** what a statement that fails in PostgreSQL does: raise, or count as empty *)
  failed_statement : string -> result unit string;
  provider_schema : result string string;
  backend_origin : result (option Origin) string;
  (** [get_instance_info] of these engine ids; none where the engine is away *)
  engine_rows : list string -> list engine_row;
}.

Record listed := mkListed {
  l_instance_id : string;
  l_label : option string;
  l_function_name : string;
  l_status : string;
  l_execution_count : Z;
  l_output : option string;
  l_created_at : option Z;
  l_completed_at : option Z;
  l_next_cursor : option string;
}.

Section Monitoring.
Context {U : UuidCrate} {CO : Collation} {PT : PgTime} (env : monitor_env).

Definition enforce_list_instances_limit (limit_count : Z) : result unit string :=
  if (limit_count <? 1)%Z then Err "limit_count must be at least 1"
  else if (max_limit env <? limit_count)%Z then
    Err ("df.list_instances: limit_count (" +:+ show_Z limit_count +:+
         ") exceeds pg_durable.list_instances_max_limit (" +:+ show_Z (max_limit env) +:+
         "); request fewer rows, or use the paginated df.list_instances overload (after_cursor/next_cursor) " +:+
         "for large result sets")
  else Ok tt.

Definition local_instance_info_map (local_ids engine_ids : list string) (rows : list engine_row)
    : gmap string instance_info_row :=
  let local_by_engine : gmap string string := list_to_map (reverse (zip engine_ids local_ids)) in
  list_to_map (reverse (omap (fun '(engine, function_name, execution_count, output) =>
    local_id ← local_by_engine !! engine;
    Some (local_id, (function_name, execution_count, output))) rows)).

Definition fetch_instance_info_map (ids : list string)
    : result (gmap string instance_info_row) string :=
  if bool_decide (ids = []) then Ok ∅
  else
    let? origin := backend_origin env in
    let engine_ids := map (engine_id_for_origin origin) ids in
    Ok (local_instance_info_map ids engine_ids (engine_rows env engine_ids)).

(** [filter_map] with [info_by_id.remove(&id)?] *)
Fixpoint reassemble (next_cursor : option string) (rows : list instance_view)
    (info_by_id : gmap string instance_info_row) : list listed :=
  match rows with
  | [] => []
  | r :: rows' =>
      match info_by_id !! v_id r with
      | Some (function_name, execution_count, output) =>
          mkListed (v_id r) (v_label r) function_name (default "" (v_status r)) execution_count output
            (v_created_at r) (v_completed_at r) next_cursor
            :: reassemble next_cursor rows' (delete (v_id r) info_by_id)
      | None => reassemble next_cursor rows' info_by_id
      end
  end.

(** The rows of the engine for the instances of a page. *)
Definition with_engine_info (next_cursor : option string) (user_instances : list instance_view)
    : result (list listed) string :=
  if bool_decide (user_instances = []) then Ok []
  else
    match provider_schema env with
    | Err _ => Ok []
    | Ok _ =>
        let? info_by_id := fetch_instance_info_map (map v_id user_instances) in
        Ok (reassemble next_cursor user_instances info_by_id)
    end.

(** *** The two-argument overload *)

(** [status = $1]: no row where the status is null. *)
Definition status_is (status_filter : option string) (r : instance_view) : bool :=
  match status_filter with
  | Some s => bool_decide (v_status r = Some s)
  | None => true
  end.

(** [ORDER BY created_at DESC]: nulls come first. *)
Definition created_desc (a b : instance_view) : Prop :=
  match v_created_at a, v_created_at b with
  | None, _ => True
  | Some _, None => False
  | Some x, Some y => (y <= x)%Z
  end.
#[global] Instance created_desc_dec : RelDecision created_desc.
Proof. intros [? ? ? ? [x|] ?] [? ? ? ? [y|] ?]; unfold created_desc; cbn; apply _. Defined.

(** Ties are PostgreSQL's choice; the sort here is one. *)
Definition list_instances (status_filter : option string) (limit_count : Z)
    : result (list listed) string :=
  let? _ := enforce_list_instances_limit limit_count in
  with_engine_info None
    (if spi_ok env then
        take (Z.to_nat limit_count) (merge_sort created_desc
                                     (filter (fun r => status_is status_filter r = true) (visible_rows env)))
      else []).

(** *** The paginated overload *)

Definition created (r : instance_view) : Z := default 0%Z (v_created_at r).

(** [created_at IS NOT NULL AND status = .. AND label = ..] *)
Definition selected (status_filter label_filter : option string) (r : instance_view) : bool :=
  bool_decide (is_Some (v_created_at r)) && status_is status_filter r &&
  match label_filter with
  | Some l => bool_decide (v_label r = Some l)
  | None => true
  end.

(** [created_at <= ts AND (created_at < ts OR (created_at = ts AND id > cursor_id))] *)
Definition after (ts : Z) (cursor_id : string) (r : instance_view) : bool :=
  (created r <=? ts)%Z &&
  ((created r <? ts)%Z || ((created r =? ts)%Z && negb (id_le (v_id r) cursor_id))).

(** [ORDER BY created_at DESC, id ASC] *)
Definition row_le (a b : instance_view) : Prop :=
  (created b < created a)%Z \/ created a = created b /\ id_le (v_id a) (v_id b) = true.
#[global] Instance row_le_dec : RelDecision row_le.
Proof. intros a b. unfold row_le. apply _. Defined.

Definition select_page (status_filter label_filter : option string) (limit_count : Z)
    (cursor : option (string * string)) : result (list instance_view) string :=
  let query (p : instance_view -> bool) :=
    take (Z.to_nat (limit_count + 1)) (merge_sort row_le
                                       (filter (fun r => selected status_filter label_filter r && p r = true) (visible_rows env))) in
  if negb (spi_ok env) then Ok []
  else
    match cursor with
    | None => Ok (query (fun _ => true))
    | Some (cur_ts, cur_id) =>
        match ts_cast cur_ts with
        | Ok ts => Ok (query (after ts cur_id))
        | Err e => map_ok (fun _ => []) (failed_statement env e)
        end
    end.

Definition cursor_timestamp_well_formed (ts : string) : bool := spi_ok env && timestamp_shape ts.

Definition parse_after_cursor (after_cursor : option string)
    : result (option (string * string)) string :=
  match after_cursor with
  | None => Ok None
  | Some c =>
      match decode_cursor c with
      | Some (ts, id) =>
          if cursor_timestamp_well_formed ts then Ok (Some (ts, id))
          else Err "df.list_instances: invalid after_cursor"
      | None => Err "df.list_instances: invalid after_cursor"
      end
  end.

Definition list_instances_paged (status_filter : option string) (limit_count : Z)
    (label_filter after_cursor : option string) : result (list listed) string :=
  let? _ := enforce_list_instances_limit limit_count in
  let? cursor := parse_after_cursor after_cursor in
  let? fetched := select_page status_filter label_filter limit_count cursor in
  let has_more := Nat.ltb (Z.to_nat limit_count) (length fetched) in
  let user_instances := take (Z.to_nat limit_count) fetched in
  let next_cursor :=
    if has_more then
      (fun r => encode_cursor (match v_created_at r with Some t => ts_text t | None => "" end) (v_id r))
        <$> last user_instances
    else None in
  with_engine_info next_cursor user_instances.

(** ** One instance *)

Definition find_view (instance_id : string) : option instance_view :=
  if spi_ok env then head (filter (fun r => v_id r = instance_id) (visible_rows env)) else None.

Record info_row := mkInfoRow {
  i_instance_id : string; i_label : option string; i_function_name : string;
  i_function_version : string; i_current_execution_id : Z; i_status : string; i_output : option string;
}.

Definition instance_info
    (get_instance_info : string -> option (string * string * N * option string))
    (instance_id : string) : result (list info_row) string :=
  match find_view instance_id with
  | None => Ok []
  | Some r =>
      let? origin := backend_origin env in
      match provider_schema env with
      | Err _ => Ok []
      | Ok _ =>
          match get_instance_info (engine_id_for_origin origin instance_id) with
          | Some (name, version, execution_id, output) =>
              Ok [mkInfoRow instance_id (v_label r) name version (u64_as_i64 execution_id)
                  (default "" (v_status r)) output]
          | None => Ok []
          end
      end
  end.

(** *** Executions *)

Record execution_info := mkExecution {
  e_execution_id : N; e_status : string; e_event_count : N; e_started_at : N;
  e_completed_at : option N; e_output : option string;
}.
Definition execution_row : Type := Z * string * Z * Z * option string.

Definition execution_row_of (info : execution_info) : execution_row :=
  let duration_ms := match e_completed_at info with
    | Some finish => (finish - e_started_at info)%N | None => 0%N end in
  (u64_as_i64 (e_execution_id info), e_status info, u64_as_i64 (e_event_count info),
   u64_as_i64 duration_ms, e_output info).

(** The answers of the duroxide client. *)
Record history_client := mkHistory {
  open_store : result unit string;
  list_executions : string -> result (list N) string;
  get_execution_info : string -> N -> result execution_info string;
}.

(** [b.cmp(a)] *)
Definition newest_first (a b : N) : Prop := (b <= a)%N.
#[global] Instance newest_first_dec : RelDecision newest_first.
Proof. intros a b. unfold newest_first. apply _. Defined.

Definition instance_executions (h : history_client) (instance_id : string) (limit_count : Z)
    : result (list execution_row) string :=
  if (limit_count <? 1)%Z then Err "limit_count must be at least 1"
  else
    let limit_count := Z.min limit_count 10000 in
    match find_view instance_id with
    | None => Ok []
    | Some _ =>
        let? origin := backend_origin env in
        let engine_id := engine_id_for_origin origin instance_id in
        let? _ := provider_schema env in
        map_err (fun e => "df.instance_executions: execution history lookup failed: " +:+ e)
          (let? _ := open_store h in
            let? execution_ids := map_err (fun e => "failed to list executions: " +:+ e)
                (list_executions h engine_id) in
            let limited := take (Z.to_nat limit_count)
                (merge_sort newest_first execution_ids) in
            collect_results (fun exec_id =>
              map_ok execution_row_of (map_err (fun e => "failed to fetch info for execution " +:+
                                                show_N exec_id +:+ ": " +:+ e) (get_execution_info h engine_id exec_id))) limited)
    end.

(** *** Metrics *)

Record system_metrics := mkMetrics {
  total_instances : N; running_instances : N; completed_instances : N; failed_instances : N;
  total_executions : N; total_events : N;
}.

Definition metrics_row : Type := Z * Z * Z * Z * Z * Z.

(** Whatever fails leaves the result empty. *)
Definition metrics (open_store : result unit string) (get_system_metrics : result system_metrics string)
    : list metrics_row :=
  match provider_schema env, open_store, get_system_metrics with
  | Ok _, Ok _, Ok m =>
      [(u64_as_i64 (total_instances m), u64_as_i64 (running_instances m), u64_as_i64 (completed_instances m),
        u64_as_i64 (failed_instances m), u64_as_i64 (total_executions m), u64_as_i64 (total_events m))]
  | _, _, _ => []
  end.
End Monitoring.

(** ** Nodes *)

(** A row of [df.nodes]; [updated_at] is in microseconds. *)
Record NodeRow := mkRow {
  nw_id : string; nw_node_type : string; nw_query : option string; nw_result_name : option string;
  nw_left_node : option string; nw_right_node : option string; nw_status : option string;
  nw_result : option string; nw_status_details : option string; nw_updated_at : option Z;
}.

#[export] Instance node_row_facts : NodeFacts NodeRow := {|
  nf_node_type := nw_node_type; nf_query := nw_query; nf_left_node := nw_left_node;
  nf_right_node := nw_right_node; nf_status := nw_status; nf_status_details := nw_status_details;
|}.

(** The columns of a row of [df.nodes] as the statements of the listings read them. *)
Record node_cells := mkCells {
  c_id : result (option string) string; c_node_type : result (option string) string;
  c_query : result (option string) string; c_result_name : result (option string) string;
  c_left_node : result (option string) string; c_right_node : result (option string) string;
  c_status : result (option string) string; c_result : result (option string) string;
  c_status_details : result (option string) string; c_updated_at : result (option Z) string;
}.

(** [.ok().flatten()] *)
Definition flat {A} (c : result (option A) string) : option A :=
  match c with Ok v => v | Err _ => None end.

Definition node_of_cells (c : node_cells) : option NodeRow :=
  id ← flat (c_id c);
  Some (mkRow id (default "" (flat (c_node_type c))) (flat (c_query c)) (flat (c_result_name c))
    (flat (c_left_node c)) (flat (c_right_node c)) (flat (c_status c)) (flat (c_result c))
    (flat (c_status_details c)) (flat (c_updated_at c))).

(** The rows of the instance that row-level security shows. *)
Definition load_instance_nodes (select_nodes : result (list node_cells) string)
    (select_root : result (list (result (option string) string)) string)
    : option string * list NodeRow :=
  (match select_root with Ok (row :: _) => flat row | _ => None end,
   match select_nodes with Ok table => omap node_of_cells table | Err _ => [] end).

(** The overload of earlier versions: execution, id, type, query, result name, both
    links, status, result, time; the number of executions is ignored. *)
Definition compat_row : Type :=
  Z * string * string * option string * option string * option string * option string *
  option string * option string * option Z.

Definition instance_nodes (select_nodes : result (list node_cells) string) (last_n_executions : Z)
    : list compat_row :=
  match select_nodes with
  | Ok table => omap (fun c =>
      id ← flat (c_id c);
      Some (1%Z, id, default "" (flat (c_node_type c)), flat (c_query c), flat (c_result_name c),
            flat (c_left_node c), flat (c_right_node c), flat (c_status c), flat (c_result c),
            flat (c_updated_at c))) table
  | Err _ => []
  end.

Section Nodes.
Context {SJ : SerdeJson}.

(** A node with its inferred status and the ancestor it comes from. *)
Definition annotate (inferred : gmap string Inferred) (id : string) (n : NodeRow)
    : NodeRow * string * option string :=
  let inf := inferred !! id in
  (n, match inf with Some i => status i | None => default "pending" (nw_status n) end,
   inf ≫= from_ancestor_id).

(** By id, since the map's own order is arbitrary; [None] is a walk cut off. *)
Definition instance_nodes_v2 (root_node : option string) (node_rows : list NodeRow)
    : option (gmap string (NodeRow * string * option string)) :=
  let nodes : gmap string NodeRow := list_to_map (reverse (map (fun n => (nw_id n, n)) node_rows)) in
  inferred ← infer_statuses nodes root_node;
  Some (map_imap (fun id n => Some (annotate inferred id n)) nodes).
End Nodes.
