(* ===== verification/HttpRequest.v ===== *)
(** The HTTP activities ([src/activities/execute_http.rs],
    [src/activities/execute_multipart.rs]; the configs of [src/types.rs], lines
    1720-1784): from the config of a node to one request and its envelope.

    An activity is a function of what the database, the network and the endpoint
    catalog answer, the record [http_env].  It returns its result and the list of
    what it did, so that the order of checks and effects can be stated. *)
From S2P Require Import Prelude RustString Json Substitution HttpConfig UrlCrate Ssrf Redact.
From S2P Require Import Endpoints Secrets HttpResponse.

(** ** Configs *)

Record HttpConfig := mkHttpConfig {
  hc_url : string;
  hc_endpoint : option string;
  hc_database : option string;
  hc_method : string;
  hc_body : option string;
  hc_headers : option value;
  hc_timeout_seconds : N;
  hc_submitted_by : option string;
  hc_secret_options : SecretOptions;
  hc_body_options : HttpBodyOptions;
}.

Record MultipartPart := mkPart {
  part_name : string;
  part_filename : option string;
  part_content_type : option string;
  part_data_b64 : string;
}.

Record MultipartConfig := mkMultipartConfig {
  mc_url : string;
  mc_endpoint : option string;
  mc_database : option string;
  mc_method : string;
  mc_parts : list MultipartPart;
  mc_headers : option value;
  mc_timeout_seconds : N;
  mc_submitted_by : option string;
  mc_secret_options : SecretOptions;
  mc_body_options : HttpBodyOptions;
}.

Definition default_http_timeout : N := 30.

(** An untagged enum: the preset's name, or a list of names. *)
Definition de_response_headers (v : value) : option HttpResponseHeaders :=
  match de_unit_variant v with
  | Some "all" => Some (Preset All)
  | Some "safe" => Some (Preset Safe)
  | _ => AllowList <$> de_list as_str v
  end.

Definition de_body_options (l : members) : option HttpBodyOptions :=
  req_bytes ← opt "max_request_bytes" de_u64 l;
  resp_bytes ← opt "max_response_bytes" de_u64 l;
  mode ← opt "response" de_response_mode l;
  headers ← opt "response_headers" de_response_headers l;
  table ← opt "into" as_str l;
  Some (mkBodyOptions req_bytes resp_bytes mode headers table).

Definition de_http_config (v : value) : option HttpConfig :=
  l ← as_object v;
  url ← req "url" as_str l;
  endpoint ← opt "endpoint" as_str l;
  database ← opt "database" as_str l;
  method ← req "method" as_str l;
  body ← opt "body" as_str l;
  headers ← opt "headers" Some l;
  timeout ← dflt "timeout_seconds" default_http_timeout de_u64 l;
  submitted_by ← opt "submitted_by" as_str l;
  secret_options ← de_secret_options l;
  body_options ← de_body_options l;
  Some (mkHttpConfig url endpoint database method body headers timeout submitted_by secret_options
          body_options).

Definition de_part (v : value) : option MultipartPart :=
  l ← as_object v;
  name ← req "name" as_str l;
  filename ← opt "filename" as_str l;
  content_type ← opt "content_type" as_str l;
  data_b64 ← req "data_b64" as_str l;
  Some (mkPart name filename content_type data_b64).

Definition de_multipart_config (v : value) : option MultipartConfig :=
  l ← as_object v;
  url ← req "url" as_str l;
  endpoint ← opt "endpoint" as_str l;
  database ← opt "database" as_str l;
  method ← req "method" as_str l;
  parts ← req "parts" (de_list de_part) l;
  headers ← opt "headers" Some l;
  timeout ← dflt "timeout_seconds" default_http_timeout de_u64 l;
  submitted_by ← opt "submitted_by" as_str l;
  secret_options ← de_secret_options l;
  body_options ← de_body_options l;
  Some (mkMultipartConfig url endpoint database method parts headers timeout submitted_by
          secret_options body_options).

(** ** Requests *)

(** What is told to the request builder about headers: one more value, or a map
    that replaces the names it has. *)
Inductive header_op :=
| AppendHeader (name v : string)
| ReplaceHeaders (m : gmap string string).

Inductive request_body :=
| NoBody
| TextBody (s : string)
| FormParts (parts : list (MultipartPart * string)).

Section Request.
Context {UC : UrlCrate} {UO : UrlOps UC} {HC : HeaderCrate} {HD : HttpDeps} {BD : BodyDeps}
    {SJ : SerdeJson}.

Record Request := mkRequest {
  rq_method : string;
  rq_url : Url;
  rq_timeout : N;
  rq_headers : list header_op;
  rq_body : request_body;
}.

(** Why a request failed, as [reqwest::Error] tells it. *)
Record SendError := mkSendError {
  se_text : string;
  se_status : option N;
  se_timeout : bool;
  se_connect : bool;
}.

Inductive http_event :=
  | PrivilegeChecked (role : string) (endpoint multipart : bool)
  | Catalog (events : list catalog_event)
  | Sent (security : HttpSecurity) (request : Request).

(** The answers; the privilege is asked for twice, [false] before the request is
    prepared and [true] when it is about to be sent. *)
Record http_env := mkHttpEnv {
  privilege_begin : bool -> result unit string;
  has_privilege : bool -> string -> string -> result (option bool) string;
  privilege_close : bool -> result unit string;
  route_database : option string;
  catalog_answers : catalog_env;
  client_build : HttpSecurity -> result unit string;
  (** [base64] decoding of a part, and its media type *)
  decode_base64 : string -> result string string;
  mime_ok : string -> option string;
  (** the builder's own checks of method, URL and headers *)
  build_request : Request -> result unit string;
  (** the multipart request as it is built, with its [Content-Length] *)
  build_multipart : Request -> result (option N) string;
  send : HttpSecurity -> Request -> result HttpResponse SendError;
  sink_answers : sink_env;
  sink_timed_out : bool;
  elapsed_ms : N;
}.

Context (env : http_env).

(** ** The privilege *)

Definition privilege_signature (multipart endpoint : bool) : string * string :=
  match multipart, endpoint with
  | false, false =>
      ("df.http(pg_catalog.text,pg_catalog.text,pg_catalog.text,pg_catalog.jsonb,pg_catalog.int4)",
       "df.http(text,text,text,jsonb,integer)")
  | false, true =>
      ("df.http(df.http_endpoint,pg_catalog.text,pg_catalog.text,pg_catalog.jsonb,pg_catalog.int4)",
       "df.http(df.http_endpoint,text,text,jsonb,integer)")
  | true, false =>
      ("df.http_multipart(pg_catalog.text,pg_catalog.text,pg_catalog.jsonb,pg_catalog.jsonb,pg_catalog.int4)",
       "df.http_multipart(text,text,jsonb,jsonb,integer)")
  | true, true =>
      ("df.http_multipart(df.http_endpoint,pg_catalog.text,pg_catalog.jsonb,pg_catalog.jsonb,pg_catalog.int4)",
       "df.http_multipart(df.http_endpoint,text,jsonb,jsonb,integer)")
  end.

Definition check_http_privilege (again : bool) (submitted_by : string) (endpoint multipart : bool)
    : result unit string :=
  let? _ := map_err (fun e => "HTTP origin validation failed: " +:+ e) (privilege_begin env again) in
  let '(qualified_signature, signature) := privilege_signature multipart endpoint in
  let? has_priv := map_err
      (fun e => "HTTP privilege check failed for role '" +:+ submitted_by +:+ "': " +:+ e)
      (has_privilege env again submitted_by qualified_signature) in
  let? _ := map_err (fun e => "HTTP privilege check close failed: " +:+ e) (privilege_close env again) in
  match has_priv with
  | Some true => Ok tt
  | _ => Err ("Blocked: role '" +:+ submitted_by +:+ "' does not have EXECUTE privilege on " +:+
              (if multipart then "df.http_multipart" else "df.http") +:+ "() for this request. " +:+
              "Required function: " +:+ signature +:+
              ". Use df.grant_usage with include_http => true to allow HTTP requests.")
  end.

(** The client of a mode; without one there is no request. *)
Definition http_client (s : HttpSecurity) : result unit string :=
  match s with
  | Disabled => Err "Blocked: outbound HTTP requests are disabled."
  | _ => map_err (fun e => "Failed to create HTTP client: " +:+ e) (client_build env s)
  end.

(** ** Headers and bodies *)

(** The members of [headers] that are strings, but a [Content-Type] only where
    the request does not set its own. *)
Definition ordinary_headers (skip_content_type : bool) (headers : option value) : list header_op :=
  omap (fun '(key, v) =>
    if skip_content_type && eq_ignore_ascii_case key "content-type" then None
    else AppendHeader key <$> as_str v)
    (match headers ≫= as_object with Some l => l | None => [] end).

Definition all_headers (skip_content_type : bool) (headers : option value)
    (credential : option (string * string)) (resolved : ResolvedBindings) : list header_op :=
  ordinary_headers skip_content_type headers
    ++ match credential with Some (name, v) => [AppendHeader name v] | None => [] end
    ++ [ReplaceHeaders (rb_headers resolved)].

Definition CONTENT_TYPE : string := "content-type".

(** The body, and the header that goes with an encoded form. *)
Definition http_body (options : HttpBodyOptions) (form_body body : option string)
    : result (list header_op * request_body) string :=
  match form_body, body with
  | Some s, _ =>
      let? _ := check_request_bytes options (N.of_nat (String.length s)) in
      Ok ([AppendHeader CONTENT_TYPE "application/x-www-form-urlencoded"], TextBody s)
  | None, Some s =>
      let? _ := check_request_bytes options (N.of_nat (String.length s)) in Ok ([], TextBody s)
  | None, None => Ok ([], NoBody)
  end.

(** Base64 without the white space PostgreSQL puts into it. *)
Definition decode_part_data (data_b64 : string) : result string string :=
  if str_exists is_ascii_whitespace data_b64 then decode_base64 env (drop_ascii_whitespace data_b64)
  else decode_base64 env data_b64.

Fixpoint decode_parts (options : HttpBodyOptions) (total : N) (parts : list MultipartPart)
    : result (list (MultipartPart * string)) string :=
  match parts with
  | [] => Ok []
  | part :: parts' =>
      let? data := map_err
          (fun e => "Invalid base64 in part '" +:+ part_name part +:+ "': " +:+ e)
          (decode_part_data (part_data_b64 part)) in
      let? total := (if (u64_max <? total + N.of_nat (String.length data))%N
        then Err "HTTP request body length overflow"
        else Ok (total + N.of_nat (String.length data))%N) in
      let? _ := check_request_bytes options total in
      let? _ := match part_content_type part ≫= mime_ok env with
        | Some e => Err ("Invalid content_type for part '" +:+ part_name part +:+ "': " +:+ e)
        | None => Ok tt
        end in
      let? rest := decode_parts options total parts' in
      Ok ((part, data) :: rest)
  end.

Definition build_multipart_request (options : HttpBodyOptions) (request : Request)
    (parts : list MultipartPart) : result Request string :=
  let? _ := map_err (fun e => "Failed to build multipart request: " +:+ e)
      (build_request env request) in
  let? parts := decode_parts options 0 parts in
  let request := mkRequest (rq_method request) (rq_url request) (rq_timeout request)
      (rq_headers request) (FormParts parts) in
  let? length := map_err (fun e => "Failed to build multipart request: " +:+ e)
      (build_multipart env request) in
  match max_request_bytes options with
  | None => Ok request
  | Some _ =>
      let? n := ok_or length "Cannot enforce max_request_bytes: multipart body length is unknown" in
      let? _ := check_request_bytes options n in Ok request
  end.

(** ** The activities *)

(** A result, and what was done. *)
Definition act (A : Type) : Type := list http_event -> result A string * list http_event.
Definition ret_a {A} (a : A) : act A := fun log => (Ok a, log).
Definition bind_a {A B} (m : act A) (k : A -> act B) : act B :=
  fun log => match m log with (Ok a, log) => k a log | (Err e, log) => (Err e, log) end.
Definition lift_a {A} (r : result A string) : act A := fun log => (r, log).
Definition did (e : http_event) : act unit := fun log => (Ok tt, log ++ [e]).

Definition check_privilege (again : bool) (role : string) (endpoint multipart : bool) : act unit :=
  bind_a (lift_a (check_http_privilege again role endpoint multipart)) (fun _ =>
    did (PrivilegeChecked role endpoint multipart)).

(** The part of a config that decides where a request goes. *)
Record target := mkTarget {
  tg_url : string;
  tg_endpoint : option string;
  tg_method : string;
  tg_headers : option value;
  tg_timeout : N;
  tg_submitted_by : string;
  tg_has_body : bool;
  tg_secret_options : SecretOptions;
  tg_body_options : HttpBodyOptions;
}.

(** From the endpoint and the URL to the request with its secrets. *)
Definition prepare_destination (policy : HttpPolicy) (t : target)
    : catalog_m (EndpointRequest * (ResolvedBindings * EndpointRequest)) :=
  let ce := catalog_answers env in
  bind_c (prepare_request ce parse_request_url (tg_endpoint t) (tg_url t) (tg_headers t)) (fun prepared =>
    bind_c (lift_c (validate_scheme (ereq_url prepared) (security policy))) (fun _ =>
      bind_c (lift_c (validate_allowlist (ereq_url prepared) policy)) (fun _ =>
        bind_c (secret_resolve ce (tg_secret_options t) prepared (tg_headers t)) (fun resolved =>
          bind_c (close ce) (fun _ => ret_c (prepared, resolved)))))).

Definition in_catalog {A} (role : string) (m : catalog_m A) : act A := fun log =>
  let '(r, c) := m (catalog_new role (route_database env)) in (r, log ++ [Catalog (cat_events c)]).

(** The checks of both activities, in their order, up to the prepared request. *)
Definition authorize (policy : HttpPolicy) (multipart : bool) (t : target)
    : act (EndpointRequest * (ResolvedBindings * EndpointRequest)) :=
  bind_a (check_privilege false (tg_submitted_by t) (bool_decide (is_Some (tg_endpoint t))) multipart)
    (fun _ =>
      bind_a (lift_a (secret_options_validate (tg_secret_options t) (tg_has_body t) (tg_method t) multipart
                      (tg_headers t))) (fun _ =>
                        bind_a (lift_a (body_options_validate (tg_body_options t))) (fun _ =>
                          in_catalog (tg_submitted_by t) (prepare_destination policy t)))).

(** The URL as errors may show it. *)
Definition safe_url (t : target) (prepared final : EndpointRequest) : string :=
  if match secret_bindings (tg_secret_options t) with
    | Some b => negb (bool_decide (sb_query b = ∅))
    | None => false
    end
  then redact_url (url_as_str (ereq_url final))
  else
    match tg_endpoint t with
    | Some _ => redact_url (url_as_str (ereq_url prepared))
    | None => redact_url (tg_url t)
    end.

Definition send_error (t : target) (safe_url : string) (e : SendError) : string :=
  if is_ssrf_block_error (se_text e) then se_text e
  else
    let status_info := match se_status e with Some s => " (HTTP " +:+ show_N s +:+ ")" | None => "" end in
    if se_timeout e then
      "HTTP timeout after " +:+ show_N (tg_timeout t) +:+ "s" +:+ status_info +:+ ": " +:+ safe_url
    else if se_connect e then
      "HTTP connection failed" +:+ status_info +:+ ": " +:+ safe_url +:+ " - " +:+ se_text e
    else "HTTP request failed" +:+ status_info +:+ ": " +:+ safe_url +:+ " - " +:+ se_text e.

Definition is_server_error (status : N) : bool := (500 <=? status)%N && (status <? 600)%N.
Definition is_success (status : N) : bool := (200 <=? status)%N && (status <? 300)%N.

(** The second check, the request, the response, the sink, the envelope. *)
Definition transfer (policy : HttpPolicy) (multipart : bool) (t : target) (database : option string)
    (safe_url : string) (request : Request) : act string :=
  bind_a (check_privilege true (tg_submitted_by t) (bool_decide (is_Some (tg_endpoint t))) multipart)
    (fun _ =>
      bind_a (did (Sent (security policy) request)) (fun _ =>
        bind_a (lift_a (map_err (send_error t safe_url) (send env (security policy) request))) (fun response =>
          bind_a (lift_a (read_body response (tg_body_options t))) (fun content =>
            let status := resp_status response in
            bind_a (lift_a (if is_server_error status then Ok content
              else store_in_sink (sink_answers env) (sink_timed_out env) (tg_body_options t)
                            (tg_submitted_by t) database content)) (fun content =>
                              if is_server_error status then
                                bind_a (lift_a (ok_or (content_error_preview content) "unreachable: the excerpt ends on a boundary"))
                                  (fun preview =>
                                    lift_a (Err ((if multipart then "HTTP_MULTIPART " else "HTTP ") +:+ tg_method t +:+ " " +:+
                                                 safe_url +:+ " returned " +:+ show_N status +:+ ": " +:+ preview)))
                              else
                                ret_a (serialize_envelope status content (collect_headers response (tg_body_options t))
                                       (is_success status) (elapsed_ms env))))))).

Definition execute_http (policy : HttpPolicy) (config_json : string) : act string :=
  bind_a (lift_a (map_err (fun e => "Invalid HTTP config: " +:+ e)
                  (from_str_as "HttpConfig" de_http_config config_json))) (fun config =>
                    bind_a (lift_a (ok_or (hc_submitted_by config)
                                    "Blocked: HTTP node has no submitted_by — cannot verify privilege")) (fun role =>
                                      let t := mkTarget (hc_url config) (hc_endpoint config) (hc_method config) (hc_headers config)
                                          (hc_timeout_seconds config) role (bool_decide (is_Some (hc_body config)))
                                          (hc_secret_options config) (hc_body_options config) in
                                      bind_a (authorize policy false t) (fun '(prepared, (resolved, final)) =>
                                        bind_a (lift_a (http_client (security policy))) (fun _ =>
                                          if negb (bool_decide (hc_method config ∈ ["GET"; "POST"; "PUT"; "DELETE"; "PATCH"]))
                                          then lift_a (Err ("Unsupported HTTP method: " +:+ hc_method config))
                                          else
                                            bind_a (lift_a (http_body (hc_body_options config) (rb_form_body resolved) (hc_body config)))
                                              (fun '(content_type, body) =>
                                                transfer policy false t (hc_database config) (safe_url t prepared final)
                                                (mkRequest (hc_method config) (ereq_url final) (hc_timeout_seconds config)
                                                 (all_headers (bool_decide (is_Some (rb_form_body resolved))) (hc_headers config)
                                                  (ereq_credential_header final) resolved ++ content_type) body)))))).

(** The rest of the multipart activity once its request is built. *)
Definition transfer_multipart (policy : HttpPolicy) : target -> option string -> string -> Request -> act string :=
  transfer policy true.

Definition execute_multipart (policy : HttpPolicy) (config_json : string) : act string :=
  bind_a (lift_a (map_err (fun e => "Invalid multipart HTTP config: " +:+ e)
                  (from_str_as "MultipartConfig" de_multipart_config config_json))) (fun config =>
                    bind_a (lift_a (ok_or (mc_submitted_by config)
                                    "Blocked: HTTP_MULTIPART node has no submitted_by — cannot verify privilege")) (fun role =>
                                      let t := mkTarget (mc_url config) (mc_endpoint config) (mc_method config) (mc_headers config)
                                          (mc_timeout_seconds config) role false (mc_secret_options config) (mc_body_options config) in
                                      bind_a (authorize policy true t) (fun '(prepared, (resolved, final)) =>
                                        bind_a (lift_a (http_client (security policy))) (fun _ =>
                                          if negb (bool_decide (mc_method config ∈ ["POST"; "PUT"; "PATCH"]))
                                          then lift_a (Err ("Unsupported HTTP method for multipart: " +:+ mc_method config))
                                          else
                                            bind_a (lift_a (build_multipart_request (mc_body_options config)
                                                            (mkRequest (mc_method config) (ereq_url final) (mc_timeout_seconds config)
                                                             (all_headers true (mc_headers config) (ereq_credential_header final) resolved) NoBody)
                                                            (mc_parts config))) (fun request =>
                                                              transfer_multipart policy t (mc_database config) (safe_url t prepared final) request))))).
End Request.
