(* ===== verification/HttpOptions.v ===== *)
(** Options of HTTP nodes and the endpoint variants of the HTTP functions
    ([src/dsl.rs], lines 507-645 and 748-766). *)
From S2P Require Import Prelude RustString Json Substitution Graph Flatten HttpConfig UrlCrate.
From S2P Require Import Ssrf.
From S2P Require Import Endpoints Secrets HttpResponse HttpRequest Dsl.

Section HttpOptions.
Context {SJ : SerdeJson} {HD : HttpDeps} {UC : UrlCrate} {UO : UrlOps UC} {HC : HeaderCrate}.

(** ** Endpoints *)

(** [df.http] and [df.http_multipart] over a composite value, its fields NULL or not. *)
Definition http_endpoint (security : HttpSecurity) (server path : option string) (method : string)
    (body : option string) (headers : option value) (timeout_seconds : Z) : result string string :=
  let? endpoint := from_tuple server path in
  http_node security (er_path endpoint) method body headers timeout_seconds (Some (er_server endpoint)).

Definition http_multipart_endpoint (security : HttpSecurity) (server path : option string)
    (method : string) (parts headers : option value) (timeout_seconds : Z) : result string string :=
  let? endpoint := from_tuple server path in
  http_multipart_node security (er_path endpoint) method parts headers timeout_seconds
    (Some (er_server endpoint)).

(** ** Options *)

Definition ALLOWED_KEYS : list string :=
  ["form_fields"; "into"; "max_request_bytes"; "max_response_bytes"; "response"; "response_headers";
   "secret_bindings"].

(** The answer of PostgreSQL on the name of a sink table *)
Context (sink_table_name : string -> result (option string) string).

Definition options_error (msg : string) : string := "df.with_http_options(): " +:+ msg.

Definition single_http_node (node : Durofut) : bool :=
  bool_decide (d_node_type node ∈ ["HTTP"; "HTTP_MULTIPART"]) &&
  bool_decide (d_left_node node = None) && bool_decide (d_right_node node = None) &&
  bool_decide (d_condition_node node = None) && bool_decide (d_extra_nodes node = []).

Definition valid_config (node : Durofut) : bool :=
  match d_query node with
  | Some query =>
      if String.eqb (d_node_type node) "HTTP" then is_ok (from_str_as "HttpConfig" de_http_config query)
      else if String.eqb (d_node_type node) "HTTP_MULTIPART" then
        is_ok (from_str_as "MultipartConfig" de_multipart_config query)
      else false
  | None => false
  end.

Definition secret_option (key : string) : bool :=
  bool_decide (key ∈ ["secret_bindings"; "form_fields"]).

(** [config[key] = value] for every option that is written as it is; [None] panics. *)
Fixpoint write_options (map : members) (config : value) : option value :=
  match map with
  | [] => Some config
  | (key, v) :: map' =>
      if secret_option key then write_options map' config
      else config' ← index_set config key v; write_options map' config'
  end.

Fixpoint check_keys (keys : list string) : result unit string :=
  match keys with
  | [] => Ok tt
  | key :: keys' =>
      if bool_decide (key ∈ ALLOWED_KEYS) then check_keys keys'
      else Err (options_error ("unrecognised option '" +:+ key +:+ "'."))
  end.

Definition apply_options (fut query : string) (map : members) : result string string :=
  let? config := map_err (fun e => "Validated HTTP configuration: " +:+ e) (value_from_str query) in
  let? config := ok_or (write_options map config) "cannot access key in JSON value" in
  let? body_options := map_err (fun e => options_error ("invalid body options: " +:+ e))
      (ok_or (as_object config ≫= de_body_options) (type_error "HttpBodyOptions" (value_to_string config))) in
  let? _ := map_err options_error (body_options_validate body_options) in
  let? _ := map_err options_error (validate_http_sink_name sink_table_name config) in
  let? node := map_err (fun e => "Validated HTTP node: " +:+ e) (value_from_str fut) in
  let? configured := ok_or (index_set node "query" (JString (value_to_string config)))
      "cannot access key in JSON value" in
  let configured := value_to_string configured in
  if negb (bool_decide ("secret_bindings" ∈ obj_keys map)) && negb (bool_decide ("form_fields" ∈ obj_keys map))
  then
    let? _ := map_err options_error (check_http_request_size config true) in
    Ok configured
  else
    let either key := match obj_get key map with Some v => Some v | None => get key config end in
    let bindings := default (Object []) (either "secret_bindings") in
    let form := either "form_fields" in
    map_err options_error (configure_bindings configured bindings form).

Definition with_http_options (fut : string) (options : option value) : result string string :=
  match try_from_json fut with
  | Err _ => Err (options_error "expected an HTTP or HTTP_MULTIPART node")
  | Ok node =>
      if negb (single_http_node node) then
        Err (options_error "expected a single HTTP or HTTP_MULTIPART node")
      else if negb (valid_config node) then Err (options_error "HTTP node config is malformed")
      else
        match options with
        | None => Ok fut
        | Some options =>
            let? map := ok_or (as_object options) (options_error "options must be a JSON object") in
            let? _ := check_keys (obj_keys map) in
            match map, d_query node with
            | [], _ | _, None => Ok fut
            | _, Some query => apply_options fut query map
            end
        end
  end.
End HttpOptions.
