(* ===== verification/HttpOptionsSpec.v ===== *)
(** Setting options on an HTTP node changes its options and nothing else, and what
    it leaves is valid. *)
From S2P Require Import Prelude RustString Json JsonText Substitution Graph Flatten HttpConfig.
From S2P Require Import UrlCrate.
From S2P Require Import Ssrf Endpoints Secrets HttpResponse HttpRequest Dsl HttpOptions.

(** ** Writing members *)

Lemma obj_insert_insert k v1 v2 l : obj_insert k v2 (obj_insert k v1 l) = obj_insert k v2 l.
Proof.
  induction l as [|[k' v'] l IH]; simpl; [by rewrite String.eqb_refl|].
  destruct (String.eqb k k') eqn:E; simpl; [by rewrite String.eqb_refl|by rewrite E, IH].
Qed.

Lemma wf_obj_get l k v : wf_value (Object l) = true -> obj_get k l = Some v -> wf_value v = true.
Proof.
  cbn [wf_value]. rewrite andb_true_iff, forallb_forall. intros [_ H] Hg.
  assert (Hin : (k, v) ∈ l).
  { revert Hg. clear. induction l as [|[k' v'] l IH]; [done|]. cbn [obj_get].
    destruct (String.eqb_spec k k') as [->|]; [intros [= ->]|]; set_solver. }
  by apply (H (k, v)), list_elem_of_In.
Qed.

(** The options that are written as they are. *)
Definition plain_option (opts : members) (k : string) : option value :=
  if secret_option k then None else obj_get k opts.

Lemma obj_get_None k l : k ∉ obj_keys l -> obj_get k l = None.
Proof.
  induction l as [|[k' v'] l IH]; [done|]. cbn. intros Hk.
  destruct (String.eqb_spec k k') as [->|]; set_solver.
Qed.

Lemma write_options_get opts : NoDup (obj_keys opts) -> forall config config',
  write_options opts (Object config) = Some config' ->
  exists l, config' = Object l /\
    forall k, obj_get k l = match plain_option opts k with Some v => Some v | None => obj_get k config end.
Proof.
  unfold plain_option. induction opts as [|[key v] opts IH]; cbn [obj_keys map fst write_options obj_get].
  { intros _ config config' [= <-]. exists config. split; [done|]. intros k. by destruct (secret_option k). }
  intros [Hkey Hnd]%NoDup_cons config config'.
  destruct (secret_option key) eqn:Es.
  - intros H. apply IH in H as (l & -> & H); [|done]. exists l. split; [done|]. intros k. rewrite H.
    destruct (String.eqb_spec k key) as [->|]; [|done]. by rewrite Es.
  - cbn [index_set mbind option_bind]. intros H. apply IH in H as (l & -> & H); [|done].
    exists l. split; [done|]. intros k. rewrite H. destruct (String.eqb_spec k key) as [->|Hk].
    + by rewrite Es, (obj_get_None key opts), obj_get_insert_eq.
    + by rewrite obj_get_insert_ne by done.
Qed.

Lemma write_options_wf opts config config' :
  wf_value (Object opts) = true -> wf_value config = true -> write_options opts config = Some config' ->
  wf_value config' = true.
Proof.
  intros Ho. assert (Hv : forallb (fun kv => wf_value (snd kv)) opts = true)
    by (cbn [wf_value] in Ho; by apply andb_true_iff in Ho as [_ ?]).
  clear Ho. revert config Hv. induction opts as [|[key v] opts IH]; cbn [forallb write_options snd];
    intros config; [by intros _ Hc [= <-]|].
  intros [Hv Hvs]%andb_true_iff Hc. destruct (secret_option key); [by apply IH|].
  destruct config; cbn [index_set mbind option_bind]; try done.
  - apply IH; [done|]. cbn. by rewrite Hv, bool_decide_true by (repeat constructor; set_solver).
  - apply IH; [done|]. by apply wf_obj_insert.
Qed.

Lemma check_keys_ok keys : check_keys keys = Ok tt -> forall k, k ∈ keys -> k ∈ ALLOWED_KEYS.
Proof.
  induction keys as [|key keys IH]; cbn [check_keys]; [set_solver|].
  case_bool_decide; [|done]. intros H' k [->|]%elem_of_cons; auto.
Qed.

(** Body options are read from the members that are no secrets. *)
Lemma de_body_options_get l l' :
  (forall k, secret_option k = false -> obj_get k l = obj_get k l') -> de_body_options l = de_body_options l'.
Proof. intros H. unfold de_body_options, opt. by rewrite !H by reflexivity. Qed.

Section Options.
Context {SJ : SerdeJson} {SJL : SerdeJsonLaws SJ} {HD : HttpDeps}.
Context {UC : UrlCrate} {UO : UrlOps UC} {HC : HeaderCrate}.
Context (sink_table_name : string -> result (option string) string).

(** What is stored of the secrets of a request: bindings that validate together with
    the form and the rest of the request. *)
Definition secrets_stored (config : members) : Prop :=
  exists b fields multipart,
  secret_options_validate (mkSecretOptions (Some b) fields)
    (match obj_get "body" config with Some body => negb (is_null body) | None => false end)
    (default "" (obj_get "method" config ≫= as_str)) multipart (obj_get "headers" config) = Ok tt /\
  obj_get "secret_bindings" config = Some (en_secret_bindings b) /\
  (forall f, fields = Some f -> obj_get "form_fields" config = Some (en_string_map f)).

Lemma configure_bindings_sets node config bindings form out :
  wf_value (Object node) = true -> wf_value (Object config) = true ->
  configure_bindings (value_to_string (Object (obj_insert "query" (JString (value_to_string (Object config))) node)))
    bindings form = Ok out ->
  exists config', out = value_to_string (Object (obj_insert "query" (JString (value_to_string (Object config'))) node)) /\
  (forall k, secret_option k = false -> obj_get k config' = obj_get k config) /\
  secrets_stored config' /\ check_http_request_size (Object config') true = Ok tt.
Proof.
  intros Hn Hc. set (l := obj_insert "query" _ node).
  assert (Hq : get "query" (Object l) = Some (JString (value_to_string (Object config))))
    by apply obj_get_insert_eq.
  assert (Hl : value_from_str (value_to_string (Object l)) = Ok (Object l))
    by (apply value_from_to_string, wf_obj_insert; done).
  unfold configure_bindings. rewrite Hl. intros (b & _ & H)%result_bind_ok.
  apply result_bind_ok in H as ([] & _ & H). cbn [map_err result_bind] in H.
  apply result_bind_ok in H as (multipart & _ & H). rewrite Hq in H. cbn [mbind option_bind as_str ok_or result_bind] in H.
  rewrite value_from_to_string in H by done. cbn [map_err result_bind as_object] in H.
  apply result_bind_ok in H as (fields & _ & H). apply result_bind_ok in H as ([] & Hv & H).
  set (l1 := obj_insert "secret_bindings" _ config) in H.
  set (config' := match fields with Some f => obj_insert "form_fields" (en_string_map f) l1 | None => l1 end).
  assert (Hsame : forall k, secret_option k = false -> obj_get k config' = obj_get k config).
  { intros k Hk. subst config' l1. apply bool_decide_eq_false in Hk.
    destruct fields; rewrite !obj_get_insert_ne by set_solver; done. }
  fold config' in H. apply result_bind_ok in H as ([] & Hsize & [= <-]).
  exists config'. subst l. rewrite obj_insert_insert. split_and!; [done|done| |done].
  exists b, fields, multipart. rewrite !Hsame by done. split_and!; [done| |].
  - subst config' l1. destruct fields; [rewrite obj_get_insert_ne by done|]; apply obj_get_insert_eq.
  - intros f ->. apply obj_get_insert_eq.
Qed.

(** [df.with_http_options] only sets options.  The node it returns is the given one
    but for its query, a config with the given options as they are, every other member
    unchanged (the URL, the method, the endpoint, the body and the headers can not be
    options); its body options validate and its request is within its limit, and
    secret bindings and form fields are stored after validating with the rest of the
    request. *)
Theorem http_options_only_options fut d query node config opts out :
  try_from_json fut = Ok d -> d_query d = Some query ->
  value_from_str fut = Ok (Object node) -> wf_value (Object node) = true ->
  value_from_str query = Ok (Object config) -> wf_value (Object config) = true ->
  wf_value (Object opts) = true -> opts <> [] ->
  with_http_options sink_table_name fut (Some (Object opts)) = Ok out ->
  exists config',
  out = value_to_string (Object (obj_insert "query" (JString (value_to_string (Object config'))) node)) /\
  (forall k, k ∉ ALLOWED_KEYS -> obj_get k config' = obj_get k config) /\
  (forall k, secret_option k = false ->
   obj_get k config' = match obj_get k opts with Some v => Some v | None => obj_get k config end) /\
  (exists o, de_body_options config' = Some o /\ body_options_validate o = Ok tt) /\
  check_http_request_size (Object config') true = Ok tt /\
  ("secret_bindings" ∈ obj_keys opts \/ "form_fields" ∈ obj_keys opts -> secrets_stored config').
Proof.
  intros Hd Hdq Hfut Hn Hquery Hc Ho Hne. unfold with_http_options. rewrite Hd.
  destruct (single_http_node d); [|done]. destruct (valid_config d); [|done]. cbn [negb as_object ok_or result_bind].
  intros ([] & Hkeys & H)%result_bind_ok. rewrite Hdq in H.
  assert (H' : apply_options sink_table_name fut query opts = Ok out) by (by destruct opts). clear H.
  unfold apply_options in H'. rewrite Hquery in H'. cbn [map_err result_bind] in H'.
  apply result_bind_ok in H' as (c1 & Hc1%ok_or_ok & H). pose proof (write_options_wf _ _ _ Ho Hc Hc1) as Hwf.
  apply write_options_get in Hc1 as (l & -> & Hl);
    [|cbn [wf_value] in Ho; apply andb_true_iff in Ho as [Ho _]; by apply bool_decide_eq_true in Ho].
  apply result_bind_ok in H as (o & Hbo%map_err_ok%ok_or_ok & H). cbn [as_object mbind option_bind] in Hbo.
  apply result_bind_ok in H as ([] & Hval%map_err_ok & H). apply result_bind_ok in H as ([] & _ & H).
  rewrite Hfut in H. cbn [map_err result_bind index_set ok_or] in H.
  assert (Hfinal : exists config',
    out = value_to_string (Object (obj_insert "query" (JString (value_to_string (Object config'))) node)) /\
    (forall k, secret_option k = false -> obj_get k config' = obj_get k l) /\
    check_http_request_size (Object config') true = Ok tt /\
    ("secret_bindings" ∈ obj_keys opts \/ "form_fields" ∈ obj_keys opts -> secrets_stored config')).
  { destruct (negb _ && negb _) eqn:Hs in H.
    - apply andb_true_iff in Hs as [H1%negb_true_iff%bool_decide_eq_false H2%negb_true_iff%bool_decide_eq_false].
      apply result_bind_ok in H as ([] & Hsize%map_err_ok & [= <-]). exists l. split_and!; naive_solver.
    - apply map_err_ok, configure_bindings_sets in H as (config' & -> & ? & ? & ?); [|done..].
      exists config'. split_and!; try done.
  }
  clear H. destruct Hfinal as (config' & -> & Hsame & Hsize & Hsecrets). exists config'.
  assert (Hget : forall k, secret_option k = false ->
    obj_get k config' = match obj_get k opts with Some v => Some v | None => obj_get k config end).
  { intros k Hk. rewrite Hsame, Hl by done. unfold plain_option. by rewrite Hk. }
  split_and!; try done.
  - intros k Hk. rewrite Hget.
    + rewrite obj_get_None; [done|]. intros Hin. by apply Hk, (check_keys_ok (obj_keys opts)).
    + apply bool_decide_eq_false. unfold ALLOWED_KEYS in Hk. set_solver.
  - exists o. rewrite <- Hbo. split; [|done]. by apply de_body_options_get.
Qed.
End Options.

(** ** A sample node *)

#[local] Existing Instance text_json.
#[local] Existing Instance sample_url.
#[local] Existing Instance sample_headers.
#[local] Existing Instance sample_http.

Module SampleOptions.
Definition config : members :=
  [("url", JString "https://api.github.com/"); ("method", JString "POST"); ("body", Null)].
Definition query : string := value_to_string (Object config).
Definition node : members := [("node_type", JString "HTTP"); ("query", JString query)].
Definition fut : string := value_to_string (Object node).
Definition reference : value := Object [("server", JString "foo"); ("key", JString "token")].
Definition options : members :=
  [("response", JString "metadata"); ("max_request_bytes", Number (PosInt 100));
   ("secret_bindings", Object [("form", Object [("password", reference)])])].
Definition config_with_options : members :=
  config ++ [("response", JString "metadata"); ("max_request_bytes", Number (PosInt 100));
             ("secret_bindings", Object [("form", Object [("password", reference)])])].
Definition result_ : string :=
  value_to_string (Object (obj_insert "query" (JString (value_to_string (Object config_with_options))) node)).
Definition no_table (name : string) : result (option string) string := Ok None.
End SampleOptions.

Lemma http_options_only_options_witness :
  with_http_options SampleOptions.no_table SampleOptions.fut (Some (Object SampleOptions.options))
  = Ok SampleOptions.result_ /\
  exists config',
    SampleOptions.result_ = value_to_string (Object (obj_insert "query"
      (JString (value_to_string (Object config'))) SampleOptions.node)) /\
    (forall k, k ∉ ALLOWED_KEYS -> obj_get k config' = obj_get k SampleOptions.config) /\
    secrets_stored config'.
Proof.
  assert (H : with_http_options SampleOptions.no_table SampleOptions.fut (Some (Object SampleOptions.options))
    = Ok SampleOptions.result_) by (vm_compute; reflexivity).
  split; [exact H|].
  destruct (http_options_only_options SampleOptions.no_table SampleOptions.fut
    (mkDurofut "HTTP" None None None [] (Some SampleOptions.query) None) SampleOptions.query
    SampleOptions.node SampleOptions.config SampleOptions.options SampleOptions.result_)
    as (config' & Hout & Hother & _ & _ & _ & Hsecrets);
    [vm_compute; reflexivity|reflexivity|vm_compute; reflexivity..|done|exact H|].
  exists config'. split; [exact Hout|]. split; [exact Hother|]. apply Hsecrets. left.
  apply (bool_decide_unpack _). vm_compute. exact I.
Defined.
