(* ===== verification/EndpointSpec.v ===== *)
(** What stored endpoints guarantee ([Endpoints]): requests stay below the base
    URL and keep its credentials, errors name no credential, and credentials are
    those of the submitting role. *)
From S2P Require Import Prelude RustString Json JsonText UrlCrate Endpoints.

Lemma str_app_starts p s : starts_with p (p +:+ s) = true.
Proof. apply starts_with_spec. by exists s. Qed.

Lemma existsb_false_elem {A} (f : A -> bool) l x : existsb f l = false -> x ∈ l -> f x = false.
Proof.
  intros H Hx. apply not_true_iff_false. intros Ht. apply not_true_iff_false in H. apply H.
  apply existsb_exists. exists x. by rewrite <- list_elem_of_In.
Qed.

Section Confined.
Context {UC : UrlCrate} {UO : UrlOps UC} {UL : UrlOpsLaws UC UO} {HC : HeaderCrate}.

(** [url] lies below [base]. *)
Definition below (base url : Url) : Prop :=
  url_same_origin url base = true /\
  starts_with (strip_slash (url_path base) +:+ "/") (url_path url) = true.

Lemma below_set_query base url q : below base (url_set_query q url) <-> below base url.
Proof. unfold below. by rewrite set_query_origin, set_query_path. Qed.

Lemma compose_below base path url :
  compose_endpoint_url base path = Ok url ->
  below base url /\ validate_endpoint_path path = Ok tt /\
  url_parse (strip_slash (url_as_str base) +:+ path) = Ok url.
Proof.
  unfold compose_endpoint_url. intros H. apply result_bind_ok in H as ([] & Hv & H).
  apply result_bind_ok in H as (u & Hu%map_err_ok & H).
  destruct (negb (url_same_origin u base)) eqn:Ho; [done|]. cbn [orb] in H.
  destruct (negb (starts_with _ (url_path u))) eqn:Hp; simplify_eq.
  split_and!; [|done|done]. split; by apply negb_false_iff.
Qed.

(** Header names that fold to the same name. *)
Definition same_header (a b : string) : Prop := to_ascii_lowercase a = to_ascii_lowercase b.

Lemma eq_ignore_case_spec a b : eq_ignore_ascii_case a b = true <-> same_header a b.
Proof. unfold eq_ignore_ascii_case, same_header. apply String.eqb_eq. Qed.

(** What a prepared request leaves the caller, and its credential. *)
Lemma prepared_headers_free e path headers r :
  prepare_endpoint_request e path headers = Ok r ->
  (forall name, name ∈ header_names headers -> ~ same_header name "host" /\
   forall credential, credential_name (re_auth e) = Some credential -> ~ same_header name credential) /\
  fst <$> ereq_credential_header r = credential_name (re_auth e).
Proof.
  unfold prepare_endpoint_request. intros H. apply result_bind_ok in H as (url & Hu & H).
  destruct (existsb _ (header_names headers)) eqn:Hh; [done|]. split.
  - intros name Hin. pose proof (existsb_false_elem _ _ _ Hh Hin) as [H1 H2]%orb_false_iff.
    rewrite <- eq_ignore_case_spec, H1. split; [done|].
    intros credential Hc. rewrite Hc in H2. by rewrite <- eq_ignore_case_spec, H2.
  - destruct (re_auth e); simplify_eq; try done. apply result_bind_ok in H as (c & _ & H).
    cbv zeta in H. destruct (existsb _ (url_query_pairs _)); by simplify_eq.
Qed.

(** C13: A request through an endpoint stays there and keeps its credentials.
    Whatever path and headers the caller gives, the URL that is requested has the
    origin of the base URL and a path below the base path, no segment of the
    caller's path decodes to a parent step or a separator, no header of the caller
    is [Host] or the credential's, and the credentials of the endpoint are all
    there: as the header, or as the parameters appended to a query that names none
    of them. *)
Theorem endpoint_request_confined e path headers r :
  prepare_endpoint_request e path headers = Ok r ->
  below (re_base_url e) (ereq_url r) /\
  Forall (fun segment => segment_escapes segment = false)
    (split_char "/" (default "" (head (split_char "?" path)))) /\
  (forall name, name ∈ header_names headers -> ~ same_header name "host" /\
   forall credential, credential_name (re_auth e) = Some credential -> ~ same_header name credential) /\
  exists url, compose_endpoint_url (re_base_url e) path = Ok url /\
  match re_auth e with
  | NoAuth => r = mkEndpointRequest url None
  | BearerAuth v => r = mkEndpointRequest url (Some (AUTHORIZATION, v))
  | HeaderAuth name v => r = mkEndpointRequest url (Some (name, v))
  | QueryAuth query =>
      r = mkEndpointRequest (append_query url query) None /\
      forall c name, credential_url query = Ok c -> name ∈ map fst (url_query_pairs c) ->
      name ∉ map fst (url_query_pairs url)
  end.
Proof.
  intros Hprep. pose proof Hprep as H. unfold prepare_endpoint_request in H.
  apply result_bind_ok in H as (url & Hu & H).
  pose proof (compose_below _ _ _ Hu) as (Hb & Hpath & _).
  destruct (existsb _ (header_names headers)) eqn:Hh; [done|].
  pose proof (proj1 (prepared_headers_free e path headers r Hprep)) as Hnames.
  assert (Hseg : Forall (fun segment => segment_escapes segment = false)
    (split_char "/" (default "" (head (split_char "?" path))))).
  { unfold validate_endpoint_path in Hpath. destruct (_ || has_white_space path); [done|].
    destruct (existsb segment_escapes _) eqn:Hs; [done|].
    apply Forall_forall. intros segment Hin. by eapply existsb_false_elem. }
  destruct (re_auth e) as [|v|name v|query]; simplify_eq.
  - split_and!; [done|done|done|]. by exists url.
  - split_and!; [done|done|done|]. by exists url.
  - split_and!; [done|done|done|]. by exists url.
  - apply result_bind_ok in H as (c & Hc%map_err_ok & H).
    destruct (existsb _ (url_query_pairs url)) eqn:Hq; [done|]. simplify_eq. cbn [ereq_url].
    split_and!; [unfold append_query; by rewrite below_set_query|done|done|].
    exists url. split_and!; [done|done|]. intros c' name Hc' Hin ([n v] & -> & Hp)%list_elem_of_fmap.
    assert (c' = c) as -> by congruence.
    pose proof (existsb_false_elem _ _ _ Hq Hp) as Hn. by rewrite bool_decide_eq_false in Hn.
Qed.
End Confined.

(** ** Errors *)

(** Every error of the options of a user mapping.  None holds a value. *)
Definition mapping_errors : list string :=
  ["Invalid endpoint option: expected name=value"; "Duplicate endpoint option";
   "Secret keys must be nonempty without control characters or '='";
   "Endpoint credential options must not be empty"; "Invalid endpoint credential header value";
   "Endpoint bearer token must be ASCII without whitespace";
   "Endpoint query_string must be a nonempty encoded query without a fragment";
   "Invalid endpoint query_string"; "Endpoint query_string must already be URL-encoded";
   "Unsupported endpoint user mapping option; allowed: token, header_value, query_string, secret.<key>"].

Definition auth_errors : list string :=
  ["Endpoint option 'token' is required and must not be empty";
   "Endpoint option 'header_value' is required and must not be empty";
   "Endpoint option 'query_string' is required and must not be empty";
   "Invalid endpoint bearer token"].

Ltac in_list := refine (bool_decide_unpack _ _); vm_compute; exact I.

Section Errors.
Context {UC : UrlCrate} {UO : UrlOps UC} {HC : HeaderCrate}.

Lemma parse_options_errors options parsed e :
  parse_options_go options parsed = Err e -> e ∈ mapping_errors.
Proof.
  revert parsed. induction options as [|o l IH]; intros parsed; [done|]. cbn.
  destruct (split_once_char "=" o) as [[name v]|]; [|intros [= <-]; in_list].
  destruct (bool_decide _); [intros [= <-]; in_list|]. apply IH.
Qed.

Lemma mapping_option_errors name v e : validate_mapping_option name v = Err e -> e ∈ mapping_errors.
Proof.
  unfold validate_mapping_option. destruct (strip_prefix _ name) as [key|].
  { unfold validate_secret_key. destruct (_ || has_control key); [intros [= <-]; in_list|done]. }
  destruct (str_is_empty v); [intros [= <-]; in_list|].
  destruct (_ || String.eqb name "header_value").
  { destruct (negb (header_value_ok v)); [intros [= <-]; in_list|].
    destruct (_ && _); [intros [= <-]; in_list|done]. }
  destruct (String.eqb name "query_string"); [|intros [= <-]; in_list].
  destruct (_ || contains_char "}" _); [intros [= <-]; in_list|].
  intros [H|(c & Hc & H)]%result_bind_err.
  - destruct (credential_url _); simplify_eq/=; in_list.
  - destruct (bool_decide _); simplify_eq; in_list.
Qed.

Lemma mapping_options_errors options e : validate_mapping_options options = Err e -> e ∈ mapping_errors.
Proof.
  unfold validate_mapping_options. intros [H|(m & _ & H)]%result_bind_err.
  { by eapply parse_options_errors. }
  induction (sorted_entries m) as [|[name v] l IH]; [done|]. cbn in H.
  apply result_bind_err in H as [H|(_ & _ & H)]; [by eapply mapping_option_errors|by apply IH].
Qed.

Lemma required_error m name e : required m name = Err e ->
  e = "Endpoint option '" +:+ name +:+ "' is required and must not be empty".
Proof. unfold required. destruct (_ ≫= _); by intros [= <-]. Qed.

(** Errors about credentials show no credential: every error of the options of
    a user mapping, on their own or as credentials of an endpoint, is one of
    fourteen fixed texts. *)
Theorem credential_errors_fixed config options e :
  (validate_mapping_options options = Err e -> e ∈ mapping_errors) /\
  (resolve_auth config options = Err e -> e ∈ mapping_errors ++ auth_errors).
Proof.
  split; [apply mapping_options_errors|]. unfold resolve_auth.
  intros [H|(_ & _ & H)]%result_bind_err.
  { apply elem_of_app. left. by apply mapping_options_errors in H. }
  apply result_bind_err in H as [H|(m & _ & H)].
  { apply elem_of_app. left. by apply parse_options_errors in H. }
  apply elem_of_app. destruct config as [| |name|]; [done|..];
    apply result_bind_err in H as [->%required_error|(v & _ & H)]; try (right; in_list).
  - destruct (header_value_ok _); simplify_eq. right; in_list.
  - destruct (header_value_ok v); simplify_eq. left; in_list.
  - done.
Qed.
End Errors.

(** ** The catalog *)

Section Catalog.
Context {UC : UrlCrate} {UO : UrlOps UC} {HC : HeaderCrate} (env : catalog_env).
(** The role and the database of the request. *)
Context (role : string) (database : option string).

(** A server entry that came from the catalog's rows. *)
Record sound_server (server : string) (entry : CatalogServer) : Prop := {
  ss_session : open_connection env role database = Ok tt;
  ss_row : exists options, server_row env server = Some (Some (cs_oid entry, true, true, options)) /\
  from_options (default [] options) = Ok (cs_config entry);
  ss_mapping : forall m, cs_mapping entry = Some m -> load_user_mapping env (cs_oid entry) = Ok m;
}.

(** What holds of the catalog of a role throughout a request. *)
Record sound_catalog (c : EndpointCatalog) : Prop := {
  sc_role : cat_submitted_by c = role;
  sc_database : cat_database c = database;
  sc_connection : cat_connection c = true -> open_connection env role database = Ok tt;
  sc_servers : forall server entry, cat_servers c !! server = Some entry -> sound_server server entry;
  sc_events : forall r d, Connected r d ∈ cat_events c -> r = role /\ d = database;
}.

Lemma catalog_new_sound : sound_catalog (catalog_new role database).
Proof. split; try done. intros r d H. by apply elem_of_nil in H. Qed.

(** [m] keeps the catalog sound, and what it returns satisfies [Q]. *)
Definition keeps {A} (Q : A -> Prop) (m : catalog_m A) : Prop :=
  forall c r c', sound_catalog c -> m c = (r, c') -> sound_catalog c' /\ forall a, r = Ok a -> Q a.

Lemma keeps_ret {A} (Q : A -> Prop) a : Q a -> keeps Q (ret_c a).
Proof. intros HQ c r c' Hc [= <- <-]. split; [done|]. by intros ? [= <-]. Qed.

Lemma keeps_lift {A} (Q : A -> Prop) x : (forall a, x = Ok a -> Q a) -> keeps Q (lift_c x).
Proof. intros HQ c r c' Hc [= <- <-]. by split. Qed.

Lemma keeps_bind {A B} (P : A -> Prop) (Q : B -> Prop) m (k : A -> catalog_m B) :
  keeps P m -> (forall a, P a -> keeps Q (k a)) -> keeps Q (bind_c m k).
Proof.
  intros Hm Hk c r c' Hc. unfold bind_c. destruct (m c) as [[a|e] c1] eqn:E.
  - destruct (Hm _ _ _ Hc E) as [Hc1 Ha]. by apply Hk; [apply Ha|].
  - intros [= <- <-]. split; [by eapply Hm|done].
Qed.

Lemma sound_log e c :
  (forall r d, e = Connected r d -> r = role /\ d = database) ->
  sound_catalog c -> sound_catalog (log_event e c).
Proof.
  intros He [H1 H2 H3 H4 H5]. split; try done. cbn. intros r d [Hin | Hin%list_elem_of_singleton]%elem_of_app.
  - by apply H5.
  - by apply He.
Qed.

Lemma sound_insert server entry c :
  sound_server server entry -> sound_catalog c ->
  sound_catalog (set_servers (<[server := entry]> (cat_servers c)) c).
Proof.
  intros He [H1 H2 H3 H4 H5]. split; try done. cbn. intros s en.
  rewrite lookup_insert_Some. intros [[<- <-]|[_ Hen]]; [done|by apply H4].
Qed.

Lemma keeps_connection : keeps (fun _ => open_connection env role database = Ok tt) (connection env).
Proof.
  intros c r c' Hc. unfold connection. destruct (cat_connection c) eqn:Hconn.
  { intros [= <- <-]. split; [done|]. intros [] _. by apply (sc_connection _ Hc). }
  destruct (execution_permit env); [|by intros [= <- <-]].
  cbv zeta.
  change (cat_submitted_by (log_event (Connected (cat_submitted_by c) (cat_database c)) c)) with (cat_submitted_by c).
  change (cat_database (log_event (Connected (cat_submitted_by c) (cat_database c)) c)) with (cat_database c).
  rewrite (sc_role _ Hc), (sc_database _ Hc).
  assert (Hlog : sound_catalog (log_event (Connected role database) c))
    by (apply sound_log; [by intros ? ? [= -> ->]|done]).
  destruct (open_connection env role database) as [[]|e] eqn:Ho; intros [= <- <-]; [|done].
  split; [|done]. destruct Hlog as [L1 L2 L3 L4 L5]. by split.
Qed.

Lemma keeps_load_server server : keeps (sound_server server) (load_server env server).
Proof.
  intros c r c' Hc. unfold load_server.
  destruct (cat_servers c !! server) as [entry|] eqn:Hs.
  { intros [= <- <-]. split; [done|]. intros a [= <-]. by apply (sc_servers _ Hc). }
  destruct (connection env c) as [[[]|e] c1] eqn:Hconn.
  - destruct (keeps_connection _ _ _ Hc Hconn) as [Hc1 Ho].
    assert (Hlog : sound_catalog (log_event (ReadServer server) c1)) by (by apply sound_log).
    destruct (checked_server env server) as [entry|e] eqn:He; intros [= <- <-]; [|done].
    assert (Hentry : sound_server server entry).
    { unfold checked_server in He. apply result_bind_ok in He as (row & Hrow%ok_or_ok & He).
      apply result_bind_ok in He as ([[[oid mine] usage] options] & ->%ok_or_ok & He).
      unfold expect in He. destruct mine; [|done]. destruct usage; [|done].
      apply result_bind_ok in He as (? & _ & He). apply result_bind_ok in He as (? & _ & He).
      apply result_bind_ok in He as (config & Hconf & [= <-]).
      split; [by apply (Ho tt)|by exists options|done]. }
    split; [by apply (sound_insert server entry (log_event (ReadServer server) c1))|by intros a [= <-]].
  - intros [= <- <-]. split; [by eapply keeps_connection|done].
Qed.

Lemma keeps_update (f : EndpointCatalog -> EndpointCatalog) :
  (forall c, sound_catalog c -> sound_catalog (f c)) -> keeps (fun _ => True) (update_c f).
Proof. intros Hf c r c' Hc [= <- <-]. split; [by apply Hf|done]. Qed.

Lemma keeps_load_mapping server :
  keeps (fun mapping => exists entry, sound_server server entry /\
         load_user_mapping env (cs_oid entry) = Ok mapping) (load_mapping env server).
Proof.
  unfold load_mapping. eapply keeps_bind; [apply keeps_load_server|]. intros entry He.
  destruct (cs_mapping entry) as [mapping|] eqn:Hm.
  { apply keeps_ret. exists entry. split; [done|]. by apply (ss_mapping _ _ He). }
  eapply keeps_bind; [apply keeps_connection|]. intros [] _.
  eapply keeps_bind; [by apply keeps_update; intros c Hc; apply sound_log|]. intros [] _.
  eapply (keeps_bind (fun mapping => load_user_mapping env (cs_oid entry) = Ok mapping));
    [by apply keeps_lift|]. intros mapping Hl.
  eapply keeps_bind; [apply keeps_update; intros c Hc; apply sound_insert; [|done]|].
  - destruct He as [H1 H2 H3]. split; [done|done|]. by intros m [= <-].
  - intros [] _. apply keeps_ret. by exists entry.
Qed.

(** A resolved endpoint whose credentials are those of the role. *)
Definition own_endpoint (server : string) (e : ResolvedEndpoint) : Prop :=
  exists entry, sound_server server entry /\ base_url (cs_config entry) = Some (re_base_url e) /\
  match auth_scheme (cs_config entry) with
  | AuthNone => re_auth e = NoAuth
  | scheme => exists entry' mapping, sound_server server entry' /\
      load_user_mapping env (cs_oid entry') = Ok mapping /\ resolve_auth scheme mapping = Ok (re_auth e)
  end.

Lemma keeps_resolve_endpoint server : keeps (own_endpoint server) (resolve_endpoint env server).
Proof.
  unfold resolve_endpoint. eapply keeps_bind; [apply keeps_load_server|]. intros entry He.
  eapply (keeps_bind (fun base => base_url (cs_config entry) = Some base));
    [by apply keeps_lift; intros b Hb%ok_or_ok|]. intros base Hbase.
  destruct (auth_scheme (cs_config entry)) as [| |name|] eqn:Hs.
  { apply keeps_ret. exists entry. by rewrite Hs. }
  all: (eapply keeps_bind; [apply keeps_load_mapping|]; intros mapping (entry' & He' & Hl);
    eapply (keeps_bind (fun auth => resolve_auth _ mapping = Ok auth)); [by apply keeps_lift|];
    intros auth Ha; apply keeps_ret; exists entry; rewrite Hs; eauto 10).
Qed.

Lemma keeps_named_secrets server : keeps (fun _ => open_connection env role database = Ok tt)
    (resolve_named_secrets env server).
Proof.
  unfold resolve_named_secrets. eapply keeps_bind; [apply keeps_load_mapping|].
  intros mapping (entry & He & _). eapply (keeps_bind (fun _ => True)); [by apply keeps_lift|].
  intros options _. apply keeps_ret. by apply ss_session in He.
Qed.

Lemma open_connection_ok :
  open_connection env role database = Ok tt ->
  connect_as_user env role database = Ok tt /\ identity_matches env role = Some true /\
  wrapper_installed env = Some true.
Proof.
  unfold open_connection. intros H. apply result_bind_ok in H as ([] & Hc%map_err_ok & H).
  do 4 apply result_bind_ok in H as ([] & _ & H).
  apply result_bind_ok in H as (same & Hi%ok_or_ok & H).
  apply result_bind_ok in H as ([] & Hs & H). apply result_bind_ok in H as (inst & Hw%ok_or_ok & H).
  unfold expect in *. destruct same; [|done]. by destruct inst.
Qed.
End Catalog.

Section Guarded.
Context {UC : UrlCrate} {UO : UrlOps UC} {HC : HeaderCrate}.

(** C14: An endpoint is resolved only for who may use it.  In whatever order a
    request resolves endpoints and secrets, an endpoint it gets was read in a
    session of the submitting role, over the extension's own wrapper, with USAGE
    on the server; its base URL is HTTPS without credentials, query or fragment;
    and its credentials are those of the mapping of that role. *)
Theorem endpoint_guarded env role database c server e c' :
  sound_catalog env role database c -> resolve_endpoint env server c = (Ok e, c') ->
  sound_catalog env role database c' /\
  connect_as_user env role database = Ok tt /\ identity_matches env role = Some true /\
  (exists oid options config, server_row env server = Some (Some (oid, true, true, options)) /\
   from_options (default [] options) = Ok config /\ base_url config = Some (re_base_url e) /\
   (re_auth e = NoAuth \/ exists mapping, mapping_row env oid = Some (Some (Some mapping)) /\
    validate_mapping_options mapping = Ok tt /\
    resolve_auth (auth_scheme config) mapping = Ok (re_auth e))) /\
  url_scheme (re_base_url e) = "https" /\ url_username (re_base_url e) = "" /\
  url_password (re_base_url e) = None /\ url_query (re_base_url e) = None /\
  url_fragment (re_base_url e) = None.
Proof.
  intros Hc Hr. destruct (keeps_resolve_endpoint env role database server _ _ _ Hc Hr) as [Hc' He].
  destruct (He e eq_refl) as (entry & Hs & Hbase & Hauth).
  pose proof (open_connection_ok _ _ _ (ss_session _ _ _ _ _ Hs)) as (H1 & H2 & _).
  destruct (ss_row _ _ _ _ _ Hs) as (options & Hrow & Hconf).
  split_and!; [done|done|done|..].
  { exists (cs_oid entry), options, (cs_config entry). split_and!; [done|done|done|].
    destruct (auth_scheme (cs_config entry)) as [| |name|] eqn:Hscheme; [by left|..];
      (right; destruct Hauth as (entry' & mapping & Hs' & Hl & Ha); exists mapping;
      destruct (ss_row _ _ _ _ _ Hs') as (? & Hrow' & _);
      assert (cs_oid entry' = cs_oid entry) as <- by congruence;
      unfold load_user_mapping in Hl; apply result_bind_ok in Hl as (o & Ho%ok_or_ok & Hl);
      apply result_bind_ok in Hl as (o' & ->%ok_or_ok & Hl);
      apply result_bind_ok in Hl as (m & ->%ok_or_ok & Hl);
      apply result_bind_ok in Hl as ([] & Hv & [= ->]); done). }
  all: unfold from_options in Hconf; apply result_bind_ok in Hconf as (o & _ & Hconf);
    destruct (existsb _ _); [done|];
    apply result_bind_ok in Hconf as (base & Hb & Hconf);
    apply result_bind_ok in Hconf as (scheme & _ & Hconf);
    repeat match type of Hconf with (if ?b then _ else _) = _ => destruct b; [done|] end;
    injection Hconf as Hconf; rewrite <- Hconf in Hbase; cbn [base_url] in Hbase; subst base;
    unfold base_url_from in Hb; destruct (bool_decide _); [|done];
    apply result_bind_ok in Hb as (raw & _ & Hb);
    match type of Hb with (if ?b then _ else _) = _ => destruct b; [done|] end;
    apply result_bind_ok in Hb as (u & _ & Hb);
    match type of Hb with (if ?b then _ else _) = _ => destruct b eqn:Hchk; [done|] end;
    injection Hb as ->; rewrite !orb_false_iff, !negb_false_iff, !bool_decide_eq_false in Hchk;
    destruct Hchk as (((((Hscheme & _) & Huser) & Hpass) & Hquery) & Hfrag).
  - by apply String.eqb_eq.
  - by destruct (url_username _).
  - by destruct (url_password _); [destruct Hpass; eauto|].
  - by destruct (url_query _); [destruct Hquery; eauto|].
  - by destruct (url_fragment _); [destruct Hfrag; eauto|].
Qed.
End Guarded.

(** ** Concrete instances *)

#[local] Existing Instance sample_url.
#[local] Existing Instance sample_headers.
#[local] Existing Instance sample_url_ops_laws.

Definition sample_base : Url := mkParts "https" "api.github.com" "v1" None None.
Definition sample_endpoint : ResolvedEndpoint := mkResolved sample_base (HeaderAuth "x-api-key" "k3y").
Definition sample_headers_value : option value := Some (Object [("accept", JString "text/plain")]).
Definition sample_prepared : EndpointRequest :=
  mkEndpointRequest (mkParts "https" "api.github.com" "v1/repos" (Some "page=2") None)
    (Some ("x-api-key", "k3y")).

Lemma endpoint_request_confined_witness :
  prepare_endpoint_request sample_endpoint "/repos?page=2" sample_headers_value = Ok sample_prepared /\
  below sample_base (ereq_url sample_prepared).
Proof.
  split; [vm_compute; reflexivity|].
  apply (endpoint_request_confined sample_endpoint "/repos?page=2" sample_headers_value sample_prepared).
  vm_compute. reflexivity.
Defined.

Lemma credential_errors_fixed_witness :
  "Endpoint bearer token must be ASCII without whitespace" ∈ mapping_errors.
Proof.
  refine (proj1 (credential_errors_fixed AuthBearer ["token=top secret"] _) _). vm_compute. reflexivity.
Defined.

Lemma sample_resolved :
  fst (resolve_endpoint sample_catalog "github" (catalog_new "alice" None)) = Ok sample_endpoint.
Proof. vm_compute. reflexivity. Qed.

Lemma endpoint_guarded_witness :
  fst (resolve_endpoint sample_catalog "github" (catalog_new "alice" None)) = Ok sample_endpoint /\
  url_scheme sample_base = "https".
Proof.
  split; [apply sample_resolved|].
  refine (proj1 (proj2 (proj2 (proj2 (proj2 (endpoint_guarded sample_catalog "alice" None
    (catalog_new "alice" None) "github" sample_endpoint
    (snd (resolve_endpoint sample_catalog "github" (catalog_new "alice" None))) _ _)))))).
  - apply catalog_new_sound.
  - exact (eq_trans (surjective_pairing _) (f_equal (fun r => (r, _)) sample_resolved)).
Defined.
