(* ===== verification/SecretSpec.v ===== *)
(** What secret bindings guarantee ([Secrets]): every secret arrives at its place
    and nowhere else, and errors depend on no secret. *)
From S2P Require Import Prelude RustString Json JsonText HttpConfig UrlCrate Endpoints.
From S2P Require Import EndpointSpec.
From S2P Require Import Secrets.

(** ** Maps collected from lists *)

Lemma fold_insert_lookup {A} (es : list (string * A)) (m : gmap string A) k :
  NoDup (es.*1) ->
  fold_left (fun m '(k, v) => <[k := v]> m) es m !! k =
  match (list_to_map es : gmap string A) !! k with Some v => Some v | None => m !! k end.
Proof.
  intros Hnd. rewrite fold_insert_list, lookup_union.
  assert (E : (list_to_map (reverse es) : gmap string A) = list_to_map es).
  { apply list_to_map_proper; [|apply reverse_Permutation].
    by rewrite reverse_Permutation. }
  rewrite E. by destruct (list_to_map es !! k), (m !! k).
Qed.

Lemma sorted_entries_keys {A} (m : gmap string A) : NoDup ((sorted_entries m).*1).
Proof. rewrite sorted_entries_perm. apply NoDup_fst_map_to_list. Qed.

(** A list that pairs every entry of a map with something of the same key. *)
Lemma paired_lookup {A B} (R : string -> A -> B -> Prop) (m : gmap string A) (es : list (string * B)) k :
  Forall2 (fun x y => fst x = fst y /\ R (fst x) (snd x) (snd y)) (sorted_entries m) es ->
  match m !! k with
  | Some a => exists b, (list_to_map es : gmap string B) !! k = Some b /\ R k a b
  | None => (list_to_map es : gmap string B) !! k = None
  end.
Proof.
  intros H2.
  assert (Hkeys : es.*1 = (sorted_entries m).*1).
  { clear k. induction H2 as [|x y l l' [E _] _ IH]; [done|]. cbn. by rewrite E, IH. }
  destruct (m !! k) as [a|] eqn:Hk.
  - assert (Hin : (k, a) ∈ sorted_entries m) by (rewrite sorted_entries_perm; by apply elem_of_map_to_list).
    apply list_elem_of_lookup in Hin as [i Hi].
    destruct (Forall2_lookup_l _ _ _ _ _ H2 Hi) as ([k' b] & Hb & E & HR). cbn in E, HR. subst k'.
    exists b. split; [|done]. apply elem_of_list_to_map_1.
    + rewrite Hkeys. apply sorted_entries_keys.
    + by eapply list_elem_of_lookup_2.
  - apply not_elem_of_list_to_map_1. rewrite Hkeys. intros ([k' a] & E & Hin)%list_elem_of_fmap.
    cbn in E. subst k'. apply sorted_entries_lookup in Hin. congruence.
Qed.

(** ** Serialization *)

Lemma de_en_reference r : de_secret_reference (en_secret_reference r) = Some r.
Proof. destruct r as [server key prefix]. unfold en_secret_reference. by destruct prefix. Qed.

Lemma de_en_secret_bindings (b : SecretBindings) :
  de_secret_bindings (en_secret_bindings b) = Some b.
Proof.
  assert (Hdec : forall m, de_map de_secret_reference (en_map en_secret_reference m) = Some m)
    by (intros m; apply de_en_map; intros; apply de_en_reference).
  destruct b as [h q f]. unfold en_secret_bindings, skip_empty, skip_if. cbn [sb_headers sb_query sb_form].
  destruct (bool_decide (h = ∅)) eqn:Eh, (bool_decide (q = ∅)) eqn:Eq, (bool_decide (f = ∅)) eqn:Ef;
    rewrite ?bool_decide_eq_true in *; subst;
    unfold de_secret_bindings; cbn [as_object app mbind option_bind];
    unfold dflt; simpl; repeat (rewrite ?Hdec; cbn [mbind option_bind]); done.
Qed.

Lemma wf_en_secret_bindings b : wf_value (en_secret_bindings b) = true.
Proof.
  assert (Hwf : forall m, wf_value (en_map en_secret_reference m) = true).
  { intros m. apply wf_en_map. intros k [server key prefix] _. unfold en_secret_reference. by destruct prefix. }
  destruct b as [h q f]. unfold en_secret_bindings, skip_empty, skip_if. cbn [sb_headers sb_query sb_form].
  assert (Hobj : forall l, wf_value (Object l) =
    bool_decide (NoDup (map fst l)) && forallb (fun kv => wf_value (snd kv)) l) by done.
  rewrite Hobj. destruct (bool_decide (h = ∅)), (bool_decide (q = ∅)), (bool_decide (f = ∅));
    cbn [app map fst snd forallb]; rewrite ?Hwf; reflexivity.
Qed.

(** Bindings survive being stored in the config of a node: printed as JSON
    and read back they are the same bindings. *)
Theorem secret_bindings_round_trip {SJ : SerdeJson} {SJL : SerdeJsonLaws SJ} ty b :
  from_str_as ty de_secret_bindings (value_to_string (en_secret_bindings b)) = Ok b.
Proof. apply from_str_as_to_string; [apply wf_en_secret_bindings|apply de_en_secret_bindings]. Qed.

Section Secrets.
Context {UC : UrlCrate} {UO : UrlOps UC} {HC : HeaderCrate} {HD : HttpDeps}.

(** ** Errors *)

(** Two results that fail alike. *)
Definition fail_alike {A B} (r1 : result A string) (r2 : result B string) : Prop :=
  match r1, r2 with
  | Ok _, Ok _ => True
  | Err e1, Err e2 => e1 = e2
  | _, _ => False
  end.

Lemma fail_alike_refl {A} (r : result A string) : fail_alike r r.
Proof. by destruct r. Qed.

Lemma fail_alike_bind {A1 A2 B1 B2} (r1 : result A1 string) (r2 : result A2 string)
    (k1 : A1 -> result B1 string) (k2 : A2 -> result B2 string) :
  fail_alike r1 r2 -> (forall a1 a2, fail_alike (k1 a1) (k2 a2)) ->
  fail_alike (result_bind r1 k1) (result_bind r2 k2).
Proof. destruct r1, r2; cbn; naive_solver. Qed.

Lemma fail_alike_collect {A B} (f g : A -> result B string) l :
  (forall a, fail_alike (f a) (g a)) -> fail_alike (collect_results f l) (collect_results g l).
Proof.
  intros H. induction l as [|a l IH]; [done|]. cbn. apply fail_alike_bind; [done|]. intros ? ?.
  by apply fail_alike_bind.
Qed.

(** The same keys, and values that are as good for a header after any prefix. *)
Definition same_shape (c1 c2 : secret_catalog) : Prop :=
  forall server key,
  match c1 !! server ≫= (.!! key), c2 !! server ≫= (.!! key) with
  | Some v1, Some v2 => forall prefix, header_value_ok (prefix +:+ v1) = header_value_ok (prefix +:+ v2)
  | None, None => True
  | _, _ => False
  end.

Lemma lookup_alike c1 c2 slot name r :
  same_shape c1 c2 -> fail_alike (secret_lookup c1 slot name r) (secret_lookup c2 slot name r).
Proof.
  intros H. unfold secret_lookup. specialize (H (sr_server r) (sr_key r)).
  destruct (c1 !! sr_server r ≫= _), (c2 !! sr_server r ≫= _); done.
Qed.

Lemma header_alike c1 c2 name r :
  same_shape c1 c2 -> fail_alike (materialize_header c1 name r) (materialize_header c2 name r).
Proof.
  intros H. unfold materialize_header. destruct (credential_header_name name); [|done]. cbn [result_bind].
  unfold secret_lookup. specialize (H (sr_server r) (sr_key r)).
  destruct (c1 !! sr_server r ≫= _) as [v1|], (c2 !! sr_server r ≫= _) as [v2|]; try done.
  cbn [ok_or result_bind]. rewrite (H (sr_prefix r)). by destruct (header_value_ok _).
Qed.

(** Errors tell nothing of the secrets.  Whether and with which message the
    bindings of a request fail to materialize depends on which keys exist and
    which values a header can hold, and on nothing else of the values. *)
Theorem materialize_errors_alike o request c1 c2 e :
  same_shape c1 c2 -> materialize o c1 request = Err e -> materialize o c2 request = Err e.
Proof.
  intros H H1.
  assert (Halike : fail_alike (materialize o c1 request) (materialize o c2 request)).
  { unfold materialize. apply fail_alike_bind; [|by intros [[] ?] [[] ?]].
    destruct (secret_bindings o) as [b|]; [|done].
    apply fail_alike_bind.
    { apply fail_alike_collect. intros [name r]. by apply header_alike. }
    assert (Hfields : forall slot l, fail_alike (materialize_fields c1 slot l) (materialize_fields c2 slot l)).
    { intros slot l. apply fail_alike_collect. intros [name r].
      pose proof (lookup_alike c1 c2 slot name r H) as Hl.
      by destruct (secret_lookup c1 slot name r), (secret_lookup c2 slot name r). }
    intros ? ?. apply fail_alike_bind.
    { destruct (bool_decide _); [done|]. by apply fail_alike_bind. }
    intros ? ?. by apply fail_alike_bind. }
  rewrite H1 in Halike. destruct (materialize o c2 request); [done|]. by cbn in Halike; subst.
Qed.
End Secrets.

(** ** Places *)

Section Places.
Context {UC : UrlCrate} {UO : UrlOps UC} {HC : HeaderCrate} {HD : HttpDeps}.

(** The value of a reference. *)
Definition secret_of (catalog : secret_catalog) (r : SecretReference) : option string :=
  catalog !! sr_server r ≫= (.!! sr_key r).

Lemma secret_lookup_ok catalog slot name r v :
  secret_lookup catalog slot name r = Ok v -> secret_of catalog r = Some v.
Proof. apply ok_or_ok. Qed.

(** The header a binding becomes. *)
Definition header_of (catalog : secret_catalog) (name : string) (r : SecretReference) (h : string * string)
    : Prop :=
  credential_header_name name = Ok (fst h) /\
  exists v, secret_of catalog r = Some v /\ snd h = sr_prefix r +:+ v.

Lemma materialize_header_ok catalog name r h :
  materialize_header catalog name r = Ok h -> header_of catalog name r h.
Proof.
  unfold materialize_header. intros H. apply result_bind_ok in H as (n & Hn & H).
  apply result_bind_ok in H as (v & Hv%secret_lookup_ok & H).
  destruct (header_value_ok _); simplify_eq. split; [done|]. by exists v.
Qed.

Lemma header_bindings_distinct catalog seen l hs :
  validate_header_bindings seen l = Ok tt ->
  Forall2 (fun x h => header_of catalog (fst x) (snd x) h) l hs ->
  NoDup hs.*1 /\ forall h, h ∈ hs.*1 -> h ∉ seen.
Proof.
  intros Hv H2. revert seen Hv.
  induction H2 as [|[name r] [h v] l hs [Hh _] _ IH]; intros seen Hv.
  { split; [constructor|]. intros h H. by apply elem_of_nil in H. }
  cbn in Hv. apply result_bind_ok in Hv as ([] & _ & Hv). apply result_bind_ok in Hv as (n & Hn & Hv).
  cbn in Hh. assert (n = h) as -> by congruence.
  destruct (bool_decide (h ∈ seen)) eqn:Hs; [done|]. apply bool_decide_eq_false in Hs.
  destruct (negb _); [done|]. apply IH in Hv as [Hnd Hout]. split.
  - cbn. constructor; [|done]. intros Hin. apply (Hout h Hin). by left.
  - intros h' [-> | Hin]%elem_of_cons; [done|]. intros Hin'. apply (Hout h' Hin). by right.
Qed.

Lemma materialize_fields_ok catalog slot l es :
  materialize_fields catalog slot l = Ok es ->
  Forall2 (fun x e => fst x = fst e /\ secret_of catalog (snd x) = Some (snd e)) l es.
Proof.
  unfold materialize_fields. intros H%collect_results_Forall2. eapply Forall2_impl; [exact H|].
  intros [name r] e He. destruct (secret_lookup catalog slot name r) eqn:Hl; simplify_eq/=.
  split; [done|]. by eapply secret_lookup_ok.
Qed.

(** The checks that passed. *)
Lemma destinations_ok o b request headers :
  secret_bindings o = Some b -> validate_destinations o request headers = Ok tt ->
  validate_header_bindings [] (sorted_entries (sb_headers b)) = Ok tt /\
  (forall name, is_Some (sb_headers b !! name) ->
   (forall ordinary, ordinary ∈ header_names headers ->
    ~ same_header ordinary name /\ ~ same_header ordinary "host") /\
   forall credential x, ereq_credential_header request = Some (credential, x) ->
   ~ same_header name credential) /\
  (forall name, is_Some (sb_query b !! name) -> name ∉ map fst (url_query_pairs (ereq_url request))).
Proof.
  intros Hb Hv. unfold validate_destinations in Hv. rewrite Hb in Hv.
  apply result_bind_ok in Hv as ([] & Hval & Hv).
  unfold secret_bindings_validate in Hval. apply result_bind_ok in Hval as ([] & Hheaders & _).
  destruct (existsb _ (header_names headers)) eqn:Hord; [done|].
  destruct (match ereq_credential_header request with Some _ => _ | None => _ end) eqn:Hcred; [done|].
  destruct (existsb _ (url_query_pairs _)) eqn:Hq; [done|].
  split_and!; [done|..].
  - intros name [r Hr].
    assert (Hmem : name ∈ bound_names (sb_headers b)).
    { unfold bound_names. apply list_elem_of_fmap. exists (name, r). split; [done|].
      rewrite sorted_entries_perm. by apply elem_of_map_to_list. }
    split.
    + intros ordinary Ho. pose proof (existsb_false_elem _ _ _ Hord Ho) as [Hact Hf]%orb_false_iff.
      pose proof (existsb_false_elem _ _ _ Hf Hmem) as Hne. rewrite <- !eq_ignore_case_spec, Hne.
      split; [done|]. apply andb_false_iff in Hact as [Hact | ->]; [|done].
      rewrite !orb_false_iff, !negb_false_iff, !bool_decide_eq_true in Hact. destruct Hact as [[Hact _] _].
      by rewrite Hact, lookup_empty in Hr.
    + intros credential x Hcr. rewrite Hcr in Hcred.
      pose proof (existsb_false_elem _ _ _ Hcred Hmem) as Hne. cbn beta in Hne.
      by rewrite <- eq_ignore_case_spec, Hne.
  - intros name [r Hr] ([n v] & -> & Hp)%list_elem_of_fmap.
    pose proof (existsb_false_elem _ _ _ Hq Hp) as Hn. cbn in Hn, Hr. rewrite Hr in Hn.
    by rewrite bool_decide_eq_false in Hn; destruct Hn.
Qed.

(** The headers of a materialized request are the bound ones. *)
Lemma headers_placed o b request headers catalog rb request' :
  secret_bindings o = Some b -> validate_destinations o request headers = Ok tt ->
  materialize o catalog request = Ok (rb, request') ->
  (forall name r, sb_headers b !! name = Some r -> exists h v, credential_header_name name = Ok h /\
   secret_of catalog r = Some v /\ rb_headers rb !! h = Some (sr_prefix r +:+ v)) /\
  (forall h v, rb_headers rb !! h = Some v -> exists name, is_Some (sb_headers b !! name) /\
   credential_header_name name = Ok h).
Proof.
  intros Hb Hv Hm. destruct (destinations_ok _ _ _ _ Hb Hv) as (Hheaders & _ & _).
  unfold materialize in Hm. rewrite Hb in Hm.
  apply result_bind_ok in Hm as ([[hs req] fields] & Hstep & Hm). injection Hm as <- <-.
  apply result_bind_ok in Hstep as (hs' & Hhs%collect_results_Forall2 & Hstep).
  apply result_bind_ok in Hstep as (req' & _ & Hstep).
  apply result_bind_ok in Hstep as (form & _ & Hstep). injection Hstep as <- <- <-.
  assert (Hhs' : Forall2 (fun x h => header_of catalog (fst x) (snd x) h) (sorted_entries (sb_headers b)) hs').
  { eapply Forall2_impl; [exact Hhs|]. intros [name r] h. apply materialize_header_ok. }
  destruct (header_bindings_distinct _ _ _ _ Hheaders Hhs') as [Hnd _].
  assert (Hlook : forall h, fold_left (fun m '(k, v) => <[k := v]> m) hs' (∅ : gmap string string) !! h =
    (list_to_map hs' : gmap string string) !! h).
  { intros h. rewrite fold_insert_lookup by done. rewrite lookup_empty. by destruct (list_to_map hs' !! h). }
  cbn [rb_headers]. split.
  - intros name r Hname.
    assert (Hin : (name, r) ∈ sorted_entries (sb_headers b))
      by (rewrite sorted_entries_perm; by apply elem_of_map_to_list).
    apply list_elem_of_lookup in Hin as [i Hi].
    destruct (Forall2_lookup_l _ _ _ _ _ Hhs' Hi) as ([h x] & Hx & Hn & v & Hsec & Hval). cbn in Hn, Hval.
    exists h, v. split_and!; [done|done|]. rewrite Hlook, <- Hval.
    apply elem_of_list_to_map_1; [done|]. by eapply list_elem_of_lookup_2.
  - intros h v. rewrite Hlook. intros Hin%elem_of_list_to_map_2.
    apply list_elem_of_lookup in Hin as [i Hi].
    destruct (Forall2_lookup_r _ _ _ _ _ Hhs' Hi) as ([name r] & Hname%list_elem_of_lookup_2 & Hn & _).
    exists name. split; [|done]. exists r. by apply sorted_entries_lookup.
Qed.

Lemma credential_header_not_routing name h :
  credential_header_name name = Ok h -> h ∉ routing_headers.
Proof.
  unfold credential_header_name. intros H. apply result_bind_ok in H as (n & _ & H).
  destruct (bool_decide (n ∈ routing_headers)) eqn:Hr; simplify_eq. by apply bool_decide_eq_false in Hr.
Qed.

(** Every secret reaches its place, and only its place.  When the checks of a
    request pass and its bindings materialize, the headers that are added are
    exactly the bound ones, each its prefix and its secret, under names no
    ordinary header, no credential of the endpoint and no routing header has; the
    query gets exactly the bound parameters, none of which it had; and the form is
    the ordinary fields with exactly the bound ones in addition. *)
Theorem secrets_reach_their_places o b request headers catalog rb request' :
  secret_bindings o = Some b -> validate_destinations o request headers = Ok tt ->
  materialize o catalog request = Ok (rb, request') ->
  (forall name r, sb_headers b !! name = Some r -> exists h v, credential_header_name name = Ok h /\
   secret_of catalog r = Some v /\ rb_headers rb !! h = Some (sr_prefix r +:+ v)) /\
  (forall h v, rb_headers rb !! h = Some v -> (h ∉ routing_headers) /\
   exists name, is_Some (sb_headers b !! name) /\ credential_header_name name = Ok h /\
   (forall ordinary, ordinary ∈ header_names headers -> ~ same_header ordinary name) /\
   forall credential x, ereq_credential_header request = Some (credential, x) ->
   ~ same_header name credential) /\
  (exists query, Forall2 (fun x e => fst x = fst e /\ secret_of catalog (snd x) = Some (snd e))
   (sorted_entries (sb_query b)) query /\
   ereq_credential_header request' = ereq_credential_header request /\
   ereq_url request' = (if bool_decide (sb_query b = ∅) then ereq_url request
     else append_query (ereq_url request) (form_urlencode query))) /\
  (forall name, is_Some (sb_query b !! name) -> name ∉ map fst (url_query_pairs (ereq_url request))) /\
  (form_mode o = true -> (exists fields, rb_form_body rb = Some (form_urlencode (sorted_entries fields)) /\
                          forall name, fields !! name = match sb_form b !! name with
                            | Some r => secret_of catalog r
                            | None => default ∅ (form_fields o) !! name
                            end)).
Proof.
  intros Hb Hv Hm. destruct (destinations_ok _ _ _ _ Hb Hv) as (_ & Hfree & Hquery).
  destruct (headers_placed _ _ _ _ _ _ _ Hb Hv Hm) as [Hto Hfrom].
  unfold materialize in Hm. rewrite Hb in Hm.
  apply result_bind_ok in Hm as ([[hs req] fields] & Hstep & Hm). injection Hm as <- <-.
  apply result_bind_ok in Hstep as (hs' & _ & Hstep).
  apply result_bind_ok in Hstep as (req' & Hreq & Hstep).
  apply result_bind_ok in Hstep as (form & Hform%materialize_fields_ok & Hstep). injection Hstep as <- <- <-.
  split_and!; [done| | |done|].
  - intros h v Hh. destruct (Hfrom h v Hh) as (name & Hbound & Hn).
    split; [by eapply credential_header_not_routing|]. exists name.
    destruct (Hfree name Hbound) as [Hord Hcred]. split_and!; [done|done|by intros ? [? _]%Hord|done].
  - destruct (bool_decide (sb_query b = ∅)) eqn:Hqe.
    + apply bool_decide_eq_true in Hqe. injection Hreq as <-. exists [].
      rewrite Hqe. split_and!; [|done|done]. constructor.
    + apply result_bind_ok in Hreq as (query & Hq%materialize_fields_ok & [= <-]). by exists query.
  - intros Hmode. cbn [rb_form_body]. rewrite Hmode. eexists. split; [done|]. intros name.
    assert (Hkeys : form.*1 = (sorted_entries (sb_form b)).*1).
    { clear -Hform. induction Hform as [|x y l l' [E _] _ IH]; [done|]. cbn. by rewrite E, IH. }
    rewrite fold_insert_lookup by (rewrite Hkeys; apply sorted_entries_keys).
    pose proof (paired_lookup (fun _ r v => secret_of catalog r = Some v) (sb_form b) form name Hform) as Hp.
    destruct (sb_form b !! name) as [r|].
    + destruct Hp as (v & -> & Hsec). done.
    + by rewrite Hp.
Qed.
End Places.

(** ** Concrete instances *)

#[local] Existing Instance text_json.
#[local] Existing Instance sample_url.
#[local] Existing Instance sample_headers.
#[local] Existing Instance sample_http.

Definition sample_bindings : SecretBindings :=
  mkBindings {["Authorization" := mkSecretRef "github" "token" "Bearer "]}
    {["sig" := mkSecretRef "github" "sig" ""]} ∅.
Definition sample_secret_options : SecretOptions := mkSecretOptions (Some sample_bindings) None.
Definition sample_secret_request : EndpointRequest :=
  mkEndpointRequest (mkParts "https" "api.github.com" "repos" (Some "page=2") None) None.
Definition sample_secrets (token : string) : secret_catalog :=
  {["github" := {["token" := token; "sig" := "x1"]}]}.

Lemma secrets_reach_their_places_witness :
  exists rb request', materialize sample_secret_options (sample_secrets "s3cret") sample_secret_request
    = Ok (rb, request') /\
  exists h v, credential_header_name "Authorization" = Ok h /\
    secret_of (sample_secrets "s3cret") (mkSecretRef "github" "token" "Bearer ") = Some v /\
    rb_headers rb !! h = Some ("Bearer " +:+ v).
Proof.
  eexists _, _. split; [vm_compute; reflexivity|].
  refine (proj1 (secrets_reach_their_places sample_secret_options sample_bindings sample_secret_request
    (Some (Object [("accept", JString "text/plain")])) (sample_secrets "s3cret") _ _ _ _ _)
    "Authorization" (mkSecretRef "github" "token" "Bearer ") _).
  - reflexivity.
  - vm_compute. reflexivity.
  - vm_compute. reflexivity.
  - reflexivity.
Defined.

(** Header values need only be there. *)
Definition lenient_headers : HeaderCrate := {|
  percent_decode s := s;
  header_name_from := @header_name_from sample_headers;
  header_value_ok s := negb (str_is_empty s);
|}.

(** The key of the query is missing. *)
Definition partial_secrets (token : string) : secret_catalog := {["github" := {["token" := token]}]}.

Lemma materialize_errors_alike_witness :
  @materialize _ _ lenient_headers _ sample_secret_options (partial_secrets "other") sample_secret_request
  = Err ("Referenced secret key is missing: " +:+ secret_place "query" "sig" (mkSecretRef "github" "sig" "")).
Proof.
  refine (@materialize_errors_alike _ _ lenient_headers _ sample_secret_options sample_secret_request
    (partial_secrets "s3cret") (partial_secrets "other") _ _ _).
  - intros server key. unfold partial_secrets.
    destruct (decide (server = "github")) as [->|Hs].
    + rewrite !lookup_singleton_eq. cbn [mbind option_bind].
      destruct (decide (key = "token")) as [->|Hk].
      * rewrite !lookup_singleton_eq. by intros [].
      * by rewrite !lookup_singleton_ne.
    + by rewrite !lookup_singleton_ne.
  - vm_compute. reflexivity.
Defined.

Lemma secret_bindings_round_trip_witness :
  from_str_as "SecretBindings" de_secret_bindings (value_to_string (en_secret_bindings sample_bindings))
  = Ok sample_bindings.
Proof. exact (secret_bindings_round_trip "SecretBindings" sample_bindings). Defined.
