(* ===== verification/HttpRequestSpec.v ===== *)
(** What the HTTP activities guarantee ([HttpRequest]): nothing is sent before
    every check has passed, and nothing the caller writes replaces a credential. *)
From S2P Require Import Prelude RustString Json JsonText HttpConfig UrlCrate Ssrf.
From S2P Require Import Endpoints EndpointSpec Secrets SecretSpec HttpResponse HttpRequest.

Section Spec.
Context {UC : UrlCrate} {UO : UrlOps UC} {UL : UrlOpsLaws UC UO} {HC : HeaderCrate} {HL : HeaderLaws HC}
    {HD : HttpDeps} {BD : BodyDeps} {SJ : SerdeJson} (env : http_env).

(** ** Runs of activities *)

Lemma bind_a_inv {A B} (m : act A) (k : A -> act B) log r log' :
  bind_a m k log = (r, log') ->
  (exists e, m log = (Err e, log') /\ r = Err e) \/
  (exists a log1, m log = (Ok a, log1) /\ k a log1 = (r, log')).
Proof.
  unfold bind_a. destruct (m log) as [[a|e] log1] eqn:E.
  - right. by exists a, log1.
  - intros [= <- <-]. left. by exists e.
Qed.

(** Nothing has been sent. *)
Definition quiet (log : list http_event) : Prop := forall s rq, Sent s rq ∉ log.

Lemma quiet_app a b : quiet a -> quiet b -> quiet (a ++ b).
Proof. intros Ha Hb s rq [H | H]%elem_of_app; [by apply (Ha s rq)|by apply (Hb s rq)]. Qed.
Lemma quiet_one e : match e with Sent _ _ => False | _ => True end -> quiet [e].
Proof. intros He s rq H%list_elem_of_singleton. by subst. Qed.
Lemma quiet_nil : quiet [].
Proof. intros s rq H. by apply elem_of_nil in H. Qed.
#[local] Hint Resolve quiet_app quiet_one quiet_nil : core.

(** A lifted result leaves the log alone. *)
Lemma bind_lift_inv {A B} (x : result A string) (k : A -> act B) log r log' :
  bind_a (lift_a x) k log = (r, log') ->
  (log' = log /\ is_ok r = false) \/ (exists a, x = Ok a /\ k a log = (r, log')).
Proof.
  intros [(e & [= -> <-] & ->)|(a & log1 & [= -> <-] & H)]%bind_a_inv; [by left|]. right. by exists a.
Qed.

Lemma check_privilege_inv again role endpoint multipart log r log' :
  check_privilege env again role endpoint multipart log = (r, log') ->
  (log' = log /\ is_ok r = false) \/
  (r = Ok tt /\ log' = log ++ [PrivilegeChecked role endpoint multipart] /\
   check_http_privilege env again role endpoint multipart = Ok tt).
Proof.
  unfold check_privilege. intros [?|([] & Hc & [= <- <-])]%bind_lift_inv; [by left|]. by right.
Qed.

Lemma check_http_privilege_ok again role endpoint multipart :
  check_http_privilege env again role endpoint multipart = Ok tt ->
  has_privilege env again role (fst (privilege_signature multipart endpoint)) = Ok (Some true).
Proof.
  unfold check_http_privilege. intros H. apply result_bind_ok in H as (? & _ & H).
  destruct (privilege_signature multipart endpoint) as [q s].
  apply result_bind_ok in H as (p & Hp%map_err_ok & H). apply result_bind_ok in H as (? & _ & H).
  by destruct p as [[|]|].
Qed.

(** ** The destination *)

(** What is known of a prepared request. *)
Definition destination_ok (policy : HttpPolicy) (t : target)
    (x : EndpointRequest * (ResolvedBindings * EndpointRequest)) : Prop :=
  let '(prepared, (resolved, final)) := x in
  validate_scheme (ereq_url prepared) (security policy) = Ok tt /\
  validate_allowlist (ereq_url prepared) policy = Ok tt /\
  validate_destinations (tg_secret_options t) prepared (tg_headers t) = Ok tt /\
  (exists catalog, materialize (tg_secret_options t) catalog prepared = Ok (resolved, final)) /\
  match tg_endpoint t with
  | Some server => exists e, own_endpoint (catalog_answers env) (tg_submitted_by t) (route_database env) server e /\
      prepare_endpoint_request e (tg_url t) (tg_headers t) = Ok prepared
  | None => parse_request_url (tg_url t) = Ok (ereq_url prepared) /\
      ereq_credential_header prepared = None
  end.

Lemma keeps_load_secrets ce role database servers catalog :
  keeps ce role database (fun _ => True) (load_secrets ce servers catalog).
Proof.
  revert catalog. induction servers as [|server l IH]; intros catalog; [by apply keeps_ret|]. cbn.
  eapply (keeps_bind _ _ _ (fun _ => True)); [|intros values _; apply IH].
  intros c r c' Hc. destruct (resolve_named_secrets ce server c) as [r1 c1] eqn:E.
  intros [= <- <-]. split; [|done]. by eapply keeps_named_secrets.
Qed.

Lemma keeps_destination policy t :
  keeps (catalog_answers env) (tg_submitted_by t) (route_database env) (destination_ok policy t)
    (prepare_destination env policy t).
Proof.
  unfold prepare_destination.
  eapply (keeps_bind _ _ _ (fun prepared => match tg_endpoint t with
    | Some server => exists e, own_endpoint (catalog_answers env) (tg_submitted_by t) (route_database env) server e /\
    prepare_endpoint_request e (tg_url t) (tg_headers t) = Ok prepared
    | None => parse_request_url (tg_url t) = Ok (ereq_url prepared) /\
    ereq_credential_header prepared = None
    end)).
  { unfold prepare_request. destruct (tg_endpoint t) as [server|].
    - eapply (keeps_bind _ _ _ (fun _ => True)); [by apply keeps_lift|]. intros _ _.
      eapply keeps_bind; [apply keeps_resolve_endpoint|]. intros e He. apply keeps_lift. eauto.
    - apply keeps_lift. intros prepared Hp. apply result_bind_ok in Hp as (u & Hu & [= <-]). done. }
  intros prepared Htarget.
  eapply (keeps_bind _ _ _ (fun _ => validate_scheme (ereq_url prepared) (security policy) = Ok tt));
    [by apply keeps_lift; intros []|]. intros _ Hscheme.
  eapply (keeps_bind _ _ _ (fun _ => validate_allowlist (ereq_url prepared) policy = Ok tt));
    [by apply keeps_lift; intros []|]. intros _ Hallow.
  eapply (keeps_bind _ _ _ (fun x => validate_destinations (tg_secret_options t) prepared (tg_headers t) = Ok tt /\
    exists catalog, materialize (tg_secret_options t) catalog prepared = Ok x)).
  { unfold secret_resolve.
    eapply (keeps_bind _ _ _ (fun _ => validate_destinations (tg_secret_options t) prepared (tg_headers t) = Ok tt));
      [by apply keeps_lift; intros []|]. intros _ Hdest.
    eapply (keeps_bind _ _ _ (fun _ => True)).
    { destruct (secret_bindings _); [apply keeps_load_secrets|by apply keeps_ret]. }
    intros catalog _. apply keeps_lift. eauto. }
  intros [resolved final] [Hdest Hmat].
  eapply (keeps_bind _ _ _ (fun _ => True)).
  { intros c r c' Hc. unfold close. destruct (cat_connection c).
    - intros [= <- <-]. split; [|done]. destruct Hc as [H1 H2 H3 H4 H5]. split; try done.
      cbn. intros r d [Hin | [=]%list_elem_of_singleton]%elem_of_app. by apply H5.
    - by intros [= <- <-]. }
  intros _ _. by apply keeps_ret.
Qed.

(** Secrets change the query of the URL and nothing else of the request's target. *)
Lemma materialize_target o catalog prepared resolved final :
  materialize o catalog prepared = Ok (resolved, final) ->
  url_scheme (ereq_url final) = url_scheme (ereq_url prepared) /\
  url_host (ereq_url final) = url_host (ereq_url prepared) /\
  ereq_credential_header final = ereq_credential_header prepared.
Proof.
  unfold materialize. intros H. apply result_bind_ok in H as ([[hs req] fields] & Hs & [= <- <-]).
  destruct (secret_bindings o) as [b|]; [|by simplify_eq].
  apply result_bind_ok in Hs as (? & _ & Hs). apply result_bind_ok in Hs as (req' & Hr & Hs).
  apply result_bind_ok in Hs as (? & _ & [= <- <- <-]).
  destruct (bool_decide _); [by simplify_eq|]. apply result_bind_ok in Hr as (q & _ & [= <-]).
  cbn. unfold append_query. by rewrite set_query_scheme, set_query_host.
Qed.

Lemma authorize_inv policy multipart t log r log' :
  authorize env policy multipart t log = (r, log') ->
  (is_ok r = false /\ exists more, log' = log ++ more /\ quiet more) \/
  exists x events, r = Ok x /\
  log' = log ++ [PrivilegeChecked (tg_submitted_by t) (bool_decide (is_Some (tg_endpoint t))) multipart;
                 Catalog events] /\
  check_http_privilege env false (tg_submitted_by t) (bool_decide (is_Some (tg_endpoint t))) multipart = Ok tt /\
  destination_ok policy t x /\
  forall role d, Connected role d ∈ events -> role = tg_submitted_by t /\ d = route_database env.
Proof.
  unfold authorize.
  intros [(e & Hp & ->)|([] & log1 & Hp & H)]%bind_a_inv;
    apply check_privilege_inv in Hp as [[-> Ho]|(Hr & -> & Hpriv)]; try done.
  { left. split; [done|]. exists []. by rewrite app_nil_r. }
  apply bind_lift_inv in H as [[-> Hn]|(_ & _ & H)].
  { left. split; [done|]. eexists. split; [done|auto]. }
  apply bind_lift_inv in H as [[-> Hn]|(_ & _ & H)].
  { left. split; [done|]. eexists. split; [done|auto]. }
  unfold in_catalog in H. destruct (prepare_destination env policy t _) as [x c] eqn:E.
  injection H as <- <-.
  destruct (keeps_destination policy t _ _ _ (catalog_new_sound _ _ _) E) as [Hc Hx].
  destruct x as [x|e].
  - right. exists x, (cat_events c). rewrite <- app_assoc. split_and!; [done|done|done|by apply Hx|].
    apply (sc_events _ _ _ _ Hc).
  - left. split; [done|]. rewrite <- app_assoc. eexists. split; [done|]. apply quiet_app; auto.
Qed.

Lemma transfer_inv policy multipart t database url request log r log' :
  transfer env policy multipart t database url request log = (r, log') ->
  log' = log \/
  log' = log ++ [PrivilegeChecked (tg_submitted_by t) (bool_decide (is_Some (tg_endpoint t))) multipart;
                 Sent (security policy) request] /\
  check_http_privilege env true (tg_submitted_by t) (bool_decide (is_Some (tg_endpoint t))) multipart = Ok tt.
Proof.
  unfold transfer.
  intros [(e & Hp & ->)|([] & log1 & Hp & H)]%bind_a_inv;
    apply check_privilege_inv in Hp as [[-> Ho]|(Hr & -> & Hpriv)]; try done; [by left|].
  right. split; [|done].
  apply bind_a_inv in H as [(e & [=] & _)|([] & log1 & [= <-] & H)]. rewrite <- app_assoc in H. cbn [app] in H.
  apply bind_lift_inv in H as [[-> _]|(response & _ & H)]; [done|].
  apply bind_lift_inv in H as [[-> _]|(content & _ & H)]; [done|].
  apply bind_lift_inv in H as [[-> _]|(content' & _ & H)]; [done|].
  destruct (is_server_error _).
  - apply bind_lift_inv in H as [[-> _]|(preview & _ & H)]; [done|]. by injection H as _ <-.
  - by injection H as _ <-.
Qed.

(** ** Sent requests *)

Definition activity (multipart : bool) (policy : HttpPolicy) (config_json : string) : act string :=
  if multipart then execute_multipart env policy config_json else execute_http env policy config_json.

Lemma opt_str_some k v o s : v = Object o -> opt k as_str o = Some (Some s) -> get k v = Some (JString s).
Proof.
  intros ->. unfold opt, get. cbn [as_object mbind option_bind].
  destruct (obj_get k o) as [[]|]; cbn; by intros [=->].
Qed.
Lemma req_str_some k v o s : v = Object o -> req k as_str o = Some s -> get k v = Some (JString s).
Proof.
  intros ->. unfold req, get. cbn [as_object mbind option_bind].
  destruct (obj_get k o) as [[]|]; cbn; by intros [=->].
Qed.

Ltac inv_decoder H :=
  repeat (apply bind_Some in H as (? & ? & H)); injection H as <-.

Lemma opt_str_get k v o x : v = Object o -> opt k as_str o = Some x -> x = get k v ≫= as_str.
Proof.
  intros ->. unfold opt, get. cbn [as_object mbind option_bind].
  destruct (obj_get k o) as [[]|]; cbn; by intros [= <-].
Qed.
Lemma opt_headers_get v o x skip : v = Object o -> opt "headers" Some o = Some x ->
  ordinary_headers skip x = ordinary_headers skip (get "headers" v).
Proof.
  intros ->. unfold opt, get. cbn [as_object mbind option_bind].
  destruct (obj_get "headers" o) as [[]|]; cbn; by intros [= <-].
Qed.

(** The members of the config that decide where a request goes and what it
    carries. *)
Record config_of (v : value) (role url : string) (endpoint : option string) (headers : option value)
    (secrets : SecretOptions) : Prop := {
      co_role : get "submitted_by" v = Some (JString role);
      co_url : get "url" v = Some (JString url);
      co_endpoint : endpoint = get "endpoint" v ≫= as_str;
      co_headers skip : ordinary_headers skip headers = ordinary_headers skip (get "headers" v);
      co_secrets : exists l, v = Object l /\ de_secret_options l = Some secrets;
    }.

Lemma http_config_members config v role :
  de_http_config v = Some config -> hc_submitted_by config = Some role ->
  config_of v role (hc_url config) (hc_endpoint config) (hc_headers config) (hc_secret_options config).
Proof.
  unfold de_http_config. intros H Hr. apply bind_Some in H as (o & Ho & H).
  assert (v = Object o) as Ev by (by destruct v; simplify_eq/=).
  inv_decoder H. cbn in Hr |- *. subst. split; eauto using req_str_some, opt_str_some, opt_str_get, opt_headers_get.
Qed.

Lemma multipart_config_members config v role :
  de_multipart_config v = Some config -> mc_submitted_by config = Some role ->
  config_of v role (mc_url config) (mc_endpoint config) (mc_headers config) (mc_secret_options config).
Proof.
  unfold de_multipart_config. intros H Hr. apply bind_Some in H as (o & Ho & H).
  assert (v = Object o) as Ev by (by destruct v; simplify_eq/=).
  inv_decoder H. cbn in Hr |- *. subst. split; eauto using req_str_some, opt_str_some, opt_str_get, opt_headers_get.
Qed.

Definition form_content_type : string := "application/x-www-form-urlencoded".

#[global] Instance header_op_eq_dec : EqDecision header_op.
Proof. solve_decision. Defined.

(** How a request that was sent came about. *)
Record sent_request (multipart : bool) (policy : HttpPolicy) (config_json : string)
    (log : list http_event) (s : HttpSecurity) (rq : Request) (t : target)
    (prepared : EndpointRequest) (resolved : ResolvedBindings) (final : EndpointRequest) : Prop := {
      sq_config : exists v, value_from_str config_json = Ok v /\
      config_of v (tg_submitted_by t) (tg_url t) (tg_endpoint t) (tg_headers t) (tg_secret_options t);
      sq_security : s = security policy /\ s <> Disabled;
      sq_destination : destination_ok policy t (prepared, (resolved, final));
      sq_privilege again : check_http_privilege env again (tg_submitted_by t)
      (bool_decide (is_Some (tg_endpoint t))) multipart = Ok tt;
      sq_log : exists events, log =
      [PrivilegeChecked (tg_submitted_by t) (bool_decide (is_Some (tg_endpoint t))) multipart; Catalog events;
       PrivilegeChecked (tg_submitted_by t) (bool_decide (is_Some (tg_endpoint t))) multipart; Sent s rq] /\
      forall role d, Connected role d ∈ events -> role = tg_submitted_by t /\ d = route_database env;
      sq_url : rq_url rq = ereq_url final;
      sq_headers : exists content_type,
      rq_headers rq = all_headers (multipart || negb (bool_decide (content_type = []))) (tg_headers t)
      (ereq_credential_header final) resolved ++ content_type /\
      (content_type = [] \/ content_type = [AppendHeader CONTENT_TYPE form_content_type]);
    }.

Lemma http_client_ok s : http_client env s = Ok tt -> s <> Disabled.
Proof. by destruct s. Qed.

(** What both activities do once they know where the request goes. *)
Lemma sent_after multipart policy t database url request log r s rq more :
  quiet more ->
  transfer env policy multipart t database url request more = (r, log) -> Sent s rq ∈ log ->
  s = security policy /\ rq = request /\
  check_http_privilege env true (tg_submitted_by t) (bool_decide (is_Some (tg_endpoint t))) multipart = Ok tt /\
  log = more ++ [PrivilegeChecked (tg_submitted_by t) (bool_decide (is_Some (tg_endpoint t))) multipart; Sent s rq].
Proof.
  intros Hq [-> | [-> Hpriv]]%transfer_inv Hin; [by destruct (Hq s rq)|].
  apply elem_of_app in Hin as [Hin|Hin]; [by destruct (Hq s rq)|].
  apply elem_of_cons in Hin as [[=] | Hin%list_elem_of_singleton]. by injection Hin as -> ->.
Qed.

Lemma quiet_authorized role endpoint multipart events :
  quiet ([PrivilegeChecked role endpoint multipart] ++ [Catalog events]).
Proof. apply quiet_app; by apply quiet_one. Qed.

Lemma http_sent policy config_json r log s rq :
  execute_http env policy config_json [] = (r, log) -> Sent s rq ∈ log ->
  exists t prepared resolved final,
  sent_request false policy config_json log s rq t prepared resolved final.
Proof.
  unfold execute_http. intros H Hin.
  apply bind_lift_inv in H as [[-> _]|(config & Hconfig%map_err_ok & H)]; [by apply elem_of_nil in Hin|].
  apply bind_lift_inv in H as [[-> _]|(role & Hrole%ok_or_ok & H)]; [by apply elem_of_nil in Hin|].
  unfold from_str_as in Hconfig. destruct (value_from_str config_json) as [v|] eqn:Hv; [|done].
  apply ok_or_ok in Hconfig. pose proof (http_config_members _ _ _ Hconfig Hrole) as Hmembers.
  apply bind_a_inv in H as [(e & Ha & ->)|([prepared [resolved final]] & log1 & Ha & H)];
    apply authorize_inv in Ha as [[Hr (more & -> & Hq)]|(x & events & [= <-] & -> & Hpriv & Hdest & Hev)];
    try done; [by destruct (Hq s rq)|]. cbn [app tg_submitted_by tg_endpoint] in *.
  pose proof (quiet_authorized role (bool_decide (is_Some (hc_endpoint config))) false events) as Hq.
  apply bind_lift_inv in H as [[-> _]|([] & Hclient & H)]; [by destruct (Hq s rq)|].
  destruct (negb _); [by injection H as <- <-; destruct (Hq s rq)|].
  apply bind_lift_inv in H as [[-> _]|([ct body] & Hbody & H)]; [by destruct (Hq s rq)|].
  eapply sent_after in H as (-> & -> & Hpriv2 & Hlog); [|exact Hq|done].
  exists (mkTarget (hc_url config) (hc_endpoint config) (hc_method config) (hc_headers config)
    (hc_timeout_seconds config) role (bool_decide (is_Some (hc_body config)))
    (hc_secret_options config) (hc_body_options config)), prepared, resolved, final. split.
  - by exists v.
  - split; [done|]. by apply http_client_ok.
  - exact Hdest.
  - by intros [].
  - exists events. split; [exact Hlog|exact Hev].
  - done.
  - exists ct. unfold http_body in Hbody.
    destruct (rb_form_body resolved); [|destruct (hc_body config)].
    + apply result_bind_ok in Hbody as (? & _ & [= <- <-]). split; [done|by right].
    + apply result_bind_ok in Hbody as (? & _ & [= <- <-]). split; [done|by left].
    + injection Hbody as <- <-. split; [done|by left].
Qed.

Lemma multipart_request_same options request parts request' :
  build_multipart_request env options request parts = Ok request' ->
  rq_url request' = rq_url request /\ rq_headers request' = rq_headers request.
Proof.
  unfold build_multipart_request. intros H. apply result_bind_ok in H as (? & _ & H).
  apply result_bind_ok in H as (ps & _ & H). apply result_bind_ok in H as (len & _ & H).
  destruct (max_request_bytes options); [|by injection H as <-].
  apply result_bind_ok in H as (m & _ & H). by apply result_bind_ok in H as (? & _ & [= <-]).
Qed.

Lemma multipart_sent policy config_json r log s rq :
  execute_multipart env policy config_json [] = (r, log) -> Sent s rq ∈ log ->
  exists t prepared resolved final,
  sent_request true policy config_json log s rq t prepared resolved final.
Proof.
  unfold execute_multipart. intros H Hin.
  apply bind_lift_inv in H as [[-> _]|(config & Hconfig%map_err_ok & H)]; [by apply elem_of_nil in Hin|].
  apply bind_lift_inv in H as [[-> _]|(role & Hrole%ok_or_ok & H)]; [by apply elem_of_nil in Hin|].
  unfold from_str_as in Hconfig. destruct (value_from_str config_json) as [v|] eqn:Hv; [|done].
  apply ok_or_ok in Hconfig. pose proof (multipart_config_members _ _ _ Hconfig Hrole) as Hmembers.
  apply bind_a_inv in H as [(e & Ha & ->)|([prepared [resolved final]] & log1 & Ha & H)];
    apply authorize_inv in Ha as [[Hr (more & -> & Hq)]|(x & events & [= <-] & -> & Hpriv & Hdest & Hev)];
    try done; [by destruct (Hq s rq)|]. cbn [app tg_submitted_by tg_endpoint] in *.
  pose proof (quiet_authorized role (bool_decide (is_Some (mc_endpoint config))) true events) as Hq.
  apply bind_lift_inv in H as [[-> _]|([] & Hclient & H)]; [by destruct (Hq s rq)|].
  destruct (negb _); [by injection H as <- <-; destruct (Hq s rq)|].
  apply bind_lift_inv in H as [[-> _]|(request & Hbuild & H)]; [by destruct (Hq s rq)|].
  eapply sent_after in H as (-> & -> & Hpriv2 & Hlog); [|exact Hq|done].
  apply multipart_request_same in Hbuild as [Hbu Hbh].
  exists (mkTarget (mc_url config) (mc_endpoint config) (mc_method config) (mc_headers config)
    (mc_timeout_seconds config) role false (mc_secret_options config) (mc_body_options config)),
    prepared, resolved, final. split.
  - by exists v.
  - split; [done|]. by apply http_client_ok.
  - exact Hdest.
  - by intros [].
  - exists events. split; [exact Hlog|exact Hev].
  - done.
  - exists []. rewrite app_nil_r. split; [exact Hbh|by left].
Qed.

Lemma activity_sent multipart policy config_json r log s rq :
  activity multipart policy config_json [] = (r, log) -> Sent s rq ∈ log ->
  exists t prepared resolved final,
  sent_request multipart policy config_json log s rq t prepared resolved final.
Proof. destruct multipart; [apply multipart_sent|apply http_sent]. Qed.

(** ** Properties *)

(** The SQL function a node of a type stands for, as PostgreSQL identifies it:
    the one that takes an endpoint when the config names one. *)
Definition called_function (multipart : bool) (endpoint : option string) : string :=
  match multipart, endpoint with
  | false, None =>
      "df.http(pg_catalog.text,pg_catalog.text,pg_catalog.text,pg_catalog.jsonb,pg_catalog.int4)"
  | false, Some _ =>
      "df.http(df.http_endpoint,pg_catalog.text,pg_catalog.text,pg_catalog.jsonb,pg_catalog.int4)"
  | true, None =>
      "df.http_multipart(pg_catalog.text,pg_catalog.text,pg_catalog.jsonb,pg_catalog.jsonb,pg_catalog.int4)"
  | true, Some _ =>
      "df.http_multipart(df.http_endpoint,pg_catalog.text,pg_catalog.jsonb,pg_catalog.jsonb,pg_catalog.int4)"
  end.

Lemma called_function_checked multipart endpoint :
  called_function multipart endpoint =
    fst (privilege_signature multipart (bool_decide (is_Some endpoint))).
Proof. by destruct multipart, endpoint. Qed.

(** C6: Nothing is sent past the checks.  If an HTTP or multipart activity sends a
    request, it was allowed twice, before the request was prepared and when it was
    about to go out, to call the very function it stands for, the overload for an
    endpoint exactly when its config names one, as the role that is in its
    config; the catalog was read in sessions of that role only; the URL that
    is sent, secrets included, has a scheme the policy permits and, in restricted
    mode, a host on the allow-list; the client is that of the policy; and nothing
    else was sent. *)
Theorem http_request_guarded multipart policy config_json r log s rq :
  activity multipart policy config_json [] = (r, log) -> Sent s rq ∈ log ->
  (s = security policy /\ s <> Disabled) /\
  (url_scheme (rq_url rq) = "https" \/ (url_scheme (rq_url rq) = "http" /\ s = Unrestricted)) /\
  (s = Restricted -> allowlist_validate (allowed_domains policy) (rq_url rq) = Ok tt) /\
  exists role events v,
  value_from_str config_json = Ok v /\ get "submitted_by" v = Some (JString role) /\
  let endpoint := get "endpoint" v ≫= as_str in
  log = [PrivilegeChecked role (bool_decide (is_Some endpoint)) multipart; Catalog events;
         PrivilegeChecked role (bool_decide (is_Some endpoint)) multipart; Sent s rq] /\
  (forall again, has_privilege env again role (called_function multipart endpoint) = Ok (Some true)) /\
  (forall role' d, Connected role' d ∈ events -> role' = role /\ d = route_database env).
Proof.
  intros H Hin. destruct (activity_sent _ _ _ _ _ _ _ H Hin) as (t & prepared & resolved & final & Hsq).
  destruct (sq_destination _ _ _ _ _ _ _ _ _ _ Hsq) as (Hscheme & Hallow & _ & (catalog & Hmat) & _).
  destruct (materialize_target _ _ _ _ _ Hmat) as (Es & Eh & _).
  destruct (sq_security _ _ _ _ _ _ _ _ _ _ Hsq) as [-> Hdis].
  rewrite (sq_url _ _ _ _ _ _ _ _ _ _ Hsq). split_and!; [done|done|..].
  - rewrite Es. unfold validate_scheme, validate_scheme_value in Hscheme.
    destruct (String.eqb_spec (url_scheme (ereq_url prepared)) "https"); [by left|].
    destruct (String.eqb_spec (url_scheme (ereq_url prepared)) "http"); [|done].
    right. split; [done|]. by destruct (security policy).
  - intros E. unfold validate_allowlist in Hallow. rewrite E in Hallow.
    unfold allowlist_validate in *. by rewrite Eh.
  - destruct (sq_config _ _ _ _ _ _ _ _ _ _ Hsq) as (v & Hv & [Hrole _ He _ _]).
    destruct (sq_log _ _ _ _ _ _ _ _ _ _ Hsq) as (events & Hlog & Hev).
    exists (tg_submitted_by t), events, v. cbv zeta. rewrite <- He.
    split_and!; [done|done|done| |done]. intros again. rewrite called_function_checked.
    apply check_http_privilege_ok. apply (sq_privilege _ _ _ _ _ _ _ _ _ _ Hsq).
Qed.

Lemma ordinary_header_name skip headers name v :
  AppendHeader name v ∈ ordinary_headers skip headers -> name ∈ header_names headers.
Proof.
  unfold ordinary_headers, header_names. destruct (headers ≫= as_object) as [l|].
  - intros ([k x] & Hin & Hk)%list_elem_of_omap. destruct (_ && _); [done|].
    destruct (as_str x); simplify_eq/=. apply list_elem_of_fmap. by exists (name, x).
  - intros H. by apply elem_of_nil in H.
Qed.

(** A secret header is none that is routed by, given as it is, or the credential's. *)
Lemma secret_header_apart t catalog prepared resolved final h v :
  validate_destinations (tg_secret_options t) prepared (tg_headers t) = Ok tt ->
  materialize (tg_secret_options t) catalog prepared = Ok (resolved, final) ->
  rb_headers resolved !! h = Some v ->
  (h ∉ routing_headers) /\
  (forall ordinary, ordinary ∈ header_names (tg_headers t) ->
   to_ascii_lowercase ordinary <> h /\ ~ same_header ordinary "host") /\
  (forall credential x, ereq_credential_header prepared = Some (credential, x) ->
   to_ascii_lowercase credential <> h).
Proof.
  intros Hdest Hmat Hhv. destruct (secret_bindings (tg_secret_options t)) as [b|] eqn:Hb.
  - destruct (destinations_ok _ _ _ _ Hb Hdest) as (_ & Hfree & _).
    destruct (headers_placed _ _ _ _ _ _ _ Hb Hdest Hmat) as [_ Hfrom].
    destruct (Hfrom h v Hhv) as (name & Hbound & Hn).
    destruct (Hfree name Hbound) as [Hord Hcred].
    split; [by eapply credential_header_not_routing|].
    unfold credential_header_name in Hn. apply result_bind_ok in Hn as (n & Hn%ok_or_ok & Hn').
    destruct (bool_decide _); [done|]. injection Hn' as ->. apply header_name_lower in Hn as ->. split.
    + intros ordinary Ho. destruct (Hord ordinary Ho) as [Hne Hhost]. by split.
    + intros credential x Hc E. by apply (Hcred credential x Hc).
  - unfold materialize in Hmat. rewrite Hb in Hmat. injection Hmat as <- _.
    cbn in Hhv. by rewrite lookup_empty in Hhv.
Qed.

(** The credential of an endpoint is apart from the headers given with a request. *)
Lemma credential_apart t prepared skip name v credential_name x :
  (match tg_endpoint t with
   | Some server => exists e, own_endpoint (catalog_answers env) (tg_submitted_by t) (route_database env) server e /\
       prepare_endpoint_request e (tg_url t) (tg_headers t) = Ok prepared
   | None => parse_request_url (tg_url t) = Ok (ereq_url prepared) /\ ereq_credential_header prepared = None
   end) ->
  AppendHeader name v ∈ ordinary_headers skip (tg_headers t) ->
  ereq_credential_header prepared = Some (credential_name, x) ->
  ~ same_header name credential_name /\ ~ same_header name "host".
Proof.
  intros Htarget Hname%ordinary_header_name Hc. destruct (tg_endpoint t) as [server|]; [|naive_solver].
  destruct Htarget as (e & _ & He). destruct (prepared_headers_free _ _ _ _ He) as [Hfree Hcn].
  rewrite Hc in Hcn. destruct (Hfree name Hname) as [Hhost Hne]. split; [|done]. by apply Hne.
Qed.

Lemma ordinary_not_content_type headers name v :
  AppendHeader name v ∈ ordinary_headers true headers -> ~ same_header name "content-type".
Proof.
  unfold ordinary_headers. intros ([k x] & _ & Hk)%list_elem_of_omap.
  destruct (eq_ignore_ascii_case k "content-type") eqn:E; [done|].
  destruct (as_str x); simplify_eq/=. by rewrite <- eq_ignore_case_spec, E.
Qed.

(** All names are apart. *)
Lemma headers_apart multipart t catalog prepared resolved final ct :
  let ordinary := ordinary_headers (multipart || negb (bool_decide (ct = []))) (tg_headers t) in
  let credential :=
    match ereq_credential_header prepared with Some (name, x) => [AppendHeader name x] | None => [] end in
  validate_destinations (tg_secret_options t) prepared (tg_headers t) = Ok tt ->
  materialize (tg_secret_options t) catalog prepared = Ok (resolved, final) ->
  (match tg_endpoint t with
   | Some server => exists e, own_endpoint (catalog_answers env) (tg_submitted_by t) (route_database env) server e /\
       prepare_endpoint_request e (tg_url t) (tg_headers t) = Ok prepared
   | None => parse_request_url (tg_url t) = Ok (ereq_url prepared) /\ ereq_credential_header prepared = None
   end) ->
  (ct = [] \/ ct = [AppendHeader CONTENT_TYPE form_content_type]) ->
  (forall name x, AppendHeader name x ∈ ordinary ++ credential ++ ct ->
   rb_headers resolved !! to_ascii_lowercase name = None) /\
  (forall name x name' x', AppendHeader name x ∈ ordinary ->
   AppendHeader name' x' ∈ credential ++ ct -> ~ same_header name name') /\
  (forall name x, AppendHeader name x ∈ ordinary -> credential <> [] \/ rb_headers resolved <> ∅ ->
   ~ same_header name "host").
Proof.
  intros ordinary credential Hdest Hmat Htarget Hct.
  pose proof (fun h v => secret_header_apart t catalog prepared resolved final h v Hdest Hmat) as Hsec.
  pose proof (fun skip name v cn x => credential_apart t prepared skip name v cn x Htarget) as Hcredential.
  assert (Hcr : forall name x, AppendHeader name x ∈ credential -> ereq_credential_header prepared = Some (name, x)).
  { intros name x Hc. unfold credential in Hc. destruct (ereq_credential_header prepared) as [[cn cx]|].
    - by apply list_elem_of_singleton in Hc as [= -> ->].
    - by apply elem_of_nil in Hc. }
  assert (Hc' : forall name x, AppendHeader name x ∈ ct -> name = CONTENT_TYPE /\ ct <> []).
  { intros name x Hc. destruct Hct as [-> | ->]; [by apply elem_of_nil in Hc|].
    by apply list_elem_of_singleton in Hc as [= -> _]. }
  split_and!.
  - intros name v Hname. destruct (rb_headers resolved !! to_ascii_lowercase name) as [x|] eqn:Hx; [|done].
    destruct (Hsec _ _ Hx) as (Hr & Hord & Hcred).
    apply elem_of_app in Hname as [Hname|Hname]; [by apply ordinary_header_name, Hord in Hname as [? _]|].
    apply elem_of_app in Hname as [Hname%Hcr|[-> _]%Hc']; [by edestruct Hcred|].
    destruct Hr. vm_compute. set_solver.
  - intros name v cn x Hname [Hc%Hcr|[-> Hne]%Hc']%elem_of_app; [by eapply Hcredential|].
    unfold ordinary in Hname. rewrite (bool_decide_eq_false_2 _ Hne), orb_true_r in Hname.
    by eapply ordinary_not_content_type.
  - intros name v Hname [Hne|Hne].
    + unfold credential in Hne. destruct (ereq_credential_header prepared) as [[cn cx]|] eqn:E; [|done].
      by eapply Hcredential.
    + apply map_choose in Hne as (h & x & Hx). destruct (Hsec _ _ Hx) as (_ & Hord & _).
      apply ordinary_header_name, Hord in Hname. by destruct Hname.
Qed.

(** The header that carries the credential of an endpoint. *)
Definition credential_of (e : ResolvedEndpoint) : list header_op :=
  match re_auth e with
  | BearerAuth v => [AppendHeader "authorization" v]
  | HeaderAuth name v => [AppendHeader name v]
  | NoAuth | QueryAuth _ => []
  end.

Lemma prepared_credential e path headers r :
  prepare_endpoint_request e path headers = Ok r ->
  match ereq_credential_header r with Some (name, v) => [AppendHeader name v] | None => [] end =
    credential_of e.
Proof.
  unfold prepare_endpoint_request, credential_of. intros H. apply result_bind_ok in H as (url & _ & H).
  destruct (existsb _ (header_names headers)); [done|].
  destruct (re_auth e); simplify_eq; try done. apply result_bind_ok in H as (c & _ & H).
  cbv zeta in H. by destruct (existsb _ (url_query_pairs url)); simplify_eq.
Qed.

(** The headers of the secrets a request binds. *)
Lemma secret_headers_bound t catalog prepared resolved final h :
  validate_destinations (tg_secret_options t) prepared (tg_headers t) = Ok tt ->
  materialize (tg_secret_options t) catalog prepared = Ok (resolved, final) ->
  is_Some (rb_headers resolved !! h) <->
    exists b name, secret_bindings (tg_secret_options t) = Some b /\ is_Some (sb_headers b !! name) /\
  credential_header_name name = Ok h.
Proof.
  intros Hdest Hmat. destruct (secret_bindings (tg_secret_options t)) as [b|] eqn:Hb.
  - destruct (headers_placed _ _ _ _ _ _ _ Hb Hdest Hmat) as [Hto Hfrom]. split.
    + intros [v Hv]. destruct (Hfrom h v Hv) as (name & ? & ?). by exists b, name.
    + intros (b' & name & [= <-] & [r Hr] & Hn). destruct (Hto name r Hr) as (h' & v & Hn' & _ & Hv).
      assert (h' = h) as -> by congruence. by eexists.
  - unfold materialize in Hmat. rewrite Hb in Hmat. injection Hmat as <- _. cbn. rewrite lookup_empty.
    split; [by intros [? ?]|by intros (? & ? & ? & _)].
Qed.

End Spec.

(** ** Concrete instances *)

#[local] Existing Instance text_json.
#[local] Existing Instance sample_url.
#[local] Existing Instance sample_url_ops_laws.
#[local] Existing Instance sample_headers.
#[local] Existing Instance sample_headers_laws.
#[local] Existing Instance sample_http.

Definition sample_bodies : BodyDeps := {|
  base64_encode s := s; sha256_hex s := s; decode_text _ s := Ok s;
|}.
#[local] Existing Instance sample_bodies.

Definition sample_sink : sink_env := {|
  sink_permit := Ok tt; source_valid _ := Ok tt; source_database := Some "app"; source_has_origin := false;
  sink_connect _ _ := Ok tt; sink_begin := Ok tt; sink_isolation := Ok tt; sink_setup := Ok tt;
  sink_origin_valid := Ok tt; sink_identity _ := Ok true; sink_qualified t := Ok (Some t);
  sink_lock _ := Ok tt; sink_location t := Ok (Some (t, "app")); sink_key := "0b4e";
  sink_insert _ _ _ := Ok 1%N; sink_constraints := Ok tt; sink_verify _ _ _ := Ok true;
  sink_commit_setup := Ok tt; sink_commit := Ok tt; sink_close := Ok tt;
|}.

(** [alice] may call the functions, and the server answers 200. *)
Definition sample_http_env : http_env := {|
  privilege_begin _ := Ok tt;
  has_privilege _ role _ := Ok (Some (String.eqb role "alice"));
  privilege_close _ := Ok tt;
  route_database := Some "app";
  catalog_answers := sample_catalog;
  client_build _ := Ok tt;
  decode_base64 s := Ok s;
  mime_ok _ := None;
  build_request _ := Ok tt;
  build_multipart _ := Ok (Some 100%N);
  send _ _ := Ok (mkResponse 200 [] None [Ok "{}"]);
  sink_answers := sample_sink;
  sink_timed_out := false;
  elapsed_ms := 12;
|}.

Definition sample_policy : HttpPolicy := mkPolicy Restricted (mkAllowlist ["api.github.com"] []).

(** Through the stored endpoint, with a secret in a header of its own. *)
Definition sample_request_text : string := print_value (Object
  [("url", JString "/repos?page=2"); ("endpoint", JString "github"); ("method", JString "POST");
   ("body", JString "{}"); ("headers", Object [("accept", JString "text/plain")]);
   ("submitted_by", JString "alice");
   ("secret_bindings", Object [("headers", Object [("X-Token", Object [("server", JString "github");
      ("key", JString "token")])])])]).

Definition sample_sent : Request :=
  mkRequest "POST" (mkParts "https" "api.github.com" "v1/repos" (Some "page=2") None) 30
    [AppendHeader "accept" "text/plain"; AppendHeader "x-api-key" "k3y";
     ReplaceHeaders {["x-token" := "s3cret"]}] (TextBody "{}").

Lemma sample_sent_log :
  Sent Restricted sample_sent ∈ snd (activity sample_http_env false sample_policy sample_request_text []).
Proof. apply (list_elem_of_lookup_2 _ 3). vm_compute. reflexivity. Qed.

Lemma http_request_guarded_witness :
  allowlist_validate (allowed_domains sample_policy) (rq_url sample_sent) = Ok tt /\
  has_privilege sample_http_env true "alice"
    "df.http(df.http_endpoint,pg_catalog.text,pg_catalog.text,pg_catalog.jsonb,pg_catalog.int4)"
    = Ok (Some true).
Proof.
  destruct (http_request_guarded sample_http_env false sample_policy sample_request_text
    _ _ Restricted sample_sent (surjective_pairing _) sample_sent_log) as
    (_ & _ & Ha & role & events & v & Hv & Hrole & _ & Hp & _).
  split; [exact (Ha eq_refl)|]. vm_compute in Hv. injection Hv as <-.
  vm_compute in Hrole. injection Hrole as <-. exact (Hp true).
Defined.

