(* ===== verification/HttpResponseSpec.v ===== *)
(** What becomes of a response ([HttpResponse], [HttpRequest]): its body is read
    exactly up to the limit, excerpts end on character boundaries, and the
    envelope says what the server said. *)
From S2P Require Import Prelude RustString Json JsonText HttpConfig UrlCrate Ssrf.
From S2P Require Import Endpoints EndpointSpec Secrets HttpResponse HttpRequest HttpRequestSpec.

Definition concat_strings (l : list string) : string := fold_right String.append "" l.
Definition size_of (s : string) : N := N.of_nat (String.length s).

Lemma size_of_app a b : size_of (a +:+ b) = (size_of a + size_of b)%N.
Proof. unfold size_of. rewrite str_length_app. lia. Qed.

Section Bodies.
Context {BD : BodyDeps}.

(** The chunks that arrive, and the failure that ends them, if one does. *)
Fixpoint arrived (chunks : list (result string string)) : list string * option string :=
  match chunks with
  | [] => ([], None)
  | Err e :: _ => ([], Some e)
  | Ok chunk :: chunks' => (chunk :: fst (arrived chunks'), snd (arrived chunks'))
  end.

Lemma read_chunks_exact mode limit chunks r :
  (limit <= u64_max)%N -> (rd_total r <= limit)%N ->
  let whole := concat_strings (fst (arrived chunks)) in
  read_chunks mode limit chunks r =
    if (rd_total r + size_of whole <=? limit)%N
    then
      match snd (arrived chunks) with
      | Some e => Err ("Failed to read response body: " +:+ e)
      | None => Ok (mkReading
                    (if bool_decide (mode = Inline) || bool_decide (mode = Sink) then rd_bytes r +:+ whole else rd_bytes r)
                    (rd_total r + size_of whole)
                    (if bool_decide (mode = Metadata) || bool_decide (mode = Sink) then rd_hashed r +:+ whole else rd_hashed r))
      end
    else Err (exceeded limit).
Proof.
  intros Hl. revert r. induction chunks as [|[c|e] chunks IH]; intros r Hr.
  - cbn. change (size_of "") with 0%N. rewrite N.add_0_r. destruct (N.leb_spec (rd_total r) limit); [|lia].
    rewrite !str_app_nil_r. destruct r. by destruct (bool_decide _ || _), (bool_decide (mode = Metadata) || _).
  - cbn [arrived fst snd read_chunks concat_strings fold_right]. fold (concat_strings (fst (arrived chunks))).
    change (N.of_nat (String.length c)) with (size_of c). rewrite size_of_app.
    rewrite u64_wrapping_sub_fits by lia. set (w := size_of (concat_strings _)).
    destruct (N.ltb_spec (limit - rd_total r) (size_of c)).
    { destruct (N.leb_spec (rd_total r + (size_of c + w)) limit); [lia|done]. }
    rewrite u64_wrapping_add_fits by lia. cbv zeta in IH.
    rewrite IH by (cbn; lia). cbn [rd_total rd_bytes rd_hashed]. fold w. rewrite N.add_assoc.
    destruct (_ <=? limit)%N; [|done]. destruct (snd (arrived chunks)); [done|].
    by destruct (bool_decide _ || _), (bool_decide (mode = Metadata) || _); rewrite ?str_app_assoc.
  - cbn. change (size_of "") with 0%N. rewrite N.add_0_r. by destruct (N.leb_spec (rd_total r) limit); [|lia].
Qed.

(** What [u64] holds it never exceeds. *)
Lemma read_chunks_u64 mode limit chunks r r' :
  read_chunks mode limit chunks r = Ok r' -> (rd_total r <= u64_max)%N -> (rd_total r' <= u64_max)%N.
Proof.
  revert r. induction chunks as [|[c|e] chunks IH]; intros r; cbn; [by intros [= ->]| |done].
  destruct (_ <? _)%N; [done|]. intros H%IH _; [done|]. cbn. unfold u64_wrapping_add, u64_max.
  pose proof (N.mod_lt (rd_total r + N.of_nat (String.length c)) (2 ^ 64)). lia.
Qed.

Lemma arrived_take k chunks :
  snd (arrived (take k chunks)) = None ->
  size_of (concat_strings (fst (arrived (take k chunks)))) =
    size_of (concat_strings (take k (fst (arrived chunks)))).
Proof.
  revert k. induction chunks as [|[c|e] chunks IH]; intros [|k]; cbn; try done.
  intros H. rewrite !size_of_app. by f_equal; apply IH.
Qed.

(** The content a mode makes of a whole body. *)
Definition content_of (mode : HttpResponseMode) (content_type : option (option string)) (whole : string)
    : result ResponseContent string :=
  match mode with
  | Inline => map_ok (fun b => mkContent (Some b) (size_of whole) None None None)
        (inline_body content_type whole)
  | Metadata => Ok (mkContent None (size_of whole) (Some (sha256_hex whole)) None None)
  | Discard => Ok (mkContent None (size_of whole) None None None)
  | Sink => Ok (mkContent None (size_of whole) (Some (sha256_hex whole)) (Some whole) None)
  end.

(** C25: A body is read whole or not at all.  However a response is cut into
    chunks, and wherever its transfer breaks off: when it announces a length over
    the limit, or what arrives of it is over the limit, it is refused; else, when
    the transfer failed, the answer is that failure; else it is the content its
    mode asks for, with the exact size and the digest of all bytes.  While it is
    read the running total is the size of what has arrived and within the limit,
    so the [u64] subtraction of the total from the limit never underflows, nor
    does the sum overflow. *)
Theorem body_read_exact response options :
  let limit := default u64_max (max_response_bytes options) in
  let mode := default Inline (HttpConfig.response options) in
  let '(chunks, failure) := arrived (resp_chunks response) in
  let whole := concat_strings chunks in
  (limit <= u64_max)%N ->
  read_body response options =
    (if (match resp_content_length response with Some n => limit <? n | None => false end
         || (limit <? size_of whole))%N
      then Err (exceeded limit)
      else
        match failure with
        | Some e => Err ("Failed to read response body: " +:+ e)
        | None => content_of mode (header_value "content-type" response) whole
        end) /\
  forall k r, read_chunks mode limit (take k (resp_chunks response)) (mkReading "" 0 "") = Ok r ->
  rd_total r = size_of (concat_strings (take k chunks)) /\ (rd_total r <= limit)%N /\
  u64_wrapping_sub limit (rd_total r) = (limit - rd_total r)%N.
Proof.
  intros limit mode. destruct (arrived (resp_chunks response)) as [chunks failure] eqn:Ea.
  intros whole Hl. split.
  - unfold read_body. fold limit mode.
    destruct (match resp_content_length response with Some n => _ | None => _ end); [done|]. cbn [orb].
    rewrite read_chunks_exact by (cbn; lia). rewrite Ea. cbn [fst snd rd_total rd_bytes rd_hashed].
    fold whole. rewrite N.add_0_l, N.ltb_antisym. destruct (size_of whole <=? limit)%N; [|done].
    cbn [negb]. destruct failure; [done|]. cbn [result_bind rd_total rd_bytes rd_hashed].
    destruct mode; cbn; try done. change (bool_decide (Inline = Inline)) with true. cbn.
    by destruct (inline_body _ whole).
  - intros k r. rewrite read_chunks_exact by (cbn; lia). cbn [rd_total]. rewrite N.add_0_l.
    destruct (N.leb_spec (size_of (concat_strings (fst (arrived (take k (resp_chunks response)))))) limit)
      as [Hle|]; [|done].
    destruct (snd (arrived (take k _))) eqn:En; [done|]. intros [= <-]. cbn [rd_total].
    split_and!; [|done|by apply u64_wrapping_sub_fits]. by rewrite (arrived_take _ _ En), Ea.
Qed.

Lemma read_body_u64 response options c : read_body response options = Ok c -> (rc_bytes c <= u64_max)%N.
Proof.
  unfold read_body. destruct (match resp_content_length response with Some _ => _ | None => _ end); [done|].
  intros H. apply result_bind_ok in H as (r & Hr%read_chunks_u64 & H); [|done].
  by apply result_bind_ok in H as (i & _ & [= <-]).
Qed.

(** ** Excerpts *)

Lemma floor_boundary_ok n s : is_char_boundary (floor_boundary n s) s = true /\ floor_boundary n s <= n.
Proof.
  induction n as [|n [IH1 IH2]]; [done|]. cbn [floor_boundary].
  destruct (is_char_boundary (S n) s) eqn:E; [done|]. split; [done|lia].
Qed.

Lemma body_error_preview_total b :
  exists n, n <= ERROR_BODY_PREVIEW_BYTES /\
  body_error_preview b = Some (
    if Nat.leb (String.length (body_text b)) ERROR_BODY_PREVIEW_BYTES then body_text b
    else str_take n (body_text b) +:+ "... [truncated, " +:+ show_nat (String.length (body_text b)) +:+ " " +:+
    match body_encoded b with Base64Encoding => "base64 characters" | TextEncoding => "bytes" end
    +:+ " total]").
Proof.
  destruct (floor_boundary_ok ERROR_BODY_PREVIEW_BYTES (body_text b)) as [Hb Hn].
  eexists. split; [exact Hn|]. unfold body_error_preview.
  destruct (Nat.leb _ _); [done|]. unfold slice_to. by rewrite Hb.
Qed.

Lemma content_error_preview_total c : is_Some (content_error_preview c).
Proof.
  unfold content_error_preview. destruct (rc_inline c) as [b|]; [|by eexists].
  destruct (body_error_preview_total b) as (n & _ & ->). by eexists.
Qed.

(** ** Headers *)

Lemma collect_headers_wf response options : wf_value (Object (collect_headers response options)) = true.
Proof.
  unfold collect_headers. assert (H : wf_value (Object []) = true) by done. revert H.
  generalize (@nil (string * value)). induction (resp_headers response) as [|[name v] l IH]; intros acc H; [done|].
  cbn [fold_left]. apply IH. destruct (header_kept options name); [|done]. destruct v; [|done].
  by apply wf_obj_insert.
Qed.
End Bodies.

Section Envelope.
Context {UC : UrlCrate} {UO : UrlOps UC} {HC : HeaderCrate} {HD : HttpDeps} {BD : BodyDeps}
    {SJ : SerdeJson} {SJL : SerdeJsonLaws SJ} (env : http_env).

Lemma envelope_wf status content headers is_ok ms :
  (status <= u64_max)%N -> (ms <= u64_max)%N -> (rc_bytes content <= u64_max)%N ->
  wf_value (Object headers) = true ->
  wf_value (envelope_value status content headers is_ok ms) = true.
Proof.
  intros Hs Hm Hb Hh.
  assert (Hobj : forall l, wf_value (Object l) =
    bool_decide (NoDup (map fst l)) && forallb (fun kv => wf_value (snd kv)) l) by done.
  assert (Hnum : forall n, (n <= u64_max)%N -> wf_value (Number (PosInt n)) = true)
    by (intros n Hn; cbn; by apply N.leb_le).
  unfold envelope_value. destruct (rc_inline content) as [b|].
  - rewrite Hobj. cbn [map fst snd forallb]. by rewrite !Hnum, Hh.
  - rewrite Hobj. destruct (rc_sha256 content), (rc_sink content);
      cbn [app some_member fmap option_fmap option_map map fst snd forallb]; by rewrite !Hnum, Hh.
Qed.

Lemma read_body_size response options c :
  read_body response options = Ok c -> rc_sink c = None.
Proof.
  unfold read_body. destruct (match resp_content_length response with Some _ => _ | None => _ end); [done|].
  intros H. apply result_bind_ok in H as (r & _ & H). by apply result_bind_ok in H as (i & _ & [= <-]).
Qed.

(** The envelope says what the server said.  When an activity succeeds, it
    sent a request that was answered with a status below 500 or above 599, and its
    text is the JSON object with that status, [ok] exactly for 2xx, and the kept
    headers; a server error is an error of the activity, so a result never stands
    for one. *)
Theorem http_envelope_faithful multipart policy config_json text log :
  (forall s rq response, send env s rq = Ok response -> (resp_status response <= u64_max)%N) ->
  (elapsed_ms env <= u64_max)%N ->
  activity env multipart policy config_json [] = (Ok text, log) ->
  exists rq response options content v,
  send env (security policy) rq = Ok response /\ is_server_error (resp_status response) = false /\
  value_from_str text = Ok v /\
  v = envelope_value (resp_status response) content (collect_headers response options)
    (is_success (resp_status response)) (elapsed_ms env) /\
  get "status" v = Some (Number (PosInt (resp_status response))) /\
  get "ok" v = Some (Bool (is_success (resp_status response))).
Proof.
  intros Hsend Hms H.
  assert (Hin : exists t database url rq more, transfer env policy multipart t database url rq more = (Ok text, log)).
  { unfold activity in H. destruct multipart.
    - unfold execute_multipart in H.
      apply bind_lift_inv in H as [[_ [=]]|(config & _ & H)]. apply bind_lift_inv in H as [[_ [=]]|(role & _ & H)].
      apply bind_a_inv in H as [(e & _ & [=])|([prepared [resolved final]] & log1 & _ & H)].
      apply bind_lift_inv in H as [[_ [=]]|(? & _ & H)]. destruct (negb _); [done|].
      apply bind_lift_inv in H as [[_ [=]]|(rq & _ & H)]. eauto 10.
    - unfold execute_http in H.
      apply bind_lift_inv in H as [[_ [=]]|(config & _ & H)]. apply bind_lift_inv in H as [[_ [=]]|(role & _ & H)].
      apply bind_a_inv in H as [(e & _ & [=])|([prepared [resolved final]] & log1 & _ & H)].
      apply bind_lift_inv in H as [[_ [=]]|(? & _ & H)]. destruct (negb _); [done|].
      apply bind_lift_inv in H as [[_ [=]]|([ct body] & _ & H)]. eauto 10. }
  destruct Hin as (t & database & url & rq & more & Ht). unfold transfer in Ht.
  apply bind_a_inv in Ht as [(e & _ & [=])|(? & log1 & _ & Ht)].
  apply bind_a_inv in Ht as [(e & _ & [=])|(? & log2 & _ & Ht)].
  apply bind_lift_inv in Ht as [[_ [=]]|(response & Hr%map_err_ok & Ht)].
  apply bind_lift_inv in Ht as [[_ [=]]|(content & Hc & Ht)].
  apply bind_lift_inv in Ht as [[_ [=]]|(content' & Hs & Ht)].
  pose proof (Hsend _ _ _ Hr) as Hstatus.
  destruct (is_server_error (resp_status response)) eqn:Herr.
  { apply bind_lift_inv in Ht as [[_ [=]]|(preview & _ & Ht)]. by injection Ht. }
  injection Ht as <- _.
  assert (Hsize : rc_bytes content' = rc_bytes content).
  { unfold store_in_sink in Hs. destruct (rc_sink_body content); [|by injection Hs as <-].
    apply result_bind_ok in Hs as (table & _ & Hs). apply result_bind_ok in Hs as (sha & _ & Hs).
    destruct (sink_timed_out env); [done|]. by apply result_bind_ok in Hs as (stored & _ & [= <-]). }
  eexists rq, response, (tg_body_options t), content', _. split_and!; [done|done| |reflexivity|..].
  - unfold serialize_envelope. apply value_from_to_string. apply envelope_wf; [done|done| |apply collect_headers_wf].
    rewrite Hsize. by eapply read_body_u64.
  - unfold envelope_value. by destruct (rc_inline content').
  - unfold envelope_value. by destruct (rc_inline content').
Qed.
End Envelope.

(** ** Concrete instances *)

#[local] Existing Instance text_json.
#[local] Existing Instance sample_url.
#[local] Existing Instance sample_url_ops_laws.
#[local] Existing Instance sample_headers.
#[local] Existing Instance sample_http.
#[local] Existing Instance sample_bodies.

Definition sample_reply_json : string :=
  (match fst (activity sample_http_env false sample_policy sample_request_text []) with
    | Ok text => text | Err e => e end).

Lemma http_envelope_faithful_witness :
  exists rq response v, send sample_http_env Restricted rq = Ok response /\
    value_from_str sample_reply_json = Ok v /\ get "status" v = Some (Number (PosInt 200)) /\
    get "ok" v = Some (Bool true).
Proof.
  assert (Hsend : forall s rq response, send sample_http_env s rq = Ok response ->
    (resp_status response <= u64_max)%N) by (by intros s rq response [= <-]).
  destruct (http_envelope_faithful sample_http_env false sample_policy sample_request_text sample_reply_json
    (snd (activity sample_http_env false sample_policy sample_request_text [])) Hsend)
    as (rq & response & options & content & v & H1 & H2 & H3 & H4 & H5 & H6).
  - done.
  - vm_compute. reflexivity.
  - exists rq, response, v. injection H1 as <-. by split_and!.
Defined.

Definition sample_options (limit : N) : HttpBodyOptions :=
  HttpConfig.mkBodyOptions None (Some limit) None None None.

(** A body cut in two, within and over the limit, and one whose transfer fails. *)
Lemma body_read_exact_witness :
  let response := mkResponse 200 [] None [Ok "ab"; Ok "cde"] in
  read_body response (sample_options 4) = Err (exceeded 4) /\
  read_body response (sample_options 5) = content_of Inline (header_value "content-type" response) "abcde" /\
  read_body (mkResponse 200 [] (Some 5%N) [Ok "ab"; Err "reset"]) (sample_options 5) =
    Err "Failed to read response body: reset".
Proof.
  split_and!.
  - apply (body_read_exact (mkResponse 200 [] None [Ok "ab"; Ok "cde"]) (sample_options 4)); done.
  - apply (body_read_exact (mkResponse 200 [] None [Ok "ab"; Ok "cde"]) (sample_options 5)); done.
  - apply (body_read_exact (mkResponse 200 [] (Some 5%N) [Ok "ab"; Err "reset"]) (sample_options 5)); done.
Defined.
