(* ===== verification/ExplainSpec.v ===== *)
(** [df.explain] shows a whole graph ([Explain]): rendering ends, and the text has
    the lines of every node of the graph, in order and under their headings. *)
From S2P Require Import Prelude RustString Json JsonText Graph Flatten FlattenSpec ConfigChildren.
From S2P Require Import DslSpec NodeStatus Endpoints Explain.

(** ** Children *)

Section Explain.
Context {SJ : SerdeJson}.

(** The children shown below a node, each with the heading above it. *)
Definition labels (m : MaterializedNode) : list (string * string) :=
  let l := option_list (m_left_node m) in
  let r := option_list (m_right_node m) in
  let config := config_child_ids (m_node_type m) (m_query m) in
  let t := m_node_type m in
  if String.eqb t "LOOP" then map (pair "↻ body") l ++ map (pair "? while") config
  else if String.eqb t "IF" then
    map (pair "? condition") config ++ map (pair "✓ then") l ++ map (pair "✗ else") r
  else if String.eqb t "JOIN" || String.eqb t "RACE" then
    imap (fun k c => ("║ branch " +:+ show_nat (S k), c)) (l ++ r ++ config)
  else [].

Lemma imap_snd {A} (f : nat -> A) (l : list string) : map snd (imap (fun k c => (f k, c)) l) = l.
Proof. revert f. induction l as [|c l IH]; intros f; [done|]. cbn. f_equal. apply (IH (fun k => f (S k))). Qed.

(** A node of a graph that the table constraints accept and whose loop config, if
    any, the worker can read. *)
Definition displayable (m : MaterializedNode) : Prop :=
  structure_ok (m_node_type m) (m_left_node m) (m_right_node m) (m_query m) = true /\
  (m_node_type m = "LOOP" -> forall q, m_query m = Some q ->
   exists config, from_json (A := LoopConfig) q = Ok config).

Section Children.
Context {SJL : SerdeJsonLaws SJ} {SJR : ReprintLaws SJ}.
Context (d : Durofut) (q : option string) (l r c : option string) (ex : list string) (i : string).
Context (cids : list string) (Hs : slots d cids l r c ex).
Context (Hv : validate_config_children d = Ok tt) (Hq : materialized_query d c ex = Ok q).

Let m := mkMaterialized i (d_node_type d) q (d_result_name d) l r.

Lemma no_extras : d_node_type d <> "JOIN" -> ex = [].
Proof.
  intros Hj. apply nil_length_inv. rewrite (slots_extra _ _ _ _ _ _ Hs).
  by destruct (String.eqb_spec (d_node_type d) "JOIN").
Qed.
Lemma no_condition : has_condition d = false -> c = None.
Proof.
  intros Hc. pose proof (proj1 (slots_condition _ _ _ _ _ _ Hs)) as H. apply eq_None_not_Some.
  intros [Hc' _]%H. congruence.
Qed.

Lemma shown_condition : has_condition d = true -> ex = [] ->
  (cfg ← config_value q; config_str cfg "condition_node") = c.
Proof.
  intros Hc ->. unfold config_value. destruct q as [text|] eqn:E.
  - cbn [mbind option_bind]. destruct (value_from_str text) as [v|] eqn:Ht; cbn [ok mbind option_bind].
    + unfold config_str, index. rewrite (materialized_condition d c q text v Hc Hv) by (by subst).
      by destruct c.
    + destruct c as [x|]; [|done].
      apply config_condition_present in Hq as (text' & v & [= <-] & Hv' & _). congruence.
  - destruct c as [x|]; [|done].
    by apply config_condition_present in Hq as (text' & v & [=] & _).
Qed.

Lemma shown_extras : d_node_type d = "JOIN" -> c = None ->
  omap as_str (default [] (cfg ← config_value q; as_array (index cfg "extra_nodes"))) = ex.
Proof.
  intros Hj ->. unfold config_value. destruct q as [text|] eqn:E.
  - cbn [mbind option_bind]. destruct (value_from_str text) as [v|] eqn:Ht; cbn [ok mbind option_bind].
    + unfold index. rewrite (materialized_extras d ex q text v Hj Hv) by (by subst).
      destruct ex as [|x1 ex']; [done|]. cbn [default as_array]. generalize (x1 :: ex').
      induction l0 as [|x l0 IH]; [done|]. cbn. by f_equal.
    + destruct ex as [|x1 ex']; [done|].
      apply config_extras_present in Hq as (text' & v & [= <-] & Hv' & _); [congruence|done].
  - destruct ex as [|x1 ex']; [done|].
    by apply config_extras_present in Hq as (text' & v & [=] & _).
Qed.

Lemma shown_loop_condition : d_node_type d = "LOOP" -> displayable m ->
  loop_config (explain_node_from m) ≫= loop_condition_node = c.
Proof.
  intros Hl [_ Hp]. cbn in Hp. assert (Hc : has_condition d = true) by (unfold has_condition; by rewrite Hl).
  assert (ex = []) as -> by (apply no_extras; by rewrite Hl).
  unfold loop_config. cbn. destruct q as [text|] eqn:E; cbn.
  - destruct (Hp Hl text eq_refl) as [config Hconfig]. rewrite Hconfig. cbn.
    assert (exists v, value_from_str text = Ok v) as [v Ht].
    { unfold from_json, from_str_as in Hconfig. destruct (value_from_str text); [eauto|done]. }
    pose proof (loop_config_condition text config v Hconfig Ht) as H.
    rewrite (materialized_condition d c q text v Hc Hv) in H by (by subst).
    destruct (loop_condition_node config), c; cbn in H; congruence.
  - destruct c as [x|]; [|done].
    by apply config_condition_present in Hq as (text' & v & [=] & _).
Qed.

(** The types of rows that the table constraints accept, with what they say of
    the children. *)
Lemma structure_cases : structure_ok (d_node_type d) l r q = true ->
  (d_node_type d = "THEN" \/ d_node_type d = "IF" \/ d_node_type d = "LOOP" /\ r = None \/
   d_node_type d = "JOIN" \/ d_node_type d = "RACE") \/
  (d_node_type d ∉ ["THEN"; "IF"; "LOOP"; "JOIN"; "RACE"]) /\ l = None /\ r = None.
Proof.
  unfold structure_ok. case_bool_decide as Hleaf.
  - intros H. right. split.
    + intros Hin. revert Hleaf. assert (Hx : forallb (fun t => negb (bool_decide (t ∈ ["SQL"; "SLEEP";
        "WAIT_SCHEDULE"; "BREAK"; "HTTP"; "HTTP_MULTIPART"; "SIGNAL"]))) ["THEN"; "IF"; "LOOP"; "JOIN"; "RACE"] = true)
        by done. rewrite forallb_forall in Hx. specialize (Hx _ (proj1 (list_elem_of_In _ _) Hin)).
      by apply negb_true_iff, bool_decide_eq_false in Hx.
    + destruct l, r; done.
  - intros H. left. repeat (case_match; [rewrite ?String.eqb_eq in *; try (by tauto)|]); try done.
    right; right; left. split; [done|]. by destruct l, r.
Qed.
(** What the config of a node says of its children. *)
Lemma config_ids : config_child_ids (d_node_type d) q = option_list c ++ ex.
Proof.
  pose proof (child_ids_exact d i cids l r c ex q Hs Hv Hq) as H.
  rewrite (slots_all _ _ _ _ _ _ Hs) in H. unfold child_ids, node_refs in H.
  cbn [m_left_node m_right_node m_node_type m_query] in H. rewrite <- app_assoc in H.
  by apply app_inv_head, app_inv_head in H.
Qed.

Lemma leaf_types : d_node_type d ∉ ["THEN"; "IF"; "LOOP"; "JOIN"; "RACE"] ->
  forall x, In x ["THEN"; "IF"; "LOOP"; "JOIN"; "RACE"] -> String.eqb (d_node_type d) x = false.
Proof. intros Ht x Hx. apply String.eqb_neq. intros E. apply Ht. rewrite E. by apply list_elem_of_In. Qed.

Lemma labels_children : displayable m -> d_node_type d <> "THEN" -> map snd (labels m) ≡ₚ cids.
Proof.
  intros [Hst _] Hthen. rewrite (slots_all _ _ _ _ _ _ Hs). unfold labels.
  cbn [m_node_type m_query m_left_node m_right_node m]. rewrite config_ids.
  pose proof no_extras as Hex. pose proof no_condition as Hcond. unfold has_condition in Hcond.
  destruct (structure_cases Hst) as [[Ht|[Ht|[[Ht Hr]|[Ht|Ht]]]]|(Ht & Hl & Hr)]; [done|..].
  - rewrite Ht in *. rewrite Hex by done. destruct l, r, c; cbn; solve_Permutation.
  - rewrite Ht in *. rewrite Hex, Hr by done. by destruct l, c.
  - rewrite Ht in *. rewrite Hcond by done. cbn. by rewrite imap_snd.
  - rewrite Ht in *. rewrite Hex, Hcond by done. cbn. by rewrite imap_snd.
  - rewrite !leaf_types by (done || simpl; tauto). rewrite Hl, Hr, Hcond, Hex; [done| |].
    + intros E. apply Ht. rewrite E. set_solver.
    + by rewrite !leaf_types by (done || simpl; tauto).
Qed.
End Children.

(** ** One level *)

Section Level.
Context (rec : string -> string -> bool -> result string stop).

Definition heading : Type := string * bool * option string.
Definition render_headings (prefix : string) (l : list heading) : result string stop :=
  push_all (map (fun h => labelled rec prefix (fst (fst h)) (snd (fst h)) (snd h)) l).

Definition headings (node : ExplainNode) : list heading :=
  let t := x_node_type node in
  if String.eqb t "LOOP" then
    [("↻ body", true, x_left_node node); ("? while", true, loop_config node ≫= loop_condition_node)]
  else if String.eqb t "IF" then
    [("? condition", true, cfg ← config_value (x_query node); config_str cfg "condition_node");
     ("✓ then", true, x_left_node node); ("✗ else", true, x_right_node node)]
  else if String.eqb t "JOIN" || String.eqb t "RACE" then
    imap (fun i k => ("║ branch " +:+ show_nat (S i), Nat.eqb i (length (branches node) - 1), Some k))
      (branches node)
  else [].

Lemma render_children_headings node prefix :
  render_children rec node prefix = render_headings prefix (headings node).
Proof.
  unfold render_children, headings, render_headings. repeat (case_match; [done|]).
  case_match; [|done]. f_equal. unfold render_branches. generalize (length (branches node)) as n.
  intros n. change (@map heading (result string stop)) with (@fmap list _ heading (result string stop)).
  by rewrite fmap_imap.
Qed.

(** The headings that have a child. *)
Definition filled (l : list heading) : list (string * string) :=
  omap (fun h => pair (fst (fst h)) <$> snd h) l.

Lemma childless_renders node prefix :
  x_node_type node ∈ childless -> render_children rec node prefix = Ok "".
Proof.
  intros Hin. unfold render_children.
  assert (H : forallb (fun t => negb (String.eqb t "LOOP" || String.eqb t "IF" || String.eqb t "JOIN" ||
    String.eqb t "RACE")) childless = true) by done.
  rewrite forallb_forall in H. specialize (H _ (proj1 (list_elem_of_In _ _) Hin)).
  rewrite !negb_orb, !andb_true_iff, !negb_true_iff in H. destruct H as [[[-> ->] ->] ->]. done.
Qed.
End Level.

Lemma filled_branches (n : nat) (f : nat -> bool) (l : list string) :
  filled (imap (fun i k => ("║ branch " +:+ show_nat (S (n + i)), f (n + i), Some k)) l) =
    imap (fun i k => ("║ branch " +:+ show_nat (S (n + i)), k)) l.
Proof.
  revert n. induction l as [|k l IH]; intros n; [done|]. cbn. f_equal.
  specialize (IH (S n)). etransitivity; [|etransitivity; [exact IH|]].
  - f_equal. apply imap_ext. intros i x _. cbn. by rewrite !Nat.add_succ_r.
  - apply imap_ext. intros i x _. cbn. by rewrite !Nat.add_succ_r.
Qed.

(** The renderer's headings are those of the children. *)
Lemma headings_filled `{!SerdeJsonLaws SJ, !ReprintLaws SJ} d q l r c ex i cids :
  slots d cids l r c ex -> validate_config_children d = Ok tt -> materialized_query d c ex = Ok q ->
  let m := mkMaterialized i (d_node_type d) q (d_result_name d) l r in
  displayable m -> filled (headings (explain_node_from m)) = labels m.
Proof.
  intros Hs Hv Hq m Hd. pose proof Hd as [Hst _].
  pose proof (no_extras d l r c ex cids Hs) as Hex. pose proof (no_condition d l r c ex cids Hs) as Hcond.
  pose proof (shown_condition d q l r c ex i cids Hs Hv Hq) as Hsc. pose proof (shown_extras d q l r c ex i cids Hs Hv Hq) as Hse.
  pose proof (shown_loop_condition d q l r c ex i cids Hs Hv Hq) as Hsl. fold m in Hsl.
  unfold labels, headings. cbn [m_node_type m_query m_left_node m_right_node m explain_node_from
    x_node_type x_query x_left_node x_right_node].
  rewrite (config_ids d q l r c ex i cids Hs Hv Hq). unfold has_condition in *.
  destruct (structure_cases d q l r c ex i cids Hs Hst) as [[Ht|[Ht|[[Ht Hr]|[Ht|Ht]]]]|(Ht & Hl & Hr)].
  - by rewrite Ht.
  - rewrite Ht in *. rewrite Hsc by (try apply Hex; done). rewrite Hex by done.
    cbn. by destruct c, l, r.
  - rewrite Ht in *. cbn [String.eqb Ascii.eqb Bool.eqb]. unfold m in Hsl. cbn in Hsl |- *.
    rewrite (Hsl eq_refl Hd), Hex by done. by destruct l, c.
  - rewrite Ht in *. unfold branches, extra_nodes.
    cbn [String.eqb Ascii.eqb Bool.eqb orb explain_node_from x_node_type x_query x_left_node x_right_node
      m_node_type m_query m_left_node m_right_node m]. rewrite Ht. cbn [String.eqb Ascii.eqb Bool.eqb].
    rewrite Hse by (try apply Hcond; done). rewrite Hcond by done. cbn. apply (filled_branches 0 (fun k => Nat.eqb k _)).
  - rewrite Ht in *. unfold branches, extra_nodes. cbn. rewrite Ht. cbn.
    rewrite Hcond, Hex by done. cbn. apply (filled_branches 0 (fun k => Nat.eqb k _)).
  - rewrite !(leaf_types d Ht) by (simpl; tauto). done.
Qed.

(** ** Whole subtrees *)

Lemma truncated_error limit cut s e : truncated limit cut s = Err e -> e = Panic.
Proof.
  unfold truncated. destruct (Nat.ltb _ _); [|done]. destruct (slice_to cut s); cbn; by intros [= <-].
Qed.

Lemma format_error node e : format_node_display node = Err e -> e = Panic.
Proof.
  unfold format_node_display, http_display.
  repeat (case_match; try done);
    repeat match goal with
    | H : ?x = _ |- (let? _ := ?x in _) = _ -> _ => rewrite H
    | |- result_bind ?x _ = _ -> _ => let E := fresh in destruct x as [[]|] eqn:E; cbn [result_bind]
    | |- Err _ = Err _ -> _ => intros [= <-]
    end; try done; try (by eapply truncated_error);
    match goal with H : result_bind _ _ = Err _ |- _ => apply result_bind_err in H as [H|(? & _ & H)] end;
    try done; by eapply truncated_error.
Qed.

Lemma push_all_app l1 l2 :
  push_all (l1 ++ l2) = (let? a := push_all l1 in let? b := push_all l2 in Ok (a +:+ b)).
Proof.
  induction l1 as [|[x|e] l1 IH]; cbn [app push_all result_bind]; [by destruct (push_all l2)| |done].
  rewrite IH. destruct (push_all l1); cbn [result_bind]; [|done].
  destruct (push_all l2); cbn [result_bind]; [by rewrite str_app_assoc|done].
Qed.

(** *** Pictures

    A tree is shown as a list of pieces: the line of a node (its display may itself
    have line breaks) or the heading above a child. *)
Inductive piece :=
  | Heading (indent label : string)
  | Line (indent : string) (m : MaterializedNode) (display : string).

Definition piece_text (p : piece) : string :=
  match p with
  | Heading indent label => indent +:+ label +:+ ":" +:+ newline
  | Line indent _ display => indent +:+ display +:+ newline
  end.
Definition text_of (ps : list piece) : string := fold_right (fun p s => piece_text p +:+ s) "" ps.
Definition piece_nodes (ps : list piece) : list MaterializedNode :=
  omap (fun p => match p with Line _ m _ => Some m | Heading _ _ => None end) ps.

Lemma text_of_app a b : text_of (a ++ b) = text_of a +:+ text_of b.
Proof.
  induction a as [|p a IH]; [done|].
  change (text_of ((p :: a) ++ b)) with (piece_text p +:+ text_of (a ++ b)).
  change (text_of (p :: a)) with (piece_text p +:+ text_of a). by rewrite IH, str_app_assoc.
Qed.
Lemma piece_nodes_app a b : piece_nodes (a ++ b) = piece_nodes a ++ piece_nodes b.
Proof. apply omap_app. Qed.

(** The subtrees of a node, each under its heading. *)
Definition headed (indent : string) (hs : list (string * string)) (subs : list (list piece)) : list piece :=
  concat (zip_with (fun h sub => Heading indent (fst h) :: sub) hs subs).

(** [pictures all i ps]: [ps] shows the tree of the node [i] of the graph [all]: a
    THEN as its left steps and then its right ones; any other node as its line and
    below it its children in the order of their headings. *)
Inductive pictures (all : list MaterializedNode) : string -> list piece -> Prop :=
  | pictures_then m i1 i2 ps1 ps2 :
      m ∈ all -> m_node_type m = "THEN" -> m_left_node m = Some i1 -> m_right_node m = Some i2 ->
      pictures all i1 ps1 -> pictures all i2 ps2 -> pictures all (m_id m) (ps1 ++ ps2)
  | pictures_node m indent display below subs :
      m ∈ all -> m_node_type m <> "THEN" -> format_node_display (explain_node_from m) = Ok display ->
      Forall2 (fun h sub => pictures all (snd h) sub) (labels m) subs ->
      pictures all (m_id m) (Line indent m display :: headed below (labels m) subs).

Definition steps_only (ns : list MaterializedNode) : list MaterializedNode :=
  filter (fun m => m_node_type m <> "THEN") ns.

(** A rendering that shows what [P] describes, of the nodes [ns], or that stops at one
    of them that cannot be displayed. *)
Definition rendered (P : list piece -> Prop) (r : result string stop) (ns : list MaterializedNode) : Prop :=
  match r with
  | Ok out => exists ps, out = text_of ps /\ P ps /\ piece_nodes ps ≡ₚ steps_only ns
  | Err e => e = Panic /\ exists m, m ∈ ns /\ format_node_display (explain_node_from m) = Err Panic
  end.

Lemma rendered_weaken (P Q : list piece -> Prop) r ns :
  (forall ps, P ps -> Q ps) -> rendered P r ns -> rendered Q r ns.
Proof. intros H. destruct r; [|done]. intros (ps & ? & ? & ?). exists ps. auto. Qed.

Lemma rendered_perm P r ns ns' : ns ≡ₚ ns' -> rendered P r ns -> rendered P r ns'.
Proof.
  intros Hp. destruct r as [out|e]; cbn.
  - intros (ps & ? & ? & H). exists ps. split_and!; [done..|]. unfold steps_only in *. by rewrite <- Hp.
  - intros (? & m & Hm & ?). split; [done|]. exists m. split; [by rewrite <- Hp|done].
Qed.

Lemma rendered_app (P1 P2 P : list piece -> Prop) r1 r2 ns1 ns2 :
  rendered P1 r1 ns1 -> rendered P2 r2 ns2 ->
  (forall ps1 ps2, P1 ps1 -> P2 ps2 -> P (ps1 ++ ps2)) ->
  rendered P (let? a := r1 in let? b := r2 in Ok (a +:+ b)) (ns1 ++ ns2).
Proof.
  intros H1 H2 HP. destruct r1 as [a|e]; cbn [result_bind rendered] in *.
  - destruct H1 as (ps1 & -> & Hp1 & Hn1). destruct r2 as [b|e]; cbn [result_bind rendered] in *.
    + destruct H2 as (ps2 & -> & Hp2 & Hn2). exists (ps1 ++ ps2). split; [by rewrite text_of_app|].
      split; [by apply HP|]. unfold steps_only in *. by rewrite piece_nodes_app, filter_app, Hn1, Hn2.
    + destruct H2 as (-> & m & Hm & Hp). split; [done|]. exists m. split; [apply elem_of_app; by right|done].
  - destruct H1 as (-> & m & Hm & Hp). split; [done|]. exists m. split; [apply elem_of_app; by left|done].
Qed.

(** The children under their headings, from their own trees. *)
Lemma rendered_headings (P : string -> list piece -> Prop) rec prefix hs subtrees :
  Forall2 (fun h ns => forall p b, rendered (P (snd h)) (rec (snd h) p b) ns) (filled hs) subtrees ->
  rendered (fun ps => exists subs, ps = headed prefix (filled hs) subs /\
            Forall2 (fun h sub => P (snd h) sub) (filled hs) subs)
    (render_headings rec prefix hs) (concat subtrees).
Proof.
  revert subtrees. induction hs as [|[[label b] [k|]] hs IH]; intros subtrees.
  - intros ->%Forall2_nil_inv_l. exists []. split; [done|]. split; [by exists []|done].
  - change (filled ((label, b, Some k) :: hs)) with ((label, k) :: filled hs).
    intros (ns & subtrees' & Hk & Hsub & ->)%Forall2_cons_inv_l.
    unfold render_headings. cbn [map push_all labelled fst snd concat].
    assert (Hone : rendered (fun ps => exists sub, ps = Heading prefix label :: sub /\ P k sub)
      (let? sub := rec k (prefix +:+ "  ") b in Ok (prefix +:+ label +:+ ":" +:+ newline +:+ sub)) ns).
    { specialize (Hk (prefix +:+ "  ") b). cbn [snd] in Hk.
      destruct (rec k (prefix +:+ "  ") b) as [out|e]; cbn [result_bind rendered] in *; [|done].
      destruct Hk as (ps & -> & Hp & Hn). exists (Heading prefix label :: ps). split_and!; [|by exists ps|done].
      cbn. by rewrite !str_app_assoc. }
    apply (rendered_app _ _ _ _ _ _ _ Hone (IH _ Hsub)).
    intros ps1 ps2 (sub & -> & Hp) (subs & -> & Hps). exists (sub :: subs). split; [done|by constructor].
  - intros Hsub. apply (rendered_perm _ _ (concat subtrees)); [done|]. specialize (IH _ Hsub).
    unfold render_headings in *. cbn [map push_all labelled fst snd].
    by destruct (push_all _).
Qed.

(** A node's line above what is below it. *)
Lemma rendered_line (P : list piece -> Prop) show below ns m before :
  m_node_type m <> "THEN" -> rendered P below ns ->
  rendered (fun ps => exists display sub, ps = Line before m display :: sub /\ P sub /\
            format_node_display (explain_node_from m) = Ok display)
    (let? display := format_node_display (explain_node_from m) in
      let? b := below in
      Ok (before +:+ display +:+ status_marker show (explain_node_from m) +:+ newline +:+ b)) (m :: ns).
Proof.
  intros Ht H. assert (Hmark : status_marker show (explain_node_from m) = "") by (by destruct show).
  rewrite Hmark. destruct (format_node_display _) as [display|e] eqn:E; cbn [result_bind].
  - destruct below as [b|e]; cbn [result_bind rendered] in *.
    + destruct H as (ps & -> & Hp & Hn). exists (Line before m display :: ps). split_and!.
      * cbn. by rewrite !str_app_assoc.
      * by exists display, ps.
      * unfold steps_only in *. rewrite filter_cons_True by done. cbn. by f_equiv.
    + destruct H as (-> & m' & Hm & Hp). split; [done|]. exists m'. split; [by right|done].
  - pose proof (format_error _ _ E) as ->. split; [done|]. exists m. split; [by left|done].
Qed.

Section Tree.
Context {SJL : SerdeJsonLaws SJ} {SJR : ReprintLaws SJ}.
Context (nodes : gmap string ExplainNode) (show_status : bool) (all : list MaterializedNode).
Context (Hall : forall m, m ∈ all -> nodes !! m_id m = Some (explain_node_from m)).

Abbreviation build := (build_tree_recursive nodes show_status).
Abbreviation step fuel prefix := (render_step nodes show_status (build fuel) prefix).

(** With fuel for its nodes, the tree of [i] is rendered, as a subtree or as
    steps of the sequence around it. *)
Definition covers (i : string) (ns : list MaterializedNode) : Prop :=
  (forall fuel prefix is_last, length ns <= fuel ->
   rendered (pictures all i) (build fuel i prefix is_last) ns) /\
  forall fuel, length ns <= fuel -> exists sequence, collect_sequence nodes fuel i = Some sequence /\
  forall fuel' prefix connector, length ns <= S fuel' ->
  rendered (pictures all i) (push_all (imap (fun j => step fuel' prefix (connector j)) sequence)) ns.

Lemma concat_length_le {A} (l : list (list A)) x : x ∈ l -> length x <= length (concat l).
Proof.
  induction l as [|y l IH]; [set_solver|]. cbn. rewrite length_app. intros [->|H]%elem_of_cons; [lia|].
  specialize (IH H). lia.
Qed.

(** The children of a node that is no THEN, from their own trees. *)
Lemma rendered_below m subtrees fuel prefix :
  filled (headings (explain_node_from m)) = labels m ->
  Forall2 (fun h ns => covers (snd h) ns) (labels m) subtrees -> length (concat subtrees) <= fuel ->
  rendered (fun ps => exists subs, ps = headed prefix (labels m) subs /\
            Forall2 (fun h sub => pictures all (snd h) sub) (labels m) subs)
    (render_children (build fuel) (explain_node_from m) prefix) (concat subtrees).
Proof.
  intros Hl Hsub Hf. rewrite render_children_headings, <- Hl in *. apply rendered_headings.
  apply Forall2_same_length_lookup. split; [by eapply Forall2_length|]. intros j c ns Hc Hns p b.
  apply (proj1 (Forall2_lookup_lr _ _ _ _ _ _ Hsub Hc Hns)).
  apply list_elem_of_lookup_2, concat_length_le in Hns. lia.
Qed.

Lemma covers_leafward m subtrees :
  m ∈ all -> m_node_type m <> "THEN" -> filled (headings (explain_node_from m)) = labels m ->
  Forall2 (fun h ns => covers (snd h) ns) (labels m) subtrees ->
  covers (m_id m) (m :: concat subtrees).
Proof.
  intros Hm Ht Hl Hsub. pose proof (proj2 (String.eqb_neq _ _) Ht) as Hteq.
  pose proof (Hall m Hm) as Hlook.
  assert (Hbelow : forall fuel prefix before, length (concat subtrees) <= fuel ->
    rendered (pictures all (m_id m)) (let? display := format_node_display (explain_node_from m) in
    let? b := render_children (build fuel) (explain_node_from m) prefix in
    Ok (before +:+ display +:+ status_marker show_status (explain_node_from m) +:+ newline +:+ b))
    (m :: concat subtrees)).
  { intros fuel prefix before Hf.
    eapply rendered_weaken; [|apply rendered_line; [done|by apply rendered_below]].
    intros ps (display & sub & -> & (subs & -> & Hp) & Hd). by apply pictures_node. }
  split.
  - intros [|fuel] prefix is_last Hf; cbn [length] in Hf; [lia|].
    cbn [build_tree_recursive]. rewrite Hlook. cbn [x_node_type explain_node_from]. rewrite Hteq.
    set (cp := if str_is_empty prefix then _ else _). set (cn := if str_is_empty prefix then _ else _).
    specialize (Hbelow fuel cp (prefix +:+ cn) ltac:(lia)).
    destruct (format_node_display _) as [display|e]; cbn [result_bind] in *; [|done].
    destruct (render_children _ _ _) as [b|e]; cbn [result_bind] in *; [|done].
    by rewrite str_app_assoc in Hbelow.
  - intros [|fuel] Hf; cbn [length] in Hf; [lia|]. exists [m_id m]. split.
    { cbn [collect_sequence]. rewrite Hlook. cbn [x_node_type explain_node_from]. by rewrite Hteq. }
    intros fuel' prefix connector Hf'. cbn [length] in Hf'. cbn [imap push_all]. unfold render_step. rewrite Hlook.
    specialize (Hbelow fuel' (prefix +:+ "    ") (prefix +:+ connector 0) ltac:(lia)).
    assert (Hskip : (if bool_decide (x_node_type (explain_node_from m) ∈ childless) then Ok ""
      else render_children (build fuel') (explain_node_from m) (prefix +:+ "    "))
      = render_children (build fuel') (explain_node_from m) (prefix +:+ "    ")).
    { case_bool_decide as Hin; [|done]. by rewrite childless_renders. }
    rewrite Hskip. destruct (format_node_display _) as [display|e]; cbn [result_bind] in *; [|done].
    destruct (render_children _ _ _) as [b|e]; cbn [result_bind] in *; [|done].
    rewrite str_app_assoc in Hbelow. by rewrite str_app_nil_r.
Qed.

Lemma covers_then m i1 i2 ns1 ns2 :
  m ∈ all -> m_node_type m = "THEN" ->
  m_left_node m = Some i1 -> m_right_node m = Some i2 ->
  covers i1 ns1 -> covers i2 ns2 -> covers (m_id m) (m :: ns1 ++ ns2).
Proof.
  intros Hm Ht Hl Hr [_ H1] [_ H2]. pose proof (Hall m Hm) as Hlook.
  assert (Hcons : forall P r, rendered P r (ns1 ++ ns2) -> rendered P r (m :: ns1 ++ ns2)).
  { intros P [out|e]; cbn [rendered].
    - intros (ps & ? & ? & Hn). exists ps. split_and!; [done..|]. unfold steps_only in *.
      rewrite filter_cons_False by (by intros Hne). done.
    - intros (-> & m' & Hm' & Hp). split; [done|]. exists m'. split; [by right|done]. }
  assert (Hseq : forall fuel, length (m :: ns1 ++ ns2) <= fuel -> exists sequence,
    collect_sequence nodes fuel (m_id m) = Some sequence /\
    forall fuel' prefix connector, length (m :: ns1 ++ ns2) <= S fuel' ->
    rendered (pictures all (m_id m)) (push_all (imap (fun j => step fuel' prefix (connector j)) sequence))
    (m :: ns1 ++ ns2)).
  { intros [|fuel] Hf; cbn [length] in Hf; rewrite length_app in Hf; [lia|].
    destruct (H1 fuel ltac:(lia)) as (s1 & Hs1 & Hr1), (H2 fuel ltac:(lia)) as (s2 & Hs2 & Hr2).
    exists (s1 ++ s2). split.
    - cbn [collect_sequence]. rewrite Hlook. cbn [x_node_type x_left_node x_right_node explain_node_from].
      rewrite Ht, Hl, Hr, Hs1, Hs2. done.
    - intros fuel' prefix connector Hf'. cbn [length] in Hf'. rewrite length_app in Hf'. apply Hcons.
      rewrite imap_app, push_all_app. eapply rendered_app; [by apply Hr1; lia| |].
      + apply (Hr2 fuel' prefix (fun j => connector (length s1 + j))). lia.
      + intros ps1 ps2 Hp1 Hp2. by apply (pictures_then all m i1 i2). }
  split; [|done]. intros [|fuel] prefix is_last Hf; [cbn [length] in Hf; lia|].
  destruct (Hseq (S fuel) Hf) as (sequence & Hs & Hrs).
  cbn [build_tree_recursive]. rewrite Hlook. cbn [x_node_type explain_node_from]. rewrite Ht, Hs.
  cbn [format_node_display]. unfold format_node_display at 1. cbn [x_node_type explain_node_from].
  rewrite Ht. cbn [String.eqb Ascii.eqb Bool.eqb orb result_bind ok_or]. unfold render_sequence.
  apply (Hrs fuel prefix (fun j => match j with O => _ | _ => "→ " end)). done.
Qed.

Lemma covers_perm i ns ns' : ns ≡ₚ ns' -> covers i ns -> covers i ns'.
Proof.
  intros Hp [H1 H2]. split.
  - intros fuel prefix b Hf. eapply rendered_perm; [done|]. apply H1. by rewrite Hp.
  - intros fuel Hf. destruct (H2 fuel) as (sequence & ? & H); [by rewrite Hp|]. exists sequence. split; [done|].
    intros fuel' prefix connector Hf'. eapply rendered_perm; [done|]. apply H. by rewrite Hp.
Qed.

(** A tree that was materialized into nodes of the graph is covered. *)
Lemma materialized_covers n : forall d depth i ns,
  length ns <= n -> materializes d depth i ns -> ns ⊆ all -> Forall displayable ns -> covers i ns.
Proof.
  induction n as [|n IH]; intros d depth i ns Hn H; inversion H as
    [? ? ? cs subtrees q l r c ex Hdepth Hvt Hv Hraw Hs Hq Hsub]; subst; cbn [length] in Hn; [lia|].
  intros Hin Hd. apply Forall_cons in Hd as [Hd Hds].
  set (m := mkMaterialized i (d_node_type d) q (d_result_name d) l r) in *.
  assert (Hcov : Forall2 (fun c ns => covers c ns) (map snd cs) subtrees).
  { apply Forall2_fmap_l, Forall2_same_length_lookup. split; [by eapply Forall2_length|]. intros j c' ns Hc Hns.
    pose proof (list_elem_of_lookup_2 _ _ _ Hns) as Hmem.
    apply (IH (fst c') (S depth)).
    - apply concat_length_le in Hmem. lia.
    - exact (Forall2_lookup_lr _ _ _ _ _ _ Hsub Hc Hns).
    - intros m' Hm'. apply Hin. right. apply list_elem_of_In, in_concat. exists ns. by split; apply list_elem_of_In.
    - rewrite Forall_concat in Hds. rewrite Forall_forall in Hds. by apply Hds. }
  assert (Hm : m ∈ all) by (apply Hin; by left).
  destruct (decide (m_node_type m = "THEN")) as [Ht|Ht].
  - destruct Hd as [Hst _]. cbn in Hst, Ht. unfold structure_ok in Hst. rewrite Ht in Hst. cbn in Hst.
    destruct l as [il|]; [|done]. destruct r as [ir|]; [|done].
    assert (ex = []) as -> by (eapply no_extras; [exact Hs|by rewrite Ht]).
    assert (c = None) as -> by (eapply no_condition; [exact Hs|unfold has_condition; by rewrite Ht]).
    pose proof (slots_all _ _ _ _ _ _ Hs) as E. cbn in E. rewrite E in Hcov.
    apply Forall2_cons_inv_l in Hcov as (ns1 & ? & H1 & Hcov & ->).
    apply Forall2_cons_inv_l in Hcov as (ns2 & ? & H2 & Hcov & ->). apply Forall2_nil_inv_l in Hcov as ->.
    cbn [concat]. rewrite app_nil_r. by apply (covers_then m il ir).
  - pose proof (labels_children d q l r c ex i _ Hs Hv Hq Hd Ht) as Hp.
    destruct (Forall2_perm_l _ _ _ _ (symmetry Hp) Hcov) as (subtrees' & Hcov' & Hperm).
    apply (covers_perm _ (m :: concat subtrees')); [by rewrite Hperm|].
    apply covers_leafward; [done|done| |exact (proj1 (Forall2_fmap_l snd _ _ _) Hcov')].
    by apply (headings_filled d q l r c ex i _ Hs Hv Hq Hd).
Qed.
End Tree.

(** ** Alignment *)

Lemma chars_count_app a b : chars_count (a +:+ b) = chars_count a + chars_count b.
Proof.
  unfold chars_count. induction a as [|c a IH]; [done|]. cbn [append str_count].
  rewrite !N2Nat.inj_add, IH. lia.
Qed.

Lemma spaces_ok n : chars_count (spaces n) = n /\ char_free "010" (spaces n) = true.
Proof.
  induction n as [|n [IH1 IH2]]; [done|]. cbn [spaces]. split; [|done].
  change (String " " (spaces n)) with (" " +:+ spaces n). rewrite chars_count_app, IH1. done.
Qed.

Lemma str_lines_free s : Forall (fun l => char_free "010" l = true) (str_lines s).
Proof.
  unfold str_lines. pose proof (proj1 (split_char_parts "010" s)) as H. set (parts := split_char "010" s) in *.
  assert (Hparts : parts = [] \/ parts = removelast parts ++ [List.last parts ""]).
  { destruct parts as [|p ps]; [by left|right; by apply app_removelast_last]. }
  destruct Hparts as [->|E]; [constructor|]. rewrite E, Forall_app, Forall_singleton in H.
  destruct H as [H1 H2]. apply Forall_app. split; [|destruct (List.last parts ""); [constructor|by apply Forall_singleton]].
  apply Forall_forall. intros l (l' & -> & Hl)%list_elem_of_fmap. rewrite Forall_forall in H1.
  specialize (H1 l' Hl). unfold strip_cr. destruct (strip_suffix _ l') as [r|] eqn:Er; [|done].
  apply strip_suffix_Some in Er as ->. by apply char_free_app in H1 as [? _].
Qed.

Lemma fold_max_ge l x : x ∈ l -> x <= fold_right Nat.max 0 l.
Proof. induction l as [|y l IH]; [set_solver|]. cbn. intros [->|H]%elem_of_cons; [lia|]. specialize (IH H). lia. Qed.

(** The lines of the result are those of the text, padded to one width. *)
Lemma align_aligned out : exists width,
  align out = join newline (map (fun line => line +:+ spaces (width - chars_count line))
                            (str_lines (trim_end out))) /\
  (forall line, line ∈ split_char "010" (align out) -> chars_count line = width).
Proof.
  unfold align. set (L := str_lines (trim_end out)). set (mx := fold_right Nat.max 0 (map chars_count L)).
  assert (HL : Forall (fun l => char_free "010" l = true /\ chars_count l = mx + 4) (map (pad (mx + 4)) L)).
  { apply Forall_forall. intros l (l' & -> & Hl)%list_elem_of_fmap.
    destruct (spaces_ok (mx + 4 - chars_count l')) as [Hs1 Hs2].
    pose proof (str_lines_free (trim_end out)) as Hf. rewrite Forall_forall in Hf. specialize (Hf l' Hl).
    assert (Hle : chars_count l' <= mx).
    { apply fold_max_ge, list_elem_of_fmap. by exists l'. }
    unfold pad. rewrite char_free_app, chars_count_app, Hf, Hs1, Hs2. split; [done|lia]. }
  destruct L as [|l L]; [exists 0; split; [done|by intros line ->%list_elem_of_singleton]|].
  exists (mx + 4). split; [done|]. revert HL. cbn [map]. generalize (pad (mx + 4) l) (map (pad (mx + 4)) L).
  intros p ps. revert p. induction ps as [|p' ps IH]; intros p [[Hp1 Hp2] Hps]%Forall_cons line.
  - unfold join. cbn. rewrite split_char_free by done. by intros ->%list_elem_of_singleton.
  - rewrite join_cons. unfold newline. change (p +:+ String "010" "" +:+ join (String "010" "") (p' :: ps)) with
      (p +:+ String "010" (join (String "010" "") (p' :: ps))). rewrite split_char_app by done.
    intros [->|H]%elem_of_cons; [done|]. by apply (IH p').
Qed.

(** ** The property *)

Lemma explain_ids_unique root root_id ns :
  flatten_graph root explain_ids = Some (Ok (root_id, ns)) -> NoDup (map m_id ns).
Proof.
  intros [_ H]%flatten_graph_ids. apply (NoDup_fmap_1 (@Ok string string)).
  change (NoDup (map (@Ok string string) (map m_id ns))). rewrite H. apply NoDup_fmap_2_strong; [|apply NoDup_seq].
  intros x y _ _ E. injection E as E%show_N_inj. lia.
Qed.

Context {SJL : SerdeJsonLaws SJ} {SJR : ReprintLaws SJ}.

End Explain.

(** ** A concrete instance *)

#[local] Existing Instance text_json.

Definition sample_tree : Durofut :=
  let sql q := into_raw (sql_durofut q) in
  let loop := mkDurofut "LOOP" (Some (sql "SELECT 1")) None (Some (sql "SELECT true")) [] None None in
  let join := mkDurofut "JOIN" (Some (sql "SELECT 2")) (Some (sql "SELECT 3")) None [into_raw loop] None (Some "r") in
  mkDurofut "THEN" (Some (sql "SELECT 0")) (Some (into_raw join)) None [] None None.
Definition sample_tree_nodes : list MaterializedNode :=
  Eval vm_compute in match flatten_graph sample_tree explain_ids with
                     | Some (Ok (_, ns)) => ns | _ => [] end.

Lemma sample_tree_displayable : Forall displayable sample_tree_nodes.
Proof.
  repeat (apply Forall_cons; split; [|]); [..|by apply Forall_nil];
    (split; [reflexivity|]); intros Ht q; try discriminate Ht.
  intros [= <-]. eexists. vm_compute. reflexivity.
Qed.


(** The exception: a query whose 47th byte is inside a character. *)
Example explain_panics :
  explain_durofut (sql_durofut ("SELECT 'aaaaaaaaaaaaaaaaaaaaaaaaaaaaaaaaaaaaaa" +:+ "é and more text'")) = Err Panic.
Proof. vm_compute. reflexivity. Qed.
