(* ===== verification/MonitoringSpec.v ===== *)
(** Following the cursors of [df.list_instances] lists every instance
    ([Monitoring]). *)
From S2P Require Import Prelude RustString Sql Json Origin NodeStatus HttpResponse Monitoring.

(** ** Cursors *)

Lemma hex_digit_reads d : (d < 16)%N -> to_digit16 (hex_digit d) = Some d.
Proof.
  intros Hd. assert (H : In d (map N.of_nat (seq 0 16))).
  { replace d with (N.of_nat (N.to_nat d)) by lia. apply in_map, in_seq. lia. }
  revert d Hd H. intros d _. revert d. apply List.Forall_forall. repeat constructor.
Qed.

Lemma decode_hex_bytes s : decode_pairs (hex_bytes s) = Some s.
Proof.
  induction s as [|c s IH]; [done|]. cbn [hex_bytes hex_go append decode_pairs].
  pose proof (N_ascii_bounded c) as Hc. unfold byte_of.
  rewrite hex_digit_reads by (apply N.mod_lt; lia). cbn [mbind option_bind].
  rewrite hex_digit_reads by (apply N.mod_lt; lia). cbn [mbind option_bind]. rewrite IH.
  cbn [mbind option_bind]. do 2 f_equal. rewrite <- (ascii_N_embedding c) at 3. f_equal.
  assert ((N_of_ascii c / 16) mod 16 = N_of_ascii c / 16)%N as ->.
  { apply N.mod_small. apply N.Div0.div_lt_upper_bound. lia. }
  pose proof (N.div_mod (N_of_ascii c) 16). lia.
Qed.

Lemma hex_bytes_length s : String.length (hex_bytes s) = 2 * String.length s.
Proof. induction s as [|c s IH]; [done|]. cbn [hex_bytes hex_go append String.length]. lia. Qed.

(** *** ASCII prefixes *)

Definition is_ascii_char (c : ascii) : bool := in_range 0 127 c.

Lemma utf8_ascii_prefix p s : str_forall is_ascii_char p = true -> utf8_valid (p +:+ s) = utf8_valid s.
Proof.
  induction p as [|c p IH]; [done|]. cbn [str_forall]. intros [Hc Hp]%andb_true_iff.
  rewrite <- (IH Hp). unfold utf8_valid. cbn [append String.length].
  change (utf8_go (S (S (String.length (p +:+ s)))) (String c (p +:+ s)) = utf8_go (S (String.length (p +:+ s))) (p +:+ s)).
  cbn [utf8_go]. unfold is_ascii_char in Hc. by rewrite Hc.
Qed.

(** What a pattern accepts, all its classes accept. *)
Lemma match_pattern_forall (q : ascii -> bool) p s rest :
  Forall (fun f => forall c, f c = true -> q c = true) p ->
  match_pattern p s = Some rest ->
  exists t, s = t +:+ rest /\ str_forall q t = true /\ String.length t = length p.
Proof.
  revert s. induction p as [|f p IH]; intros s Hp.
  - destruct s; intros [= <-]; by exists "".
  - apply Forall_cons in Hp as [Hf Hp]. destruct s as [|c s]; [done|]. cbn [match_pattern].
    destruct (f c) eqn:E; [|done]. intros (t & -> & Ht & Hlen)%IH; [|done].
    exists (String c t). split_and!; [done| |cbn; by rewrite Hlen]. cbn. by rewrite (Hf c E), Ht.
Qed.

Definition timestamp_char (c : ascii) : bool :=
  is_ascii_digit c || existsb (fun d => Ascii.eqb d c) ["-"; "T"; ":"; "."; "+"]%char.

Lemma timestamp_pattern_chars : Forall (fun f => forall c, f c = true -> timestamp_char c = true) timestamp_pattern.
Proof.
  unfold timestamp_pattern, timestamp_char.
  assert (Hd : forall n, Forall (fun f : ascii -> bool => forall c, f c = true ->
    is_ascii_digit c || existsb (fun d => Ascii.eqb d c) ["-"; "T"; ":"; "."; "+"]%char = true) (is_digits n)).
  { intros n. apply Forall_replicate. by intros c ->. }
  assert (H1 : forall d, In d ["-"; "T"; ":"; "."; "+"]%char -> Forall (fun f : ascii -> bool => forall c, f c = true ->
    is_ascii_digit c || existsb (fun d => Ascii.eqb d c) ["-"; "T"; ":"; "."; "+"]%char = true) [one d]).
  { intros d Hin. apply Forall_singleton. intros c Hc. apply orb_true_iff. right.
    apply existsb_exists. by exists d. }
  repeat (apply Forall_app; split); try apply Hd; try (apply H1; simpl; tauto).
  apply Forall_singleton. by intros c [<-%Ascii.eqb_eq|<-%Ascii.eqb_eq]%orb_true_iff.
Qed.

Lemma timestamp_shape_chars s : timestamp_shape s = true ->
  str_forall timestamp_char s = true /\ s <> "" /\ String.length s <= 35.
Proof.
  unfold timestamp_shape. destruct (match_pattern timestamp_pattern s) as [r|] eqn:E; [|done].
  apply (match_pattern_forall timestamp_char) in E as (t & -> & Ht & Hlen); [|exact timestamp_pattern_chars].
  change (length timestamp_pattern) with 29 in Hlen. rewrite str_forall_app, str_length_app, Ht, Hlen.
  assert (Hne : forall r', t +:+ r' <> "") by (destruct t; done).
  destruct r as [|c r]; [intros _; split_and!; [done|apply Hne|cbn; lia]|].
  intros H%bool_decide_eq_true. apply (match_pattern_forall timestamp_char) in H as (t' & -> & Ht' & Hlen').
  - rewrite str_app_nil_r, Ht', Hlen'. cbn. split_and!; [done|apply Hne|lia].
  - apply Forall_app. split.
    + apply Forall_singleton. intros x <-%Ascii.eqb_eq. done.
    + apply Forall_replicate. intros x Hx. unfold timestamp_char. by rewrite Hx.
Qed.

(** The text of a cursor is decoded to what was encoded. *)
Lemma cursor_round_trip ts id :
  timestamp_shape ts = true -> id <> "" -> utf8_valid id = true -> String.length id <= 200 ->
  decode_cursor (encode_cursor ts id) = Some (ts, id).
Proof.
  intros Hts Hid Hu Hlen. destruct (timestamp_shape_chars ts Hts) as (Hc & Hne & Hl).
  unfold decode_cursor, encode_cursor. set (raw := CURSOR_VERSION +:+ "|" +:+ ts +:+ "|" +:+ id).
  assert (Hraw : String.length raw = 4 + String.length ts + String.length id).
  { unfold raw. rewrite !str_length_app. cbn. lia. }
  rewrite hex_bytes_length, Hraw.
  replace (str_is_empty (hex_bytes raw)) with false by done.
  replace (Nat.ltb MAX_CURSOR_LEN (2 * (4 + String.length ts + String.length id))) with false
    by (symmetry; apply Nat.ltb_ge; unfold MAX_CURSOR_LEN; lia).
  rewrite Nat.even_mul. cbn [orb negb Nat.even]. rewrite decode_hex_bytes. cbn [mbind option_bind].
  assert (Hascii : str_forall is_ascii_char ts = true).
  { revert Hc. apply str_forall_impl. intros c Hx. unfold timestamp_char in Hx.
    apply orb_true_iff in Hx as [Hx|(d & Hd & <-%Ascii.eqb_eq)%existsb_exists].
    - unfold is_ascii_digit, in_range in Hx. unfold is_ascii_char, in_range.
      apply andb_true_iff in Hx as [H1 H2]. apply N.leb_le in H1, H2. apply andb_true_iff.
      split; apply N.leb_le; lia.
    - simpl in Hd. by repeat (destruct Hd as [<-|Hd]; [done|]). }
  assert (Hvalid : utf8_valid raw = true).
  { unfold raw. change (CURSOR_VERSION +:+ "|" +:+ ts +:+ "|" +:+ id) with ("v1|" +:+ (ts +:+ ("|" +:+ id))).
    by rewrite !utf8_ascii_prefix. }
  rewrite Hvalid. cbn [negb].
  change raw with (CURSOR_VERSION +:+ String "|" (ts +:+ String "|" id)).
  rewrite split_once_char_free by done. cbn [mbind option_bind]. rewrite String.eqb_refl. cbn [negb].
  assert (Hbar : char_free "|" ts = true).
  { revert Hc. apply str_forall_impl. intros c Hx. apply negb_true_iff, Ascii.eqb_neq. by intros ->. }
  rewrite split_once_char_free by done. cbn [mbind option_bind].
  by destruct ts, id.
Qed.

(** ** The listing as a whole *)

Section Listing.
Context {U : UuidCrate} {CO : Collation} {COL : CollationLaws CO} {PT : PgTime} {PTL : PgTimeLaws PT}
    (env : monitor_env).

#[local] Instance row_le_trans : Transitive row_le.
Proof.
  intros a b c [H1|[H1 H1']] [H2|[H2 H2']]; unfold row_le; [left; lia..|].
  right. split; [congruence|]. by eapply id_le_trans.
Qed.
#[local] Instance row_le_total : Total row_le.
Proof.
  intros a b. unfold row_le. destruct (Z.lt_trichotomy (created a) (created b)) as [H|[H|H]]; [by right; left| |by left; left].
  destruct (id_le_total (v_id a) (v_id b)); [left|right]; right; split; congruence.
Qed.

(** Every visible instance that the filters select, newest first. *)
Definition listing (status_filter label_filter : option string) : list instance_view :=
  merge_sort row_le (filter (fun r => selected status_filter label_filter r = true) (visible_rows env)).

Context (Hids : NoDup (map v_id (visible_rows env))).

Lemma rows_by_id a b :
  a ∈ visible_rows env -> b ∈ visible_rows env -> v_id a = v_id b -> a = b.
Proof.
  intros [i Ha]%list_elem_of_lookup [j Hb]%list_elem_of_lookup E.
  assert (i = j) as ->; [|congruence].
  apply (NoDup_lookup (map v_id (visible_rows env)) i j (v_id a)); [done|..].
  - apply list_lookup_fmap_Some. by exists a.
  - apply list_lookup_fmap_Some. by exists b.
Qed.

Lemma row_le_antisymm a b :
  a ∈ visible_rows env -> b ∈ visible_rows env -> row_le a b -> row_le b a -> a = b.
Proof.
  intros Ha Hb [H1|[H1 H1']] [H2|[H2 H2']]; try lia. apply rows_by_id; [done|done|].
  by apply id_le_antisymm.
Qed.

Lemma listing_elem st lb r :
  r ∈ listing st lb -> r ∈ visible_rows env /\ selected st lb r = true.
Proof. unfold listing. rewrite merge_sort_Permutation, list_elem_of_filter. tauto. Qed.

(** Selecting more and sorting is sorting and selecting. *)
Lemma listing_filter st lb (p : instance_view -> bool) :
  merge_sort row_le (filter (fun r => selected st lb r && p r = true) (visible_rows env)) =
    filter (fun r => p r = true) (listing st lb).
Proof.
  unfold listing. rewrite <- (sort_filter row_le).
  - f_equal. rewrite list_filter_filter. apply list_filter_iff. intros r. rewrite andb_true_iff. tauto.
  - intros x y [_ Hx]%list_elem_of_filter [_ Hy]%list_elem_of_filter. by apply row_le_antisymm.
Qed.

(** The rows after a row of the listing. *)
Lemma listing_after st lb k r :
  listing st lb !! k = Some r ->
  filter (fun x => after (created r) (v_id r) x = true) (listing st lb) = drop (S k) (listing st lb).
Proof.
  intros Hk. rewrite <- (sorted_after row_le (listing st lb)) with (x := r) (k := k).
  - apply list_filter_iff. intros x. unfold after, row_le. rewrite andb_true_iff, orb_true_iff, andb_true_iff.
    rewrite negb_true_iff, Z.leb_le, Z.ltb_lt, Z.eqb_eq, <- not_true_iff_false. split.
    { intros [_ [H|[H Hn]]] [H'|[H' Hle]]; [lia..|by apply Hn]. }
    intros Hn. destruct (Z.lt_trichotomy (created x) (created r)) as [H|[H|H]].
    + split; [lia|by left].
    + split; [lia|]. right. split; [done|]. intros Hle. apply Hn. by right.
    + destruct Hn. by left.
  - intros x y [Hx _]%listing_elem [Hy _]%listing_elem. by apply row_le_antisymm.
  - unfold listing. rewrite merge_sort_Permutation. apply NoDup_filter. by eapply NoDup_fmap_1.
  - apply (merge_sort_sorted row_le).
  - done.
Qed.

(** ** Engine information *)

Lemma engine_id_inj origin a b : engine_id_for_origin origin a = engine_id_for_origin origin b -> a = b.
Proof.
  destruct origin as [o|]; [|done]. unfold engine_id_for_origin, engine_id. intros H.
  by apply str_app_inj_l, str_app_inj_l, str_app_inj_l, str_app_inj_l, str_app_inj_l in H.
Qed.

Lemma list_to_map_present {A} (l : list (string * A)) k :
  k ∈ map fst l -> is_Some ((list_to_map l : gmap string A) !! k).
Proof.
  induction l as [|[k' a] l IH]; cbn; [set_solver|]. intros [->|H]%elem_of_cons.
  - rewrite lookup_insert_eq. by eexists.
  - destruct (decide (k' = k)) as [->|]; [rewrite lookup_insert_eq; by eexists|].
    rewrite lookup_insert_ne by done. by apply IH.
Qed.

Lemma list_to_map_sound {A} (l : list (string * A)) k a :
  (list_to_map l : gmap string A) !! k = Some a -> (k, a) ∈ l.
Proof.
  induction l as [|[k' a'] l IH]; cbn; [by rewrite lookup_empty|].
  destruct (decide (k' = k)) as [->|]; [rewrite lookup_insert_eq; intros [= ->]; by left|].
  rewrite lookup_insert_ne by done. intros H. right. by apply IH.
Qed.

(** The map has every instance the engine told of. *)
Lemma local_info_known origin ids rows id :
  id ∈ ids -> (exists name count output, (engine_id_for_origin origin id, name, count, output) ∈ rows) ->
  is_Some (local_instance_info_map ids (map (engine_id_for_origin origin) ids) rows !! id).
Proof.
  intros Hid (name & count & output & Hrow). unfold local_instance_info_map. cbv zeta.
  set (eids := map (engine_id_for_origin origin) ids).
  set (by_engine := list_to_map (reverse (zip eids ids)) : gmap string string).
  assert (Hby : by_engine !! engine_id_for_origin origin id = Some id).
  { destruct (list_to_map_present (reverse (zip eids ids)) (engine_id_for_origin origin id)) as [x Hx].
    - apply list_elem_of_fmap. exists (engine_id_for_origin origin id, id). split; [done|].
      apply elem_of_reverse. apply list_elem_of_lookup in Hid as [j Hj]. apply (list_elem_of_lookup_2 _ j).
      apply lookup_zip_with_Some. exists (engine_id_for_origin origin id), id. split_and!; [done| |done].
      apply list_lookup_fmap_Some. by exists id.
    - pose proof Hx as Hin. apply list_to_map_sound in Hin. rewrite elem_of_reverse in Hin.
      apply list_elem_of_lookup in Hin as [j Hj]. apply lookup_zip_with_Some in Hj as (e & y & [= <- <-] & He & Hy).
      apply list_lookup_fmap_Some in He as (z & E & Hz). apply engine_id_inj in E.
      unfold by_engine. rewrite Hx. congruence. }
  apply list_to_map_present, list_elem_of_fmap. exists (id, (name, count, output)). split; [done|].
  apply elem_of_reverse, list_elem_of_omap. eexists. split; [exact Hrow|]. cbn. by rewrite Hby.
Qed.

(** A listed row says what its row of [df.instances] says. *)
Definition listed_from (l : listed) (r : instance_view) : Prop :=
  l_instance_id l = v_id r /\ l_label l = v_label r /\ l_status l = default "" (v_status r) /\
  l_created_at l = v_created_at r /\ l_completed_at l = v_completed_at r.

Lemma listed_ids ls rs : Forall2 listed_from ls rs -> map l_instance_id ls = map v_id rs.
Proof. induction 1 as [|l r ls rs [Hl _] _ IH]; [done|]. cbn. by rewrite Hl, IH. Qed.

Lemma reassemble_known next rows info :
  NoDup (map v_id rows) -> (forall r, r ∈ rows -> is_Some (info !! v_id r)) ->
  Forall2 listed_from (reassemble next rows info) rows /\
  Forall (fun l => l_next_cursor l = next) (reassemble next rows info).
Proof.
  revert info. induction rows as [|r rows IH]; intros info Hnd Hk; [split; constructor|].
  cbn [map] in Hnd. apply NoDup_cons in Hnd as [Hr Hnd]. cbn [reassemble].
  pose proof (Hk r ltac:(by left)) as Hi. destruct (info !! v_id r) as [[[name count] output]|]; [|by destruct Hi].
  destruct (IH (delete (v_id r) info) Hnd) as [H1 H2].
  - intros x Hx. rewrite lookup_delete_ne; [apply Hk; by right|].
    intros E. apply Hr. rewrite E. apply list_elem_of_fmap. by exists x.
  - split; constructor; done.
Qed.

(** ** Following the cursors *)

Context (st lb : option string) (limit_count : Z).

(** From a first call, each next call takes the cursor of the page before; [None]
    is a walk cut off. *)
Fixpoint all_pages (fuel : nat) (cursor : option string) : option (result (list (list listed)) string) :=
  match fuel with
  | O => None
  | S fuel' =>
      match list_instances_paged env st limit_count lb cursor with
      | Err e => Some (Err e)
      | Ok page =>
          match head page ≫= l_next_cursor with
          | None => Some (Ok [page])
          | Some c => r ← all_pages fuel' (Some c); Some (map_ok (cons page) r)
          end
      end
  end.

Context (Hlimit : (1 <= limit_count <= max_limit env)%Z) (Hspi : spi_ok env = true).
Context (origin : option Origin) (Horigin : backend_origin env = Ok origin).
Context (Hschema : is_ok (provider_schema env) = true).
(** The engine knows the instances of the listing. *)
Context (Hengine : forall ids id, id ∈ ids -> id ∈ map v_id (listing st lb) ->
         exists name count output, (engine_id_for_origin origin id, name, count, output) ∈
         engine_rows env (map (engine_id_for_origin origin) ids)).
(** Ids and timestamps that fit a cursor. *)
Context (Hcursor : forall r, r ∈ listing st lb ->
         v_id r <> "" /\ utf8_valid (v_id r) = true /\ String.length (v_id r) <= 200 /\
         forall t, v_created_at r = Some t -> ts_supported t).

Let size := Z.to_nat limit_count.

(** The cursor after the first [k] rows. *)
Definition cursor_at (k : nat) : option string :=
  match k with
  | O => None
  | S j => (fun r => encode_cursor (ts_text (created r)) (v_id r)) <$> listing st lb !! j
  end.

Lemma selected_created r : r ∈ listing st lb -> v_created_at r = Some (created r).
Proof.
  intros [_ H]%listing_elem. unfold selected in H. apply andb_true_iff in H as [H _].
  apply andb_true_iff in H as [H _]. apply bool_decide_eq_true in H as [t Ht]. unfold created. by rewrite Ht.
Qed.

Lemma listing_ids_unique : NoDup (map v_id (listing st lb)).
Proof.
  change (NoDup (v_id <$> listing st lb)). unfold listing. rewrite merge_sort_Permutation.
  eapply sublist_NoDup; [exact Hids|]. apply fmap_sublist, sublist_filter.
Qed.

Lemma page_selected k : k <= length (listing st lb) ->
  exists cursor, parse_after_cursor env (cursor_at k) = Ok cursor /\
  select_page env st lb limit_count cursor = Ok (take (S size) (drop k (listing st lb))).
Proof.
  intros Hk. assert (Hsize : Z.to_nat (limit_count + 1) = S size) by (unfold size; lia).
  destruct k as [|k].
  - exists None. split; [done|]. unfold select_page. rewrite Hspi, Hsize. cbn [negb].
    rewrite listing_filter, filter_all by done. done.
  - destruct (lookup_lt_is_Some_2 (listing st lb) k Hk) as [r Hr]. cbn [cursor_at]. rewrite Hr. cbn [fmap option_fmap option_map parse_after_cursor].
    pose proof (list_elem_of_lookup_2 _ _ _ Hr) as Hin.
    destruct (Hcursor r Hin) as (Hne & Hu & Hlen & Hts). specialize (Hts _ (selected_created r Hin)).
    rewrite cursor_round_trip by (try done; by apply ts_text_shape).
    unfold cursor_timestamp_well_formed. rewrite Hspi, ts_text_shape by done. cbn [andb].
    eexists. split; [done|]. unfold select_page. rewrite Hspi. cbn [negb]. rewrite ts_cast_text by done.
    rewrite Hsize, listing_filter. by rewrite (listing_after st lb k r Hr).
Qed.

Lemma page_at k : k <= length (listing st lb) ->
  exists page, list_instances_paged env st limit_count lb (cursor_at k) = Ok page /\
  Forall2 listed_from page (take size (drop k (listing st lb))) /\
  Forall (fun l => l_next_cursor l =
          if Nat.ltb size (length (drop k (listing st lb))) then cursor_at (k + size) else None) page.
Proof.
  intros Hk. destruct (page_selected k Hk) as (cursor & Hp & Hsel). unfold list_instances_paged.
  unfold enforce_list_instances_limit.
  destruct (Z.ltb_spec limit_count 1); [lia|]. destruct (Z.ltb_spec (max_limit env) limit_count); [lia|].
  cbn [result_bind]. rewrite Hp. cbn [result_bind]. rewrite Hsel. cbn [result_bind]. fold size.
  set (rest := drop k (listing st lb)).
  assert (Hmore : Nat.ltb size (length (take (S size) rest)) = Nat.ltb size (length rest)).
  { rewrite length_take. apply eq_true_iff_eq. rewrite !Nat.ltb_lt. lia. }
  rewrite Hmore, take_take. replace (Nat.min size (S size)) with size by lia.
  assert (Hnext : (if Nat.ltb size (length rest) then
    (fun r => encode_cursor (match v_created_at r with Some t => ts_text t | None => "" end) (v_id r)) <$>
    last (take size rest) else None) =
    if Nat.ltb size (length rest) then cursor_at (k + size) else None).
  { destruct (Nat.ltb_spec size (length rest)); [|done]. rewrite last_lookup, length_take.
    replace (Nat.pred (Nat.min size (length rest))) with (size - 1) by lia.
    rewrite lookup_take_lt by (unfold size; lia). unfold rest. rewrite lookup_drop.
    replace (k + size) with (S (k + (size - 1))) by (unfold size; lia). cbn [cursor_at].
    destruct (listing st lb !! (k + (size - 1))) as [r|] eqn:Hr; [|done]. cbn.
    apply list_elem_of_lookup_2, selected_created in Hr. by rewrite Hr. }
  rewrite Hnext. generalize (if Nat.ltb size (length rest) then cursor_at (k + size) else None) as next.
  intros next. unfold with_engine_info. case_bool_decide as Hempty.
  { exists []. split; [done|]. rewrite Hempty. split; constructor. }
  destruct (provider_schema env) as [schema|]; [|done]. unfold fetch_instance_info_map.
  assert (Hsub : forall r, r ∈ take size rest -> r ∈ listing st lb).
  { intros r Hr. eapply elem_of_sublist in Hr; [|apply sublist_take]. eapply elem_of_sublist; [exact Hr|apply sublist_drop]. }
  rewrite bool_decide_eq_false_2 by (by destruct (take size rest)).
  rewrite Horigin. cbn [result_bind]. eexists. split; [reflexivity|]. apply reassemble_known.
  - eapply sublist_NoDup; [exact listing_ids_unique|]. change (v_id <$> take size rest `sublist_of` v_id <$> listing st lb).
    apply fmap_sublist. etransitivity; [apply sublist_take|apply sublist_drop].
  - intros r Hr. assert (Hid : v_id r ∈ map v_id (take size rest)) by (apply list_elem_of_fmap; by exists r).
    apply local_info_known; [done|]. apply Hengine; [done|]. apply list_elem_of_fmap. exists r. split; [done|by apply Hsub].
Qed.

(** The pages of a listing of [n] rows; an empty one has one. *)
Definition page_count (n : nat) : nat := Nat.max 1 ((n + size - 1) / size).

Lemma page_count_last n : n <= size -> page_count n = 1.
Proof.
  intros Hn. unfold page_count. assert (1 <= size) by (unfold size; lia).
  assert ((n + size - 1) / size < 2) by (apply Nat.Div0.div_lt_upper_bound; lia). lia.
Qed.
Lemma page_count_more n : size < n -> page_count n = S (page_count (n - size)).
Proof.
  intros Hn. unfold page_count. assert (1 <= size) by (unfold size; lia).
  replace (n + size - 1) with (n - size + size - 1 + 1 * size) by lia. rewrite Nat.div_add by lia.
  assert (1 <= (n - size + size - 1) / size) by (apply Nat.div_le_lower_bound; lia). lia.
Qed.

Lemma all_pages_from k :
  k <= length (listing st lb) ->
  exists pages, all_pages (page_count (length (listing st lb) - k)) (cursor_at k) = Some (Ok pages) /\
  length pages = page_count (length (listing st lb) - k) /\
  Forall2 listed_from (concat pages) (drop k (listing st lb)) /\
  forall j page, pages !! j = Some page ->
  Forall2 listed_from page (take size (drop (k + j * size) (listing st lb))).
Proof.
  remember (length (listing st lb) - k) as n eqn:En. revert k En.
  induction (lt_wf n) as [n _ IH]. intros k -> Hk.
  destruct (page_at k Hk) as (page & Hpage & Hrows & Hnext).
  pose proof (Forall2_length _ _ _ Hrows) as Hlen. rewrite length_take in Hlen.
  assert (Hsize : 1 <= size) by (unfold size; lia). rewrite length_drop in Hlen, Hnext.
  destruct (Nat.ltb_spec size (length (listing st lb) - k)) as [Hmore|Hlast].
  - rewrite page_count_more by done. cbn [all_pages]. rewrite Hpage.
    destruct page as [|l page']; [cbn in Hlen; lia|].
    apply Forall_cons in Hnext as [Hl _]. cbn [head mbind option_bind]. rewrite Hl.
    destruct (IH (length (listing st lb) - (k + size)) ltac:(lia) (k + size)) as (pages & Hpages & Hcount & Hall & Heach);
      [lia..|].
    replace (length (listing st lb) - k - size) with (length (listing st lb) - (k + size)) by lia.
    assert (exists c, cursor_at (k + size) = Some c) as [c Hc].
    { replace (k + size) with (S (k + size - 1)) by lia. cbn [cursor_at].
      destruct (lookup_lt_is_Some_2 (listing st lb) (k + size - 1)) as [r ->]; [lia|]. by eexists. }
    rewrite Hc in *. rewrite Hpages. cbn [mbind option_bind map_ok]. eexists. split; [done|].
    split; [cbn; by f_equal|]. split.
    + cbn [concat]. rewrite <- (take_drop size (drop k (listing st lb))). apply Forall2_app; [done|].
      by rewrite drop_drop.
    + intros [|j] page; cbn; [intros [= <-]; by rewrite Nat.add_0_r|].
      intros H%Heach. by rewrite Nat.add_assoc.
  - rewrite page_count_last by done. cbn [all_pages]. rewrite Hpage.
    assert (Hnone : head page ≫= l_next_cursor = None).
    { destruct page as [|l page']; [done|]. by apply Forall_cons in Hnext as [Hl _]. }
    rewrite Hnone. eexists. split; [done|]. split; [done|]. cbn [concat]. rewrite app_nil_r. split.
    + rewrite take_ge in Hrows by (rewrite length_drop; lia). done.
    + intros [|j] page' [= <-]. by rewrite Nat.add_0_r.
Qed.

(** C23: following the cursors lists everything once.  When the engine knows every
    listed instance (the rows of one it does not know are left out of a page, as the
    guide says, and a page without any row has no cursor), a client that passes each
    page's [next_cursor] to the next call reaches the last page, the first one
    without a cursor, after exactly the calls it takes to list that many rows page
    by page, one if there are none; page [j] holds the rows from [j] times the limit
    on, as many as the limit except on the last page.  Together the pages are exactly
    the instances the client may see that match its filters, each once, from newest to
    oldest and by id where they are equally old, each with the status and times of
    its row. *)
Theorem pagination_complete :
  let rows := listing st lb in
  let calls := Nat.max 1 ((length rows + size - 1) / size) in
  exists pages, all_pages calls None = Some (Ok pages) /\ length pages = calls /\
  (forall j page, pages !! j = Some page ->
   Forall2 listed_from page (take size (drop (j * size) rows))) /\
  Forall2 listed_from (concat pages) rows /\
  NoDup (map l_instance_id (concat pages)) /\
  (forall r, r ∈ rows <-> r ∈ visible_rows env /\ selected st lb r = true) /\
  StronglySorted row_le rows.
Proof.
  intros rows calls. destruct (all_pages_from 0) as (pages & Hp & Hcount & Hall & Heach); [lia|].
  rewrite Nat.sub_0_r in Hp, Hcount. rewrite drop_0 in Hall.
  exists pages. split_and!; [done|done|done|done| | |apply (merge_sort_sorted row_le)].
  - assert (map l_instance_id (concat pages) = map v_id rows) as ->; [|apply listing_ids_unique].
    by apply listed_ids.
  - intros r. unfold rows, listing. rewrite merge_sort_Permutation, list_elem_of_filter. tauto.
Qed.
End Listing.

(** ** A concrete instance *)

(** Six decimal digits. *)
Fixpoint decimals (width : nat) (n : N) : string :=
  match width with
  | O => ""
  | S w => decimals w (n / 10) +:+ String (digit_char (n mod 10)) ""
  end.

(** The microseconds of one second. *)
Definition sample_time : PgTime := {|
  ts_text t := "2026-01-01T00:00:00." +:+ decimals 6 (Z.to_N t) +:+ "+00";
  ts_cast s := ok_or (Z.of_N <$> read_N (str_take 6 (str_drop 20 s))) "invalid input syntax";
|}.
#[local] Existing Instance sample_uuid.
#[local] Existing Instance sample_time.
#[local] Existing Instance sample_collation.
#[local] Existing Instance sample_collation_laws.

Definition sample_times : list Z := [100; 200; 300]%Z.

#[local] Instance sample_time_laws : PgTimeLaws sample_time.
Proof.
  refine {| ts_supported t := In t sample_times |}.
  - intros t Ht. simpl in Ht. by repeat (destruct Ht as [<-|Ht]; [vm_compute|]).
  - intros t Ht. simpl in Ht. by repeat (destruct Ht as [<-|Ht]; [vm_compute|]).
Defined.

Definition sample_view (id : string) (t : option Z) : instance_view :=
  mkView id (Some "n1") None (Some "completed") t t.
Definition sample_monitor : monitor_env := {|
  max_limit := 1000;
  visible_rows := [sample_view "0000000a" (Some 100%Z); sample_view "0000000c" (Some 300%Z);
                   sample_view "0000000e" None; sample_view "0000000b" (Some 100%Z)];
  spi_ok := true; failed_statement := Err; provider_schema := Ok "_duroxide"; backend_origin := Ok None;
  engine_rows := map (fun id => (id, "f", 1%Z, None));
|}.

Lemma sample_listing : listing sample_monitor None None =
  [sample_view "0000000c" (Some 300%Z); sample_view "0000000a" (Some 100%Z); sample_view "0000000b" (Some 100%Z)].
Proof. vm_compute. reflexivity. Qed.

Lemma pagination_complete_witness :
  exists pages, all_pages sample_monitor None None 2 2 None = Some (Ok pages) /\ length pages = 2 /\
    Forall2 listed_from (concat pages) (listing sample_monitor None None).
Proof.
  destruct (pagination_complete sample_monitor) with (st := @None string) (lb := @None string)
    (limit_count := 2%Z) (origin := @None Origin) as (pages & H1 & H2 & _ & H3 & _).
  - apply NoDup_ListNoDup. repeat constructor; simpl; intuition discriminate.
  - vm_compute. split; discriminate.
  - reflexivity.
  - reflexivity.
  - reflexivity.
  - intros ids id Hid _. exists "f", 1%Z, None. apply list_elem_of_fmap. exists id. split; [reflexivity|].
    apply list_elem_of_fmap. exists id. split; [reflexivity|exact Hid].
  - rewrite sample_listing. intros r Hr.
    repeat (apply elem_of_cons in Hr as [->|Hr]; [split_and!; [discriminate|reflexivity|cbn; lia|]; intros t [= <-]; simpl; tauto|]).
    by apply elem_of_nil in Hr.
  - exists pages. split; [exact H1|]. split; [exact H2|exact H3].
Defined.

(** ** Nodes *)

(** What the overload of earlier versions shows of a node. *)
Definition compat_of (n : NodeRow) : compat_row :=
  (1%Z, nw_id n, nw_node_type n, nw_query n, nw_result_name n, nw_left_node n, nw_right_node n,
   nw_status n, nw_result n, nw_updated_at n).

Lemma instance_nodes_loaded select_nodes select_root k :
  instance_nodes select_nodes k = compat_of <$> snd (load_instance_nodes select_nodes select_root).
Proof.
  destruct select_nodes as [table|e]; [cbn|done]. induction table as [|c table IH]; cbn; [done|].
  unfold node_of_cells at 1. by destruct (flat (c_id c)); cbn; rewrite IH.
Qed.

(** Both overloads show the same nodes: a row of one is a row of the other, without
    the columns that only the newer one has. *)
Theorem instance_nodes_agree `{SerdeJson} select_nodes select_root k annotated :
  let '(root_node, node_rows) := load_instance_nodes select_nodes select_root in
  NoDup (nw_id <$> node_rows) -> instance_nodes_v2 root_node node_rows = Some annotated ->
  forall r, r ∈ instance_nodes select_nodes k <->
    exists id n inferred from, annotated !! id = Some (n, inferred, from) /\ r = compat_of n.
Proof.
  rewrite (instance_nodes_loaded _ select_root). destruct (load_instance_nodes _ _) as [root node_rows].
  intros Hnd Hv2 r. unfold instance_nodes_v2 in Hv2.
  apply bind_Some in Hv2 as (inferred & _ & [= <-]). cbn [snd].
  rewrite list_elem_of_fmap. setoid_rewrite map_lookup_imap. split.
  - intros (n & -> & Hn). exists (nw_id n), n. do 2 eexists. split; [|done].
    rewrite (elem_of_list_to_map_1 _ (nw_id n) n); [done| |].
    + rewrite fmap_reverse, reverse_Permutation. change (map ?f ?l) with (f <$> l). by rewrite <- list_fmap_compose.
    + apply elem_of_reverse, list_elem_of_fmap. by exists n.
  - intros (id & n & i & f & Hi & ->). exists n. split; [done|].
    apply bind_Some in Hi as (n' & Hl & [= <- _ _]).
    apply elem_of_list_to_map_2, elem_of_reverse, list_elem_of_fmap in Hl as (n & [= _ ->] & Hn). done.
Qed.
