(* ===== verification/Registry.v ===== *)
(** What the engine finds under a name ([src/registry.rs]; the names are the constants
    of the files of the activities and orchestrations).

    A registered activity routes the engine id of its instance, runs its body over the
    route and closes it.  The SQL activity is a program over the database as a whole;
    the bodies of the others are modelled in files of their own, with effects of their
    own, so here the run of such a body is one call, with the route it was given. *)
From S2P Require Import Prelude RustString Json Substitution HttpConfig Lineage Durable.
From S2P Require Import Orchestration Submission.
From S2P Require Import Origin Admission Effects Routing SqlActivity.

(** ** Calls *)

Inductive rop : Type :=
| Database (o : dop)
| Perform (name instance_id input : string) (r : Route).

Definition answer (o : rop) : Type :=
  match o with
  | Database o => reply o
  | Perform _ _ _ _ => result string string
  end.

Definition work (A : Type) : Type := @act unit rop answer A.

Fixpoint over_database {A} (p : db A) : work A :=
  match p with
  | Pure a => Pure a
  | Get k => Get (fun s => over_database (k s))
  | Put s k => Put s (over_database k)
  | Call o k => Call (Database o : rop) (fun r => over_database (k r))
  end.

(** ** Activities *)

Definition activity : Type := string -> string -> work (result string string).

(** [routing_error_outcome]: a probe whose route may come up later is tried again. *)
Definition routing_error_outcome {SJ : SerdeJson} (error : RoutingError) : result string string :=
  match error with
  | RoutingRetryable _ => retry_probe
  | RoutingPermanent message => Err message
  end.

Section Registry.
Context (protocol_text : string -> string) (settings : sql_settings).
Context {SJ : SerdeJson} {U : UuidCrate}.

Definition sql_handler : activity := fun instance_id input_json =>
  over_database (execute_sql protocol_text settings instance_id input_json).

(** The route of an activity whose failure is that of the activity. *)
Definition routed_handler (name : string) : activity := fun instance_id input =>
  let*? r := over_database (route protocol_text instance_id) in
  let* result_ := call (Perform name instance_id input r : rop) in
  let* _ := over_database (close r) in
  Pure result_.

Definition probe_handler : activity := fun instance_id input_json =>
  let* routed := over_database (route_typed protocol_text instance_id) in
  match routed with
  | Err error => Pure (routing_error_outcome error)
  | Ok r =>
      let* result_ := call (Perform PROBE_GRAPH instance_id input_json r : rop) in
      let* _ := over_database (close r) in
      Pure result_
  end.

Definition activity_registry : list (string * activity) :=
  [(EXECUTE_SQL, sql_handler);
   (LOAD_GRAPH, routed_handler LOAD_GRAPH);
   (PROBE_GRAPH, probe_handler);
   (UPDATE_INSTANCE, routed_handler UPDATE_INSTANCE);
   (UPDATE_NODE, routed_handler UPDATE_NODE);
   (EXECUTE_HTTP, routed_handler EXECUTE_HTTP);
   (EXECUTE_MULTIPART, routed_handler EXECUTE_MULTIPART)].

(** ** Orchestrations *)

Context {PE : PgEscape} {HD : HttpDeps} {CC : CronCrate}.

Definition orchestration_registry
    : list (string * (OrchestrationContext -> string -> prog (result string string))) :=
  [(ORCHESTRATION_NAME, Orchestration.execute); (SUBTREE_NAME, execute_subtree)].
End Registry.
