(* ===== verification/RegistrySpec.v ===== *)
(** Whatever an orchestration schedules is registered, and a registered activity runs
    its body over the route of its instance and gives back what it took. *)
From S2P Require Import Prelude RustString Json JsonText Substitution SubstitutionSpec HttpConfig.
From S2P Require Import Graph Lineage.
From S2P Require Import Durable Orchestration OrchestrationFacts OrchestrationSpec Submission.
From S2P Require Import SubmissionSpec.
From S2P Require Import Origin Admission Effects Routing RoutingSpec SqlActivity SqlActivitySpec.
From S2P Require Import Registry.

(** ** Names *)

Definition activity_names `{SerdeJson, UuidCrate} : list string :=
  fst <$> activity_registry (fun s => s) (mkSqlSettings 0 0 "").
Definition orchestration_names `{SerdeJson, PgEscape, HttpDeps, CronCrate} : list string :=
  fst <$> orchestration_registry.

Section Names.
Context {SJ : SerdeJson} {U : UuidCrate} {PE : PgEscape} {HD : HttpDeps} {CC : CronCrate}.

(** What the engine is asked to run is registered. *)
Definition registered (o : Durable.dop) : Prop :=
  match o with
  | ScheduleActivity name _ => name ∈ activity_names
  | CallSubOrchestration name _ _ | StartSubOrchestration name _ _ => name ∈ orchestration_names
  | _ => True
  end.

Definition well_named {A} (p : prog A) : Prop :=
  forall tr o, runs p tr o -> Forall (fun e => registered (Durable.ev_op e)) tr.

Lemma named_ret {A} (a : A) : well_named (Ret a).
Proof. by intros tr o [-> _]. Qed.
Lemma named_stop {A} s : well_named (Stop (A := A) s).
Proof. by intros tr o [-> _]. Qed.
Lemma named_op c : registered c -> well_named (op c).
Proof. intros Hc tr o (r & tr' & -> & [-> _]). by constructor. Qed.
Lemma named_bind {A B} (p : prog A) (k : A -> prog B) :
  well_named p -> (forall a, well_named (k a)) -> well_named (bind p k).
Proof.
  intros Hp Hk tr o [(tr1 & tr2 & a & -> & H1 & H2)|(s & -> & H)]%runs_bind; [|by eapply Hp].
  apply Forall_app. split; [by eapply Hp|by eapply Hk].
Qed.

Lemma update_instance_registered x : registered (ScheduleActivity UPDATE_INSTANCE x).
Proof. by apply (bool_decide_unpack _); vm_compute. Qed.
Lemma update_node_registered x : registered (ScheduleActivity UPDATE_NODE x).
Proof. by apply (bool_decide_unpack _); vm_compute. Qed.
Lemma load_graph_registered x : registered (ScheduleActivity LOAD_GRAPH x).
Proof. by apply (bool_decide_unpack _); vm_compute. Qed.
Lemma probe_graph_registered x : registered (ScheduleActivity PROBE_GRAPH x).
Proof. by apply (bool_decide_unpack _); vm_compute. Qed.

Lemma allowed_registered ctx graph scope o : allowed ctx graph scope o -> registered o.
Proof.
  destruct 1 as [| |? ? ? ? [-> | ->]| | | | | | | | | |]; try exact I;
    apply (bool_decide_unpack _); vm_compute; exact I.
Qed.

Lemma named_run_node ctx graph exec_ctx node_id s : well_named (run_node ctx graph exec_ctx node_id s).
Proof.
  intros tr o [H _]%(within_run_reachable _ _ _ (fun _ => True)); [|done].
  eapply Forall_impl; [exact H|]. intros e. apply allowed_registered.
Qed.

Hint Resolve named_ret named_stop named_op named_run_node update_instance_registered update_node_registered
    load_graph_registered probe_graph_registered : core.

Ltac named :=
  repeat first
    [ progress intros | solve [auto] | exact I
     | simple apply named_bind
     | match goal with |- well_named (op ?c) => apply (named_op c) end
     | match goal with |- well_named (match ?r with _ => _ end) => destruct r end
     | match goal with |- well_named (if ?b then _ else _) => destruct b end
     | progress unfold bind_result ].

Lemma named_finalize_go fuel status_input attempt : well_named (finalize_go fuel status_input attempt).
Proof. revert attempt. induction fuel as [|fuel IH]; intros attempt; cbn [finalize_go]; named. Qed.
Lemma named_finalize instance_id status : well_named (finalize_instance_status instance_id status).
Proof. apply named_finalize_go. Qed.

Lemma named_after_poll again input delay wait retry polls :
  (forall polls, well_named (again polls)) -> well_named (after_poll again input delay wait retry polls).
Proof. intros H. unfold after_poll. named. Qed.

Lemma named_poll fuel input xid probe_input w r polls :
  well_named (poll_graph fuel input xid probe_input w r polls).
Proof.
  revert w r polls. induction fuel as [|fuel IH]; intros w r polls; cbn [poll_graph]; [auto|].
  pose proof named_after_poll. named.
Qed.

Lemma named_execute ctx input_json : well_named (Orchestration.execute ctx input_json).
Proof.
  pose proof named_finalize. pose proof named_poll.
  unfold Orchestration.execute, execute_graph_json, execute_graph, load_initial_graph. named.
Qed.

Lemma named_execute_subtree ctx input_json : well_named (execute_subtree ctx input_json).
Proof. unfold execute_subtree. named. Qed.

(** C11: No orchestration asks the engine for something it does not know: whatever its
    input, and whatever the engine answers, every activity that a registered
    orchestration schedules is registered, and so is every orchestration that it starts or
    calls. *)
Theorem scheduled_work_registered name body ctx input tr o :
  (name, body) ∈ orchestration_registry -> runs (body ctx input) tr o ->
  Forall (fun e => registered (Durable.ev_op e)) tr.
Proof.
  intros H. assert (Hb : forall ctx input, well_named (body ctx input)); [|by apply Hb].
  repeat apply elem_of_cons in H as [[= -> ->]|H]; [apply named_execute|apply named_execute_subtree|].
  by apply elem_of_nil in H.
Qed.

(** So is what [df.start] enqueues. *)
Lemma start_registered env t fut label database st :
  start_in_caller_transaction env t fut label database = Ok st -> st_orchestration st ∈ orchestration_names.
Proof.
  intros (d & root_id & nodes & H)%start_ok. destruct (sb_enqueued _ _ _ _ _ _ _ _ _ H) as [-> _].
  apply (bool_decide_unpack _). vm_compute. exact I.
Qed.
End Names.

(** ** The events of an activity *)

Definition on_database (e : @event dop reply) : @event rop answer :=
  match e with Ev o r => Ev (Database o : rop) r end.

Lemma over_database_does {A} (p : db A) s tr a s' :
  does (over_database p) s tr a s' -> exists tr0, tr = on_database <$> tr0 /\ does p s tr0 a s'.
Proof.
  revert s tr. induction p as [a0|k IH|s1 p IH|o k IH]; intros s tr; cbn [over_database does].
  - intros (-> & -> & ->). by exists [].
  - apply IH.
  - apply IH.
  - intros (r & tr' & -> & (tr0 & -> & H)%IH). exists (Ev o r :: tr0). split; [done|]. by exists r, tr0.
Qed.

#[export] Instance held_eq_dec : EqDecision held.
Proof. solve_decision. Defined.

(** The database's protocol; a body runs while its route is held and nothing else. *)
Definition next_work (h : held) (e : @event rop answer) : option held :=
  match e with
  | Ev o r =>
      match o as o return answer o -> option held with
      | Database o => fun r => next_held h (Ev o r)
      | Perform _ _ _ route => fun _ => if decide (h = of_route route) then Some h else None
      end r
  end.

Lemma follows_over_database {A} (p : db A) s h Q :
  follows next_held p s h Q -> follows next_work (over_database p) s h Q.
Proof.
  revert s h. induction p as [a0|k IH|s1 p IH|o k IH]; intros s h; cbn [over_database follows]; auto.
  intros H r. destruct (H r) as (h' & E & Hf). exists h'. split; [exact E|]. by apply IH.
Qed.

Section Activities.
Context (protocol_text : string -> string) (settings : sql_settings).
Context {SJ : SerdeJson} {U : UuidCrate}.

Abbreviation registry := (activity_registry protocol_text settings).

Lemma follows_body name instance_id input r :
  route_ok r ->
  follows next_work (let* result_ := call (Perform name instance_id input r : rop) in
    let* _ := over_database (close r) in Pure result_) tt (of_route r)
    (fun _ _ h => h = nothing_held).
Proof.
  intros _. apply follows_bind. intros v. exists (of_route r). split; [cbn; by rewrite decide_True|].
  cbn [follows]. apply follows_bind, follows_over_database. eapply follows_mono; [apply holds_close|]. by intros [] [] h ->.
Qed.

(** What a registered activity takes for its route it gives back, whatever fails: the
    route's pool before its slot, each transaction on the connection it was opened on;
    and the body of an activity runs while its route is held, with no transaction of the
    routing still open.  For SQL the body is part of the trace; the bodies of the others
    are one [Perform] each here, and what they take themselves is not covered. *)
Theorem activities_release name handler instance_id input tr v :
  (name, handler) ∈ registry -> does (handler instance_id input) tt tr v tt ->
  run_protocol next_work nothing_held tr = Some nothing_held.
Proof.
  intros Hin Hdoes.
  eapply (follows_sound next_work _ _ _ (fun _ _ h => h = nothing_held)) in Hdoes as (h & Hrun & ->); [done|].
  assert (Hrouted : forall name, follows next_work (routed_handler protocol_text name instance_id input) tt
    nothing_held (fun _ _ h => h = nothing_held)).
  { intros n. apply follows_try, follows_over_database. eapply follows_mono; [apply holds_route|].
    intros [r|e] [] h; [|done]. intros [Hr ->]. by apply follows_body. }
  repeat apply elem_of_cons in Hin as [[= -> ->]|Hin]; [|apply Hrouted| |apply Hrouted..|by apply elem_of_nil in Hin].
  - apply follows_over_database, holds_execute_sql.
  - apply follows_bind, follows_over_database. eapply follows_mono; [apply holds_route_typed|].
    intros [r|e] [] h; [|done]. intros [Hr ->]. by apply follows_body.
Qed.

(** The failure of a route, as the answer of an activity: a probe asks to be tried
    again when the error may pass, every other failure is the activity's. *)
Definition route_failure (name : string) (e : RoutingError) : result string string :=
  match e with
  | RoutingRetryable m => if String.eqb name PROBE_GRAPH then Ok (to_json Retry) else Err m
  | RoutingPermanent m => Err m
  end.

Lemma map_err_does {A E F} (f : E -> F) (p : db (result A E)) s tr r s' :
  does p s tr r s' -> does (db_map_err f p) s tr (map_err f r) s'.
Proof. intros H. apply does_bind. exists tr, [], r, s'. rewrite app_nil_r. by split_and!. Qed.

Lemma route_typed_does instance_id s tr r s' :
  does (route_typed protocol_text instance_id) s tr (Ok r) s' -> routed instance_id r tr.
Proof. intros H%(map_err_does routing_text). by apply route_does in H as [_ H]. Qed.

Lemma body_does name instance_id input r s tr v s' :
  does (let* result_ := call (Perform name instance_id input r : rop) in
    let* _ := over_database (close r) in Pure result_) s tr v s' ->
  exists closing, tr = Ev (Perform name instance_id input r : rop) v :: (on_database <$> closing) /\
  does (close r) s closing tt s'.
Proof.
  intros (tr1 & tr2 & answered & s1 & -> & (? & ? & -> & -> & <- & ->) & H)%does_bind.
  apply does_bind in H as (tr3 & tr4 & [] & s2 & -> & H & (-> & -> & ->)).
  apply over_database_does in H as (closing & -> & H). exists closing. by rewrite app_nil_r.
Qed.

Definition routed_run (name instance_id input : string) (tr : list (@event rop answer))
    (v : result string string) : Prop :=
  (exists opening r closing,
   tr = (on_database <$> opening) ++ Ev (Perform name instance_id input r : rop) v :: (on_database <$> closing) /\
   routed instance_id r opening /\ does (close r) tt closing tt tt) \/
  (exists opening e, tr = on_database <$> opening /\
   does (route_typed protocol_text instance_id) tt opening (Err e) tt /\ v = route_failure name e).

Lemma run_routed name instance_id input opening r tr v :
  does (route_typed protocol_text instance_id) tt opening (Ok r) tt ->
  does (let* result_ := call (Perform name instance_id input r : rop) in
    let* _ := over_database (close r) in Pure result_) tt tr v tt ->
  routed_run name instance_id input ((on_database <$> opening) ++ tr) v.
Proof.
  intros Hr (closing & -> & Hc)%body_does. left. exists opening, r, closing.
  split; [done|]. split; [by eapply route_typed_does|done].
Qed.

Lemma run_unrouted name instance_id input opening e v :
  does (route_typed protocol_text instance_id) tt opening (Err e) tt -> v = route_failure name e ->
  routed_run name instance_id input ((on_database <$> opening) ++ []) v.
Proof. intros Hr ->. right. exists opening, e. by rewrite app_nil_r. Qed.

Lemma routed_handler_does name instance_id input tr v :
  String.eqb name PROBE_GRAPH = false ->
  does (routed_handler protocol_text name instance_id input) tt tr v tt -> routed_run name instance_id input tr v.
Proof.
  intros Hn (tr1 & tr2 & r & [] & -> & (opening & -> & (r0 & Hr & ->)%db_map_err_does)%over_database_does & H)%does_try.
  destruct r0 as [r|e]; [by eapply run_routed|]. destruct H as (-> & -> & _).
  eapply run_unrouted; [done|]. unfold route_failure. rewrite Hn. by destruct e.
Qed.

Lemma probe_handler_does instance_id input tr v :
  does (probe_handler protocol_text instance_id input) tt tr v tt -> routed_run PROBE_GRAPH instance_id input tr v.
Proof.
  intros (tr1 & tr2 & [r|e] & [] & -> & (opening & -> & Hr)%over_database_does & H)%does_bind; [by eapply run_routed|].
  destruct H as (-> & -> & _). eapply run_unrouted; [done|]. by destruct e.
Qed.

(** C10: An activity other than that of SQL runs its body exactly once, with its own
    input, over the route of the instance: on the control database for an id without
    an origin; else on a connection to the origin's database, opened for this activity
    after the origin was registered and a slot taken, where the installation that the
    id names was found in attested tables.  Then the route is closed, and the answer is
    that of the body.  Without a route nothing runs, and the activity fails with
    the error, except that a probe is tried again when the error may pass. *)
Theorem activities_routed name handler instance_id input tr v :
  (name, handler) ∈ registry -> name <> EXECUTE_SQL -> does (handler instance_id input) tt tr v tt ->
  routed_run name instance_id input tr v.
Proof.
  intros Hin Hname. repeat apply elem_of_cons in Hin as [[= -> ->]|Hin];
    [done|by apply routed_handler_does|apply probe_handler_does|by apply routed_handler_does..|].
  by apply elem_of_nil in Hin.
Qed.
End Activities.

(** ** Sample runs *)

#[local] Existing Instance sample_cron.
#[local] Existing Instance text_json.
#[local] Existing Instance sample_escape.
#[local] Existing Instance sample_http.
#[local] Existing Instance sample_uuid.

Lemma scheduled_work_registered_witness :
  length (fst root_run) = 8 /\ Forall (fun e => registered (Durable.ev_op e)) (fst root_run).
Proof.
  split; [vm_compute; reflexivity|].
  apply (scheduled_work_registered ORCHESTRATION_NAME Orchestration.execute sample_ctx (to_json root_input)
    (fst root_run) (snd root_run)); [left|apply exec_runs].
Defined.

Definition sample_world (hist : list (@event rop answer)) (o : rop) : answer o :=
  match o as o return answer o with
  | Database o => SampleOrigin.world [] o
  | Perform _ _ _ _ => Ok "done"
  end.

(** The status of an instance of another database. *)
Definition sample_update : work (result string string) :=
  routed_handler (fun s => s) UPDATE_INSTANCE (engine_id sample_origin "ab12cd34") "{}".

Lemma sample_update_does : exists tr, length tr = 16 /\ does sample_update tt tr (Ok "done") tt.
Proof.
  destruct (eval_does sample_world [] sample_update tt) as (tr & E & H). exists tr.
  assert (Hv : fst (fst (eval sample_world [] sample_update tt)) = Ok "done") by (vm_compute; reflexivity).
  rewrite Hv in H. destruct (snd (fst _)). split; [|done].
  apply (f_equal (fun x => length (snd x))) in E. etransitivity; [symmetry; exact E|]. vm_compute. reflexivity.
Qed.

Lemma sample_update_registered :
  (UPDATE_INSTANCE, routed_handler (fun s => s) UPDATE_INSTANCE) ∈
  activity_registry (fun s => s) (mkSqlSettings 10 30 "postgres").
Proof. do 3 right. left. Qed.

Lemma activities_release_witness :
  exists tr, length tr = 16 /\ run_protocol next_work nothing_held tr = Some nothing_held.
Proof.
  destruct sample_update_does as (tr & Hlen & H). exists tr. split; [done|].
  exact (activities_release _ _ _ _ _ _ _ _ sample_update_registered H).
Defined.

Lemma activities_routed_witness :
  exists tr, length tr = 16 /\
    routed_run (fun s => s) UPDATE_INSTANCE (engine_id sample_origin "ab12cd34") "{}" tr (Ok "done").
Proof.
  destruct sample_update_does as (tr & Hlen & H). exists tr. split; [done|].
  apply (activities_routed _ (mkSqlSettings 10 30 "postgres") _ _ _ _ _ _ sample_update_registered); [discriminate|exact H].
Defined.
